(* ===== verification/_CoqProject ===== *)
-Q . S2P
Prelude.v
PyStr.v
Json.v
Sql.v
QueueJob.v
QueueIface.v
QueuePg.v
QueuePgProps.v
QueuePgClaims.v
QueuePgReserve.v
QueuePgOps.v
QueueWorker.v
QueueWorkerProps.v
Redis.v
QueueRedis.v
QueueRedisProps.v
MigDiscovery.v
MigDiscoveryProps.v
MigStates.v
MigTracker.v
MigCommands.v
MigCommandsProps.v
MigService.v
MigServiceProps.v
QueueCommands.v
QueueCommandsProps.v
Throttle.v
WbcmUsers.v
WbcmDevices.v
Wbcm.v
WbcmProps.v
IpAddress.v
ClientIp.v
ApiKeys.v
ApiKeyCommands.v
Auth.v
Redact.v
RedactProps.v
RequestLog.v
Handlers.v
HandlersProps.v
Bridge.v
BridgeProps.v
BridgeSocket.v
BridgeSocketProps.v
BridgeSocketClaims.v
Base64.v
CryptoEnvelope.v
CryptoFields.v
CryptoFieldsProps.v
CryptoCommands.v
CryptoCommandsProps.v
CryptoPasswords.v
CryptoService.v
AuditDiff.v
AuditTrail.v
AuditProps.v
AuditClaims.v
AuditCommands.v
AuditCommandsProps.v
Telemetry.v
Shlex.v
Cron.v
CronExecutor.v
CronService.v
CronClaims.v
Actions.v
ActionsProps.v
Decorators.v
DecoratorsProps.v
Config.v
ConfigProps.v
Services.v
Timer.v
Tick.v
