(* ===== verification/Prelude.v ===== *)
(** * py_app_runner: verification development (root)

    What the library [src/src/py_app_runner] does, as definitions a kernel can
    run, and what it promises, as theorems about them. Paths below are
    relative to that directory.

    ** How the program is modelled

    A coroutine is a [prog S A]: a function from a world (a store of type [S],
    the lines written so far, the clock) to a world and a result that is a
    value or an exception. [raise], [try_except], [try_finally] and
    [transaction] are Python's; a raise keeps the state reached, a transaction
    puts its store back. Exceptions carry their class, so an [except] clause
    catches what it does in Python, and cancellation and [SystemExit] pass an
    [except Exception]. Strings are UTF-8 bytes, and [len] and slices count
    characters; the character classes of [str] methods and of regular
    expressions are those of ASCII. Integers are unbounded, as Python's are;
    where a column or a protocol has a width it is written out. Times are
    microseconds, dates days. A dictionary is an association list in insertion
    order. The clock stands still within a handler but for the parameters that
    let it pass. Places where other tasks or transactions may run are
    parameters, steps of a relation or explicit lists of events.

    Code of other packages is a parameter with what its documentation says as
    hypotheses (AES-GCM, bcrypt, JWT, SHA-256, cronsim, the zone database, the
    Redis commands, the SQL engine of a migration, random bytes, JSON encoders
    of msgspec), each with an instance in a witness. Of cronsim only what it
    does where the wall clock runs evenly is taken for granted, not what it
    makes of an hour that is left out or repeated. A script of a migration may
    do anything to the connection it is sent over, end its transaction
    included; the theorems about [apply] say what holds of any script and what
    of one that leaves the tracking table and the transaction alone. A service
    behind a bridge is any program; where a theorem takes it to answer by what
    it returns, it says so. Parts of the standard library that the code relies on are modelled after CPython 3.12:
    [json] ([Json.loads], with the round trip of [dumps]), [ipaddress]
    ([IpAddress]), [base64] ([Base64]), [shlex] ([Shlex]), decimal comparison
    ([AuditDiff]).

    ** Parts

    - Prelude, PyStr, Json, Sql: effects and their automation ([within_tac],
      [raises_tac]: what a program may change and raise), strings, JSON, and
      tables as lists of rows.
    - Migrations: MigDiscovery ([migrations/discovery.py]), MigStates
      ([states.py]), MigTracker ([tracker.py], [tracker_sqlite.py]),
      MigCommands ([commands.py]) and MigService ([_service.py]); their Props
      files: discovery order, states, what [apply] runs and records, that it
      is idempotent, that every command leaves the session as it was, and that
      no two targets are one database.
    - Job queue: QueueJob ([queue/job.py], [handler.py]), the typeclass
      QueueIface ([interface.py]) that a driver implements and the worker is
      proved against, QueuePg ([driver_pg.py]) with QueuePgProps, -Claims (any
      number of workers and transactions interleaved: no job is held twice),
      -Reserve and -Ops, Redis and QueueRedis ([driver_redis.py] and its Lua
      scripts), QueueWorker ([worker.py]: every job settled exactly once,
      codes and termination), QueueCommands.
    - Throttle ([throttle/throttle.py]): its script, and a bound on what a
      window lets through.
    - Connection manager: WbcmUsers and WbcmDevices ([wbcm/factory.py],
      [device_connections.py]) refine a map from connections to owners; Wbcm
      ([wb_connection_manager.py]) reads the stream and delivers.
    - Requests: IpAddress and ClientIp ([request_handler/client_ip.py]),
      ApiKeys and ApiKeyCommands ([api_keys/]), Auth ([auth_service.py]),
      Handlers ([handlers.py]), Actions and Decorators ([decorators.py],
      [pagination.py]), RequestLog, and the bridges: Bridge ([bridge/api.py])
      and BridgeSocket ([bridge/websocket.py]), where a service is only
      reached by who may, a revoked key is cut off, and every request and
      message gets its answer but in the cases that are named. Whether a
      project's model of a key declares abilities is a setting
      ([ac_scoped]).
    - Crypto: CryptoEnvelope, CryptoFields, CryptoCommands (key rotation under
      concurrent writers), CryptoPasswords, CryptoService ([crypto/]).
    - Audit: AuditDiff, AuditTrail, AuditCommands ([audit/]) with what is
      recorded, withheld and pruned, while other transactions commit.
    - Cron: Cron ([cron/schedule.py], [commands.py]), CronExecutor
      ([execute.py]) as a step relation of schedulers, children and locks,
      CronService.
    - Redact ([utils.py]), Telemetry ([logger_handlers.py]), Config
      ([config.py]), Services ([pybridge.py], the start of the bridge), Timer
      and Tick ([timer.py], [tick_service.py]).

    A component's definitions are in the file of its name; its theorems are
    there or in the files named after it with Props or Claims. Definitions
    have the names of the code, one for each function, with the helper a
    nested block becomes beside it. A theorem that is a claim about the program
    says so in its comment by its number; its [_witness] applies it to a
    concrete input.

    ** Bounds

    Loops that Python runs until something happens take a number of rounds
    and answer [None] when it did not do. The worker's and the prune's and the
    rotation's theorems say how many are enough and that they end; the
    reservation of a job has its bound in the source ([CLAIM_ROUNDS]); readers
    of JSON, addresses and escapes take the length of their input, and the
    round-trip lemmas show that to be enough. The endless loops (the cron
    worker, the tick service, the stream reader) are stated turn by turn.

    ** Not modelled

    Sockets, forks, threads, signal handlers, command-line parsers, the set-up
    of logging and of error reporting, the tables of measured times, template
    rendering, the encoders of values that JSON has no form for, number
    parsing and rounding helpers, operating-system locks but for what a cron
    lock promises, and the models of users and keys beyond the columns that
    are read: input and output, or code of the libraries they only call.
    Upper and lower case of other alphabets than ASCII are not modelled where
    the code compares such text. *)

From Stdlib Require Import ZArith Lia Relations.
From stdpp Require Export base gmap list sorting strings.

#[global] Open Scope Z_scope.

(** ** Exceptions

    One constructor per exception class the modelled code raises or tells
    apart in an [except] clause. [exn_code] carries the integer argument of
    the classes that have one ([SystemExit], [HTTPException]); the HTTP status
    and the description are those of an [HTTPException]. *)
Inductive exn_class :=
  | ValueError | TypeError | KeyError | AttributeError | IndexError
  | RuntimeError | OverflowError | AssertionError | ImportError | OSError
  | TimeoutError | UnicodeError
  | PsycopgError | UniqueViolation | RedisError
  | QueueError | MigrationError | CryptoError | AuditError | CronError
  | UsageError | HTTPException | OtherException
  (* the classes that derive from BaseException but not from Exception *)
  | CancelledError | KeyboardInterrupt | SystemExit.

#[export] Instance exn_class_eq_dec : EqDecision exn_class.
Proof. solve_decision. Defined.

Record exn := Exn {
  exn_cls : exn_class; exn_msg : string; exn_code : Z; exn_status : Z; exn_description : option string
}.

Definition raise_exn (c : exn_class) (msg : string) : exn := Exn c msg 0 0 None.
Definition system_exit (code : Z) : exn := Exn SystemExit "" code 0 None.

(** [except Exception]: everything but the [BaseException]-only classes. *)
Definition is_exception (e : exn) : bool :=
  match exn_cls e with
  | CancelledError | KeyboardInterrupt | SystemExit => false
  | _ => true
  end.

(** [except psycopg.Error] *)
Definition is_psycopg_error (e : exn) : bool :=
  match exn_cls e with PsycopgError | UniqueViolation => true | _ => false end.

Definition is_class (c : exn_class) (e : exn) : bool := bool_decide (exn_cls e = c).

(** ** Results *)
Inductive res (A : Type) :=
  | Ok (a : A)
  | Err (e : exn).
Arguments Ok {A} a.
Arguments Err {A} e.

#[export] Instance res_ret : MRet res := λ A a, Ok a.
#[export] Instance res_bind : MBind res := λ A B f m,
  match m with Ok a => f a | Err e => Err e end.

Definition is_ok {A} (r : res A) : bool := match r with Ok _ => true | Err _ => false end.

(** ** Effects

    A coroutine that touches a store of type [S] is a state-passing function
    that either returns or raises. A raise keeps the state reached so far, as
    in Python; a database transaction restores it explicitly. [w_log] holds
    the lines given to [out] and to the loggers, oldest first, and [w_clock]
    is what [now_utc()] or [time.time()] answers. *)
Record world (S : Type) := World { w_st : S; w_log : list string; w_clock : Z }.
Arguments World {S} _ _ _.
Arguments w_st {S} _.
Arguments w_log {S} _.
Arguments w_clock {S} _.

Definition prog (S A : Type) : Type := world S → world S * res A.

#[export] Instance prog_ret {S} : MRet (prog S) := λ A a w, (w, Ok a).
#[export] Instance prog_bind {S} : MBind (prog S) := λ A B f m w,
  match m w with
  | (w', Ok a) => f a w'
  | (w', Err e) => (w', Err e)
  end.

Section effects.
Context {S : Type}.

Definition raise {A} (e : exn) : prog S A := λ w, (w, Err e).
Definition out (line : string) : prog S unit := λ w,
  (World (w_st w) (w_log w ++ [line]) (w_clock w), Ok ()).
Definition now_utc : prog S Z := λ w, (w, Ok (w_clock w)).
Definition get_st : prog S S := λ w, (w, Ok (w_st w)).
Definition set_st (s : S) : prog S unit := λ w, (World s (w_log w) (w_clock w), Ok ()).
Definition lift_res {A} (r : res A) : prog S A := λ w, (w, r).

(** One statement executed against the store: [f] is the statement's
    effect and result. *)
Definition stmt {A} (f : S → S * A) : prog S A := λ w,
  let '(s', a) := f (w_st w) in (World s' (w_log w) (w_clock w), Ok a).

(** [try: m except E as e: h e], where [sel] says which exceptions the
    [except] clause catches. *)
Definition try_except {A} (m : prog S A) (sel : exn → bool) (h : exn → prog S A) : prog S A := λ w,
  match m w with
  | (w', Err e) => if sel e then h e w' else (w', Err e)
  | r => r
  end.

(** [try: m finally: f]. An exception of [f] replaces the outcome of [m]. *)
Definition try_finally {A} (m : prog S A) (f : prog S unit) : prog S A := λ w,
  let '(w', r) := m w in
  match f w' with
  | (w'', Ok _) => (w'', r)
  | (w'', Err e) => (w'', Err e)
  end.

(** [async with conn.transaction(): m]. An exception rolls the store back
    to what it was on entry and propagates; lines already written stay. *)
Definition transaction {A} (m : prog S A) : prog S A := λ w,
  match m w with
  | (w', Err e) => (World (w_st w) (w_log w') (w_clock w'), Err e)
  | r => r
  end.
End effects.

(** A program on a part of a store, run on the whole. *)
Definition zoom {S T A} (get : S → T) (put : T → S → S) (m : prog T A) : prog S A := λ w,
  let '(w', r) := m (World (get (w_st w)) (w_log w) (w_clock w)) in
  (World (put (w_st w') (w_st w)) (w_log w') (w_clock w'), r).

Lemma bind_ok {S A B} (m : prog S A) (k : A → prog S B) w w' a :
  m w = (w', Ok a) → (m ≫= k) w = k a w'.
Proof. intros Hm. unfold mbind, prog_bind. by rewrite Hm. Qed.

Lemma bind_err {S A B} (m : prog S A) (k : A → prog S B) w w' e :
  m w = (w', Err e) → (m ≫= k) w = (w', Err e).
Proof. intros Hm. unfold mbind, prog_bind. by rewrite Hm. Qed.

Lemma bind_ext {S A B} (m : prog S A) (k1 k2 : A → prog S B) w : (∀ a w', k1 a w' = k2 a w') → (m ≫= k1) w = (m ≫= k2) w.
Proof. intros H. unfold mbind, prog_bind. by destruct (m w) as [w1 [a|e]]. Qed.

Lemma bind_start {S A B} (m1 m2 : prog S A) (k : A → prog S B) w : m1 w = m2 w → (m1 ≫= k) w = (m2 ≫= k) w.
Proof. intros H. unfold mbind, prog_bind. by rewrite H. Qed.

Lemma bind_inv {S A B} (m : prog S A) (k : A → prog S B) w w' b :
  (m ≫= k) w = (w', Ok b) → ∃ w1 a, m w = (w1, Ok a) ∧ k a w1 = (w', Ok b).
Proof. unfold mbind, prog_bind. destruct (m w) as [w1 [a|e]]; [by eauto|done]. Qed.

(** Where two runs part. *)
Lemma bind_differ {S A B} (m : prog S A) (k1 k2 : A → prog S B) w :
  (m ≫= k1) w ≠ (m ≫= k2) w → ∃ w1 a, m w = (w1, Ok a) ∧ k1 a w1 ≠ k2 a w1.
Proof. unfold mbind, prog_bind. destruct (m w) as [w1 [a|e]]; [by eauto|done]. Qed.

Lemma left_differ {S A B} (m1 m2 : prog S A) (k : A → prog S B) w : (m1 ≫= k) w ≠ (m2 ≫= k) w → m1 w ≠ m2 w.
Proof. unfold mbind, prog_bind. intros H Hm. by rewrite Hm in H. Qed.

(** [for x in l: body x], each iteration for its effect. *)
Fixpoint for_each {S A} (l : list A) (body : A → prog S unit) : prog S unit :=
  match l with
  | [] => mret ()
  | x :: l' => body x ;; for_each l' body
  end.

(** ** Automation *)

(** Case analysis on the matches of the goal and of the hypotheses. *)
Ltac case_all :=
  repeat (case_match; simplify_eq/=; try done).

(** Case analysis on the decisions of the goal. *)
Ltac decs := repeat (case_decide; try congruence; try done).

(** Unfolds the effect combinators of a [prog] applied to a state. *)
Ltac run_prog :=
  unfold mbind, mret, prog_bind, prog_ret, res_bind, res_ret, raise, out, now_utc,
    get_st, set_st, lift_res, stmt, try_except, try_finally, transaction in *; simpl in *.

Tactic Notation "inv" hyp(H) := inversion H; clear H; simplify_eq/=.

(** Arithmetic and list goals left by [case_all]. *)
Ltac crush := simplify_eq/=; try done; try lia; try naive_solver.

Create HintDb pyr.
Create Rewrite HintDb pyr_rw.
#[export] Hint Constructors NoDup Forall : pyr.

(** ** Lists *)

Section lists.
Context {A : Type}.

Lemma fmap_update_ids {B} (f : A → B) (g : A → A) (P : A → Prop) `{∀ x, Decision (P x)} (l : list A) :
  (∀ x, f (g x) = f x) → f <$> ((λ x, if decide (P x) then g x else x) <$> l) = f <$> l.
Proof.
  intros Hfg. rewrite <- list_fmap_compose. apply list_fmap_ext.
  intros i x _. simpl. by case_decide.
Qed.

Lemma NoDup_fmap_filter {B} (f : A → B) (P : A → Prop) `{∀ x, Decision (P x)} (l : list A) :
  NoDup (f <$> l) → NoDup (f <$> filter P l).
Proof.
  induction l as [|x l IH]; intros Hnd; [done|].
  rewrite fmap_cons in Hnd. apply NoDup_cons in Hnd as [Hni Hnd].
  rewrite filter_cons. case_decide; simpl; [|by apply IH].
  constructor; [|by apply IH].
  rewrite list_elem_of_fmap. intros (y & Hy & [_ Hin]%list_elem_of_filter).
  apply Hni. rewrite Hy. by apply list_elem_of_fmap_2.
Qed.

Lemma NoDup_fmap_inj_in {B} (f : A → B) (l : list A) x y :
  NoDup (f <$> l) → x ∈ l → y ∈ l → f x = f y → x = y.
Proof.
  intros Hnd Hx Hy Hf.
  apply list_elem_of_lookup in Hx as [i Hi]. apply list_elem_of_lookup in Hy as [j Hj].
  assert (i = j) as ->.
  { eapply NoDup_lookup; [exact Hnd|..]; rewrite list_lookup_fmap.
    - by rewrite Hi.
    - by rewrite Hj, Hf. }
  congruence.
Qed.

Lemma length_filter_le (P : A → Prop) `{∀ x, Decision (P x)} (l : list A) :
  (length (filter P l) ≤ length l)%nat.
Proof. induction l as [|x l IH]; [done|]. rewrite filter_cons. case_decide; simpl; lia. Qed.

Lemma length_filter_complement (P : A → Prop) `{∀ x, Decision (P x)} (l : list A) :
  (length (filter P l) + length (filter (λ x, ¬ P x) l) = length l)%nat.
Proof.
  induction l as [|x l IH]; [done|].
  rewrite !filter_cons. repeat case_decide; simpl; try done; lia.
Qed.

Lemma filter_ext_in (P Q : A → Prop) `{∀ x, Decision (P x)} `{∀ x, Decision (Q x)} (l : list A) :
  (∀ x, x ∈ l → P x ↔ Q x) → filter P l = filter Q l.
Proof.
  induction l as [|x l IH]; intros Hl; [done|]. rewrite !filter_cons.
  rewrite IH by (intros; apply Hl; by right). specialize (Hl x ltac:(left)).
  repeat case_decide; tauto || done.
Qed.

Lemma Forall_filter (Q P : A → Prop) `{∀ x, Decision (P x)} (l : list A) :
  Forall Q l → Forall Q (filter P l).
Proof. rewrite !Forall_forall. intros HQ x [_ Hx]%list_elem_of_filter. auto. Qed.

(** A filter keyed by an injective projection keeps at most one element. *)
Lemma filter_none (P : A → Prop) `{∀ x, Decision (P x)} (l : list A) :
  (∀ x, x ∈ l → ¬ P x) → filter P l = [].
Proof.
  induction l as [|x l IH]; intros Hl; [done|].
  rewrite filter_cons, decide_False by (apply Hl; left). apply IH. intros y Hy. apply Hl. by right.
Qed.

Lemma filter_all (P : A → Prop) `{∀ x, Decision (P x)} (l : list A) :
  (∀ x, x ∈ l → P x) → filter P l = l.
Proof.
  induction l as [|x l IH]; intros Hl; [done|].
  rewrite filter_cons, decide_True by (apply Hl; left). f_equal. apply IH. intros y Hy. apply Hl. by right.
Qed.

Lemma filter_key_unique {B} `{EqDecision B} (f : A → B) (k : B) (l : list A) x :
  NoDup (f <$> l) → x ∈ l → f x = k → filter (λ y, f y = k) l = [x].
Proof.
  induction l as [|y l IH]; intros Hnd Hx Hk; [by apply not_elem_of_nil in Hx|].
  rewrite fmap_cons in Hnd. apply NoDup_cons in Hnd as [Hni Hnd].
  rewrite filter_cons. apply elem_of_cons in Hx as [->|Hx].
  - rewrite decide_True by done. f_equal. apply filter_none. intros z Hz Hfz.
    apply Hni. rewrite Hk, <- Hfz. by apply list_elem_of_fmap_2.
  - rewrite decide_False; [by apply IH|]. intros Hy.
    apply Hni. rewrite Hy, <- Hk. by apply list_elem_of_fmap_2.
Qed.

(** Taking out the element with a given key. *)
Lemma key_Permutation {B} `{EqDecision B} (f : A → B) (l : list A) x :
  NoDup (f <$> l) → x ∈ l → l ≡ₚ x :: filter (λ y, f y ≠ f x) l.
Proof.
  induction l as [|y l IH]; intros Hnd Hx; [by apply not_elem_of_nil in Hx|].
  rewrite fmap_cons in Hnd. apply NoDup_cons in Hnd as [Hni Hnd]. rewrite filter_cons.
  apply elem_of_cons in Hx as [->|Hx].
  - rewrite decide_False by naive_solver. constructor.
    rewrite filter_all; [done|]. intros z Hz Heq. apply Hni. rewrite <- Heq. by apply list_elem_of_fmap_2.
  - rewrite decide_True; [rewrite (IH Hnd Hx) at 1; constructor|].
    intros Heq. apply Hni. rewrite Heq. by apply list_elem_of_fmap_2.
Qed.
End lists.

(** ** Transition sequences *)

Section sequences.
Context {A : Type} (step : A → A → Prop).

(** An invariant of every step holds in every reachable state. *)
Lemma rtc_invariant (I : A → Prop) x y :
  (∀ a b, I a → step a b → I b) → I x → rtc step x y → I y.
Proof. intros Hstep Hx Hr. induction Hr; eauto. Qed.
End sequences.

(** ** What a program does to its store

    [within R m]: whatever [m] answers, the store it leaves is [R]-related to
    the store it found. For a preorder [R] this is checked piece by piece. *)
Definition within {S A} (R : S → S → Prop) (m : prog S A) : Prop :=
  ∀ w, R (w_st w) (w_st (m w).1).

Section within.
Context {S : Type} (R : S → S → Prop) `{!PreOrder R}.

Lemma within_ret {A} (a : A) : within R (mret a : prog S A).
Proof. intros w. reflexivity. Qed.

Lemma within_raise {A} e : within R (raise e : prog S A).
Proof. intros w. reflexivity. Qed.

Lemma within_out line : within R (out line).
Proof. intros w. reflexivity. Qed.

Lemma within_now : within R now_utc.
Proof. intros w. reflexivity. Qed.

Lemma within_get : within R get_st.
Proof. intros w. reflexivity. Qed.

Lemma within_lift {A} (r : res A) : within R (lift_res r).
Proof. intros w. reflexivity. Qed.

Lemma within_stmt {A} (f : S → S * A) : (∀ s, R s (f s).1) → within R (stmt f).
Proof. intros Hf w. unfold stmt. specialize (Hf (w_st w)). by destruct (f (w_st w)). Qed.

Lemma within_bind {A B} (m : prog S A) (k : A → prog S B) :
  within R m → (∀ a, within R (k a)) → within R (m ≫= k).
Proof.
  intros Hm Hk w. unfold mbind, prog_bind. specialize (Hm w).
  destruct (m w) as [w' [a|e]]; simpl in *; [|done]. etrans; [exact Hm|apply Hk].
Qed.

Lemma within_try {A} (m : prog S A) sel h :
  within R m → (∀ e, within R (h e)) → within R (try_except m sel h).
Proof.
  intros Hm Hh w. unfold try_except. specialize (Hm w).
  destruct (m w) as [w' [a|e]]; simpl in *; [done|]. destruct (sel e); [|done].
  etrans; [exact Hm|apply Hh].
Qed.

Lemma within_finally {A} (m : prog S A) f :
  within R m → within R f → within R (try_finally m f).
Proof.
  intros Hm Hf w. unfold try_finally. specialize (Hm w). destruct (m w) as [w' r]. simpl in *.
  specialize (Hf w'). destruct (f w') as [w'' [|]]; simpl in *; by etrans.
Qed.

Lemma within_transaction {A} (m : prog S A) : within R m → within R (transaction m).
Proof.
  intros Hm w. unfold transaction. specialize (Hm w).
  destruct (m w) as [w' [a|e]]; simpl in *; [done|reflexivity].
Qed.

Lemma within_for_each {A} (l : list A) body :
  (∀ x, x ∈ l → within R (body x)) → within R (for_each l body).
Proof.
  induction l as [|x l IH]; intros Hb; simpl; [apply within_ret|].
  apply within_bind; [apply Hb; left|]. intros _. apply IH. intros y Hy. apply Hb. by right.
Qed.
End within.

(** Splits a [within] goal along the program's structure. *)
Ltac within_step :=
  match goal with
  | |- within _ (_ ≫= _) => apply within_bind; [..|intros ?]
  | |- within _ (mret _) => apply within_ret
  | |- within _ (raise _) => apply within_raise
  | |- within _ (out _) => apply within_out
  | |- within _ now_utc => apply within_now
  | |- within _ get_st => apply within_get
  | |- within _ (lift_res _) => apply within_lift
  | |- within _ (stmt _) => apply within_stmt; intros ?; simpl
  | |- within _ (try_except _ _ _) => apply within_try; [..|intros ?]
  | |- within _ (try_finally _ _) => apply within_finally
  | |- within _ (transaction _) => apply within_transaction
  | |- within _ (for_each _ _) => apply within_for_each; [..|intros ? ?]
  | |- within _ (match ?x with _ => _ end) => destruct x eqn:?
  | |- within _ (let _ := _ in _) => cbv zeta
  end.
Ltac within_tac := repeat (within_step; try (typeclasses eauto)); auto with pyr.

(** ** What a program can raise

    [only_raises P m]: every exception of [m] satisfies [P]. *)
Definition only_raises {S A} (P : exn → Prop) (m : prog S A) : Prop :=
  ∀ w w' e, m w = (w', Err e) → P e.

Section only_raises.
Context {S : Type} (P : exn → Prop).

Lemma raises_ret {A} (a : A) : only_raises P (mret a : prog S A).
Proof. by intros w w' e [=]. Qed.

Lemma raises_raise {A} e : P e → only_raises P (raise e : prog S A).
Proof. by intros Hp w w' e' [= _ <-]. Qed.

Lemma raises_out line : only_raises P (out line : prog S ()).
Proof. by intros w w' e [=]. Qed.

Lemma raises_now : only_raises P (now_utc : prog S Z).
Proof. by intros w w' e [=]. Qed.

Lemma raises_get : only_raises P (get_st : prog S S).
Proof. by intros w w' e [=]. Qed.

Lemma raises_set s : only_raises P (set_st s : prog S ()).
Proof. by intros w w' e [=]. Qed.

Lemma raises_lift {A} (r : res A) : (∀ e, r = Err e → P e) → only_raises P (lift_res r : prog S A).
Proof. intros Hr w w' e [= _ Hre]. by apply Hr. Qed.

Lemma raises_stmt {A} (f : S → S * A) : only_raises P (stmt f).
Proof. intros w w' e. unfold stmt. by destruct (f (w_st w)). Qed.

Lemma raises_bind {A B} (m : prog S A) (k : A → prog S B) :
  only_raises P m → (∀ a, only_raises P (k a)) → only_raises P (m ≫= k).
Proof.
  intros Hm Hk w w' e. unfold mbind, prog_bind. destruct (m w) as [w1 [a|e1]] eqn:E; [apply Hk|].
  intros [= _ <-]. by eapply Hm.
Qed.

Lemma raises_try {A} (m : prog S A) sel h :
  (∀ w w' e, m w = (w', Err e) → sel e = false → P e) → (∀ e, only_raises P (h e)) →
  only_raises P (try_except m sel h).
Proof.
  intros Hm Hh w w' e. unfold try_except. destruct (m w) as [w1 [a|e1]] eqn:E; [done|].
  destruct (sel e1) eqn:Es; [apply Hh|]. intros [= _ <-]. by eapply Hm.
Qed.

Lemma raises_finally {A} (m : prog S A) f :
  only_raises P m → only_raises P f → only_raises P (try_finally m f).
Proof.
  intros Hm Hf w w' e. unfold try_finally. destruct (m w) as [w1 r] eqn:E.
  destruct (f w1) as [w2 [|e2]] eqn:E2; intros [= _ He]; subst; [by eapply Hm|by eapply Hf].
Qed.

Lemma raises_for_each {A} (l : list A) (body : A → prog S ()) :
  (∀ x, x ∈ l → only_raises P (body x)) → only_raises P (for_each l body).
Proof.
  induction l as [|x l IH]; intros Hb; simpl; [apply raises_ret|].
  apply raises_bind; [apply Hb; left|]. intros _. apply IH. intros y Hy. apply Hb. by right.
Qed.
End only_raises.

(** Splits an [only_raises] goal along the program's structure. *)
Ltac raises_step :=
  match goal with
  | |- only_raises _ (_ ≫= _) => apply raises_bind; [|intros ?]
  | |- only_raises _ (mret _) => apply raises_ret
  | |- only_raises _ (raise _) => apply raises_raise
  | |- only_raises _ (out _) => apply raises_out
  | |- only_raises _ now_utc => apply raises_now
  | |- only_raises _ get_st => apply raises_get
  | |- only_raises _ (set_st _) => apply raises_set
  | |- only_raises _ (lift_res _) => apply raises_lift
  | |- only_raises _ (stmt _) => apply raises_stmt
  | |- only_raises _ (try_except _ _ _) => apply raises_try; [|intros ?]
  | |- only_raises _ (try_finally _ _) => apply raises_finally
  | |- only_raises _ (for_each _ _) => apply raises_for_each; intros ? ?
  | |- only_raises _ (match ?x with _ => _ end) => destruct x eqn:?
  | |- only_raises _ (let _ := _ in _) => cbv zeta
  end.
Ltac raises_tac := repeat raises_step; auto with pyr.
