(* ===== verification/PyStr.v ===== *)
(** * Python strings

    A Python [str] is represented by its UTF-8 encoding, a Coq [string] of
    bytes. Splitting, joining, searching and replacing with ASCII needles and
    comparing by code point agree on the two; [py_len] and [py_take] count
    characters, not bytes. The character classes ([strip], [lower],
    [isdigit], [isspace]) are the ASCII ones. A [str] with a lone surrogate
    has no encoding and is outside the model. *)

From Stdlib Require Export Ascii.
From Stdlib Require Import ZArith Lia DecimalString DecimalZ.
From Stdlib Require DecimalPos.
From S2P Require Import Prelude.

Abbreviation chars := Stdlib.Strings.String.list_ascii_of_string.
Abbreviation of_chars := Stdlib.Strings.String.string_of_list_ascii.

Definition code (a : ascii) : Z := Z.of_N (N_of_ascii a).

Definition NL : string := String "010"%char "".
Definition DQ : string := String "034"%char "".
Definition SQ : string := String "039"%char "".
Definition BS : string := String "092"%char "".

(** ** Character classes *)
Definition is_digit (a : ascii) : bool := (48 <=? code a) && (code a <=? 57).
Definition is_lower (a : ascii) : bool := (97 <=? code a) && (code a <=? 122).
Definition is_upper (a : ascii) : bool := (65 <=? code a) && (code a <=? 90).
Definition is_alpha (a : ascii) : bool := is_lower a || is_upper a.
Definition is_alnum (a : ascii) : bool := is_alpha a || is_digit a.
Definition is_space (a : ascii) : bool :=
  ((9 <=? code a) && (code a <=? 13)) || ((28 <=? code a) && (code a <=? 32)).
Definition lower_char (a : ascii) : ascii :=
  if is_upper a then ascii_of_N (Z.to_N (code a + 32)) else a.

Definition all_chars (p : ascii → bool) (s : string) : bool := forallb p (chars s).
Definition any_char (p : ascii → bool) (s : string) : bool := existsb p (chars s).

(** ** Length and slicing by characters *)
Definition is_continuation (a : ascii) : bool := (128 <=? code a) && (code a <=? 191).

(** [len(s)] *)
Definition py_len (s : string) : Z :=
  Z.of_nat (length (List.filter (λ a, negb (is_continuation a)) (chars s))).

Fixpoint take_chars (n : nat) (l : list ascii) : list ascii :=
  match l with
  | [] => []
  | a :: l' =>
      if is_continuation a then a :: take_chars n l'
      else match n with O => [] | S n' => a :: take_chars n' l' end
  end.

(** [s[:n]] for [n >= 0] *)
Definition py_take (n : nat) (s : string) : string := of_chars (take_chars n (chars s)).

(** ** Splitting and joining on one character *)
Fixpoint split_chars (c : ascii) (l : list ascii) : list (list ascii) :=
  match l with
  | [] => [[]]
  | a :: l' =>
      if Ascii.eqb a c then [] :: split_chars c l'
      else match split_chars c l' with
           | [] => [[a]]
           | p :: ps => (a :: p) :: ps
           end
  end.

(** [s.split(c)] *)
Definition split (c : ascii) (s : string) : list string := of_chars <$> split_chars c (chars s).

(** [sep.join(parts)] *)
Definition join (sep : string) (parts : list string) : string := String.concat sep parts.

Fixpoint partition_chars (c : ascii) (l : list ascii) : option (list ascii * list ascii) :=
  match l with
  | [] => None
  | a :: l' =>
      if Ascii.eqb a c then Some ([], l')
      else match partition_chars c l' with
           | None => None
           | Some (p, q) => Some (a :: p, q)
           end
  end.

(** [s.partition(c)]: the separator is reported as found or not. *)
Definition partition (c : ascii) (s : string) : string * bool * string :=
  match partition_chars c (chars s) with
  | None => (s, false, EmptyString)
  | Some (p, q) => (of_chars p, true, of_chars q)
  end.

(** [s.rpartition(c)] *)
Definition rpartition (c : ascii) (s : string) : string * bool * string :=
  match partition_chars c (rev (chars s)) with
  | None => (EmptyString, false, s)
  | Some (q, p) => (of_chars (rev p), true, of_chars (rev q))
  end.

(** ** Stripping, case, replacing *)
Fixpoint drop_while (p : ascii → bool) (l : list ascii) : list ascii :=
  match l with
  | [] => []
  | a :: l' => if p a then drop_while p l' else l
  end.

Definition lstrip_by (p : ascii → bool) (s : string) : string := of_chars (drop_while p (chars s)).
Definition rstrip_by (p : ascii → bool) (s : string) : string :=
  of_chars (rev (drop_while p (rev (chars s)))).
Definition strip_by (p : ascii → bool) (s : string) : string := rstrip_by p (lstrip_by p s).

(** [s.strip()] *)
Definition strip : string → string := strip_by is_space.

(** [s.lower()] *)
Definition lower (s : string) : string := of_chars (map lower_char (chars s)).

(** [s.replace(a, b)] for a one-character [a] *)
Definition replace_char (a : ascii) (b : string) (s : string) : string :=
  of_chars (flat_map (λ x, if Ascii.eqb x a then chars b else [x]) (chars s)).

(** [s.replace(old, new)]; [skip] characters of a match are still to be
    passed over. *)
Fixpoint replace_chars (old new : list ascii) (skip : nat) (l : list ascii) : list ascii :=
  match l with
  | [] => []
  | a :: l' =>
      match skip with
      | S skip => replace_chars old new skip l'
      | O =>
          if bool_decide (take (length old) l = old)
          then new ++ replace_chars old new (length old - 1) l'
          else a :: replace_chars old new 0 l'
      end
  end.
Definition replace_str (old new s : string) : string := of_chars (replace_chars (chars old) (chars new) 0 (chars s)).

Definition startswith (p s : string) : bool := String.prefix p s.

(** [s.isdigit()] *)
Definition isdigit (s : string) : bool :=
  match s with EmptyString => false | _ => all_chars is_digit s end.

(** A regular expression that ends in [$] accepts, as Python's [re] does, the
    string itself or the string before one final newline. *)
Definition dollar (p : string → bool) (s : string) : bool :=
  p s || match rev (chars s) with
         | a :: r => if Ascii.eqb a "010"%char then p (of_chars (rev r)) else false
         | [] => false
         end.

(** [^[A-Za-z_][A-Za-z0-9_]*$], and two of them around a dot. *)
Definition ident_start (a : ascii) : bool := is_alpha a || Ascii.eqb a "_"%char.
Definition ident_char (a : ascii) : bool := is_alnum a || Ascii.eqb a "_"%char.

Definition plain_ident (s : string) : bool :=
  match chars s with [] => false | a :: l => ident_start a && forallb ident_char l end.

Definition plain_column : string → bool := dollar plain_ident.

Definition plain_table : string → bool := dollar (λ s,
  match split "."%char s with
  | [a] => plain_ident a
  | [a; b] => plain_ident a && plain_ident b
  | _ => false
  end).

(** ** Integers *)

(** [str(n)] *)
Definition str_of_Z (n : Z) : string := NilZero.string_of_int (Z.to_int n).

(** The decimal text of an integer, as [str(n)] writes it. *)
Definition Z_of_str (s : string) : option Z := Z.of_int <$> NilZero.int_of_string s.

Lemma Z_of_str_of_Z n : Z_of_str (str_of_Z n) = Some n.
Proof.
  unfold Z_of_str, str_of_Z. rewrite NilZero.isi; simpl.
  - by rewrite DecimalZ.of_to.
  - destruct n; try done. intros [=Hn]. by apply (DecimalPos.Unsigned.to_uint_nonnil p).
  - destruct n; try done. intros [=Hn]. by apply (DecimalPos.Unsigned.to_uint_nonnil p).
Qed.

#[export] Instance str_of_Z_inj : Inj (=) (=) str_of_Z.
Proof. intros m n H. apply (f_equal Z_of_str) in H. rewrite !Z_of_str_of_Z in H. congruence. Qed.
#[export] Hint Rewrite Z_of_str_of_Z : pyr_rw.

(** ** [int(s)] *)

(** Decimal digits with single underscores between them. *)
Fixpoint grouped_digits (l : list ascii) : option (list ascii) :=
  match l with
  | [] => None
  | [a] => if is_digit a then Some [a] else None
  | a :: (("_"%char :: rest) as tail) =>
      if is_digit a then (ds ← grouped_digits rest; Some (a :: ds)) else None
  | a :: rest => if is_digit a then (ds ← grouped_digits rest; Some (a :: ds)) else None
  end.

Definition int_of_str (s : string) : res Z :=
  let l := chars (strip s) in
  let '(sign, body) := match l with "-"%char :: r => (-1, r) | "+"%char :: r => (1, r) | _ => (1, l) end in
  match grouped_digits body with
  | Some ds =>
      if Nat.leb (length ds) 4300 then Ok (sign * foldl (λ n a, 10 * n + (code a - 48)) 0 ds)
      else Err (raise_exn ValueError "Exceeds the limit (4300 digits) for integer string conversion")
  | None => Err (raise_exn ValueError ("invalid literal for int() with base 10: " +:+ s))
  end.

(** ** [repr] and padding *)

Definition hex_digit (n : Z) : string :=
  default EmptyString ((λ c, String c EmptyString) <$>
    ((chars "0123456789abcdef") !! Z.to_nat n)).

Definition repr_char (quote a : ascii) : string :=
  if Ascii.eqb a "092"%char || Ascii.eqb a quote then BS +:+ String a ""
  else if Ascii.eqb a "010"%char then BS +:+ "n"
  else if Ascii.eqb a "013"%char then BS +:+ "r"
  else if Ascii.eqb a "009"%char then BS +:+ "t"
  else if (code a <? 32) || (code a =? 127)
    then BS +:+ "x" +:+ hex_digit (code a / 16) +:+ hex_digit (code a mod 16)
  else String a "".

(** [repr(s)]: single quotes unless the text holds one and no double quote. *)
Definition repr (s : string) : string :=
  let has c := existsb (Ascii.eqb c) (chars s) in
  let q := if has "039"%char && negb (has "034"%char) then "034"%char else "039"%char in
  String q (String.concat "" (repr_char q <$> chars s) +:+ String q "").

Definition spaces (n : Z) : string := of_chars (replicate (Z.to_nat n) " "%char).

(** [f"{s:<n}"] and [f"{s:>n}"] *)
Definition ljust (n : Z) (s : string) : string := s +:+ spaces (n - py_len s).
Definition rjust (n : Z) (s : string) : string := spaces (n - py_len s) +:+ s.

(** ** UTF-8 *)

Definition in_range (lo hi : Z) (a : ascii) : bool := (lo <=? code a) && (code a <=? hi).

(** The byte sequences that encode one character (RFC 3629: no overlong
    forms, no surrogates, nothing above U+10FFFF). *)
Definition utf8_char (c : list ascii) : bool :=
  match c with
  | [a] => in_range 0 127 a
  | [a; b] => in_range 194 223 a && is_continuation b
  | [a; b; c] =>
      ((in_range 224 224 a && in_range 160 191 b)
       || (in_range 237 237 a && in_range 128 159 b)
       || ((in_range 225 236 a || in_range 238 239 a) && is_continuation b))
      && is_continuation c
  | [a; b; c; d] =>
      ((in_range 240 240 a && in_range 144 191 b)
       || (in_range 244 244 a && in_range 128 143 b)
       || (in_range 241 243 a && is_continuation b))
      && is_continuation c && is_continuation d
  | _ => false
  end.

(** A [str]: the encodings of its characters, one after the other. *)
Definition utf8 (l : list ascii) : Prop :=
  ∃ cs, Forall (λ c, utf8_char c = true) cs ∧ l = concat cs.

(** [raw.decode("utf-8", errors="ignore")]: characters are kept, bytes that
    start none are skipped one at a time. [fuel] is the number of bytes. *)
Fixpoint decode_ignore (fuel : nat) (l : list ascii) : list ascii :=
  match fuel with
  | O => []
  | S fuel =>
      match l with
      | [] => []
      | _ :: rest =>
          match List.find (λ n, utf8_char (take n l) && (n <=? length l)%nat) [1; 2; 3; 4]%nat with
          | Some n => take n l ++ decode_ignore fuel (drop n l)
          | None => decode_ignore fuel rest
          end
      end
  end.

Definition char_ok (c : list ascii) : Prop := utf8_char c = true.

Lemma char_ok_length c : char_ok c → (1 ≤ length c ≤ 4)%nat.
Proof. unfold char_ok. destruct c as [|? [|? [|? [|? [|]]]]]; simpl; try done; lia. Qed.

(** Turns the byte-range tests of the context into arithmetic. *)
Ltac byte_ranges :=
  unfold char_ok, utf8_char, is_continuation, in_range in *; simpl in *;
  repeat match goal with
  | H : (_ && _)%bool = true |- _ => apply andb_true_iff in H as [? ?]
  | H : (_ || _)%bool = true |- _ => apply orb_true_iff in H as [?|?]
  | H : (_ <=? _) = true |- _ => apply Z.leb_le in H
  end.

(** No character's encoding starts another's: a proper prefix is not one. *)
Lemma char_prefix_free c n : char_ok c → (n < length c)%nat → utf8_char (take n c) = false.
Proof.
  intros Hc Hn. apply not_true_iff_false. intros Hp.
  destruct c as [|a [|b [|d [|e [|]]]]]; try done;
    destruct n as [|[|[|[|n]]]]; simpl in Hn; try lia; simpl in Hp; try done;
    byte_ranges; lia.
Qed.

Lemma char_find c l :
  char_ok c →
  List.find (λ n, utf8_char (take n (c ++ l)) && (n <=? length (c ++ l))%nat) [1; 2; 3; 4]%nat
  = Some (length c).
Proof.
  intros Hc. pose proof (char_ok_length c Hc) as Hlen.
  assert (Hlt : ∀ n, (n < length c)%nat →
      (utf8_char (take n (c ++ l)) && (n <=? length (c ++ l))%nat)%bool = false).
  { intros n Hn. rewrite take_app_le by lia. by rewrite char_prefix_free. }
  assert (Heq : (utf8_char (take (length c) (c ++ l)) && (length c <=? length (c ++ l))%nat)%bool = true).
  { rewrite take_app_length, Hc, length_app. apply Nat.leb_le. lia. }
  assert (length c = 1 ∨ length c = 2 ∨ length c = 3 ∨ length c = 4)%nat as [E|[E|[E|E]]] by lia;
    rewrite E in *; cbn [List.find]; rewrite ?Hlt by lia; by rewrite Heq.
Qed.

Lemma decode_ignore_char c l fuel :
  char_ok c → (length l ≤ fuel)%nat →
  decode_ignore (length c + fuel) (c ++ l) = c ++ decode_ignore (length c + fuel - 1) l.
Proof.
  intros Hc Hf. pose proof (char_ok_length c Hc).
  destruct (length c + fuel)%nat as [|k] eqn:Hk; [lia|].
  destruct c as [|a c']; [done|]. cbn [decode_ignore app].
  change (a :: c' ++ l) with ((a :: c') ++ l). rewrite char_find by done.
  rewrite take_app_length, drop_app_length. by replace (S k - 1)%nat with k by lia.
Qed.

Lemma char_head c a l : char_ok (a :: l) → c = a → is_continuation c = false.
Proof.
  intros Hc ->. apply not_true_iff_false. intros Hk.
  destruct l as [|? [|? [|? [|]]]]; try done; byte_ranges; lia.
Qed.

Lemma char_tail a l : char_ok (a :: l) → Forall (λ b, is_continuation b = true) l.
Proof.
  intros Hc. destruct l as [|? [|? [|? [|]]]]; try done; repeat constructor;
    byte_ranges; apply andb_true_iff; split; apply Z.leb_le; lia.
Qed.

(** Bytes that start no character decode to nothing. *)
Lemma decode_ignore_continuations l fuel :
  Forall (λ b, is_continuation b = true) l → decode_ignore fuel l = [].
Proof.
  intros Hl. revert fuel. induction Hl as [|b l Hb Hl IH]; intros [|fuel]; try done.
  cbn [decode_ignore].
  match goal with |- context [List.find ?f ?ns] => destruct (List.find f ns) as [k|] eqn:Hf end;
    [|apply IH].
  apply find_some in Hf as [_ [Hf _]%andb_true_iff]. destruct k as [|k]; [done|]. simpl in Hf.
  by erewrite char_head in Hb by done.
Qed.

(** What is left of a character cut in the middle decodes to nothing. *)
Lemma decode_ignore_partial c n fuel :
  char_ok c → (n < length c)%nat → decode_ignore fuel (take n c) = [].
Proof.
  intros Hc Hn. destruct fuel as [|fuel]; [done|].
  destruct c as [|a l]; [simpl in Hn; lia|]. destruct n as [|n]; [done|]. cbn [decode_ignore take].
  match goal with |- context [List.find ?f ?ns] => destruct (List.find f ns) as [k|] eqn:Hf end.
  - apply find_some in Hf as [_ [Hf Hk%Nat.leb_le]%andb_true_iff].
    change (a :: take n l) with (take (S n) (a :: l)) in *.
    rewrite take_take in Hf. rewrite char_prefix_free in Hf; [done|done|lia].
  - apply decode_ignore_continuations. apply Forall_take. by eapply char_tail.
Qed.

(** Cutting a [str]'s bytes anywhere and decoding what is left keeps a prefix
    of its characters and loses at most the three bytes of a cut one. *)
Lemma decode_ignore_take cs n fuel :
  Forall char_ok cs → (n ≤ fuel)%nat →
  ∃ cs', cs' `prefix_of` cs ∧
    decode_ignore fuel (take n (concat cs)) = concat cs' ∧
    (length (concat cs') ≤ n)%nat ∧
    (n ≤ length (concat cs) → n ≤ length (concat cs') + 3)%nat.
Proof.
  intros Hcs. revert n fuel. induction Hcs as [|c cs Hc Hcs IH]; intros n fuel Hf; simpl.
  - exists []. split_and!; [done| |simpl; lia..].
    rewrite take_nil. by destruct fuel.
  - pose proof (char_ok_length c Hc). destruct (decide (length c ≤ n)%nat) as [Hle|Hgt].
    + rewrite take_app_ge by done.
      destruct (IH (n - length c)%nat (fuel - 1)%nat ltac:(lia)) as (cs' & Hpre & Hdec & Hlo & Hhi).
      exists (c :: cs'). split_and!.
      * by apply prefix_cons.
      * replace fuel with (length c + (fuel - length c))%nat by lia.
        rewrite decode_ignore_char by (rewrite ?length_take; done || lia).
        replace (length c + (fuel - length c) - 1)%nat with (fuel - 1)%nat by lia.
        by rewrite Hdec.
      * simpl. rewrite length_app. lia.
      * simpl. rewrite !length_app. lia.
    + exists []. split_and!; [apply prefix_nil| |simpl; lia|simpl; rewrite length_app; lia].
      rewrite take_app_le by lia. simpl. apply decode_ignore_partial; [done|lia].
Qed.

(** ** Bytes of a text, and cutting it in two *)
Definition has_char (c : ascii) (s : string) : bool := existsb (Ascii.eqb c) (chars s).

Lemma chars_of_chars l : chars (of_chars l) = l.
Proof. apply Stdlib.Strings.String.list_ascii_of_string_of_list_ascii. Qed.

Lemma of_chars_chars s : of_chars (chars s) = s.
Proof. apply Stdlib.Strings.String.string_of_list_ascii_of_string. Qed.

Lemma chars_app s1 s2 : chars (s1 +:+ s2) = chars s1 ++ chars s2.
Proof. induction s1 as [|a s1 IH]; simpl; [done|]. by rewrite <- IH. Qed.

Lemma partition_found c p q :
  existsb (Ascii.eqb c) p = false → partition_chars c (p ++ c :: q) = Some (p, q).
Proof.
  induction p as [|a p IH]; simpl; [by rewrite Ascii.eqb_refl|].
  rewrite Ascii.eqb_sym. destruct (Ascii.eqb a c); [done|]. simpl. intros H. by rewrite IH.
Qed.

Lemma partition_some c l p q :
  partition_chars c l = Some (p, q) → l = p ++ c :: q ∧ existsb (Ascii.eqb c) p = false.
Proof.
  revert p q. induction l as [|a l IH]; intros p q; simpl; [done|].
  destruct (Ascii.eqb_spec a c) as [->|Hne]; [by intros [= <- <-]|].
  destruct (partition_chars c l) as [[p' q']|] eqn:E; [|done]. intros [= <- <-].
  destruct (IH _ _ eq_refl) as [-> H]. split; [done|]. simpl. rewrite H.
  destruct (Ascii.eqb_spec c a); [congruence|done].
Qed.

Lemma partition_join c s t :
  has_char c s = false → partition c (s +:+ String c t) = (s, true, t).
Proof.
  intros Hs. unfold partition. rewrite chars_app. change (chars (String c t)) with (c :: chars t).
  rewrite partition_found by done. by rewrite !of_chars_chars.
Qed.

Lemma partition_split c s a b : partition c s = (a, true, b) → s = a +:+ String c b ∧ has_char c a = false.
Proof.
  unfold partition. destruct (partition_chars c (chars s)) as [[p q]|] eqn:E; [|done]. intros [= <- <-].
  apply partition_some in E as [E Hp]. unfold has_char. rewrite chars_of_chars. split; [|done].
  rewrite <- (of_chars_chars s), E. rewrite <- (of_chars_chars (of_chars p +:+ _)), chars_app, chars_of_chars.
  simpl. by rewrite chars_of_chars.
Qed.

Lemma string_app_empty_r (s : string) : s +:+ "" = s.
Proof. induction s as [|c s IH]; [done|]. exact (f_equal (String c) IH). Qed.

(** ** Splitting *)

Lemma split_chars_app c l1 l2 : split_chars c (l1 ++ c :: l2) = split_chars c l1 ++ split_chars c l2.
Proof.
  induction l1 as [|a l1 IH]; simpl; [by rewrite Ascii.eqb_refl|].
  destruct (Ascii.eqb a c); [by rewrite IH|]. rewrite IH.
  destruct (split_chars c l1) eqn:E; [|done].
  exfalso. clear -E. destruct l1 as [|b l1]; simpl in E; [done|]. destruct (Ascii.eqb b c); [done|]. by destruct (split_chars c l1).
Qed.

Lemma split_app c s1 s2 : split c (s1 +:+ String c s2) = split c s1 ++ split c s2.
Proof.
  unfold split. rewrite chars_app. change (chars (String c s2)) with (c :: chars s2).
  by rewrite split_chars_app, fmap_app.
Qed.

Definition free_of (c : ascii) (s : string) : Prop := existsb (Ascii.eqb c) (chars s) = false.

Lemma split_free c s : free_of c s → split c s = [s].
Proof.
  unfold free_of, split. intros Hs. assert (Hl : split_chars c (chars s) = [chars s]).
  { revert Hs. generalize (chars s). induction l as [|a l IH]; [done|]. simpl. rewrite Ascii.eqb_sym.
    destruct (Ascii.eqb a c); [done|]. simpl. intros Hl. by rewrite IH. }
  rewrite Hl. cbn. by rewrite of_chars_chars.
Qed.

(** [c.join(parts).split(c) == parts] *)
Lemma split_join c parts :
  Forall (free_of c) parts → parts ≠ [] → split c (join (String c "") parts) = parts.
Proof.
  intros Hp. induction Hp as [|s parts Hs Hp IH]; [done|]. intros _. destruct parts as [|s' parts].
  - by apply split_free.
  - change (join (String c "") (s :: s' :: parts)) with (s +:+ String c (join (String c "") (s' :: parts))).
    rewrite split_app, IH by done. by rewrite split_free.
Qed.

#[export] Hint Rewrite chars_of_chars of_chars_chars : pyr_rw.
