(* ===== verification/Json.v ===== *)
(** * Python values, dictionaries and the [json] module

    [json] is what a decoded payload, an audit field or a websocket frame can
    hold. A float is represented by a literal that denotes it. [JOpaque] is
    any other Python object, which [json.dumps] refuses. A dictionary is an
    association list in insertion order. [dumps] is
    [json.dumps(v, ensure_ascii=False)], [loads] is [json.loads]. *)

From Stdlib Require Import ZArith Lia Ascii DecimalString.
From Stdlib Require Decimal.
From S2P Require Import Prelude PyStr.

(** ** Dictionaries in insertion order *)
Section dict.
Context {K : Type} `{EqDecision K} {V : Type}.
Implicit Type d : list (K * V).

(** [d.get(k)] *)
Fixpoint dict_get (k : K) (d : list (K * V)) : option V :=
  match d with
  | [] => None
  | (k', v) :: d' => if decide (k' = k) then Some v else dict_get k d'
  end.

(** [d[k] = v]: an existing key keeps its place. *)
Fixpoint dict_set (k : K) (v : V) (d : list (K * V)) : list (K * V) :=
  match d with
  | [] => [(k, v)]
  | (k', v') :: d' => if decide (k' = k) then (k, v) :: d' else (k', v') :: dict_set k v d'
  end.

(** [d.pop(k, None)] *)
Definition dict_pop (k : K) (d : list (K * V)) : list (K * V) := filter (λ kv, kv.1 ≠ k) d.

Definition dict_has (k : K) d : bool := match dict_get k d with Some _ => true | None => false end.

Definition dict_of (kvs : list (K * V)) : list (K * V) := foldl (λ d kv, dict_set kv.1 kv.2 d) [] kvs.

Lemma dict_get_set k k' v d :
  dict_get k (dict_set k' v d) = if decide (k' = k) then Some v else dict_get k d.
Proof.
  induction d as [|[j u] d IH]; simpl; [done|].
  destruct (decide (j = k')) as [->|]; simpl; [decs|]. rewrite IH. decs.
Qed.

Lemma dict_get_pop k k' d :
  dict_get k (dict_pop k' d) = if decide (k = k') then None else dict_get k d.
Proof.
  unfold dict_pop. induction d as [|[j u] d IH]; simpl; [by case_decide|].
  rewrite filter_cons. simpl. destruct (decide (j = k')) as [->|].
  - rewrite decide_False by naive_solver. rewrite IH. decs.
  - rewrite decide_True by done. simpl. rewrite IH. decs.
Qed.

Lemma dict_get_None k d : dict_get k d = None ↔ k ∉ d.*1.
Proof.
  induction d as [|[j u] d IH]; simpl; [split; [intros _; apply not_elem_of_nil|done]|].
  rewrite not_elem_of_cons. case_decide; naive_solver.
Qed.

Lemma dict_get_Some_elem k v d : dict_get k d = Some v → (k, v) ∈ d.
Proof.
  induction d as [|[j u] d IH]; simpl; [done|]. case_decide; intros; simplify_eq; [left|right; auto].
Qed.

Lemma elem_dict_get k v d : NoDup d.*1 → (k, v) ∈ d → dict_get k d = Some v.
Proof.
  induction d as [|[j u] d IH]; simpl; intros Hnd Hin; [by apply not_elem_of_nil in Hin|].
  apply NoDup_cons in Hnd as [Hni Hnd]. apply elem_of_cons in Hin as [[= -> ->]|Hin].
  - by rewrite decide_True.
  - rewrite decide_False; [auto|]. intros ->. apply Hni. by apply (list_elem_of_fmap_2 fst) in Hin.
Qed.

Lemma dict_set_same k v d : dict_get k d = Some v → dict_set k v d = d.
Proof.
  induction d as [|[k' v'] d IH]; simpl; [done|].
  destruct (decide (k' = k)) as [->|Hk]; [by intros [= ->]|]. intros Hg. by rewrite IH.
Qed.

Lemma dict_pop_absent k d : dict_get k d = None → dict_pop k d = d.
Proof.
  intros Hk%dict_get_None. apply filter_all. intros x Hx Heq. apply Hk. apply list_elem_of_fmap. by exists x.
Qed.

Lemma dict_set_fresh k v d : k ∉ d.*1 → dict_set k v d = d ++ [(k, v)].
Proof.
  induction d as [|[j u] d IH]; simpl; [done|]. rewrite not_elem_of_cons. intros [Hne Hni].
  rewrite decide_False by congruence. by rewrite IH.
Qed.

Lemma dict_set_keys k v d x : x ∈ (dict_set k v d).*1 ↔ x = k ∨ x ∈ d.*1.
Proof.
  induction d as [|[j u] d IH]; simpl; [set_solver|]. case_decide; simpl; set_solver.
Qed.

Lemma dict_set_NoDup k v d : NoDup d.*1 → NoDup (dict_set k v d).*1.
Proof.
  induction d as [|[j u] d IH]; simpl; intros Hnd; [by repeat constructor; apply not_elem_of_nil|].
  apply NoDup_cons in Hnd as [Hni Hnd]. case_decide; simplify_eq/=; constructor; auto.
  rewrite dict_set_keys. naive_solver.
Qed.

Lemma dict_pop_NoDup k d : NoDup d.*1 → NoDup (dict_pop k d).*1.
Proof. apply NoDup_fmap_filter. Qed.

(** Building a dictionary from pairs with distinct keys changes nothing. *)
Lemma dict_of_NoDup kvs : NoDup kvs.*1 → dict_of kvs = kvs.
Proof.
  unfold dict_of. intros Hnd.
  assert (H : ∀ acc, NoDup (acc ++ kvs).*1 → foldl (λ d kv, dict_set kv.1 kv.2 d) acc kvs = acc ++ kvs).
  { clear Hnd. induction kvs as [|[k v] kvs IH]; intros acc Hacc; simpl; [by rewrite app_nil_r|].
    rewrite fmap_app in Hacc. simpl in Hacc.
    pose proof (proj1 (NoDup_app _ _) Hacc) as (_ & Hd & _).
    rewrite dict_set_fresh by (intros Hk; apply (Hd _ Hk); left).
    rewrite IH; [by rewrite <- app_assoc|]. rewrite <- app_assoc. by rewrite fmap_app. }
  by rewrite H.
Qed.
End dict.

(** ** Values *)
Inductive json :=
  | JNull
  | JBool (b : bool)
  | JInt (n : Z)
  | JFloat (lit : string)
  | JStr (s : string)
  | JList (l : list json)
  | JObj (d : list (string * json))
  | JOpaque (type_name : string).

Section json_induction.
Context (P : json → Prop).
Context (Pnull : P JNull) (Pbool : ∀ b, P (JBool b)) (Pint : ∀ n, P (JInt n)).
Context (Pfloat : ∀ t, P (JFloat t)) (Pstr : ∀ s, P (JStr s)) (Popaque : ∀ t, P (JOpaque t)).
Context (Plist : ∀ l, Forall P l → P (JList l)).
Context (Pobj : ∀ d, Forall (λ kv, P kv.2) d → P (JObj d)).

Fixpoint json_nested_ind (v : json) : P v :=
  match v with
  | JNull => Pnull
  | JBool b => Pbool b
  | JInt n => Pint n
  | JFloat t => Pfloat t
  | JStr s => Pstr s
  | JOpaque t => Popaque t
  | JList l => Plist l
      ((fix go l : Forall P l := match l with
        | [] => @List.Forall_nil _ _
        | x :: l' => @List.Forall_cons _ _ _ _ (json_nested_ind x) (go l')
        end) l)
  | JObj d => Pobj d
      ((fix go d : Forall (λ kv, P kv.2) d := match d with
        | [] => @List.Forall_nil _ _
        | x :: d' => @List.Forall_cons _ _ _ _ (json_nested_ind x.2) (go d')
        end) d)
  end.
End json_induction.

(** [bool(v)] *)
Definition truthy (v : json) : bool :=
  match v with
  | JNull => false
  | JBool b => b
  | JInt n => negb (n =? 0)
  | JFloat t => negb (existsb (String.eqb t) ["0.0"; "-0.0"])
  | JStr s => negb (String.eqb s "")
  | JList l => match l with [] => false | _ => true end
  | JObj d => match d with [] => false | _ => true end
  | JOpaque _ => true
  end.

(** [int(v)]; the value of a float literal is a parameter. *)
Definition py_int (int_of_float : string → res Z) (v : json) : res Z :=
  match v with
  | JInt n => Ok n
  | JBool b => Ok (if b then 1 else 0)
  | JFloat lit => int_of_float lit
  | JStr s => int_of_str s
  | _ => Err (raise_exn TypeError "int() argument must be a string, a bytes-like object or a real number")
  end.

(** ** [json.dumps(v, ensure_ascii=False)] *)

Definition hex2 (a : ascii) : string := hex_digit (code a / 16) +:+ hex_digit (code a mod 16).

Definition escape_char (a : ascii) : list ascii :=
  if Ascii.eqb a "034"%char then chars (BS +:+ DQ)
  else if Ascii.eqb a "092"%char then chars (BS +:+ BS)
  else if Ascii.eqb a "010"%char then chars (BS +:+ "n")
  else if Ascii.eqb a "013"%char then chars (BS +:+ "r")
  else if Ascii.eqb a "009"%char then chars (BS +:+ "t")
  else if Ascii.eqb a "012"%char then chars (BS +:+ "f")
  else if Ascii.eqb a "008"%char then chars (BS +:+ "b")
  else if code a <? 32 then chars (BS +:+ "u00" +:+ hex2 a)
  else [a].

Definition dump_str (s : string) : list ascii :=
  "034"%char :: (flat_map escape_char (chars s) ++ ["034"%char]).

Fixpoint join_chars (sep : list ascii) (ps : list (list ascii)) : list ascii :=
  match ps with
  | [] => []
  | [p] => p
  | p :: ps' => p ++ sep ++ join_chars sep ps'
  end.

Definition comma_sep : list ascii := chars ", ".

(** The text of a value, characters as a list. An object that JSON cannot
    hold raises [TypeError]. *)
Fixpoint dump_chars (v : json) : res (list ascii) :=
  match v with
  | JNull => Ok (chars "null")
  | JBool true => Ok (chars "true")
  | JBool false => Ok (chars "false")
  | JInt n => Ok (chars (str_of_Z n))
  | JFloat t => Ok (chars t)
  | JStr s => Ok (dump_str s)
  | JList l =>
      ps ← (fix go l := match l with
            | [] => Ok []
            | x :: l' => p ← dump_chars x; ps ← go l'; Ok (p :: ps)
            end) l;
      Ok (["["%char] ++ join_chars comma_sep ps ++ ["]"%char])
  | JObj d =>
      ps ← (fix go d := match d with
            | [] => Ok []
            | (k, x) :: d' =>
                p ← dump_chars x; ps ← go d'; Ok ((dump_str k ++ chars ": " ++ p) :: ps)
            end) d;
      Ok (["{"%char] ++ join_chars comma_sep ps ++ ["}"%char])
  | JOpaque t => Err (raise_exn TypeError ("Object of type " +:+ t +:+ " is not JSON serializable"))
  end.

Definition dumps (v : json) : res string := t ← dump_chars v; Ok (of_chars t).

(** ** [json.loads] *)

Definition is_ws (a : ascii) : bool :=
  Ascii.eqb a " "%char || Ascii.eqb a "009"%char || Ascii.eqb a "010"%char || Ascii.eqb a "013"%char.

Definition skip_ws : list ascii → list ascii := drop_while is_ws.

Definition hex_value (a : ascii) : option Z :=
  if is_digit a then Some (code a - 48)
  else if (97 <=? code a) && (code a <=? 102) then Some (code a - 87)
  else if (65 <=? code a) && (code a <=? 70) then Some (code a - 55)
  else None.

Definition hex4 (a b c d : ascii) : option Z :=
  a ← hex_value a; b ← hex_value b; c ← hex_value c; d ← hex_value d;
  Some (((a * 16 + b) * 16 + c) * 16 + d).

(** The UTF-8 encoding of a code point. *)
Definition byte (n : Z) : ascii := ascii_of_N (Z.to_N n).
Definition encode_utf8 (n : Z) : list ascii :=
  if n <? 128 then [byte n]
  else if n <? 2048 then [byte (192 + n / 64); byte (128 + n mod 64)]
  else if n <? 65536 then
    [byte (224 + n / 4096); byte (128 + (n / 64) mod 64); byte (128 + n mod 64)]
  else [byte (240 + n / 262144); byte (128 + (n / 4096) mod 64);
        byte (128 + (n / 64) mod 64); byte (128 + n mod 64)].

(** A piece of a string literal: a byte as it stands or a code unit. *)
Inductive str_unit := UByte (a : ascii) | UCode (n : Z).

(** The characters of the literal up to its closing quote. *)
Fixpoint parse_units (l : list ascii) : option (list str_unit * list ascii) :=
  match l with
  | [] => None
  | a :: l' =>
      if Ascii.eqb a "034"%char then Some ([], l')
      else if Ascii.eqb a "092"%char then
        match l' with
        | [] => None
        | e :: l'' =>
            if Ascii.eqb e "u"%char then
              match l'' with
              | h1 :: h2 :: h3 :: h4 :: r =>
                  n ← hex4 h1 h2 h3 h4; '(us, r') ← parse_units r; Some (UCode n :: us, r')
              | _ => None
              end
            else
              c ← (if Ascii.eqb e "034"%char || Ascii.eqb e "092"%char || Ascii.eqb e "/"%char then Some e
                   else if Ascii.eqb e "b"%char then Some "008"%char
                   else if Ascii.eqb e "f"%char then Some "012"%char
                   else if Ascii.eqb e "n"%char then Some "010"%char
                   else if Ascii.eqb e "r"%char then Some "013"%char
                   else if Ascii.eqb e "t"%char then Some "009"%char
                   else None);
              '(us, r') ← parse_units l''; Some (UByte c :: us, r')
        end
      else if code a <? 32 then None
      else '(us, r') ← parse_units l'; Some (UByte a :: us, r')
  end.

Definition high_surrogate (n : Z) : bool := (55296 <=? n) && (n <=? 56319).
Definition low_surrogate (n : Z) : bool := (56320 <=? n) && (n <=? 57343).

(** Two escaped surrogates that follow each other are one character. *)
Fixpoint of_units (us : list str_unit) : list ascii :=
  match us with
  | [] => []
  | UByte a :: us' => a :: of_units us'
  | UCode n :: us' =>
      match us' with
      | UCode m :: us'' =>
          if high_surrogate n && low_surrogate m
          then encode_utf8 (65536 + (n - 55296) * 1024 + (m - 56320)) ++ of_units us''
          else encode_utf8 n ++ of_units us'
      | _ => encode_utf8 n ++ of_units us'
      end
  end.

Definition parse_str (l : list ascii) : option (string * list ascii) :=
  '(us, r) ← parse_units l; Some (of_chars (of_units us), r).

(** Numbers. The characters a number can be made of are taken as far as they
    go and then have to be one literal: whatever may follow a value is not
    among them, so this refuses and accepts what the longest match does. *)
Definition is_num_char (a : ascii) : bool :=
  is_digit a || existsb (Ascii.eqb a) (chars "+-.eE").

Fixpoint span (p : ascii → bool) (l : list ascii) : list ascii * list ascii :=
  match l with
  | [] => ([], [])
  | a :: l' => if p a then let '(x, y) := span p l' in (a :: x, y) else ([], l)
  end.

(** [-?(0|[1-9][0-9]* )]: the texts [str(n)] gives, and [-0]. *)
Definition int_literal (s : string) : option Z :=
  if String.eqb s "-0" then Some 0
  else n ← Z_of_str s; if String.eqb (str_of_Z n) s then Some n else None.

Definition digits1 (l : list ascii) : bool := match l with [] => false | _ => forallb is_digit l end.

Definition exponent (l : list ascii) : bool :=
  match l with
  | a :: l' => if existsb (Ascii.eqb a) (chars "+-") then digits1 l' else digits1 l
  | [] => false
  end.

Definition float_literal (s : string) : bool :=
  let '(i, rest) := span (λ a, is_digit a || Ascii.eqb a "-"%char) (chars s) in
  all_chars is_num_char s &&
  match int_literal (of_chars i) with
  | None => false
  | Some _ =>
      match rest with
      | [] => false
      | a :: r =>
          if Ascii.eqb a "."%char then
            let '(f, e) := span is_digit r in
            digits1 f && match e with
                         | [] => true
                         | b :: e' => (Ascii.eqb b "e"%char || Ascii.eqb b "E"%char) && exponent e'
                         end
          else (Ascii.eqb a "e"%char || Ascii.eqb a "E"%char) && exponent r
      end
  end.

Definition parse_number (l : list ascii) : option (json * list ascii) :=
  let '(t, r) := span is_num_char l in
  let s := of_chars t in
  match int_literal s with
  | Some n => Some (JInt n, r)
  | None => if float_literal s then Some (JFloat s, r) else None
  end.

(** A constant's name at the start of the text. *)
Definition constants : list (string * json) :=
  [("null", JNull); ("true", JBool true); ("false", JBool false);
   ("NaN", JFloat "NaN"); ("Infinity", JFloat "Infinity"); ("-Infinity", JFloat "-Infinity")].

Fixpoint strip_prefix (p l : list ascii) : option (list ascii) :=
  match p, l with
  | [], _ => Some l
  | a :: p', b :: l' => if Ascii.eqb a b then strip_prefix p' l' else None
  | _ :: _, [] => None
  end.

Fixpoint parse_constant (cs : list (string * json)) (l : list ascii) : option (json * list ascii) :=
  match cs with
  | [] => None
  | (name, v) :: cs' =>
      match strip_prefix (chars name) l with
      | Some r => Some (v, r)
      | None => parse_constant cs' l
      end
  end.

(** A value, the items of an array and the members of an object. Each call
    takes at least one character, so the length of the text is enough fuel. *)
Fixpoint parse_value (fuel : nat) (l : list ascii) : option (json * list ascii) :=
  match fuel with
  | O => None
  | S fuel =>
      match l with
      | [] => None
      | a :: l' =>
          if Ascii.eqb a "034"%char then '(s, r) ← parse_str l'; Some (JStr s, r)
          else if Ascii.eqb a "["%char then
            match skip_ws l' with
            | [] => None
            | b :: r => if Ascii.eqb b "]"%char then Some (JList [], r)
                        else '(vs, r') ← parse_items fuel (b :: r); Some (JList vs, r')
            end
          else if Ascii.eqb a "{"%char then
            match skip_ws l' with
            | [] => None
            | b :: r => if Ascii.eqb b "}"%char then Some (JObj [], r)
                        else '(kvs, r') ← parse_members fuel (b :: r); Some (JObj (dict_of kvs), r')
            end
          else match parse_constant constants l with
               | Some vr => Some vr
               | None => parse_number l
               end
      end
  end
with parse_items (fuel : nat) (l : list ascii) : option (list json * list ascii) :=
  match fuel with
  | O => None
  | S fuel =>
      '(v, r) ← parse_value fuel l;
      match skip_ws r with
      | [] => None
      | a :: r' =>
          if Ascii.eqb a "]"%char then Some ([v], r')
          else if Ascii.eqb a ","%char then
            '(vs, r'') ← parse_items fuel (skip_ws r'); Some (v :: vs, r'')
          else None
      end
  end
with parse_members (fuel : nat) (l : list ascii) : option (list (string * json) * list ascii) :=
  match fuel with
  | O => None
  | S fuel =>
      match l with
      | [] => None
      | q :: l' =>
          if Ascii.eqb q "034"%char then
            '(k, r) ← parse_str l';
            match skip_ws r with
            | [] => None
            | c :: r1 =>
                if Ascii.eqb c ":"%char then
                  '(v, r2) ← parse_value fuel (skip_ws r1);
                  match skip_ws r2 with
                  | [] => None
                  | a :: r3 =>
                      if Ascii.eqb a "}"%char then Some ([(k, v)], r3)
                      else if Ascii.eqb a ","%char then
                        '(kvs, r4) ← parse_members fuel (skip_ws r3); Some ((k, v) :: kvs, r4)
                      else None
                  end
                else None
            end
          else None
      end
  end.

Definition loads (s : string) : res json :=
  match parse_value (S (String.length s)) (skip_ws (chars s)) with
  | Some (v, r) =>
      match skip_ws r with
      | [] => Ok v
      | _ => Err (raise_exn ValueError "Extra data")
      end
  | None => Err (raise_exn ValueError "Expecting value")
  end.

(** JSON text written with single quotes. *)
Definition sq (s : string) : string := replace_char "039"%char DQ s.

Example loads_example :
  loads (sq " {'a' : [1, -2.5e3, '\u00e9\n'], 'b':null, 'a':[true]} ") =
    Ok (JObj [("a", JList [JBool true]); ("b", JNull)]) ∧
  loads (sq "['\u00e9\ud83d\ude00', -2.5e3]") = Ok (JList [JStr "é😀"; JFloat "-2.5e3"]) ∧
  is_ok (loads "[1,]") = false ∧ is_ok (loads "01") = false ∧ is_ok (loads "{} x") = false.
Proof. vm_compute. done. Qed.

(** ** What [loads] reads back *)

(** The values [json.dumps] writes faithfully: no other objects, floats given
    by a literal, and the distinct keys every dictionary has. *)
Inductive json_ok : json → Prop :=
  | ok_null : json_ok JNull
  | ok_bool b : json_ok (JBool b)
  | ok_int n : json_ok (JInt n)
  | ok_float t : float_literal t = true ∨ t ∈ ["NaN"; "Infinity"; "-Infinity"] → json_ok (JFloat t)
  | ok_str s : json_ok (JStr s)
  | ok_list l : Forall json_ok l → json_ok (JList l)
  | ok_obj d : NoDup d.*1 → Forall (λ kv, json_ok kv.2) d → json_ok (JObj d).

Lemma span_all p l r :
  forallb p l = true → match r with [] => True | a :: _ => p a = false end → span p (l ++ r) = (l, r).
Proof.
  intros Hl Hr. induction l as [|a l IH]; simpl in *.
  - destruct r as [|b r]; [done|]. simpl. by rewrite Hr.
  - apply andb_true_iff in Hl as [Ha Hl]. by rewrite Ha, IH.
Qed.

Lemma span_nil p l : forallb p l = true → span p l = (l, []).
Proof. intros Hl. rewrite <- (app_nil_r l) at 1. by apply span_all. Qed.

(** *** Numbers *)
Definition is_int_char (a : ascii) : bool := is_digit a || Ascii.eqb a "-"%char.

Lemma uint_digits d : forallb is_digit (chars (NilEmpty.string_of_uint d)) = true.
Proof. by induction d. Qed.

Lemma str_of_Z_int_chars n : forallb is_int_char (chars (str_of_Z n)) = true.
Proof.
  assert (H : ∀ d, forallb is_int_char (chars (NilZero.string_of_uint d)) = true).
  { intros d. assert (Hd : forallb is_digit (chars (NilZero.string_of_uint d)) = true).
    { destruct d; [done|..]; apply uint_digits. }
    rewrite forallb_forall in *. intros a Ha. unfold is_int_char. by rewrite (Hd a Ha). }
  unfold str_of_Z. destruct (Z.to_int n); simpl; apply H.
Qed.

Lemma int_literal_str n : int_literal (str_of_Z n) = Some n.
Proof.
  unfold int_literal. destruct (String.eqb_spec (str_of_Z n) "-0") as [Hz|_].
  - apply (f_equal Z_of_str) in Hz. rewrite Z_of_str_of_Z in Hz. vm_compute in Hz. congruence.
  - rewrite Z_of_str_of_Z. simpl. by rewrite String.eqb_refl.
Qed.

Lemma int_literal_chars s n : int_literal s = Some n → forallb is_int_char (chars s) = true.
Proof.
  unfold int_literal. destruct (String.eqb_spec s "-0") as [->|_]; [done|].
  destruct (Z_of_str s) as [m|]; simpl; [|done].
  destruct (String.eqb_spec (str_of_Z m) s) as [<-|]; [|done]. intros _. apply str_of_Z_int_chars.
Qed.

Lemma int_num_chars l : forallb is_int_char l = true → forallb is_num_char l = true.
Proof.
  rewrite !forallb_forall. intros Hl a Ha. specialize (Hl a Ha).
  unfold is_int_char, is_num_char in *. apply orb_true_iff in Hl as [->|Heq]; [done|].
  apply Ascii.eqb_eq in Heq as ->. done.
Qed.

Lemma float_not_int s : float_literal s = true → int_literal s = None.
Proof.
  intros Hf. destruct (int_literal s) as [n|] eqn:Hn; [exfalso|done].
  apply int_literal_chars in Hn. unfold float_literal in Hf.
  change (λ a, is_digit a || Ascii.eqb a "-"%char) with is_int_char in Hf.
  rewrite span_nil in Hf by done. apply andb_true_iff in Hf as [_ Hf]. by case_match.
Qed.

(** A number's text starts none of the constants and none of the brackets. *)
Lemma number_not_constant a l r :
  forallb is_num_char (a :: l) = true → (a :: l) ≠ ["-"%char] →
  parse_constant constants ((a :: l) ++ r) = None.
Proof.
  intros Hl Hne. simpl in Hl. apply andb_true_iff in Hl as [Ha Hl].
  destruct (Ascii.eqb_spec a "-"%char) as [->|Hna].
  - destruct l as [|b l]; [done|]. simpl in Hl. apply andb_true_iff in Hl as [Hb _].
    destruct b as [[] [] [] [] [] [] [] []]; vm_compute in Hb; done.
  - destruct a as [[] [] [] [] [] [] [] []]; vm_compute in Ha; done.
Qed.

Definition ends_number (r : list ascii) : Prop :=
  match r with [] => True | a :: _ => is_num_char a = false end.

Lemma parse_value_number f s v r :
  forallb is_num_char (chars s) = true → ends_number r →
  (int_literal s = Some (match v with JInt n => n | _ => 0 end) ∧ (∃ n, v = JInt n) ∨
   int_literal s = None ∧ float_literal s = true ∧ v = JFloat s) →
  parse_value (S f) (chars s ++ r) = Some (v, r).
Proof.
  intros Hs Hr Hv.
  assert (Hne : s ≠ EmptyString ∧ s ≠ "-").
  { split; intros ->; destruct Hv as [[Hv _]|(_ & Hv & _)]; by vm_compute in Hv. }
  destruct Hne as [Hne1 Hne2].
  assert (Hpn : parse_number (chars s ++ r) = Some (v, r)).
  { unfold parse_number. rewrite span_all by done. rewrite of_chars_chars.
    destruct Hv as [[Hi (n & ->)]|(Hi & Hf & ->)]; rewrite Hi; [done|]. by rewrite Hf. }
  destruct s as [|a s]; [done|]. cbn [chars app] in *.
  assert (Hc : parse_constant constants ((a :: chars s) ++ r) = None).
  { apply number_not_constant; [done|]. intros [= -> Hs0]. apply Hne2.
    destruct s; [done|]. done. }
  pose proof (proj1 (andb_true_iff _ _) Hs) as [Ha _].
  cbn [parse_value app] in *.
  repeat match goal with |- context [Ascii.eqb a ?c] => destruct (Ascii.eqb_spec a c) as [->|_]; [done|] end.
  by rewrite Hc.
Qed.

(** *** Strings *)
Definition unit_of (a : ascii) : str_unit :=
  if (code a <? 32) && negb (existsb (Ascii.eqb a) ["010"; "013"; "009"; "012"; "008"]%char)
  then UCode (code a) else UByte a.

Lemma parse_units_escape a l :
  parse_units (escape_char a ++ l) = '(us, r) ← parse_units l; Some (unit_of a :: us, r).
Proof. destruct a as [[] [] [] [] [] [] [] []]; reflexivity. Qed.

Lemma of_units_unit a us : of_units (unit_of a :: us) = a :: of_units us.
Proof. destruct a as [[] [] [] [] [] [] [] []]; try reflexivity; by destruct us as [|[]]. Qed.

Lemma parse_str_dump s r :
  parse_str (flat_map escape_char (chars s) ++ "034"%char :: r) = Some (s, r).
Proof.
  unfold parse_str.
  assert (H : ∀ l, parse_units (flat_map escape_char l ++ "034"%char :: r) = Some (unit_of <$> l, r)).
  { induction l as [|a l IH]; [done|]. simpl flat_map. rewrite <- app_assoc.
    rewrite parse_units_escape, IH. done. }
  rewrite H. simpl.
  assert (Hu : ∀ l, of_units (unit_of <$> l) = l).
  { induction l as [|a l IH]; [done|]. rewrite fmap_cons, of_units_unit. by rewrite IH. }
  by rewrite Hu, of_chars_chars.
Qed.

(** *** Arrays, objects and whole values *)
Definition dump_items : list json → res (list (list ascii)) :=
  fix go l := match l with
  | [] => Ok []
  | x :: l' => p ← dump_chars x; ps ← go l'; Ok (p :: ps)
  end.

Definition dump_members : list (string * json) → res (list (list ascii)) :=
  fix go d := match d with
  | [] => Ok []
  | (k, x) :: d' => p ← dump_chars x; ps ← go d'; Ok ((dump_str k ++ chars ": " ++ p) :: ps)
  end.

Lemma dump_chars_list l : dump_chars (JList l) =
  ps ← dump_items l; Ok (["["%char] ++ join_chars comma_sep ps ++ ["]"%char]).
Proof. reflexivity. Qed.

Lemma dump_chars_obj d : dump_chars (JObj d) =
  ps ← dump_members d; Ok (["{"%char] ++ join_chars comma_sep ps ++ ["}"%char]).
Proof. reflexivity. Qed.

Lemma dump_items_cons x l ps : dump_items (x :: l) = Ok ps →
  ∃ p ps', dump_chars x = Ok p ∧ dump_items l = Ok ps' ∧ ps = p :: ps'.
Proof. simpl. destruct (dump_chars x), (dump_items l); simpl; naive_solver. Qed.

Lemma dump_members_cons k x d ps : dump_members ((k, x) :: d) = Ok ps →
  ∃ p ps', dump_chars x = Ok p ∧ dump_members d = Ok ps' ∧ ps = (dump_str k ++ chars ": " ++ p) :: ps'.
Proof. simpl. destruct (dump_chars x), (dump_members d); simpl; naive_solver. Qed.

(** A character that can start a value: no white space, no closing bracket. *)
Definition starts_value (a : ascii) : Prop :=
  is_ws a = false ∧ Ascii.eqb a "]"%char = false ∧ Ascii.eqb a "}"%char = false.

Lemma num_char_starts a : is_num_char a = true → starts_value a.
Proof. destruct a as [[] [] [] [] [] [] [] []]; vm_compute; intros; try done. Qed.

Lemma text_starts s a : head (chars s) = Some a → forallb is_num_char (chars s) = true →
  ∃ b t, chars s = b :: t ∧ starts_value b.
Proof.
  destruct (chars s) as [|b t]; [done|]. simpl. intros _ [Hb _]%andb_true_iff.
  eauto using num_char_starts.
Qed.

Lemma number_head s : (∃ n, int_literal s = Some n) ∨ float_literal s = true → ∃ a, head (chars s) = Some a.
Proof. destruct s; [|eauto]. intros [[n Hn]|Hf]; by vm_compute in *. Qed.

Lemma float_num_chars s : float_literal s = true → forallb is_num_char (chars s) = true.
Proof.
  unfold float_literal. destruct (span _ _). intros [H _]%andb_true_iff. exact H.
Qed.

Lemma str_of_Z_num_chars n : forallb is_num_char (chars (str_of_Z n)) = true.
Proof. apply int_num_chars, str_of_Z_int_chars. Qed.

Lemma dump_starts v t : json_ok v → dump_chars v = Ok t → ∃ a t', t = a :: t' ∧ starts_value a.
Proof.
  intros Hv. inv Hv; simpl; intros Ht.
  - inv Ht. by eexists _, _.
  - destruct b; inv Ht; by eexists _, _.
  - inv Ht. destruct (number_head (str_of_Z n)) as [a Ha]; [left; eauto using int_literal_str|].
    by apply (text_starts _ a), str_of_Z_num_chars.
  - inv Ht. destruct H as [Hf|Hc].
    + destruct (number_head t0) as [a Ha]; [by right|].
      by apply (text_starts _ a), float_num_chars.
    + rewrite !elem_of_cons in Hc. destruct Hc as [->|[->|[->|Hc]]]; [by eexists _, _..|].
      by apply not_elem_of_nil in Hc.
  - inv Ht. by eexists _, _.
  - change (dump_chars (JList l) = Ok t) in Ht. rewrite dump_chars_list in Ht.
    destruct (dump_items l); inv Ht. by eexists _, _.
  - change (dump_chars (JObj d) = Ok t) in Ht. rewrite dump_chars_obj in Ht.
    destruct (dump_members d); inv Ht. by eexists _, _.
Qed.

Lemma skip_ws_starts a l : starts_value a → skip_ws (a :: l) = a :: l.
Proof. intros [Ha _]. unfold skip_ws. simpl. by rewrite Ha. Qed.

(** What it means that a value's text is read back, whatever follows it. *)
Definition reads (v : json) : Prop := ∀ t r f,
  json_ok v → dump_chars v = Ok t → ends_number r → (length t ≤ f)%nat →
  parse_value f (t ++ r) = Some (v, r).

Lemma join_chars_cons sep p ps :
  join_chars sep (p :: ps) = match ps with [] => p | _ => p ++ sep ++ join_chars sep ps end.
Proof. by destruct ps. Qed.

Lemma join_chars_snoc sep p ps r : 
  join_chars sep (p :: ps) ++ r = p ++ match ps with [] => r | _ => sep ++ (join_chars sep ps ++ r) end.
Proof. rewrite join_chars_cons. destruct ps; [done|]. by rewrite <- !app_assoc. Qed.

Lemma parse_items_dump l ps r f :
  Forall reads l → Forall json_ok l → l ≠ [] → dump_items l = Ok ps →
  (length (join_chars comma_sep ps) < f)%nat →
  parse_items f (join_chars comma_sep ps ++ "]"%char :: r) = Some (l, r).
Proof.
  intros Hr. revert ps f. induction Hr as [|x l Hx Hr IH]; intros ps f Hok Hne Hps Hf; [done|].
  apply Forall_cons_1 in Hok as [Hox Hok].
  apply dump_items_cons in Hps as (p & ps' & Hp & Hps' & ->).
  destruct f as [|f]; [lia|]. rewrite join_chars_snoc. rewrite join_chars_cons in Hf. cbn [parse_items].
  destruct l as [|y l].
  - inv Hps'. rewrite (Hx p); [done|done|done|done|lia].
  - destruct (dump_items_cons _ _ _ Hps') as (q & qs & Hq & _ & ->).
    rewrite !length_app in Hf. change (length comma_sep) with 2%nat in Hf.
    rewrite (Hx p); [|done|done|done|lia].
    cbn -[skip_ws join_chars parse_items].
    match goal with |- context[skip_ws (","%char :: " "%char :: ?X)] =>
      change (skip_ws (","%char :: " "%char :: X)) with (","%char :: " "%char :: X) end.
    cbn -[skip_ws join_chars parse_items].
    apply Forall_cons_1 in Hok as Hok'. destruct Hok' as [Hoy _].
    destruct (dump_starts _ _ Hoy Hq) as (a & t' & -> & Ha).
    assert (Hskip : skip_ws (" "%char :: join_chars comma_sep ((a :: t') :: qs) ++ "]"%char :: r) =
                    join_chars comma_sep ((a :: t') :: qs) ++ "]"%char :: r).
    { rewrite join_chars_snoc. unfold skip_ws. simpl drop_while. by apply skip_ws_starts. }
    change [","%char; " "%char] with comma_sep. rewrite Hskip, (IH _ f); [done|done|done|done|lia].
Qed.

Lemma parse_members_dump d ps r f :
  Forall (λ kv, reads kv.2) d → Forall (λ kv, json_ok kv.2) d → d ≠ [] → dump_members d = Ok ps →
  (length (join_chars comma_sep ps) < f)%nat →
  parse_members f (join_chars comma_sep ps ++ "}"%char :: r) = Some (d, r).
Proof.
  intros Hr. revert ps f. induction Hr as [|[k x] d Hx Hr IH]; intros ps f Hok Hne Hps Hf; [done|].
  apply Forall_cons_1 in Hok as [Hox Hok]. simpl in Hx, Hox.
  apply dump_members_cons in Hps as (p & ps' & Hp & Hps' & ->).
  destruct (dump_starts _ _ Hox Hp) as (b & u & Hbu & Hb).
  destruct f as [|f]; [lia|]. rewrite join_chars_snoc. rewrite join_chars_cons in Hf.
  unfold dump_str. rewrite <- !app_assoc.
  assert (Hp' : (length p < f)%nat).
  { destruct ps'; rewrite !length_app in Hf; simpl in Hf; lia. }
  assert (Hskip1 : ∀ l, skip_ws (" "%char :: p ++ l) = p ++ l).
  { intros l. rewrite Hbu. unfold skip_ws. simpl. by apply skip_ws_starts. }
  assert (Hkey : ∀ X, parse_members (S f) ("034"%char :: flat_map escape_char (chars k) ++ "034"%char ::
             ":"%char :: " "%char :: p ++ X) =
           match skip_ws X with
           | [] => None
           | a :: r3 =>
               if Ascii.eqb a "}"%char then Some ([(k, x)], r3)
               else if Ascii.eqb a ","%char then
                 '(kvs, r4) ← parse_members f (skip_ws r3); Some ((k, x) :: kvs, r4)
               else None
           end ∨ ¬ ends_number X).
  { intros X. destruct (decide (is_num_char <$> head X = Some true)) as [Hn|Hn];
      [right; destruct X; naive_solver congruence|left].
    cbn [parse_members]. simpl (Ascii.eqb _ _). cbn iota. rewrite parse_str_dump.
    cbn -[skip_ws parse_value parse_members].
    match goal with |- context[skip_ws (":"%char :: ?Y)] => change (skip_ws (":"%char :: Y)) with (":"%char :: Y) end.
    cbn -[skip_ws parse_value parse_members].
    rewrite Hskip1, (Hx p); [done|done|done| |lia].
    destruct X as [|c X]; [done|]. simpl in *. by destruct (is_num_char c). }
  change (chars ": ") with [":"%char; " "%char]. repeat (rewrite <- ?app_assoc; cbn [app]).
  destruct d as [|[k' y] d].
  - simpl in Hps'. injection Hps' as <-.
    destruct (Hkey ("}"%char :: r)) as [Hk|[]]; [|done]. etrans; [exact Hk|done].
  - destruct (dump_members_cons _ _ _ _ Hps') as (q & qs & Hq & _ & ->).
    rewrite !length_app in Hf. change (length comma_sep) with 2%nat in Hf.
    destruct (Hkey (comma_sep ++ join_chars comma_sep ((dump_str k' ++ chars ": " ++ q) :: qs) ++ "}"%char :: r))
      as [Hk|[]]; [|done].
    assert (HIH := IH _ f Hok ltac:(done) Hps' ltac:(clear -Hf; rewrite ?length_app in *; lia)).
    match type of Hk with _ = ?R => transitivity R; [exact Hk|] end.
    match type of HIH with parse_members _ ?J = _ =>
      change (skip_ws (comma_sep ++ J)) with (","%char :: " "%char :: J);
      assert (HY : skip_ws (" "%char :: J) = J) by (rewrite join_chars_snoc; done) end.
    cbv beta iota zeta. rewrite HY, HIH. done.
Qed.

Lemma parse_value_list l ps r f :
  Forall reads l → Forall json_ok l → dump_items l = Ok ps →
  (length (["["%char] ++ join_chars comma_sep ps ++ ["]"%char]) ≤ f)%nat →
  parse_value f ((["["%char] ++ join_chars comma_sep ps ++ ["]"%char]) ++ r) = Some (JList l, r).
Proof.
  intros Hr Hok Hps Hf. destruct f as [|f]; [simpl in Hf; lia|]. rewrite !length_app in Hf. simpl in Hf.
  rewrite <- !app_assoc. cbn [app].
  destruct l as [|x l]; [inv Hps; done|].
  assert (Hpi := parse_items_dump (x :: l) ps r f Hr Hok ltac:(done) Hps ltac:(lia)).
  destruct (dump_items_cons _ _ _ Hps) as (p & ps' & Hp & _ & ->).
  apply Forall_cons_1 in Hok as [Hox _].
  destruct (dump_starts _ _ Hox Hp) as (a & t' & -> & Ha).
  rewrite join_chars_snoc in *. cbn [app] in *. cbn [parse_value]. simpl (Ascii.eqb _ _). cbn iota.
  rewrite skip_ws_starts by done. destruct Ha as (_ & Hbr & _). rewrite Hbr. by rewrite Hpi.
Qed.

Lemma parse_value_obj d ps r f :
  Forall (λ kv, reads kv.2) d → Forall (λ kv, json_ok kv.2) d → NoDup d.*1 → dump_members d = Ok ps →
  (length (["{"%char] ++ join_chars comma_sep ps ++ ["}"%char]) ≤ f)%nat →
  parse_value f ((["{"%char] ++ join_chars comma_sep ps ++ ["}"%char]) ++ r) = Some (JObj d, r).
Proof.
  intros Hr Hok Hnd Hps Hf. destruct f as [|f]; [simpl in Hf; lia|]. rewrite !length_app in Hf. simpl in Hf.
  rewrite <- !app_assoc. cbn [app].
  destruct d as [|[k x] d]; [inv Hps; done|].
  assert (Hpi := parse_members_dump ((k, x) :: d) ps r f Hr Hok ltac:(done) Hps ltac:(lia)).
  destruct (dump_members_cons _ _ _ _ Hps) as (p & ps' & Hp & _ & ->).
  rewrite join_chars_snoc in *. unfold dump_str in *. cbn [app] in *. cbn [parse_value].
  simpl (Ascii.eqb _ _). cbn iota. rewrite skip_ws_starts by done. simpl (Ascii.eqb _ _). cbn iota.
  rewrite Hpi. simpl. by rewrite dict_of_NoDup.
Qed.

Lemma parse_dump v : reads v.
Proof.
  induction v using json_nested_ind; intros u r f Hok Hd Hr Hf;
    [..|rename H into IH|rename H into IH].
  - inv Hd. destruct f as [|f]; [simpl in Hf; lia|]. done.
  - destruct b; inv Hd; (destruct f as [|f]; [simpl in Hf; lia|]; done).
  - inv Hd. destruct f as [|f].
    { destruct (number_head (str_of_Z n)) as [a Ha]; [left; eauto using int_literal_str|].
      destruct (chars (str_of_Z n)); [done|simpl in Hf; lia]. }
    apply parse_value_number; [apply str_of_Z_num_chars|done|left]. eauto using int_literal_str.
  - inv Hd. inv Hok. destruct H0 as [Hl|Hc].
    + destruct f as [|f].
      { destruct (number_head t) as [a Ha]; [by right|]. destruct (chars t); [done|simpl in Hf; lia]. }
      apply parse_value_number; [by apply float_num_chars|done|right]. eauto using float_not_int.
    + destruct f as [|f]; [|rewrite !elem_of_cons in Hc; destruct Hc as [->|[->|[->|Hc]]]; [done..|];
        by apply not_elem_of_nil in Hc].
      rewrite !elem_of_cons in Hc. destruct Hc as [->|[->|[->|Hc]]]; [simpl in Hf; lia..|].
      by apply not_elem_of_nil in Hc.
  - inv Hd. destruct f as [|f]; [simpl in Hf; lia|]. unfold dump_str. cbn [app parse_value].
    simpl (Ascii.eqb _ _). cbn iota. rewrite <- app_assoc. simpl ([_] ++ _). by rewrite parse_str_dump.
  - inv Hok.
  - rewrite dump_chars_list in Hd. destruct (dump_items l) as [ps|] eqn:Hps; inv Hd. inv Hok.
    by apply parse_value_list.
  - rewrite dump_chars_obj in Hd. destruct (dump_members d) as [ps|] eqn:Hps; inv Hd. inv Hok.
    by apply parse_value_obj.
Qed.

(** What [dumps] writes [loads] reads back as the same value. *)
Lemma loads_dumps v s : json_ok v → dumps v = Ok s → loads s = Ok v.
Proof.
  intros Hok. unfold dumps. destruct (dump_chars v) as [t|] eqn:Hd; intros [= <-].
  destruct (dump_starts _ _ Hok Hd) as (a & t' & -> & Ha).
  unfold loads. rewrite chars_of_chars, skip_ws_starts by done.
  assert (Hlen : ∀ l, (length l ≤ S (String.length (of_chars l)))%nat).
  { induction l; simpl in *; lia. }
  assert (Hp := parse_dump v (a :: t') [] _ Hok Hd I (Hlen _)).
  rewrite app_nil_r in Hp.
  by rewrite Hp.
Qed.

Lemma json_ok_dumps v : json_ok v → is_ok (dumps v) = true.
Proof.
  intros Hok. unfold dumps. assert (H : is_ok (dump_chars v) = true); [|by destruct (dump_chars v)].
  induction v using json_nested_ind; inv Hok; try done; [by destruct b|..].
  - change (is_ok (dump_chars (JList l)) = true). rewrite dump_chars_list. assert (Hl : is_ok (dump_items l) = true); [|by destruct (dump_items l)].
    induction l as [|x l IHl]; [done|]. apply Forall_cons in H as [? ?], H1 as [? ?]. simpl.
    destruct (dump_chars x); [|naive_solver]. destruct (dump_items l); naive_solver.
  - change (is_ok (dump_chars (JObj d)) = true). rewrite dump_chars_obj. assert (Hl : is_ok (dump_members d) = true); [|by destruct (dump_members d)].
    induction d as [|[k x] d IHl]; [done|]. apply Forall_cons in H as [? ?], H2 as [? ?].
    apply NoDup_cons in H1 as [? ?]. simpl in *.
    destruct (dump_chars x); [|naive_solver]. destruct (dump_members d); naive_solver.
Qed.
