(* ===== verification/Sql.v ===== *)
(** * Statements over a table

    A table is the list of its rows in insertion order. [select_where],
    [update_where], [delete_where], [first_by] and [order_by] are what
    [SELECT], [UPDATE], [DELETE], [ORDER BY ... LIMIT 1] and [ORDER BY] do to
    it. A [WHERE] condition is a bool: a comparison with [NULL], which SQL
    calls unknown, selects nothing, so it is [false]. *)

From Stdlib Require Import ZArith Lia.
From S2P Require Import Prelude.

Section sql.
Context {A : Type}.
Implicit Types (p : A → bool) (t : list A).

Definition select_where p t : list A := filter (λ x, p x = true) t.

(** [UPDATE]: the new table and the row count. *)
Definition update_where p (f : A → A) t : list A * Z :=
  ((λ x, if p x then f x else x) <$> t, Z.of_nat (length (select_where p t))).

(** [DELETE]: the new table and the rows deleted. *)
Definition delete_where p t : list A * list A := (filter (λ x, p x = false) t, select_where p t).

(** The least row for [le], the first one among equals. *)
Fixpoint first_by (le : A → A → bool) t : option A :=
  match t with
  | [] => None
  | x :: t' =>
      match first_by le t' with
      | None => Some x
      | Some y => Some (if le x y then x else y)
      end
  end.

Definition order_by (le : A → A → Prop) `{∀ x y, Decision (le x y)} t : list A := merge_sort le t.

Lemma elem_of_select p t x : x ∈ select_where p t ↔ x ∈ t ∧ p x = true.
Proof. unfold select_where. rewrite list_elem_of_filter. tauto. Qed.

Lemma elem_of_delete p t x : x ∈ (delete_where p t).1 ↔ x ∈ t ∧ p x = false.
Proof. unfold delete_where. simpl. rewrite list_elem_of_filter. tauto. Qed.

Lemma elem_of_update p f t x :
  x ∈ (update_where p f t).1 ↔ ∃ y, y ∈ t ∧ x = if p y then f y else y.
Proof. unfold update_where. simpl. rewrite list_elem_of_fmap. naive_solver. Qed.

Lemma delete_where_length p t :
  (length (delete_where p t).1 + length (delete_where p t).2 = length t)%nat.
Proof.
  unfold delete_where, select_where. simpl. induction t as [|x t IH]; [done|].
  rewrite !filter_cons. destruct (p x); simpl; lia.
Qed.

(** What a [DELETE] returns is what it took out of the table. *)
Lemma delete_where_Permutation p t : (delete_where p t).2 ++ (delete_where p t).1 ≡ₚ t.
Proof.
  unfold delete_where, select_where. simpl. induction t as [|x t IH]; [done|].
  rewrite !filter_cons. destruct (p x); simpl; [by constructor|].
  rewrite <- IH at 3. by rewrite Permutation_middle.
Qed.

Lemma update_where_keys {B} (k : A → B) p f t :
  (∀ x, k (f x) = k x) → k <$> (update_where p f t).1 = k <$> t.
Proof.
  intros Hk. unfold update_where. simpl. rewrite <- list_fmap_compose. apply list_fmap_ext.
  intros i x _. simpl. destruct (p x); auto.
Qed.

Lemma update_where_omap {B} (k : A → option B) p f t :
  (∀ x, k (f x) = k x) → omap k (update_where p f t).1 = omap k t.
Proof.
  intros Hk. unfold update_where. simpl. induction t as [|x t IH]; [done|].
  rewrite fmap_cons. cbn [omap list_omap]. fold (@omap list _ A B). change (list_omap A B k) with (omap k).
  rewrite IH. destruct (p x); [by rewrite Hk|done].
Qed.

Lemma update_where_length p f t : length (update_where p f t).1 = length t.
Proof. apply length_fmap. Qed.

Lemma delete_where_keys {B} (k : A → B) p t : NoDup (k <$> t) → NoDup (k <$> (delete_where p t).1).
Proof. apply NoDup_fmap_filter. Qed.

Lemma delete_where_none p t : (delete_where p t).2 = [] → (delete_where p t).1 = t.
Proof.
  intros Hn. apply filter_all. intros x Hx. destruct (p x) eqn:Hp; [|done].
  assert (Hin : x ∈ (delete_where p t).2) by (apply elem_of_select; done).
  rewrite Hn in Hin. by apply not_elem_of_nil in Hin.
Qed.

Lemma update_where_zero p f t : (update_where p f t).2 = 0 → (update_where p f t).1 = t.
Proof.
  unfold update_where. simpl. intros Hz. assert (Hs : select_where p t = []).
  { destruct (select_where p t); [done|simpl in Hz; lia]. }
  etrans; [|apply list_fmap_id]. apply list_fmap_ext. intros i x Hi.
  destruct (p x) eqn:Hp; [|done].
  assert (Hin : x ∈ select_where p t) by (apply elem_of_select; split; [by eapply list_elem_of_lookup_2|done]).
  rewrite Hs in Hin. by apply not_elem_of_nil in Hin.
Qed.

Lemma first_by_None le t : first_by le t = None ↔ t = [].
Proof. destruct t as [|x t]; simpl; [done|]. split; [|done]. by destruct (first_by le t). Qed.

Lemma first_by_elem le t x : first_by le t = Some x → x ∈ t.
Proof.
  revert x. induction t as [|y t IH]; simpl; [done|]. intros x.
  destruct (first_by le t) as [z|]; intros [= <-]; [|left].
  destruct (le y z); [left|right; auto].
Qed.

Lemma first_by_least le t x :
  (∀ a b, le a b = true ∨ le b a = true) → (∀ a b c, le a b = true → le b c = true → le a c = true) →
  first_by le t = Some x → ∀ y, y ∈ t → le x y = true.
Proof.
  intros Htot Htrans. revert x. induction t as [|a t IH]; simpl; [done|]. intros x Hx y Hy.
  assert (Hrefl : ∀ b, le b b = true) by (intros b; by destruct (Htot b b)).
  apply elem_of_cons in Hy. destruct (first_by le t) as [z|] eqn:Hz; simplify_eq.
  - specialize (IH z eq_refl). destruct (le a z) eqn:Haz; destruct Hy as [->|Hy]; eauto.
    destruct (Htot a z); congruence.
  - apply first_by_None in Hz as ->. destruct Hy as [->|Hy]; [done|]. by apply not_elem_of_nil in Hy.
Qed.

Lemma order_by_Permutation (le : A → A → Prop) `{∀ x y, Decision (le x y)} t : order_by le t ≡ₚ t.
Proof. apply merge_sort_Permutation. Qed.
End sql.
