(* ===== verification/QueueJob.v ===== *)
(** * The job and the handler lookup

    [queue/job.py] and [queue/handler.py]: the [Job] record with its methods,
    and the resolution of a job's name to a handler, with the map of
    configured handlers as an allow-list. *)

From Stdlib Require Import ZArith Lia.
From S2P Require Import Prelude PyStr Json.

Record Job := MkJob {
  id : Z;
  queue : string;
  name : string;
  payload : list (string * json);
  payload_json : string;
  attempts : Z;
  max_attempts : Z;
  handle : string;
  reserved_by : string;
  _release_delay : option Z
}.

Definition release (job : Job) (delay : Z) : Job :=
  MkJob (id job) (queue job) (name job) (payload job) (payload_json job) (attempts job)
    (max_attempts job) (handle job) (reserved_by job) (Some (Z.max 0 delay)).

Definition was_released (job : Job) : bool :=
  match _release_delay job with Some _ => true | None => false end.

(** [self._release_delay or 0] *)
Definition release_delay (job : Job) : Z := default 0 (_release_delay job).

Definition is_last_attempt (job : Job) : bool := max_attempts job <=? attempts job.

(** ** Handlers

    What a name can resolve to. [TClass] is a class with what instantiating
    it gives: the instance's [handle] attribute, absent or not callable as
    [None]. [TOther] is any object that cannot be called. *)
Inductive target (H : Type) :=
  | TStr (path : string)
  | TClass (text : string) (instance : res (option H))
  | TCallable (h : H)
  | TOther (text : string).
Arguments TStr {H} path.
Arguments TClass {H} text instance.
Arguments TCallable {H} h.
Arguments TOther {H} text.

(** The application's modules: importing one may raise, and an attribute may
    be missing. *)
Record importer (H : Type) := Importer {
  import_module : string → res ();
  module_attr : string → string → res (target H)
}.
Arguments Importer {H} _ _.
Arguments import_module {H} _ _.
Arguments module_attr {H} _ _ _.

Definition queue_error (msg : string) : exn := raise_exn QueueError msg.

Section handler.
Context {H : Type} (env : importer H).

Definition _import_target (path : string) : res (target H) :=
  let '(module_name, attribute) :=
    if any_char (Ascii.eqb ":"%char) path
    then let '(m, _, a) := partition ":"%char path in (m, a)
    else let '(m, _, a) := rpartition "."%char path in (m, a) in
  if String.eqb module_name "" || String.eqb attribute "" then
    Err (queue_error ("No handler " +:+ repr path +:+ ": expected " +:+ DQ +:+ "module:attribute" +:+ DQ
      +:+ " or " +:+ DQ +:+ "module.attribute" +:+ DQ +:+ "."))
  else
    match import_module env module_name with
    | Err e => if is_class ImportError e
               then Err (queue_error ("No handler " +:+ repr path +:+ ": " +:+ exn_msg e))
               else Err e
    | Ok _ =>
        match module_attr env module_name attribute with
        | Err e => if is_class AttributeError e
                   then Err (queue_error ("No handler " +:+ repr path +:+ ": " +:+ module_name
                          +:+ " has no " +:+ repr attribute +:+ "."))
                   else Err e
        | Ok t => Ok t
        end
    end.

Definition target_text (t : target H) : string :=
  match t with TStr p => repr p | TClass s _ => s | TCallable _ => "callable" | TOther s => s end.

(** [name in handlers.values()] *)
Definition names_value (name : string) (handlers : list (string * target H)) : bool :=
  existsb (λ kv, match kv.2 with TStr p => String.eqb p name | _ => false end) handlers.

(** Which target a name stands for, before anything is imported. *)
Definition configured (name : string) (handlers : list (string * target H)) : res (target H) :=
  match dict_get name handlers with
  | Some t => Ok t
  | None =>
      if names_value name handlers then Ok (TStr name)
      else match handlers with
           | [] => Ok (TStr name)
           | _ => Err (queue_error ("No handler " +:+ repr name
                    +:+ ": it is not one of the configured queue handlers."))
           end
  end.

Definition resolve (name : string) (handlers : list (string * target H)) : res H :=
  target ← configured name handlers;
  target ← match target with TStr path => _import_target path | t => Ok t end;
  match target with
  | TClass text instance =>
      handle ← instance;
      match handle with
      | Some h => Ok h
      | None => Err (queue_error ("Handler " +:+ repr name +:+ " resolved to " +:+ text
                       +:+ ", which has no handle() method."))
      end
  | TCallable h => Ok h
  | t => Err (queue_error ("Handler " +:+ repr name +:+ " resolved to " +:+ target_text t
                +:+ ", which is not callable."))
  end.

Definition assert_resolvable (name : string) (handlers : list (string * target H)) : res () :=
  if String.eqb name "" then Err (queue_error "A job needs a handler name.")
  else h ← resolve name handlers; Ok ().

(** The import paths a handler map names. *)
Definition configured_paths (handlers : list (string * target H)) : list string :=
  omap (λ kv, match kv.2 with TStr p => Some p | _ => None end) handlers.

Lemma names_value_spec name handlers : names_value name handlers = true ↔ name ∈ configured_paths handlers.
Proof.
  unfold names_value, configured_paths. rewrite existsb_exists, list_elem_of_omap. split.
  - intros ([k t] & Hin%list_elem_of_In & Ht). destruct t; try done. simpl in Ht.
    apply String.eqb_eq in Ht as ->. by exists (k, TStr name).
  - intros ([k t] & Hin & Ht). exists (k, t). split; [by apply list_elem_of_In|].
    destruct t; simplify_eq/=. apply String.eqb_refl.
Qed.

(** With a handler map, what is looked up is one of its values. *)
Lemma configured_value name handlers t :
  handlers ≠ [] → configured name handlers = Ok t → t ∈ handlers.*2.
Proof.
  unfold configured. intros Hne Hc. destruct (dict_get name handlers) as [u|] eqn:Hg.
  - inv Hc. apply dict_get_Some_elem in Hg. by apply (list_elem_of_fmap_2 snd) in Hg.
  - destruct (names_value name handlers) eqn:Hn; [|by destruct handlers].
    inv Hc. unfold names_value in Hn. apply existsb_exists in Hn as ([k u] & Hin%list_elem_of_In & Hu).
    destruct u; try done. simpl in Hu. apply String.eqb_eq in Hu as ->.
    by apply (list_elem_of_fmap_2 snd) in Hin.
Qed.
End handler.

(** ** The handler map is an allow-list *)

Lemma configured_str {H} (name : string) (handlers : list (string * target H)) p :
  handlers ≠ [] → configured name handlers = Ok (TStr p) → p ∈ configured_paths handlers.
Proof.
  intros Hne Hc. apply configured_value in Hc; [|done].
  apply list_elem_of_fmap in Hc as ([k t] & Ht & Hin). simpl in Ht. subst t.
  unfold configured_paths. apply list_elem_of_omap. by exists (k, TStr p).
Qed.

(** C35: once a handler map is configured, which handler a job name resolves to
    does not depend on any importable code but the import paths the map names:
    two applications that agree on those resolve every name alike, and a name
    that is neither an alias nor one of those paths is refused, whatever could
    be imported under it. *)
Theorem resolve_allow_list {H : Type} (env1 env2 : importer H) (name : string) (handlers : list (string * target H))
    (Hmap : handlers ≠ [])
    (Hagree : ∀ p, p ∈ configured_paths handlers → _import_target env1 p = _import_target env2 p) :
  resolve env1 name handlers = resolve env2 name handlers ∧
  (name ∉ handlers.*1 → name ∉ configured_paths handlers →
   ∃ msg, resolve env1 name handlers = Err (queue_error msg)).
Proof.
  split.
  - unfold resolve. destruct (configured name handlers) as [t|e] eqn:Hc; [|done].
    simpl. destruct t as [p| | |]; try done. by rewrite (Hagree p (configured_str _ _ _ Hmap Hc)).
  - intros Hk Hv. unfold resolve, configured. rewrite (proj2 (dict_get_None name handlers) Hk).
    destruct (names_value name handlers) eqn:Hn; [by apply names_value_spec in Hn|].
    destruct handlers; [done|]. eexists. reflexivity.
Qed.

Lemma resolve_allow_list_witness :
  let env1 := Importer (λ _, Ok ()) (λ _ _, Ok (TCallable 1)) in
  let env2 := Importer (λ _, Err (raise_exn ImportError "gone")) (λ _ _, Ok (TOther "")) in
  let handlers := [("mail", TCallable 7)] in
  resolve env1 "mail" handlers = Ok 7 ∧ resolve env1 "os:system" handlers = resolve env2 "os:system" handlers.
Proof.
  intros env1 env2 handlers. split; [reflexivity|].
  apply (resolve_allow_list env1 env2 "os:system" handlers).
  - discriminate.
  - intros p Hp. exfalso. vm_compute in Hp. by apply not_elem_of_nil in Hp.
Defined.
