(* ===== verification/QueueIface.v ===== *)
(** * What both queue drivers answer to

    [queue/interface.py]: the [QueueDriver] protocol as a type class over the
    store a driver keeps its jobs in, and the shapes of its reports. The
    worker and the commands are written against this class. *)

From Stdlib Require Import ZArith.
From S2P Require Import Prelude PyStr Json QueueJob.

(** A row of [queue status]. *)
Record queue_stats := QueueStats {
  qs_queue : string; qs_pending : Z; qs_delayed : Z; qs_reserved : Z; qs_total : Z
}.

(** A row of [queue failed]. When it failed is a moment on one driver and a
    stamp on the other; the command prints either. *)
Inductive failed_when := AtMoment (moment : Z) | Stamped (text : string).

Record failed_report := FailedReport {
  rep_id : Z; rep_failed_at : failed_when; rep_queue : string; rep_name : string;
  rep_attempts : Z; rep_error : string
}.

Class QueueDriver (S : Type) := {
  drv_push : string → option (list (string * json)) → Z → string → Z → option string → Z → prog S Z;
  drv_reserve : list string → Z → string → prog S (option Job);
  drv_delete : Job → prog S ();
  drv_release : Job → Z → string → prog S ();
  drv_fail : Job → string → prog S ();
  drv_pending : option string → prog S Z;
  drv_stats : prog S (list queue_stats);
  drv_failed_count : prog S Z;
  drv_failed_rows : Z → prog S (list failed_report);
  drv_retry_failed : option Z → Z → prog S Z;
  drv_forget_failed : option Z → option string → prog S Z
}.

(** ** Time

    A moment is the number of microseconds since the epoch. *)
Definition second : Z := 1000000.

(** [datetime.max] *)
Definition max_moment : Z := 253402300799999999.

(** [moment + timedelta(seconds=s)] for [s >= 0] *)
Definition add_seconds (moment s : Z) : res Z :=
  if max_moment <? moment + s * second
  then Err (raise_exn OverflowError "date value out of range")
  else Ok (moment + s * second).
