(* ===== verification/QueuePg.v ===== *)
(** * The PostgreSQL queue driver

    [queue/driver_pg.py] over the two tables of
    [queue/files/install.pgsql.sql]. Each statement is a function of the
    tables; the methods run them in the order of the source, inside a
    [transaction] where the source opens one. *)

From Stdlib Require Import ZArith Lia.
From S2P Require Import Prelude PyStr Json Sql QueueJob QueueIface.

(** ** Module level *)

Definition _TABLE_RE : string → bool := plain_table.

Definition CLAIM_ROUNDS : nat := 5.
Definition MAX_ERROR_BYTES : Z := 60000.
Definition EXHAUSTED_ERROR : string :=
  "Exceeded max attempts: the last attempt released the job, or its worker died before finishing it.".

Definition assert_table_name (table : string) : res string :=
  if _TABLE_RE table then Ok table
  else Err (queue_error (repr table +:+ " is not a plain table name")).

(** [_qualified(table)]; [identifier] is [psycopg.sql.Identifier]. *)
Definition _qualified (identifier : string → string) (table : string) : string :=
  join "." (identifier <$> split "."%char table).

Definition fit_error (error : string) : string :=
  let raw := chars error in
  let cut := Z.to_nat MAX_ERROR_BYTES in
  if Z.of_nat (length raw) <=? MAX_ERROR_BYTES then error
  else of_chars (decode_ignore cut (take cut raw)) +:+ NL +:+ "... truncated".

Definition encode_payload (payload : list (string * json)) : res string :=
  match dumps (JObj payload) with
  | Ok s => Ok s
  | Err e => if is_class TypeError e || is_class ValueError e
             then Err (queue_error ("A job payload has to be JSON encodable: " +:+ exn_msg e))
             else Err e
  end.

(** [column_names(cur)] on the cursor's [description]. *)
Definition column_names (description : option (list string)) : res (list string) :=
  match description with
  | None => Err (queue_error "Expected a result set from the queue, and the statement returned none.")
  | Some names => Ok names
  end.

(** ** The tables *)

Record job_row := JobRow {
  jr_id : Z; jr_queue : string; jr_name : string; jr_payload : string;
  jr_attempts : Z; jr_max_attempts : Z; jr_priority : Z; jr_unique_key : option string;
  jr_available_at : Z; jr_reserved_until : option Z; jr_reserved_by : option string;
  jr_last_error : string; jr_created_at : Z
}.

Record failed_row := FailedRow {
  fr_id : Z; fr_queue : string; fr_name : string; fr_payload : string;
  fr_attempts : Z; fr_error : string; fr_failed_at : Z
}.

(** The tables and the last values their [bigserial] columns gave. *)
Record pgdb := PgDb {
  jobs : list job_row; failed : list failed_row; job_seq : Z; failed_seq : Z
}.

#[export] Instance job_row_eq_dec : EqDecision job_row.
Proof. solve_decision. Defined.
#[export] Instance failed_row_eq_dec : EqDecision failed_row.
Proof. solve_decision. Defined.

(** The column types of [queue_jobs]. *)
Definition int4 (n : Z) : bool := (-2147483648 <=? n) && (n <=? 2147483647).
Definition varchar (n : Z) (s : string) : bool := py_len s <=? n.
Definition row_fits (r : job_row) : bool :=
  varchar 64 (jr_queue r) && varchar 190 (jr_name r) && int4 (jr_attempts r) && int4 (jr_max_attempts r)
  && int4 (jr_priority r) && match jr_unique_key r with Some k => varchar 190 k | None => true end
  && match jr_reserved_by r with Some by_ => varchar 64 by_ | None => true end.

Definition has_key (key : string) (r : job_row) : bool := bool_decide (jr_unique_key r = Some key).

(** [reserved_until IS NULL OR reserved_until <= moment] *)
Definition free_at (moment : Z) (r : job_row) : bool :=
  match jr_reserved_until r with None => true | Some u => u <=? moment end.

Definition _OWNED (by_ : string) (n : Z) (r : job_row) : bool :=
  bool_decide (jr_reserved_by r = Some by_) && (jr_attempts r =? n).

Definition _EXHAUSTED (moment : Z) (r : job_row) : bool :=
  (jr_max_attempts r <=? jr_attempts r) && free_at moment r.

(** [ORDER BY priority DESC, available_at, id] *)
Definition due_before (r1 r2 : job_row) : bool :=
  if jr_priority r1 =? jr_priority r2 then
    if jr_available_at r1 =? jr_available_at r2 then jr_id r1 <=? jr_id r2
    else jr_available_at r1 <? jr_available_at r2
  else jr_priority r2 <? jr_priority r1.

(** [INSERT INTO queue_jobs ... RETURNING id]: the sequence moves even when a
    column type or the unique index refuses the row. *)
Definition insert_job (r : Z → job_row) : prog pgdb Z := λ w,
  let db := w_st w in
  let i := job_seq db + 1 in
  let db' l := World (PgDb l (failed db) i (failed_seq db)) (w_log w) (w_clock w) in
  if negb (row_fits (r i)) then
    (db' (jobs db), Err (raise_exn PsycopgError "value does not fit its column"))
  else if match jr_unique_key (r i) with Some k => existsb (has_key k) (jobs db) | None => false end then
    (db' (jobs db), Err (raise_exn UniqueViolation "duplicate key value violates unique constraint"))
  else (db' (jobs db ++ [r i]), Ok i).

Definition insert_failed (r : Z → failed_row) : prog pgdb () := stmt (λ db,
  let i := failed_seq db + 1 in (PgDb (jobs db) (failed db ++ [r i]) (job_seq db) i, ())).

(** An [UPDATE] is refused as a whole when a row it writes does not fit. *)
Definition update_jobs (p : job_row → bool) (f : job_row → job_row) : prog pgdb Z := λ w,
  let db := w_st w in
  if forallb (λ r, implb (p r) (row_fits (f r))) (jobs db) then
    let '(t, n) := update_where p f (jobs db) in
    (World (PgDb t (failed db) (job_seq db) (failed_seq db)) (w_log w) (w_clock w), Ok n)
  else (w, Err (raise_exn PsycopgError "value does not fit its column")).

Definition delete_jobs (p : job_row → bool) : prog pgdb (list job_row) := stmt (λ db,
  let '(t, rows) := delete_where p (jobs db) in (PgDb t (failed db) (job_seq db) (failed_seq db), rows)).

Definition delete_failed (p : failed_row → bool) : prog pgdb Z := stmt (λ db,
  let '(t, rows) := delete_where p (failed db) in
  (PgDb (jobs db) t (job_seq db) (failed_seq db), Z.of_nat (length rows))).

Definition select_jobs (p : job_row → bool) : prog pgdb (list job_row) :=
  stmt (λ db, (db, select_where p (jobs db))).

(** [_stale(action, job)] *)
Definition _stale (action : string) (job : Job) : prog pgdb () :=
  out ("Queue " +:+ action +:+ " of job " +:+ name job +:+ " #" +:+ str_of_Z (id job)
    +:+ " ignored: " +:+ reserved_by job +:+ " no longer holds attempt " +:+ str_of_Z (attempts job)
    +:+ ", another worker took it over").

(** [PgQueue(conn, table, failed_table)] *)
Definition __init__ (table failed_table : string) : res (string * string) :=
  table ← assert_table_name table;
  failed_table ← assert_table_name failed_table;
  Ok (table, failed_table).

(** [worker[:64]] *)
Definition worker_name (worker : string) : string := py_take 64 worker.

(** ** The driver

    [locked] are the rows other sessions hold locked, which [SKIP LOCKED]
    passes over; [others] is what other sessions commit between the lookup of
    a unique key and the insert; [in_tx] says that the connection is inside a
    transaction of the caller's, which an error of the database aborts.
    [parse_timestamp] is PostgreSQL's reading of a [timestamptz] literal. *)
Section driver.
Context (locked : list Z) (others : pgdb → pgdb) (in_tx : bool) (parse_timestamp : string → option Z).

(** *** Push *)

Definition _id_for_unique (key : string) : prog pgdb (option Z) :=
  rows ← select_jobs (has_key key);
  mret (jr_id <$> head rows).

Definition new_job (queue name payload : string) (max_attempts priority : Z) (key : option string)
    (available_at created_at : Z) (i : Z) : job_row :=
  JobRow i queue name payload 0 max_attempts priority key available_at None None "" created_at.

(** [x or None] *)
Definition or_none (s : option string) : option string :=
  match s with Some k => if String.eqb k "" then None else Some k | None => None end.

Definition push (name : string) (payload : option (list (string * json))) (delay : Z) (queue : string)
    (priority : Z) (unique : option string) (max_attempts : Z) : prog pgdb Z :=
  moment ← now_utc;
  let key := or_none unique in
  existing ← (match key with Some k => _id_for_unique k | None => mret None end);
  match existing with
  | Some i => mret i
  | None =>
      encoded ← lift_res (encode_payload (default [] payload));
      available_at ← lift_res (add_seconds moment (Z.max 0 delay));
      try_except
        (stmt (λ db, (others db, ())) ;;
         insert_job (new_job (if String.eqb queue "" then "default" else queue) name encoded
                       (Z.max 1 max_attempts) priority key available_at moment))
        (is_class UniqueViolation)
        (λ e,
          existing ← (match key with
                      | Some k =>
                          if in_tx then raise (raise_exn PsycopgError "current transaction is aborted")
                          else _id_for_unique k
                      | None => mret None
                      end);
          match existing with Some i => mret i | None => raise e end)
  end.

(** *** Reserve *)

Definition claimable (queue : string) (moment : Z) (r : job_row) : bool :=
  bool_decide (jr_queue r = queue) && (jr_available_at r <=? moment) && free_at moment r.

Definition skip_locked (r : job_row) : bool := negb (bool_decide (jr_id r ∈ locked)).

Definition _candidate (queue : string) (moment : Z) : prog pgdb (option (Z * bool)) :=
  rows ← select_jobs (λ r, claimable queue moment r && skip_locked r);
  mret ((λ r, (jr_id r, jr_max_attempts r <=? jr_attempts r)) <$> first_by due_before rows).

Definition claim_row (until : Z) (by_ : string) (r : job_row) : job_row :=
  JobRow (jr_id r) (jr_queue r) (jr_name r) (jr_payload r) (jr_attempts r + 1) (jr_max_attempts r)
    (jr_priority r) (jr_unique_key r) (jr_available_at r) (Some until) (Some by_)
    (jr_last_error r) (jr_created_at r).

Definition _claim (job_id until : Z) (worker : string) (moment : Z) : prog pgdb bool :=
  rowcount ← update_jobs (λ r, (jr_id r =? job_id) && free_at moment r)
                         (claim_row until (worker_name worker));
  mret (rowcount =? 1).

Definition _read (job_id : Z) : prog pgdb (option job_row) :=
  rows ← select_jobs (λ r, jr_id r =? job_id);
  mret (head rows).

Definition _to_job (row : job_row) (reserved_by : string) : option Job :=
  match loads (jr_payload row) with
  | Ok (JObj payload) =>
      Some (MkJob (jr_id row) (jr_queue row) (jr_name row) payload (jr_payload row)
              (jr_attempts row) (jr_max_attempts row) "" reserved_by None)
  | _ => None
  end.

Definition _move_to_failed (job_id : Z) (guard : job_row → bool) (error : string) : prog pgdb bool :=
  transaction (
    rows ← delete_jobs (λ r, (jr_id r =? job_id) && guard r);
    match rows with
    | [] => mret false
    | r :: _ =>
        moment ← now_utc;
        insert_failed (λ i, FailedRow i (jr_queue r) (jr_name r) (jr_payload r) (jr_attempts r)
                              (fit_error error) moment) ;;
        mret true
    end).

(** The part of a round that is one transaction. [Some None] is the [return
    None], [None] the [continue] of an exhausted or lost candidate, and a row
    the one claimed, if it could still be read. *)
Inductive claim_outcome := NothingDue | TryNext | Claimed (row : option job_row).

Definition claim_candidate (queue : string) (moment until : Z) (worker : string) : prog pgdb claim_outcome :=
  transaction (
    found ← _candidate queue moment;
    match found with
    | None => mret NothingDue
    | Some (candidate, true) =>
        _move_to_failed candidate (_EXHAUSTED moment) EXHAUSTED_ERROR ;;
        mret TryNext
    | Some (candidate, false) =>
        claimed ← _claim candidate until worker moment;
        if claimed : bool then row ← _read candidate; mret (Claimed row) else mret TryNext
    end).

(** One iteration of the loop of [_reserve_from]: [None] continues it. *)
Definition reserve_round (queue : string) (timeout : Z) (worker : string) : prog pgdb (option (option Job)) :=
  moment ← now_utc;
  until ← lift_res (add_seconds moment (Z.max 1 timeout));
  outcome ← claim_candidate queue moment until worker;
  match outcome with
  | NothingDue => mret (Some None)
  | TryNext => mret None
  | Claimed None => mret None
  | Claimed (Some row) =>
      match _to_job row (worker_name worker) with
      | None =>
          _move_to_failed (jr_id row) (_OWNED (worker_name worker) (jr_attempts row))
            "Payload is not valid JSON, so no handler could be given it." ;;
          mret None
      | Some job => mret (Some (Some job))
      end
  end.

Fixpoint reserve_rounds (rounds : nat) (queue : string) (timeout : Z) (worker : string) : prog pgdb (option Job) :=
  match rounds with
  | O => mret None
  | S rounds =>
      r ← reserve_round queue timeout worker;
      match r with
      | Some result => mret result
      | None => reserve_rounds rounds queue timeout worker
      end
  end.

Definition _reserve_from : string → Z → string → prog pgdb (option Job) := reserve_rounds CLAIM_ROUNDS.

Fixpoint reserve (queues : list string) (timeout : Z) (worker : string) : prog pgdb (option Job) :=
  match queues with
  | [] => mret None
  | queue :: queues =>
      job ← _reserve_from queue timeout worker;
      match job with
      | Some job => mret (Some job)
      | None => reserve queues timeout worker
      end
  end.

(** *** Completion *)

Definition owned_by (job : Job) (r : job_row) : bool :=
  (jr_id r =? id job) && _OWNED (reserved_by job) (attempts job) r.

Definition delete (job : Job) : prog pgdb () :=
  rows ← delete_jobs (owned_by job);
  if (Z.of_nat (length rows) =? 1) then mret () else _stale "delete" job.

Definition release_row (available : Z) (error : string) (r : job_row) : job_row :=
  JobRow (jr_id r) (jr_queue r) (jr_name r) (jr_payload r) (jr_attempts r) (jr_max_attempts r)
    (jr_priority r) (jr_unique_key r) available None None error (jr_created_at r).

Definition release (job : Job) (delay : Z) (error : string) : prog pgdb () :=
  moment ← now_utc;
  available ← lift_res (add_seconds moment (Z.max 0 delay));
  rowcount ← update_jobs (owned_by job) (release_row available (fit_error error));
  if rowcount =? 1 then mret () else _stale "release" job.

Definition fail (job : Job) (error : string) : prog pgdb () :=
  moved ← _move_to_failed (id job) (_OWNED (reserved_by job) (attempts job)) error;
  if moved : bool then mret () else _stale "fail" job.

(** *** Reports *)

Definition due (moment : Z) (r : job_row) : bool := (jr_available_at r <=? moment) && free_at moment r.

Definition pending (queue : option string) : prog pgdb Z :=
  moment ← now_utc;
  rows ← select_jobs (λ r, due moment r &&
            match queue with Some q => bool_decide (jr_queue r = q) | None => true end);
  mret (Z.of_nat (length rows)).

Definition count_where (p : job_row → bool) (rows : list job_row) : Z := Z.of_nat (length (select_where p rows)).

Definition stats_of (moment : Z) (rows : list job_row) (q : string) : queue_stats :=
  let rows := select_where (λ r, bool_decide (jr_queue r = q)) rows in
  QueueStats q (count_where (due moment) rows)
    (count_where (λ r, moment <? jr_available_at r) rows)
    (count_where (λ r, match jr_reserved_until r with Some u => moment <? u | None => false end) rows)
    (Z.of_nat (length rows)).

Definition stats : prog pgdb (list queue_stats) :=
  moment ← now_utc;
  rows ← select_jobs (λ _, true);
  mret (stats_of moment rows <$> order_by String.le (remove_dups (jr_queue <$> rows))).

Definition failed_count : prog pgdb Z :=
  db ← get_st; mret (Z.of_nat (length (failed db))).

(** [ORDER BY failed_at DESC, id DESC] *)
Definition failed_later (r1 r2 : failed_row) : Prop :=
  fr_failed_at r2 < fr_failed_at r1 ∨ fr_failed_at r1 = fr_failed_at r2 ∧ fr_id r2 ≤ fr_id r1.

#[export] Instance failed_later_dec r1 r2 : Decision (failed_later r1 r2).
Proof. unfold failed_later. apply _. Defined.

Definition failed_rows (limit : Z) : prog pgdb (list failed_report) :=
  db ← get_st;
  mret ((λ r, FailedReport (fr_id r) (AtMoment (fr_failed_at r)) (fr_queue r) (fr_name r) (fr_attempts r) (fr_error r))
        <$> take (Z.to_nat (Z.max 1 limit)) (order_by failed_later (failed db))).

Definition failed_before (r1 r2 : failed_row) : Prop := fr_id r1 ≤ fr_id r2.

#[export] Instance failed_before_dec r1 r2 : Decision (failed_before r1 r2).
Proof. unfold failed_before. apply _. Defined.

(** The body of the loop of [retry_failed] on one selected row. *)
Definition requeue_row (max_attempts : Z) (r : failed_row) : prog pgdb () :=
  moment ← now_utc;
  transaction (
    insert_job (new_job (fr_queue r) (fr_name r) (fr_payload r) (Z.max 1 max_attempts) 0 None moment moment) ;;
    delete_failed (λ r', fr_id r' =? fr_id r) ;;
    mret ()).

Definition retry_failed (job_id : option Z) (max_attempts : Z) : prog pgdb Z :=
  db ← get_st;
  let rows := order_by failed_before
    (select_where (λ r, match job_id with Some i => fr_id r =? i | None => true end) (failed db)) in
  for_each rows (requeue_row max_attempts) ;;
  mret (Z.of_nat (length rows)).

Definition forget_failed (job_id : option Z) (before : option string) : prog pgdb Z :=
  match job_id, before with
  | Some i, _ => delete_failed (λ r, fr_id r =? i)
  | None, Some b =>
      match parse_timestamp b with
      | None => raise (raise_exn PsycopgError "invalid input syntax for type timestamp with time zone")
      | Some t => delete_failed (λ r, fr_failed_at r <? t)
      end
  | None, None => delete_failed (λ _, true)
  end.
End driver.

Definition pg_driver (locked : list Z) (others : pgdb → pgdb) (in_tx : bool)
    (parse_timestamp : string → option Z) : QueueDriver pgdb := {|
  drv_push := push others in_tx;
  drv_reserve := reserve locked;
  drv_delete := delete;
  drv_release := release;
  drv_fail := fail;
  drv_pending := pending;
  drv_stats := stats;
  drv_failed_count := failed_count;
  drv_failed_rows := failed_rows;
  drv_retry_failed := retry_failed;
  drv_forget_failed := forget_failed parse_timestamp
|}.
