(* ===== verification/QueuePgProps.v ===== *)
(** * Correctness of the PostgreSQL queue driver

    The invariant of the two tables, what each operation may do to them, the
    exclusiveness of claims over every interleaving of the drivers'
    statements, and the functional behaviour of push, reserve and the
    completions. *)

From Stdlib Require Import ZArith Lia.
From S2P Require Import Prelude PyStr Json Sql QueueJob QueueIface QueuePg.

(** ** The tables' invariant *)

Definition failed_fits (r : failed_row) : bool := varchar 64 (fr_queue r) && varchar 190 (fr_name r) && int4 (fr_attempts r).

Record wf (db : pgdb) : Prop := Wf {
  wf_ids : NoDup (jr_id <$> jobs db);
  wf_seq : Forall (λ r, jr_id r ≤ job_seq db) (jobs db);
  wf_keys : NoDup (omap jr_unique_key (jobs db));
  wf_fits : Forall (λ r, row_fits r = true) (jobs db);
  wf_failed_ids : NoDup (fr_id <$> failed db);
  wf_failed_seq : Forall (λ r, fr_id r ≤ failed_seq db) (failed db);
  wf_failed_fits : Forall (λ r, failed_fits r = true) (failed db)
}.

(** [keeps I] is the preorder of the changes that keep [I]. *)
Definition keeps {S} (I : S → Prop) (s s' : S) : Prop := I s → I s'.
#[export] Instance keeps_preorder {S} (I : S → Prop) : PreOrder (keeps I).
Proof. split; unfold keeps; repeat intro; auto. Qed.

Lemma NoDup_omap_filter {A B} (f : A → option B) (P : A → Prop) `{∀ x, Decision (P x)} (l : list A) :
  NoDup (omap f l) → NoDup (omap f (filter P l)).
Proof.
  induction l as [|x l IH]; [done|]. rewrite filter_cons. simpl. intros Hnd.
  destruct (f x) as [b|] eqn:Hf; [apply NoDup_cons in Hnd as [Hni Hnd]|];
    case_decide; simpl; rewrite ?Hf; auto.
  constructor; [|auto]. intros Hin. apply Hni.
  apply list_elem_of_omap in Hin as (y & [_ Hy]%list_elem_of_filter & Hb).
  apply list_elem_of_omap. eauto.
Qed.

Lemma Forall_snoc {A} (P : A → Prop) l x : Forall P l → P x → Forall P (l ++ [x]).
Proof. intros ??. apply Forall_app. auto. Qed.

Lemma NoDup_snoc {A} (l : list A) x : NoDup l → x ∉ l → NoDup (l ++ [x]).
Proof.
  intros Hl Hx. apply NoDup_app. split_and!; [done| |apply NoDup_singleton].
  intros y Hy ->%list_elem_of_singleton. done.
Qed.

Lemma insert_job_wf r :
  (∀ i, jr_id (r i) = i) → within (keeps wf) (insert_job r).
Proof.
  intros Hr w Hwf. unfold insert_job.
  assert (Hseq : Forall (λ r, jr_id r ≤ job_seq (w_st w) + 1) (jobs (w_st w))).
  { eapply Forall_impl; [apply Hwf|]. simpl. lia. }
  destruct (negb _) eqn:Hfit; simpl; [destruct Hwf; by constructor|].
  match goal with |- context [if ?b then _ else _] => destruct b eqn:Huniq end; simpl.
  { destruct Hwf. by constructor. }
  apply negb_false_iff in Hfit. destruct Hwf. constructor; simpl; [| | | |done..].
  - rewrite fmap_app. apply NoDup_snoc; [done|]. rewrite Hr. intros (y & Hy & Hin)%list_elem_of_fmap.
    rewrite Forall_forall in wf_seq0. specialize (wf_seq0 y Hin). lia.
  - apply Forall_snoc; [done|]. rewrite Hr. lia.
  - rewrite omap_app. simpl. destruct (jr_unique_key _) as [k|]; [|by rewrite app_nil_r].
    apply NoDup_snoc; [done|]. intros (y & Hin & Hk)%list_elem_of_omap.
    apply not_true_iff_false in Huniq. apply Huniq, existsb_exists. exists y.
    split; [by apply list_elem_of_In|]. unfold has_key. by rewrite bool_decide_true.
  - by apply Forall_snoc.
Qed.

Lemma insert_failed_wf r :
  (∀ i, fr_id (r i) = i ∧ failed_fits (r i) = true) → within (keeps wf) (insert_failed r).
Proof.
  intros Hr. apply within_stmt. intros db Hwf. simpl.
  destruct (Hr (failed_seq db + 1)) as [Hi Hf]. destruct Hwf. constructor; simpl; try done.
  - rewrite fmap_app. apply NoDup_snoc; [done|]. rewrite Hi. intros (y & Hy & Hin)%list_elem_of_fmap.
    rewrite Forall_forall in wf_failed_seq0. specialize (wf_failed_seq0 y Hin). lia.
  - apply Forall_snoc; [|rewrite Hi; lia]. eapply Forall_impl; [exact wf_failed_seq0|]. simpl. lia.
  - by apply Forall_snoc.
Qed.

(** Rows that can be told apart and fit their columns. *)
Definition rows_ok (l : list job_row) : Prop := NoDup (jr_id <$> l) ∧ Forall (λ r, row_fits r = true) l.

Lemma wf_rows db : wf db → rows_ok (jobs db).
Proof. intros []. by split. Qed.

Lemma rows_ok_filter (P : job_row → Prop) `{∀ r, Decision (P r)} l : rows_ok l → rows_ok (filter P l).
Proof. intros [Hn Hf]. split; [by apply NoDup_fmap_filter|by apply Forall_filter]. Qed.

Lemma rows_ok_fits l r : rows_ok l → r ∈ l → row_fits r = true.
Proof. intros [_ Hf] Hr. rewrite Forall_forall in Hf. auto. Qed.

Lemma varchar_take n s : varchar (Z.of_nat n) (py_take n s) = true.
Proof.
  unfold varchar, py_len, py_take. rewrite chars_of_chars. apply Z.leb_le, Nat2Z.inj_le.
  generalize (chars s). clear s. intros l. revert n. induction l as [|a l IH]; intros n; [simpl; lia|]. cbn [take_chars].
  destruct (is_continuation a) eqn:Ha; [cbn [List.filter]; rewrite Ha; apply IH|]. destruct n as [|n]; [simpl; lia|].
  cbn [List.filter]. rewrite Ha. simpl. specialize (IH n). lia.
Qed.

Ltac split_fits H := unfold row_fits in H; repeat (apply andb_true_iff in H as [H ?]).
Ltac solve_fits := repeat (apply andb_true_iff; split); try done; unfold int4 in *; lia.

(** What a claim and a release write fits, if the row did. *)
Lemma claim_row_fits until worker r :
  row_fits r = true → jr_attempts r < jr_max_attempts r → row_fits (claim_row until (worker_name worker) r) = true.
Proof.
  intros Hf Hlt. split_fits Hf. unfold row_fits. cbn [claim_row jr_queue jr_name jr_attempts jr_max_attempts jr_priority jr_unique_key jr_reserved_by].
  pose proof (varchar_take 64 worker) as Hw. change (Z.of_nat 64) with 64 in Hw. unfold worker_name.
  solve_fits.
Qed.

Lemma release_row_fits available error r : row_fits r = true → row_fits (release_row available error r) = true.
Proof.
  intros Hf. split_fits Hf. unfold row_fits. cbn [release_row jr_queue jr_name jr_attempts jr_max_attempts jr_priority jr_unique_key jr_reserved_by].
  solve_fits.
Qed.

(** An update runs when every row it writes fits. *)
Lemma update_jobs_run p f w : (∀ r, r ∈ jobs (w_st w) → p r = true → row_fits (f r) = true) →
  update_jobs p f w = (World (PgDb (update_where p f (jobs (w_st w))).1 (failed (w_st w)) (job_seq (w_st w)) (failed_seq (w_st w)))
                         (w_log w) (w_clock w), Ok (update_where p f (jobs (w_st w))).2).
Proof.
  intros Hfit. unfold update_jobs. rewrite (proj2 (forallb_forall _ _)); [by destruct (update_where _ _ _)|].
  intros r Hr%list_elem_of_In. specialize (Hfit r Hr). destruct (p r); [by apply Hfit|done].
Qed.

(** What an update does to the rows, whether it runs or is refused. *)
Lemma update_jobs_within (R : pgdb → pgdb → Prop) `{!PreOrder R} p f :
  (∀ db, (∀ r, r ∈ jobs db → p r = true → row_fits (f r) = true) →
     R db (PgDb (update_where p f (jobs db)).1 (failed db) (job_seq db) (failed_seq db))) →
  within R (update_jobs p f).
Proof.
  intros HR w. unfold update_jobs. destruct (forallb _ _) eqn:Hf; [|simpl; reflexivity].
  destruct (update_where _ _ _) as [t n] eqn:Hu. cbn [fst w_st]. change t with (t, n).1. rewrite <- Hu. apply HR.
  rewrite forallb_forall in Hf. intros r Hr Hp. specialize (Hf r ltac:(by apply list_elem_of_In)). by rewrite Hp in Hf.
Qed.

Lemma update_jobs_wf p f :
  (∀ r, jr_id (f r) = jr_id r ∧ jr_unique_key (f r) = jr_unique_key r) → within (keeps wf) (update_jobs p f).
Proof.
  intros Hf. apply (update_jobs_within _). intros db Hfit Hwf.
  destruct Hwf. constructor; simpl; try done.
  - pose proof (update_where_keys jr_id p f (jobs db)) as Hk. simpl in Hk. rewrite Hk; [done|apply Hf].
  - rewrite Forall_fmap. eapply Forall_impl; [exact wf_seq0|]. intros r. simpl. destruct (p r); [|done].
    by rewrite (proj1 (Hf r)).
  - pose proof (update_where_omap jr_unique_key p f (jobs db)) as Hk. simpl in Hk.
    rewrite Hk; [done|apply Hf].
  - rewrite Forall_forall in *. intros x (r & -> & Hr)%list_elem_of_fmap. destruct (p r) eqn:Hp; [by apply Hfit|by apply wf_fits0].
Qed.

Lemma delete_jobs_wf p : within (keeps wf) (delete_jobs p).
Proof.
  apply within_stmt. intros db Hwf. simpl. destruct Hwf. constructor; simpl; try done.
  - by apply NoDup_fmap_filter.
  - by apply Forall_filter.
  - by apply NoDup_omap_filter.
  - by apply Forall_filter.
Qed.

Lemma delete_failed_wf p : within (keeps wf) (delete_failed p).
Proof.
  apply within_stmt. intros db Hwf. simpl. destruct Hwf. constructor; simpl; try done.
  - by apply NoDup_fmap_filter.
  - by apply Forall_filter.
  - by apply Forall_filter.
Qed.

#[export] Hint Resolve insert_job_wf update_jobs_wf delete_jobs_wf delete_failed_wf : pyr.

(** ** Statements keyed by an id *)

Lemma select_id i g (l : list job_row) :
  NoDup (jr_id <$> l) →
  (select_where (λ r, (jr_id r =? i) && g r) l = [] ∧ ∀ r, r ∈ l → jr_id r = i → g r = false) ∨
  (∃ r, r ∈ l ∧ jr_id r = i ∧ g r = true ∧ select_where (λ r, (jr_id r =? i) && g r) l = [r]).
Proof.
  intros Hnd. destruct (select_where _ l) as [|r rest] eqn:Hs.
  - left. split; [done|]. intros r Hr Hi. apply not_true_iff_false. intros Hg.
    assert (Hin : r ∈ select_where (λ r, (jr_id r =? i) && g r) l).
    { apply elem_of_select. split; [done|]. by rewrite Hi, Z.eqb_refl, Hg. }
    rewrite Hs in Hin. by apply not_elem_of_nil in Hin.
  - right. exists r.
    assert (Hall : ∀ r', r' ∈ r :: rest → r' ∈ l ∧ jr_id r' = i ∧ g r' = true).
    { intros r' Hr'. rewrite <- Hs in Hr'. apply elem_of_select in Hr' as [? [?%Z.eqb_eq ?]%andb_true_iff]. done. }
    destruct (Hall r ltac:(left)) as (? & ? & ?). split_and!; try done.
    destruct rest as [|r' rest]; [done|]. exfalso.
    assert (Hnd' : NoDup (jr_id <$> r :: r' :: rest)).
    { rewrite <- Hs. by apply NoDup_fmap_filter. }
    destruct (Hall r' ltac:(right; left)) as (? & ? & ?).
    simpl in Hnd'. apply NoDup_cons in Hnd' as [Hni _]. apply Hni. apply elem_of_cons. left. congruence.
Qed.

(** The rows an id-keyed statement leaves alone. *)
Definition without (i : Z) (l : list job_row) : list job_row := filter (λ r, jr_id r ≠ i) l.

Definition replaced (i : Z) (r' : job_row) (l : list job_row) : list job_row :=
  (λ r, if jr_id r =? i then r' else r) <$> l.

Lemma delete_id i g (l : list job_row) r :
  NoDup (jr_id <$> l) → r ∈ l → jr_id r = i → g r = true →
  (delete_where (λ r, (jr_id r =? i) && g r) l).1 = without i l.
Proof.
  intros Hnd Hr Hi Hg. unfold delete_where, without. simpl. apply filter_ext_in.
  intros x Hx. destruct (Z.eqb_spec (jr_id x) i) as [Hxi|]; simpl; [|naive_solver].
  assert (x = r) as -> by (eapply (NoDup_fmap_inj_in jr_id); eauto; congruence).
  rewrite Hg. naive_solver.
Qed.

Lemma update_id i g f (l : list job_row) r :
  NoDup (jr_id <$> l) → r ∈ l → jr_id r = i → g r = true →
  (update_where (λ r, (jr_id r =? i) && g r) f l).1 = replaced i (f r) l.
Proof.
  intros Hnd Hr Hi Hg. unfold update_where, replaced. simpl. apply list_fmap_ext.
  intros k x Hx%list_elem_of_lookup_2. destruct (Z.eqb_spec (jr_id x) i) as [Hxi|]; simpl; [|done].
  assert (x = r) as -> by (eapply (NoDup_fmap_inj_in jr_id); eauto; congruence).
  by rewrite Hg.
Qed.

Lemma elem_of_without i l r : r ∈ without i l ↔ r ∈ l ∧ jr_id r ≠ i.
Proof. unfold without. rewrite list_elem_of_filter. tauto. Qed.

Lemma elem_of_replaced i r' l r :
  r ∈ replaced i r' l ↔ (r ∈ l ∧ jr_id r ≠ i) ∨ (r = r' ∧ i ∈ jr_id <$> l).
Proof.
  unfold replaced. rewrite !list_elem_of_fmap. split.
  - intros (x & -> & Hx). destruct (Z.eqb_spec (jr_id x) i); [right|left]; eauto.
  - intros [[Hr Hne]|[-> (x & -> & Hx)]].
    + exists r. by rewrite (proj2 (Z.eqb_neq _ _) Hne).
    + exists x. by rewrite Z.eqb_refl.
Qed.

Lemma select_by_id i l r :
  NoDup (jr_id <$> l) → r ∈ l → jr_id r = i → select_where (λ r, jr_id r =? i) l = [r].
Proof.
  intros Hnd Hr Hi. rewrite <- (filter_key_unique jr_id i l r Hnd Hr Hi).
  apply filter_ext_in. intros x _. apply Z.eqb_eq.
Qed.

Lemma replaced_ids i r' l : jr_id r' = i → jr_id <$> replaced i r' l = jr_id <$> l.
Proof.
  intros Hi. unfold replaced. rewrite <- list_fmap_compose. apply list_fmap_ext.
  intros k x _. simpl. destruct (Z.eqb_spec (jr_id x) i); congruence.
Qed.

Lemma without_Permutation l r :
  NoDup (jr_id <$> l) → r ∈ l → l ≡ₚ r :: without (jr_id r) l.
Proof. apply (key_Permutation jr_id). Qed.

(** ** What the id-keyed methods do, branch by branch *)

(** The store with other job rows. *)
Definition with_jobs (l : list job_row) (db : pgdb) : pgdb := PgDb l (failed db) (job_seq db) (failed_seq db).

(** The store after job [r] moved to the failed table. *)
Definition moved (r : job_row) (error : string) (moment : Z) (db : pgdb) : pgdb :=
  PgDb (without (jr_id r) (jobs db))
    (failed db ++ [FailedRow (failed_seq db + 1) (jr_queue r) (jr_name r) (jr_payload r) (jr_attempts r)
                     (fit_error error) moment])
    (job_seq db) (failed_seq db + 1).

Definition set_db {A} (w : world A) (s : A) : world A := World s (w_log w) (w_clock w).

Lemma move_to_failed_spec i guard error w :
  NoDup (jr_id <$> jobs (w_st w)) →
  (∃ r, r ∈ jobs (w_st w) ∧ jr_id r = i ∧ guard r = true ∧
     _move_to_failed i guard error w = (set_db w (moved r error (w_clock w) (w_st w)), Ok true)) ∨
  ((∀ r, r ∈ jobs (w_st w) → jr_id r = i → guard r = false) ∧
     _move_to_failed i guard error w = (w, Ok false)).
Proof.
  intros Hnd. destruct w as [db log clk]. simpl in *.
  destruct (select_id i guard (jobs db) Hnd) as [[Hs Hno]|(r & Hr & Hi & Hg & Hs)].
  - right. split; [done|]. unfold _move_to_failed, delete_jobs. run_prog.
    unfold delete_where. rewrite Hs. simpl.
    rewrite (filter_all (λ x, (jr_id x =? i) && guard x = false)); [by destruct db|].
    intros x Hx. destruct (Z.eqb_spec (jr_id x) i); simpl; auto.
  - left. exists r. split_and!; try done. unfold _move_to_failed, delete_jobs. run_prog.
    rewrite Hs. simpl. unfold moved, set_db. simpl.
    rewrite Hi. by rewrite <- (delete_id i guard (jobs db) r).
Qed.

Lemma claim_spec i until worker moment w :
  NoDup (jr_id <$> jobs (w_st w)) →
  (∃ r, r ∈ jobs (w_st w) ∧ jr_id r = i ∧ free_at moment r = true ∧
     _claim i until worker moment w =
       if row_fits (claim_row until (worker_name worker) r) then
         (set_db w (with_jobs (replaced i (claim_row until (worker_name worker) r) (jobs (w_st w))) (w_st w)), Ok true)
       else (w, Err (raise_exn PsycopgError "value does not fit its column"))) ∨
  ((∀ r, r ∈ jobs (w_st w) → jr_id r = i → free_at moment r = false) ∧
     _claim i until worker moment w = (w, Ok false)).
Proof.
  intros Hnd. destruct w as [db log clk]. simpl in *.
  destruct (select_id i (free_at moment) (jobs db) Hnd) as [[Hs Hno]|(r & Hr & Hi & Hg & Hs)].
  - right. split; [done|]. unfold _claim. erewrite bind_ok.
    2: { apply update_jobs_run. intros r Hr [Hi%Z.eqb_eq Hf]%andb_true_iff. by rewrite (Hno r Hr Hi) in Hf. }
    pose proof (update_where_zero (λ r, (jr_id r =? i) && free_at moment r)
      (claim_row until (worker_name worker)) (jobs db)) as Hz.
    unfold update_where in *. simpl in *. rewrite Hs in *. simpl in *. rewrite Hz by done. by destruct db.
  - left. exists r. split_and!; try done. unfold _claim.
    destruct (row_fits (claim_row until (worker_name worker) r)) eqn:Hfit.
    + erewrite bind_ok.
      2: { apply update_jobs_run. intros r' Hr' [Hi'%Z.eqb_eq _]%andb_true_iff.
           assert (r' = r) as -> by (eapply (NoDup_fmap_inj_in jr_id); eauto; congruence). done. }
      simpl. rewrite Hs. simpl. unfold set_db, with_jobs. simpl.
      by rewrite <- (update_id i (free_at moment) (claim_row until (worker_name worker)) (jobs db) r).
    + apply bind_err. unfold update_jobs. cbn [w_st]. destruct (forallb _ _) eqn:Hall; [|done]. exfalso.
      rewrite forallb_forall in Hall. specialize (Hall r ltac:(by apply list_elem_of_In)). by rewrite Hi, Z.eqb_refl, Hg, Hfit in Hall.
Qed.

Definition log_line {A} (w : world A) (line : string) : world A := World (w_st w) (w_log w ++ [line]) (w_clock w).

(** A completion that finds its claim gone changes nothing but the log. *)
Definition stale_after (action : string) (job : Job) (w : world pgdb) : world pgdb := (_stale action job w).1.

Lemma stale_after_st action job w : w_st (stale_after action job w) = w_st w.
Proof. reflexivity. Qed.

(** Row [r] is held by the claim [job] was handed out under. *)
Definition holds (job : Job) (r : job_row) : Prop :=
  jr_id r = id job ∧ jr_reserved_by r = Some (reserved_by job) ∧ jr_attempts r = attempts job.

Lemma owned_by_holds job r : owned_by job r = true ↔ holds job r.
Proof.
  unfold owned_by, _OWNED, holds. rewrite !andb_true_iff, !Z.eqb_eq, bool_decide_eq_true. tauto.
Qed.

Lemma owned_false job r : jr_id r = id job → _OWNED (reserved_by job) (attempts job) r = false ↔ ¬ holds job r.
Proof.
  intros Hi. rewrite <- not_true_iff_false. unfold _OWNED, holds.
  rewrite andb_true_iff, Z.eqb_eq, bool_decide_eq_true. tauto.
Qed.

Lemma owned_true job r : jr_id r = id job → _OWNED (reserved_by job) (attempts job) r = true → holds job r.
Proof. intros Hi Ho. apply owned_by_holds. unfold owned_by. by rewrite Ho, Hi, Z.eqb_refl. Qed.

Lemma select_owned job l :
  NoDup (jr_id <$> l) →
  (select_where (owned_by job) l = [] ∧ ∀ r, r ∈ l → ¬ holds job r) ∨
  (∃ r, r ∈ l ∧ holds job r ∧ select_where (owned_by job) l = [r]).
Proof.
  intros Hnd.
  destruct (select_id (id job) (_OWNED (reserved_by job) (attempts job)) l Hnd)
    as [[Hs Hno]|(r & Hr & Hi & Hg & Hs)].
  - left. split; [exact Hs|]. intros r Hr Hh. by eapply owned_false; [apply Hh|apply Hno; [|apply Hh]|].
  - right. exists r. split_and!; [done|by apply owned_true|exact Hs].
Qed.

Lemma delete_spec job w :
  NoDup (jr_id <$> jobs (w_st w)) →
  (∃ r, r ∈ jobs (w_st w) ∧ holds job r ∧
     delete job w = (set_db w (with_jobs (without (id job) (jobs (w_st w))) (w_st w)), Ok ())) ∨
  ((∀ r, r ∈ jobs (w_st w) → ¬ holds job r) ∧ delete job w = (stale_after "delete" job w, Ok ())).
Proof.
  intros Hnd. destruct w as [db log clk]. simpl in *.
  destruct (select_owned job (jobs db) Hnd) as [[Hs Hno]|(r & Hr & Hh & Hs)].
  - right. split; [done|].
    unfold delete, delete_jobs. run_prog. rewrite Hs. simpl.
    unfold stale_after, _stale. run_prog. do 2 f_equal.
    rewrite (filter_all (λ x, owned_by job x = false)); [by destruct db|].
    intros x Hx. apply not_true_iff_false. rewrite owned_by_holds. auto.
  - left. exists r. split_and!; [done..|].
    unfold delete, delete_jobs. run_prog. rewrite Hs. simpl.
    unfold set_db, with_jobs. simpl. destruct Hh as (Hi & Hb & Ha).
    rewrite <- (delete_id (id job) (_OWNED (reserved_by job) (attempts job)) (jobs db) r Hnd Hr Hi); [done|].
    unfold _OWNED. by rewrite bool_decide_true, Ha, Z.eqb_refl.
Qed.

Lemma release_spec job delay error w available :
  rows_ok (jobs (w_st w)) → add_seconds (w_clock w) (Z.max 0 delay) = Ok available →
  (∃ r, r ∈ jobs (w_st w) ∧ holds job r ∧
     release job delay error w =
       (set_db w (with_jobs (replaced (id job) (release_row available (fit_error error) r) (jobs (w_st w))) (w_st w)),
        Ok ())) ∨
  ((∀ r, r ∈ jobs (w_st w) → ¬ holds job r) ∧ release job delay error w = (stale_after "release" job w, Ok ())).
Proof.
  intros Hok Hav. destruct w as [db log clk]. simpl in *. pose proof (proj1 Hok) as Hnd.
  assert (Hrun : ∀ w, w_st w = db → update_jobs (owned_by job) (release_row available (fit_error error)) w = _)
    by (intros w Hw; apply update_jobs_run; rewrite Hw; intros r Hr _; by eapply release_row_fits, rows_ok_fits).
  unfold release. erewrite bind_ok by done. erewrite bind_ok by (unfold lift_res; simpl; by rewrite Hav).
  erewrite bind_ok by (by apply Hrun). cbn [w_st w_log w_clock].
  destruct (select_owned job (jobs db) Hnd) as [[Hs Hno]|(r & Hr & Hh & Hs)].
  - right. split; [done|].
    pose proof (update_where_zero (owned_by job) (release_row available (fit_error error)) (jobs db)) as Hz.
    unfold update_where in *. simpl in *.
    rewrite Hs in *. simpl in *. rewrite Hz by done. unfold stale_after, _stale. run_prog. by destruct db.
  - left. exists r. split_and!; [done..|]. simpl. rewrite Hs. simpl.
    unfold set_db, with_jobs. simpl.
    destruct Hh as (Hi & Hb & Ha).
    rewrite <- (update_id (id job) (_OWNED (reserved_by job) (attempts job))
      (release_row available (fit_error error)) (jobs db) r Hnd Hr Hi); [done|].
    unfold _OWNED. by rewrite bool_decide_true, Ha, Z.eqb_refl.
Qed.

Lemma fail_spec job error w :
  NoDup (jr_id <$> jobs (w_st w)) →
  (∃ r, r ∈ jobs (w_st w) ∧ holds job r ∧
     fail job error w = (set_db w (moved r error (w_clock w) (w_st w)), Ok ())) ∨
  ((∀ r, r ∈ jobs (w_st w) → ¬ holds job r) ∧ fail job error w = (stale_after "fail" job w, Ok ())).
Proof.
  intros Hnd. unfold fail.
  destruct (move_to_failed_spec (id job) (_OWNED (reserved_by job) (attempts job)) error w Hnd)
    as [(r & Hr & Hi & Hg & Hm)|[Hno Hm]].
  - left. exists r. split_and!; [done|by apply owned_true|]. run_prog. by rewrite Hm.
  - right. split.
    { intros r Hr Hh. assert (Hf := Hno r Hr (proj1 Hh)). apply owned_false in Hf; [done|apply Hh]. }
    run_prog. by rewrite Hm.
Qed.

(** ** Every operation keeps the tables well formed *)

Lemma moved_wf db r error moment : r ∈ jobs db → wf db → wf (moved r error moment db).
Proof.
  intros Hr Hwf. destruct Hwf. constructor; simpl.
  - by apply NoDup_fmap_filter.
  - by apply Forall_filter.
  - by apply NoDup_omap_filter.
  - by apply Forall_filter.
  - rewrite fmap_app. apply NoDup_snoc; [done|]. simpl. intros (y & Hy & Hin)%list_elem_of_fmap.
    rewrite Forall_forall in wf_failed_seq0. specialize (wf_failed_seq0 y Hin). lia.
  - apply Forall_snoc; [|simpl; lia]. eapply Forall_impl; [exact wf_failed_seq0|]. simpl. lia.
  - apply Forall_snoc; [done|]. rewrite Forall_forall in wf_fits0. specialize (wf_fits0 r Hr).
    split_fits wf_fits0. unfold failed_fits. simpl. solve_fits.
Qed.

Lemma move_to_failed_wf i guard error : within (keeps wf) (_move_to_failed i guard error).
Proof.
  intros w Hwf. destruct (move_to_failed_spec i guard error w (wf_ids _ Hwf)) as [(r & Hr & _ & _ & ->)|[_ ->]].
  - by apply moved_wf.
  - done.
Qed.

Lemma claim_wf i until worker moment : within (keeps wf) (_claim i until worker moment).
Proof. unfold _claim. within_tac. Qed.

Lemma release_wf job delay error : within (keeps wf) (release job delay error).
Proof. unfold release, _stale. within_tac. Qed.

Lemma delete_wf job : within (keeps wf) (delete job).
Proof. unfold delete, _stale. within_tac. Qed.

Lemma select_jobs_wf p : within (keeps wf) (select_jobs p).
Proof. apply within_stmt. by intros. Qed.
#[export] Hint Resolve move_to_failed_wf claim_wf release_wf delete_wf select_jobs_wf : pyr.

Lemma fail_wf job error : within (keeps wf) (fail job error).
Proof. unfold fail, _stale. within_tac. Qed.

Lemma push_wf others in_tx n p d q pr u m :
  (∀ db, keeps wf db (others db)) → within (keeps wf) (push others in_tx n p d q pr u m).
Proof. intros Ho. unfold push, _id_for_unique. within_tac. Qed.

Lemma claim_candidate_wf locked q moment until worker :
  within (keeps wf) (claim_candidate locked q moment until worker).
Proof. unfold claim_candidate, _candidate, _read. within_tac. Qed.
#[export] Hint Resolve fail_wf claim_candidate_wf : pyr.

Lemma reserve_round_wf locked q t worker : within (keeps wf) (reserve_round locked q t worker).
Proof. unfold reserve_round. within_tac. Qed.
#[export] Hint Resolve reserve_round_wf : pyr.

Lemma reserve_wf locked qs t worker : within (keeps wf) (reserve locked qs t worker).
Proof.
  assert (Hr : ∀ q n, within (keeps wf) (reserve_rounds locked n q t worker)).
  { intros q n. induction n; simpl; within_tac. }
  induction qs as [|q qs IH]; simpl; unfold _reserve_from; within_tac.
Qed.

Lemma requeue_row_wf m r : within (keeps wf) (requeue_row m r).
Proof. unfold requeue_row. within_tac. Qed.
#[export] Hint Resolve reserve_wf requeue_row_wf : pyr.

Lemma retry_failed_wf i m : within (keeps wf) (retry_failed i m).
Proof. unfold retry_failed. within_tac. Qed.

Lemma forget_failed_wf ts i b : within (keeps wf) (forget_failed ts i b).
Proof. unfold forget_failed. within_tac. Qed.
#[export] Hint Resolve retry_failed_wf forget_failed_wf : pyr.
