(* ===== verification/QueuePgClaims.v ===== *)
(** * Claims on PostgreSQL jobs, whatever the interleaving

    A transition system whose steps are single statements of any number of
    drivers on the same tables, so every interleaving of [reserve], [push],
    the completions and the operator commands is a path. It remembers the
    claims handed out and the claims completed. *)

From Stdlib Require Import ZArith Lia Relations.
From S2P Require Import Prelude PyStr Json Sql QueueJob QueueIface QueuePg QueuePgProps.

(** ** What the statements other than a claim may do to the job rows *)

Record evolves (db db' : pgdb) : Prop := Evolves {
  ev_seq : job_seq db ≤ job_seq db';
  ev_rows : ∀ r', r' ∈ jobs db' →
    (job_seq db < jr_id r' ∧ jr_reserved_by r' = None) ∨
    (∃ r, r ∈ jobs db ∧ jr_id r = jr_id r' ∧ jr_attempts r = jr_attempts r' ∧
       (jr_reserved_by r' = jr_reserved_by r ∨ jr_reserved_by r' = None))
}.

Lemma evolves_same db db' :
  job_seq db ≤ job_seq db' → (∀ r, r ∈ jobs db' → r ∈ jobs db) → evolves db db'.
Proof. intros Hs Hr. constructor; [done|]. intros r Hin. right. exists r. auto. Qed.

#[export] Instance evolves_preorder : PreOrder evolves.
Proof.
  split.
  - intros db. apply evolves_same; [lia|auto].
  - intros a b c [S1 R1] [S2 R2]. constructor; [lia|]. intros r'' Hr''.
    destruct (R2 r'' Hr'') as [[Hf Hn]|(r' & Hr' & Hi & Ha & Hb)]; [left; split; [lia|done]|].
    destruct (R1 r' Hr') as [[Hf Hn]|(r & Hr & Hi' & Ha' & Hb')].
    + left. split; [lia|]. destruct Hb; congruence.
    + right. exists r. split_and!; try congruence. destruct Hb as [->| ->]; auto.
Qed.

Lemma insert_job_evolves r :
  (∀ i, jr_id (r i) = i ∧ jr_reserved_by (r i) = None) → within evolves (insert_job r).
Proof.
  intros Hr w. unfold insert_job.
  assert (Hsame : ∀ n, evolves (w_st w) (PgDb (jobs (w_st w)) (failed (w_st w)) (job_seq (w_st w) + 1) n)).
  { intros n. apply evolves_same; simpl; [lia|auto]. }
  destruct (negb _); simpl; [apply Hsame|].
  match goal with |- context [if ?b then _ else _] => destruct b end; simpl; [apply Hsame|].
  destruct (Hr (job_seq (w_st w) + 1)) as [Hi Hb].
  constructor; simpl; [lia|]. intros r' [Hin|Hin]%elem_of_app.
  - right. exists r'. auto.
  - apply list_elem_of_singleton in Hin as ->. left. split; [lia|done].
Qed.

Lemma delete_jobs_evolves p : within evolves (delete_jobs p).
Proof.
  apply within_stmt. intros db. simpl. apply evolves_same; simpl; [lia|].
  intros r Hr. by apply elem_of_delete in Hr as [? _].
Qed.

Lemma insert_failed_evolves r : within evolves (insert_failed r).
Proof. apply within_stmt. intros db. apply evolves_same; simpl; [lia|auto]. Qed.

Lemma delete_failed_evolves p : within evolves (delete_failed p).
Proof. apply within_stmt. intros db. apply evolves_same; simpl; [lia|auto]. Qed.

Lemma select_jobs_evolves p : within evolves (select_jobs p).
Proof. apply within_stmt. intros db. reflexivity. Qed.

Lemma release_update_evolves p available error :
  within evolves (update_jobs p (release_row available error)).
Proof.
  apply (update_jobs_within _). intros db _. constructor; simpl; [lia|].
  intros r' (r & Hr & ->)%elem_of_update. right. exists r. destruct (p r); simpl; auto.
Qed.
#[export] Hint Resolve insert_job_evolves delete_jobs_evolves insert_failed_evolves delete_failed_evolves
  select_jobs_evolves release_update_evolves : pyr.

Lemma move_to_failed_evolves i guard error : within evolves (_move_to_failed i guard error).
Proof. unfold _move_to_failed. within_tac. Qed.

Lemma release_evolves job delay error : within evolves (release job delay error).
Proof. unfold release, _stale. within_tac. Qed.

Lemma delete_evolves job : within evolves (delete job).
Proof. unfold delete, _stale. within_tac. Qed.
#[export] Hint Resolve move_to_failed_evolves : pyr.

Lemma fail_evolves job error : within evolves (fail job error).
Proof. unfold fail, _stale. within_tac. Qed.

Lemma push_evolves in_tx n p d q pr u m : within evolves (push (λ db, db) in_tx n p d q pr u m).
Proof. unfold push, _id_for_unique. within_tac; reflexivity. Qed.

Lemma requeue_row_evolves m r : within evolves (requeue_row m r).
Proof. unfold requeue_row. within_tac. Qed.

Lemma forget_failed_evolves ts i b : within evolves (forget_failed ts i b).
Proof. unfold forget_failed. within_tac. Qed.
#[export] Hint Resolve release_evolves delete_evolves fail_evolves push_evolves requeue_row_evolves
  forget_failed_evolves : pyr.

(** ** The transition system *)

(** A claim: the job's id, the worker it was given to and the attempt. *)
Definition claim : Type := Z * string * Z.

Definition claim_of (job : Job) : claim := (id job, reserved_by job, attempts job).
Definition claim_key (c : claim) : Z * Z := (c.1.1, c.2).

Record qstate := QState { q_db : pgdb; q_claims : list claim; q_done : list claim }.

(** The claiming part of [claim_candidate] on a candidate found at any time
    before: the guarded update and, if it hit, the read. *)
Definition claim_and_read (i until : Z) (worker : string) (moment : Z) : prog pgdb (option job_row) :=
  claimed ← _claim i until worker moment;
  if claimed : bool then _read i else mret None.

(** The statements whose effect on the job rows is not a claim. *)
Inductive statement : prog pgdb () → Prop :=
  | st_push in_tx n p d q pr u m : statement (push (λ db, db) in_tx n p d q pr u m ;; mret ())
  | st_move i guard error : statement (_move_to_failed i guard error ;; mret ())
  | st_requeue m r : statement (requeue_row m r)
  | st_forget ts i b : statement (forget_failed ts i b ;; mret ()).

Inductive completion (job : Job) : prog pgdb () → Prop :=
  | co_delete : completion job (delete job)
  | co_release d e : completion job (release job d e)
  | co_fail e : completion job (fail job e).

(** A completion took effect when it neither raised nor logged the claim as
    stale. *)
Definition effective (m : prog pgdb ()) (w : world pgdb) : bool :=
  match m w with (w', Ok _) => bool_decide (w_log w' = w_log w) | _ => false end.

Inductive qstep : qstate → qstate → Prop :=
  | q_statement m w cs ds :
      statement m → qstep (QState (w_st w) cs ds) (QState (w_st (m w).1) cs ds)
  | q_claim i until worker moment w w' row cs ds :
      claim_and_read i until worker moment w = (w', Ok (Some row)) →
      qstep (QState (w_st w) cs ds) (QState (w_st w') ((i, worker_name worker, jr_attempts row) :: cs) ds)
  | q_claim_lost i until worker moment w w' cs ds :
      claim_and_read i until worker moment w = (w', Ok None) →
      qstep (QState (w_st w) cs ds) (QState (w_st w') cs ds)
  | q_complete job m w cs ds :
      completion job m → claim_of job ∈ cs →
      qstep (QState (w_st w) cs ds)
        (QState (w_st (m w).1) cs (if effective m w then claim_of job :: ds else ds)).

(** ** The invariant *)

Record claims_ok (s : qstate) : Prop := ClaimsOk {
  co_wf : wf (q_db s);
  co_known : ∀ c, c ∈ q_claims s → c.1.1 ≤ job_seq (q_db s);
  co_latest : ∀ c r, c ∈ q_claims s → r ∈ jobs (q_db s) → jr_id r = c.1.1 → c.2 ≤ jr_attempts r;
  co_distinct : NoDup (claim_key <$> q_claims s);
  co_issued : ∀ c, c ∈ q_done s → c ∈ q_claims s;
  co_once : NoDup (q_done s);
  co_spent : ∀ c r, c ∈ q_done s → r ∈ jobs (q_db s) → jr_id r = c.1.1 →
    c.2 < jr_attempts r ∨ jr_reserved_by r = None
}.

Lemma claims_ok_evolves db db' cs ds :
  evolves db db' → wf db' → claims_ok (QState db cs ds) → claims_ok (QState db' cs ds).
Proof.
  intros [Hseq Hrows] Hwf' [Hwf Hk Hl Hd Hi Ho Hs]; simpl in *. constructor; simpl; try done.
  - intros c Hc. specialize (Hk c Hc). lia.
  - intros c r' Hc Hr' Hid. destruct (Hrows r' Hr') as [[Hf _]|(r & Hr & Hi' & Ha & _)].
    + specialize (Hk c Hc). lia.
    + rewrite <- Ha. apply Hl; [done..|congruence].
  - intros c r' Hc Hr' Hid. destruct (Hrows r' Hr') as [[_ Hn]|(r & Hr & Hi' & Ha & Hb)]; [by right|].
    rewrite <- Ha. destruct (Hs c r Hc Hr ltac:(congruence)) as [?|Hn]; [by left|].
    right. destruct Hb; congruence.
Qed.

Lemma statement_good m : statement m → within evolves m ∧ within (keeps wf) m.
Proof.
  intros [in_tx n p d q pr u mx|i guard error|mx r|ts i b]; split; within_tac; try reflexivity.
  apply push_wf. intros ? ?; done.
Qed.

Lemma completion_good job m : completion job m → within evolves m ∧ within (keeps wf) m.
Proof. intros []; split; auto with pyr. Qed.

Lemma claim_and_read_spec i until worker moment w :
  NoDup (jr_id <$> jobs (w_st w)) →
  (∃ r, r ∈ jobs (w_st w) ∧ jr_id r = i ∧ free_at moment r = true ∧
     claim_and_read i until worker moment w =
       (set_db w (with_jobs (replaced i (claim_row until (worker_name worker) r) (jobs (w_st w))) (w_st w)),
        Ok (Some (claim_row until (worker_name worker) r)))) ∨
  (∃ e, claim_and_read i until worker moment w = (w, Err e)) ∨
  ((∀ r, r ∈ jobs (w_st w) → jr_id r = i → free_at moment r = false) ∧
     claim_and_read i until worker moment w = (w, Ok None)).
Proof.
  intros Hnd. unfold claim_and_read.
  destruct (claim_spec i until worker moment w Hnd) as [(r & Hr & Hi & Hf & Hc)|[Hno Hc]].
  - destruct (row_fits _); [|right; left; eexists; by rewrite (bind_err _ _ _ _ _ Hc)].
    left. exists r. split_and!; try done. rewrite (bind_ok _ _ _ _ _ Hc).
    unfold _read, select_jobs. run_prog.
    set (l := replaced _ _ _). assert (Hhead : select_where (λ r0, jr_id r0 =? i) l = [claim_row until (worker_name worker) r]).
    { apply select_by_id; [by unfold l; rewrite replaced_ids| |done].
      unfold l. apply elem_of_replaced. right. split; [done|]. rewrite <- Hi. by apply list_elem_of_fmap_2. }
    by rewrite Hhead.
  - right; right. split; [done|]. by rewrite (bind_ok _ _ _ _ _ Hc).
Qed.

Lemma claim_and_read_wf i until worker moment : within (keeps wf) (claim_and_read i until worker moment).
Proof. unfold claim_and_read, _read. within_tac. Qed.

Lemma claims_ok_claim w w' i until worker moment row cs ds :
  claim_and_read i until worker moment w = (w', Ok (Some row)) →
  claims_ok (QState (w_st w) cs ds) →
  claims_ok (QState (w_st w') ((i, worker_name worker, jr_attempts row) :: cs) ds).
Proof.
  intros Hc [Hwf Hk Hl Hd Hi Ho Hs]; simpl in *.
  assert (Hwf' : wf (w_st w')).
  { pose proof (claim_and_read_wf i until worker moment w Hwf) as Hw. by rewrite Hc in Hw. }
  destruct (claim_and_read_spec i until worker moment w (wf_ids _ Hwf)) as [(r & Hr & Hri & Hf & Heq)|[[e Heq]|[_ Heq]]];
    rewrite Heq in Hc; simplify_eq/=.
  constructor; simpl; try done.
  - intros c [->|Hc]%elem_of_cons; [|auto]. simpl.
    pose proof (wf_seq _ Hwf) as Hseq. rewrite Forall_forall in Hseq. auto.
  - intros c r' Hc Hr' Hid. apply elem_of_replaced in Hr' as [[Hr' Hne]|[-> _]].
    + apply elem_of_cons in Hc as [->|Hc]; [done|auto].
    + simpl in *. apply elem_of_cons in Hc as [->|Hc]; [simpl; lia|]. specialize (Hl c r Hc Hr Hid). lia.
  - constructor; [|done]. intros (c & Hkey & Hc)%list_elem_of_fmap.
    unfold claim_key in Hkey. simpl in Hkey. injection Hkey as Hc1 Hc2.
    specialize (Hl c r Hc Hr Hc1). lia.
  - intros c Hc. right. auto.
  - intros c r' Hc Hr' Hid. apply elem_of_replaced in Hr' as [[Hr' Hne]|[-> _]]; [auto|].
    left. simpl in *. specialize (Hl c r (Hi c Hc) Hr Hid). lia.
Qed.

(** An effective completion found the row held, and leaves none held by it. *)
Lemma effective_spec job m w :
  completion job m → rows_ok (jobs (w_st w)) → effective m w = true →
  (∃ r, r ∈ jobs (w_st w) ∧ holds job r) ∧
  (∀ r, r ∈ jobs (w_st (m w).1) → jr_id r = id job → jr_reserved_by r = None).
Proof.
  intros Hm Hok He. pose proof (proj1 Hok) as Hnd.
  assert (Hstale : ∀ action, effective m w = true → m w ≠ (stale_after action job w, Ok ())).
  { intros action He' Heq. unfold effective in He'. rewrite Heq in He'.
    apply bool_decide_eq_true in He'. simpl in He'. apply (f_equal length) in He'.
    rewrite length_app in He'. simpl in He'. lia. }
  destruct Hm as [|d e|e].
  - destruct (delete_spec job w Hnd) as [(r & Hr & Hh & Heq)|[_ Heq]]; [|by destruct (Hstale "delete" He)].
    split; [by exists r|]. rewrite Heq. simpl. intros r' [_ Hne]%elem_of_without Hid. done.
  - destruct (add_seconds (w_clock w) (Z.max 0 d)) as [av|ex] eqn:Hav.
    + destruct (release_spec job d e w av Hok Hav) as [(r & Hr & Hh & Heq)|[_ Heq]];
        [|by destruct (Hstale "release" He)].
      split; [by exists r|]. rewrite Heq. simpl. intros r' [[_ Hne]|[-> _]]%elem_of_replaced Hid; done.
    + exfalso. unfold effective, release in He. run_prog. by rewrite Hav in He.
  - destruct (fail_spec job e w Hnd) as [(r & Hr & Hh & Heq)|[_ Heq]]; [|by destruct (Hstale "fail" He)].
    split; [by exists r|]. rewrite Heq. simpl. intros r' [_ Hne]%elem_of_without Hid.
    destruct Hh as [Hri _]. congruence.
Qed.

Lemma claims_ok_step s s' : claims_ok s → qstep s s' → claims_ok s'.
Proof.
  intros Hok Hstep. destruct Hstep as [m w cs ds Hm|i until worker moment w w' row cs ds Hc
    |i until worker moment w w' cs ds Hc|job m w cs ds Hm Hin].
  - destruct (statement_good m Hm) as [He Hw].
    eapply claims_ok_evolves; [apply He|apply Hw, Hok|done].
  - by eapply claims_ok_claim.
  - destruct (claim_and_read_spec i until worker moment w) as [(r & _ & _ & _ & Heq)|[[e Heq]|[_ Heq]]];
      [apply (wf_ids _ (co_wf _ Hok))|rewrite Heq in Hc; simplify_eq..]. done.
  - destruct (completion_good job m Hm) as [He Hw].
    assert (Hok' : claims_ok (QState (w_st (m w).1) cs ds)).
    { eapply claims_ok_evolves; [apply He|apply Hw, Hok|done]. }
    destruct (effective m w) eqn:Heff; [|done].
    destruct (effective_spec job m w Hm (wf_rows _ (co_wf _ Hok)) Heff) as [(r & Hr & Hri & Hrb & Hra) Hafter].
    destruct Hok' as [Hwf' Hk' Hl' Hd' Hi' Ho' Hs']. constructor; simpl in *; try done.
    + intros c [->|Hc]%elem_of_cons; auto.
    + constructor; [|done]. intros Hdone.
      destruct (co_spent _ Hok _ r Hdone Hr Hri) as [Hlt|Hnone]; [simpl in Hlt; lia|congruence].
    + intros c r' [->|Hc]%elem_of_cons Hr' Hid; [right; by apply Hafter|auto].
Qed.

(** What the tables look like before any claim. *)
Definition no_claims (s : qstate) : Prop := wf (q_db s) ∧ q_claims s = [] ∧ q_done s = [].

Lemma claims_ok_reachable s s' : no_claims s → rtc qstep s s' → claims_ok s'.
Proof.
  intros (Hwf & Hc & Hd). apply (rtc_invariant qstep claims_ok); [apply claims_ok_step|].
  destruct s as [db cs ds]. simpl in *. subst. constructor; simpl; [done| | |constructor| |constructor|]; set_solver.
Qed.

(** The empty tables, as the schema creates them. *)
Definition empty_db : pgdb := PgDb [] [] 0 0.

Lemma empty_wf : wf empty_db.
Proof. constructor; simpl; constructor. Qed.

(** C1: over every interleaving of the statements of any number of drivers -
    pushes, guarded claims on candidates found at any earlier time and under
    any clock, completions, moves to the failed table, operator commands - no
    two claims of one job carry the same attempt, at most one of the claims
    ever handed out passes the ownership test of a job row, it is the latest
    one, and no claim is completed twice. *)
Theorem claims_exclusive (s s' : qstate) :
  no_claims s → rtc qstep s s' →
  NoDup (claim_key <$> q_claims s') ∧
  (∀ i k j1 j2 r, q_claims s' !! i = Some (claim_of j1) → q_claims s' !! k = Some (claim_of j2) →
     r ∈ jobs (q_db s') → owned_by j1 r = true → owned_by j2 r = true → i = k) ∧
  (∀ j c r, r ∈ jobs (q_db s') → owned_by j r = true → c ∈ q_claims s' → c.1.1 = id j →
     c.2 ≤ attempts j) ∧
  NoDup (q_done s') ∧ (∀ c, c ∈ q_done s' → c ∈ q_claims s').
Proof.
  intros Hs Hr. pose proof (claims_ok_reachable s s' Hs Hr) as [Hwf Hk Hl Hd Hi Ho Hsp].
  split_and!; try done.
  - intros i k j1 j2 r Hl1 Hl2 _ (Hi1 & Hb1 & Ha1)%owned_by_holds (Hi2 & Hb2 & Ha2)%owned_by_holds.
    eapply (NoDup_lookup (claim_key <$> q_claims s')); [done|..]; rewrite list_lookup_fmap, ?Hl1, ?Hl2; [done|].
    simpl. unfold claim_of, claim_key. simpl. congruence.
  - intros j c r Hr' (Hij & _ & Ha)%owned_by_holds Hc Hci. rewrite <- Ha. apply Hl; [done..|congruence].
Qed.

(** A job claimed by one worker, claimed again by another once the first
    claim expired, then completed by both: only the second one counts. *)
Definition demo_db1 : pgdb :=
  w_st (push (λ db, db) false "mail" None 0 "" 0 None 3 (World empty_db [] 0)).1.
Definition demo_claim1 := claim_and_read 1 60000000 "w1" 0 (World demo_db1 [] 0).
Definition demo_claim2 := claim_and_read 1 130000000 "w2" 70000000 (World (w_st demo_claim1.1) [] 0).
Definition demo_job (by_ : string) (n : Z) : Job := MkJob 1 "default" "mail" [] "{}" n 3 "" by_ None.
Definition demo_db4 : pgdb := w_st (delete (demo_job "w1" 1) (World (w_st demo_claim2.1) [] 0)).1.
Definition demo_db5 : pgdb := w_st (delete (demo_job "w2" 2) (World demo_db4 [] 0)).1.
Definition demo_end : qstate := QState demo_db5 [(1, "w2", 2); (1, "w1", 1)] [(1, "w2", 2)].

Lemma claims_exclusive_witness :
  no_claims (QState empty_db [] []) ∧ rtc qstep (QState empty_db [] []) demo_end ∧
  NoDup (claim_key <$> q_claims demo_end) ∧ NoDup (q_done demo_end).
Proof.
  assert (H0 : no_claims (QState empty_db [] [])) by (split; [apply empty_wf|done]).
  assert (Hr : rtc qstep (QState empty_db [] []) demo_end).
  { eapply rtc_l; [exact (q_statement _ (World empty_db [] 0) [] [] (st_push false "mail" None 0 "" 0 None 3))|].
    eapply rtc_l; [eapply (q_claim 1 60000000 "w1" 0 (World demo_db1 [] 0)); vm_compute; reflexivity|].
    eapply rtc_l; [eapply (q_claim 1 130000000 "w2" 70000000 (World (w_st demo_claim1.1) [] 0));
                   vm_compute; reflexivity|].
    eapply rtc_l; [exact (q_complete (demo_job "w1" 1) _ (World (w_st demo_claim2.1) [] 0)
                     [(1, "w2", 2); (1, "w1", 1)] [] (co_delete _) ltac:(right; left))|].
    eapply rtc_l; [exact (q_complete (demo_job "w2" 2) _ (World demo_db4 [] 0)
                     [(1, "w2", 2); (1, "w1", 1)] [] (co_delete _) ltac:(left))|].
    apply rtc_refl. }
  destruct (claims_exclusive _ _ H0 Hr) as (H1 & _ & _ & H2 & _). done.
Defined.
