(* ===== verification/QueuePgReserve.v ===== *)
(** * What [reserve] hands out

    The rounds of [_reserve_from] on well formed tables: which rows they
    discard to the failed table, which row they claim and when they give up;
    the precedence of the queues and the budget of attempts. *)

From Stdlib Require Import ZArith Lia.
From S2P Require Import Prelude PyStr Json Sql QueueJob QueueIface QueuePg QueuePgProps.

Lemma due_before_total a b : due_before a b = true ∨ due_before b a = true.
Proof.
  unfold due_before.
  destruct (Z.eqb_spec (jr_priority a) (jr_priority b)), (Z.eqb_spec (jr_priority b) (jr_priority a)),
    (Z.eqb_spec (jr_available_at a) (jr_available_at b)), (Z.eqb_spec (jr_available_at b) (jr_available_at a));
    rewrite ?Z.leb_le, ?Z.ltb_lt; lia.
Qed.

Lemma due_before_lex a b : due_before a b = true ↔
  jr_priority b < jr_priority a ∨ jr_priority a = jr_priority b ∧
    (jr_available_at a < jr_available_at b ∨ jr_available_at a = jr_available_at b ∧ jr_id a ≤ jr_id b).
Proof.
  unfold due_before. destruct (Z.eqb_spec (jr_priority a) (jr_priority b)),
    (Z.eqb_spec (jr_available_at a) (jr_available_at b)); rewrite ?Z.leb_le, ?Z.ltb_lt; lia.
Qed.

Lemma due_before_trans a b c : due_before a b = true → due_before b c = true → due_before a c = true.
Proof. rewrite !due_before_lex. lia. Qed.

(** ** Rows a round can see, and rows it discards *)

Definition available (locked : list Z) (q : string) (moment : Z) (r : job_row) : bool :=
  claimable q moment r && skip_locked locked r.

Definition exhausted (r : job_row) : bool := jr_max_attempts r <=? jr_attempts r.

Definition decodable (r : job_row) : bool :=
  match loads (jr_payload r) with Ok (JObj _) => true | _ => false end.

(** A row no handler will ever be given: its budget is spent or its payload
    is not a JSON object. *)
Definition discarded (r : job_row) : bool := exhausted r || negb (decodable r).

Definition content (r : job_row) : string * string * string := (jr_queue r, jr_name r, jr_payload r).
Definition failed_content (r : failed_row) : string * string * string := (fr_queue r, fr_name r, fr_payload r).

Definition drop_rows (ds : list job_row) (l : list job_row) : list job_row :=
  filter (λ r, jr_id r ∉ jr_id <$> ds) l.

Lemma claim_candidate_spec locked q until worker w :
  rows_ok (jobs (w_st w)) →
  let moment := w_clock w in
  ((∀ r, r ∈ jobs (w_st w) → available locked q moment r = false) ∧
     claim_candidate locked q moment until worker w = (w, Ok NothingDue)) ∨
  (∃ r, r ∈ jobs (w_st w) ∧ available locked q moment r = true ∧
     (∀ r2, r2 ∈ jobs (w_st w) → available locked q moment r2 = true → due_before r r2 = true) ∧
     claim_candidate locked q moment until worker w =
       if exhausted r
       then (set_db w (moved r EXHAUSTED_ERROR moment (w_st w)), Ok TryNext)
       else let r' := claim_row until (worker_name worker) r in
            (set_db w (with_jobs (replaced (jr_id r) r' (jobs (w_st w))) (w_st w)), Ok (Claimed (Some r')))).
Proof.
  intros Hok moment. pose proof (proj1 Hok) as Hnd.
  assert (Hcand : _candidate locked q moment w = (w, Ok ((λ r, (jr_id r, exhausted r)) <$>
            first_by due_before (select_where (available locked q moment) (jobs (w_st w)))))).
  { unfold _candidate, select_jobs. run_prog. by destruct w. }
  destruct (first_by due_before _) as [r|] eqn:Hfirst.
  - right. exists r.
    pose proof (first_by_elem _ _ _ Hfirst) as [Hr Hav]%elem_of_select.
    split_and!; [done|done| |].
    { intros r2 Hr2 Hav2. eapply (first_by_least due_before); eauto using due_before_total, due_before_trans.
      by apply elem_of_select. }
    assert (Hfree : free_at moment r = true).
    { unfold available, claimable in Hav. by repeat apply andb_true_iff in Hav as [Hav ?]. }
    unfold claim_candidate. unfold transaction at 1. rewrite (bind_ok _ _ _ _ _ Hcand).
    cbn [fmap option_fmap option_map]. destruct (exhausted r) eqn:Hex.
    + destruct (move_to_failed_spec (jr_id r) (_EXHAUSTED moment) EXHAUSTED_ERROR w Hnd)
        as [(r' & Hr' & Hi & _ & Heq)|[Hno _]].
      * assert (r' = r) as -> by (by eapply (NoDup_fmap_inj_in jr_id)).
        cbv beta iota. by rewrite (bind_ok _ _ _ _ _ Heq).
      * specialize (Hno r Hr eq_refl). unfold _EXHAUSTED, exhausted in *. by rewrite Hex, Hfree in Hno.
    + destruct (claim_spec (jr_id r) until worker moment w Hnd) as [(r' & Hr' & Hi & _ & Heq)|[Hno _]].
      * assert (r' = r) as -> by (by eapply (NoDup_fmap_inj_in jr_id)).
        rewrite claim_row_fits in Heq; [|by eapply rows_ok_fits|by apply Z.leb_gt].
        cbv beta iota. rewrite (bind_ok _ _ _ _ _ Heq).
        unfold _read, select_jobs. run_prog.
        rewrite (select_by_id _ _ (claim_row until (worker_name worker) r)); [done| | |done].
        -- by rewrite replaced_ids.
        -- apply elem_of_replaced. right. split; [done|by apply list_elem_of_fmap_2].
      * specialize (Hno r Hr eq_refl). congruence.
  - left. apply first_by_None in Hfirst. split;
      [|unfold claim_candidate; unfold transaction at 1; by rewrite (bind_ok _ _ _ _ _ Hcand)].
    intros r Hr. apply not_true_iff_false. intros Hav.
    assert (Hin : r ∈ select_where (available locked q moment) (jobs (w_st w))) by (by apply elem_of_select).
    rewrite Hfirst in Hin. by apply not_elem_of_nil in Hin.
Qed.

Lemma without_replaced i r' l : jr_id r' = i → without i (replaced i r' l) = without i l.
Proof.
  intros Hi. unfold without, replaced. induction l as [|x l IH]; [done|].
  rewrite fmap_cons, !filter_cons. destruct (Z.eqb_spec (jr_id x) i) as [Hx|Hx].
  - rewrite !decide_False by (intros Hn; congruence). exact IH.
  - rewrite !decide_True by done. by f_equal.
Qed.

Lemma to_job_decodable r by_ : (∃ job, _to_job r by_ = Some job) ↔ decodable r = true.
Proof.
  unfold _to_job, decodable. destruct (loads (jr_payload r)) as [[]|]; split; try done; try (by intros [? ?]); eauto.
Qed.

Lemma to_job_None r by_ : _to_job r by_ = None ↔ decodable r = false.
Proof. unfold _to_job, decodable. destruct (loads (jr_payload r)) as [[]|]; done. Qed.

(** One round either stops, or discards the first row, or hands it out. *)
Lemma reserve_round_spec locked q t worker w until :
  rows_ok (jobs (w_st w)) → add_seconds (w_clock w) (Z.max 1 t) = Ok until →
  let av := available locked q (w_clock w) in
  ((∀ r, r ∈ jobs (w_st w) → av r = false) ∧ reserve_round locked q t worker w = (w, Ok (Some None))) ∨
  (∃ r, r ∈ jobs (w_st w) ∧ av r = true ∧
     (∀ r2, r2 ∈ jobs (w_st w) → av r2 = true → due_before r r2 = true) ∧
     ((discarded r = true ∧
       ∃ db, reserve_round locked q t worker w = (set_db w db, Ok None) ∧
         jobs db = without (jr_id r) (jobs (w_st w)) ∧
         failed_content <$> failed db = (failed_content <$> failed (w_st w)) ++ [content r]) ∨
      (discarded r = false ∧ ∃ job, _to_job (claim_row until (worker_name worker) r) (worker_name worker) = Some job ∧
         reserve_round locked q t worker w =
           (set_db w (with_jobs (replaced (jr_id r) (claim_row until (worker_name worker) r) (jobs (w_st w))) (w_st w)),
            Ok (Some (Some job)))))).
Proof.
  intros Hok Hu av. pose proof (proj1 Hok) as Hnd. unfold reserve_round, now_utc, lift_res, mbind, prog_bind. rewrite Hu.
  destruct (claim_candidate_spec locked q until worker w Hok) as [[Hno ->]|(r & Hr & Hav & Hleast & ->)].
  { left. done. }
  right. exists r. split_and!; [done..|]. unfold discarded.
  destruct (exhausted r); simpl.
  { left. split; [done|]. eexists. split_and!; [done|done|]. simpl. by rewrite fmap_app. }
  set (r' := claim_row until (worker_name worker) r).
  destruct (_to_job r' (worker_name worker)) as [job|] eqn:Hj.
  - right. split; [|eauto]. apply negb_false_iff. change (decodable r' = true).
    apply (to_job_decodable r' (worker_name worker)). eauto.
  - left. apply to_job_None in Hj. change (decodable r = false) in Hj. rewrite Hj. split; [done|].
    set (w1 := set_db w _).
    assert (Hnd1 : NoDup (jr_id <$> jobs (w_st w1))) by (unfold w1; simpl; by rewrite replaced_ids).
    assert (Hr1 : r' ∈ jobs (w_st w1)).
    { unfold w1. simpl. apply elem_of_replaced. right. split; [done|by apply list_elem_of_fmap_2]. }
    destruct (move_to_failed_spec (jr_id r') (_OWNED (worker_name worker) (jr_attempts r'))
      "Payload is not valid JSON, so no handler could be given it." w1 Hnd1) as [(r2 & Hr2 & Hi & _ & Heq)|[Hno _]].
    + assert (r2 = r') as -> by (by eapply (NoDup_fmap_inj_in jr_id)). simpl in Heq. rewrite Heq.
      eexists. split_and!; [done| |].
      * simpl. by rewrite without_replaced.
      * simpl. by rewrite fmap_app.
    + specialize (Hno r' Hr1 eq_refl). unfold _OWNED in Hno. simpl in Hno.
      by rewrite bool_decide_true, Z.eqb_refl in Hno.
Qed.

(** ** The rounds of one queue *)

Lemma drop_rows_nil l : drop_rows [] l = l.
Proof. apply filter_all. intros x _. apply not_elem_of_nil. Qed.

Lemma drop_rows_cons r ds l : drop_rows (r :: ds) l = drop_rows ds (without (jr_id r) l).
Proof.
  unfold drop_rows, without. rewrite list_filter_filter. apply filter_ext_in. intros x _.
  rewrite fmap_cons, not_elem_of_cons. naive_solver.
Qed.

Lemma elem_of_drop_rows ds l r : r ∈ drop_rows ds l ↔ r ∈ l ∧ jr_id r ∉ jr_id <$> ds.
Proof. unfold drop_rows. rewrite list_elem_of_filter. tauto. Qed.

(** What [rounds] rounds on a queue did: the rows [ds], all spent or
    unreadable, went to the failed table in that order, and either the first
    of the remaining rows was claimed, or nothing was left, or the rounds
    were used up. *)
Definition rounds_post (locked : list Z) (q : string) (until : Z) (by_ : string) (rounds : nat)
    (w w' : world pgdb) (ans : option Job) (ds : list job_row) : Prop :=
  let av := available locked q (w_clock w) in
  w_log w' = w_log w ∧ w_clock w' = w_clock w ∧
  Forall (λ r, r ∈ jobs (w_st w) ∧ av r = true ∧ discarded r = true) ds ∧
  NoDup (jr_id <$> ds) ∧ (length ds ≤ rounds)%nat ∧
  failed_content <$> failed (w_st w') = (failed_content <$> failed (w_st w)) ++ (content <$> ds) ∧
  match ans with
  | None =>
      jobs (w_st w') = drop_rows ds (jobs (w_st w)) ∧
      (length ds = rounds ∨ ∀ r, r ∈ jobs (w_st w') → av r = false)
  | Some job =>
      ∃ r, r ∈ drop_rows ds (jobs (w_st w)) ∧ av r = true ∧ discarded r = false ∧
        (∀ r2, r2 ∈ drop_rows ds (jobs (w_st w)) → av r2 = true → due_before r r2 = true) ∧
        jobs (w_st w') = replaced (jr_id r) (claim_row until by_ r) (drop_rows ds (jobs (w_st w))) ∧
        _to_job (claim_row until by_ r) by_ = Some job
  end.

Lemma reserve_rounds_spec locked q t worker until rounds w :
  rows_ok (jobs (w_st w)) → add_seconds (w_clock w) (Z.max 1 t) = Ok until →
  ∃ w' ans ds, reserve_rounds locked rounds q t worker w = (w', Ok ans) ∧
    rounds_post locked q until (worker_name worker) rounds w w' ans ds.
Proof.
  revert w. induction rounds as [|rounds IH]; intros w Hok Hu.
  { exists w, None, []. split; [done|]. unfold rounds_post. rewrite app_nil_r, drop_rows_nil.
    split_and!; try solve [done|constructor|auto|simpl; lia]. }
  cbn [reserve_rounds].
  destruct (reserve_round_spec locked q t worker w until Hok Hu)
    as [[Hno Heq]|(r & Hr & Hav & Hleast & [(Hbad & db & Heq & Hjobs & Hfailed)|(Hgood & job & Hjob & Heq)])];
    rewrite (bind_ok _ _ _ _ _ Heq).
  - exists w, None, []. split; [done|]. unfold rounds_post. rewrite app_nil_r, drop_rows_nil.
    split_and!; try solve [done|constructor|auto|simpl; lia].
  - destruct (IH (set_db w db)) as (w' & ans & ds & Hrun & Hpost);
      [simpl; rewrite Hjobs; by apply rows_ok_filter|done|].
    exists w', ans, (r :: ds). split; [done|].
    destruct Hpost as (Hlog & Hclk & Hds & Hndds & Hlen & Hf & Hans).
    cbn [set_db w_st w_log w_clock] in *. unfold rounds_post. rewrite drop_rows_cons. rewrite Hjobs in *.
    split_and!; try done.
    + constructor; [done|]. eapply Forall_impl; [exact Hds|]. intros x (Hx & ? & ?).
      apply elem_of_without in Hx as [? _]. done.
    + rewrite fmap_cons. constructor; [|done]. intros (y & Hy & Hin)%list_elem_of_fmap.
      rewrite Forall_forall in Hds. destruct (Hds y Hin) as ((_ & Hne)%elem_of_without & _). congruence.
    + simpl. lia.
    + rewrite Hf, Hfailed, fmap_cons. by rewrite <- app_assoc.
    + destruct ans as [job|]; [done|]. destruct Hans as [? [?|?]]; split; auto. left. simpl. lia.
  - eexists _, (Some job), []. split; [done|]. unfold rounds_post. rewrite drop_rows_nil, app_nil_r.
    cbn [set_db w_st w_log w_clock]. split_and!; try solve [done|constructor|simpl; lia]. eauto 10.
Qed.

(** A [reserve] on one queue, with the tables well formed, terminates
    with the failed table extended by exactly the spent or unreadable rows it
    discarded, at most five, and hands out the first of the remaining due,
    free and unlocked rows in the order priority descending, due time, id -
    with its attempt counted and the row marked as held until the timeout -
    or nothing, when none is left or five rows were discarded. *)
Theorem reserve_from_spec (locked : list Z) (q : string) (t : Z) (worker : string) (until : Z) (w : world pgdb)
    (Hwf : wf (w_st w)) (Hu : add_seconds (w_clock w) (Z.max 1 t) = Ok until) :
  ∃ w' ans ds, _reserve_from locked q t worker w = (w', Ok ans) ∧
    rounds_post locked q until (worker_name worker) CLAIM_ROUNDS w w' ans ds.
Proof. unfold _reserve_from. apply reserve_rounds_spec; [apply (wf_rows _ Hwf)|exact Hu]. Qed.

(** What a handed out job says of the row it came from. *)
Lemma to_job_fields row by_ job : _to_job row by_ = Some job →
  id job = jr_id row ∧ queue job = jr_queue row ∧ name job = jr_name row ∧
  payload_json job = jr_payload row ∧ attempts job = jr_attempts row ∧
  max_attempts job = jr_max_attempts row ∧ reserved_by job = by_ ∧
  loads (jr_payload row) = Ok (JObj (payload job)) ∧ was_released job = false.
Proof. unfold _to_job. destruct (loads (jr_payload row)) as [[]|]; intros; simplify_eq. by split_and!. Qed.

Lemma available_queue locked q moment r : available locked q moment r = true → jr_queue r = q.
Proof.
  unfold available, claimable. rewrite !andb_true_iff, bool_decide_eq_true. tauto.
Qed.

(** ** Several queues *)

(** Queue [q] offers a row some handler could be given. *)
Definition runnable (locked : list Z) (q : string) (moment : Z) (l : list job_row) : Prop :=
  ∃ r, r ∈ l ∧ available locked q moment r = true ∧ discarded r = false.

Definition discardable (locked : list Z) (q : string) (moment : Z) (l : list job_row) : list job_row :=
  select_where (λ r, available locked q moment r && discarded r) l.

Lemma rounds_None_not_runnable locked q until by_ w w' ds :
  NoDup (jr_id <$> jobs (w_st w)) →
  rounds_post locked q until by_ CLAIM_ROUNDS w w' None ds →
  (CLAIM_ROUNDS ≤ length (discardable locked q (w_clock w) (jobs (w_st w))))%nat ∨
  ¬ runnable locked q (w_clock w) (jobs (w_st w)).
Proof.
  intros Hnd (_ & _ & Hds & Hndds & _ & _ & Hjobs & Hend). destruct Hend as [Hlen|Hno].
  - left. rewrite <- Hlen. apply submseteq_length, NoDup_submseteq.
    + by apply NoDup_fmap_1 in Hndds.
    + intros r Hr. rewrite Forall_forall in Hds. destruct (Hds r Hr) as (? & Ha & Hb).
      apply elem_of_select. by rewrite Ha, Hb.
  - right. intros (r & Hr & Hav & Hgood). specialize (Hno r). rewrite Hjobs in Hno.
    assert (available locked q (w_clock w) r = false); [|congruence]. apply Hno, elem_of_drop_rows.
    split; [done|]. intros (d & Hd & Hin)%list_elem_of_fmap. rewrite Forall_forall in Hds.
    destruct (Hds d Hin) as (Hind & _ & Hbad).
    assert (r = d) as -> by (by eapply (NoDup_fmap_inj_in jr_id (jobs (w_st w)))). congruence.
Qed.

(** Rounds that hand out nothing leave every row some handler could be given
    and bring no new ones. *)
Lemma rounds_None_rows locked q until by_ n w w' ds :
  rows_ok (jobs (w_st w)) → rounds_post locked q until by_ n w w' None ds →
  rows_ok (jobs (w_st w')) ∧ w_clock w' = w_clock w ∧
  (∀ r, r ∈ jobs (w_st w') → r ∈ jobs (w_st w)) ∧
  (∀ r, r ∈ jobs (w_st w) → discarded r = false → r ∈ jobs (w_st w')).
Proof.
  intros Hok (_ & Hclk & Hds & _ & _ & _ & Hjobs & _). pose proof (proj1 Hok) as Hnd. rewrite Hjobs. split_and!; try done.
  - by apply rows_ok_filter.
  - intros r [? _]%elem_of_drop_rows. done.
  - intros r Hr Hgood. apply elem_of_drop_rows. split; [done|].
    intros (d & Hd & Hin)%list_elem_of_fmap. rewrite Forall_forall in Hds.
    destruct (Hds d Hin) as (Hind & _ & Hbad).
    assert (r = d) as -> by (by eapply (NoDup_fmap_inj_in jr_id (jobs (w_st w)))). congruence.
Qed.

Lemma discardable_mono locked q moment l l' :
  NoDup (jr_id <$> l') → (∀ r, r ∈ l' → r ∈ l) →
  (length (discardable locked q moment l') ≤ length (discardable locked q moment l))%nat.
Proof.
  intros Hnd Hsub. apply submseteq_length, NoDup_submseteq.
  - apply (NoDup_fmap_1 jr_id). by apply NoDup_fmap_filter.
  - intros r [Hr Hp]%elem_of_select. apply elem_of_select. auto.
Qed.

(** A queue [reserve] passed over: nothing runnable, or five rows to discard. *)
Definition passed_over (locked : list Z) (moment : Z) (l : list job_row) (q : string) : Prop :=
  (CLAIM_ROUNDS ≤ length (discardable locked q moment l))%nat ∨ ¬ runnable locked q moment l.

Lemma reserve_spec locked qs t worker until w :
  rows_ok (jobs (w_st w)) → add_seconds (w_clock w) (Z.max 1 t) = Ok until →
  (∃ w', reserve locked qs t worker w = (w', Ok None) ∧
     Forall (passed_over locked (w_clock w) (jobs (w_st w))) qs) ∨
  (∃ w' job qs1 q qs2 r, reserve locked qs t worker w = (w', Ok (Some job)) ∧ qs = qs1 ++ q :: qs2 ∧
     Forall (passed_over locked (w_clock w) (jobs (w_st w))) qs1 ∧
     r ∈ jobs (w_st w) ∧ available locked q (w_clock w) r = true ∧ discarded r = false ∧
     (∀ r2, r2 ∈ jobs (w_st w) → available locked q (w_clock w) r2 = true → discarded r2 = false →
        due_before r r2 = true) ∧
     _to_job (claim_row until (worker_name worker) r) (worker_name worker) = Some job).
Proof.
  revert w. induction qs as [|q qs IH]; intros w Hok Hu.
  { left. exists w. split; [done|constructor]. }
  pose proof (proj1 Hok) as Hnd. cbn [reserve]. unfold _reserve_from.
  destruct (reserve_rounds_spec locked q t worker until CLAIM_ROUNDS w Hok Hu) as (w1 & ans & ds & Heq & Hpost).
  rewrite (bind_ok _ _ _ _ _ Heq). destruct ans as [job|].
  - right. destruct Hpost as (_ & _ & Hds & _ & _ & _ & r & Hr & Hav & Hgood & Hleast & _ & Hjob).
    apply elem_of_drop_rows in Hr as [Hr _].
    exists w1, job, [], q, qs, r. split_and!; try done.
    intros r2 Hr2 Hav2 Hg2. apply Hleast; [|done]. apply elem_of_drop_rows. split; [done|].
    intros (d & Hd & Hin)%list_elem_of_fmap. rewrite Forall_forall in Hds.
    destruct (Hds d Hin) as (Hind & _ & Hbad).
    assert (r2 = d) as -> by (by eapply (NoDup_fmap_inj_in jr_id (jobs (w_st w)))). congruence.
  - pose proof (rounds_None_not_runnable _ _ _ _ _ _ _ Hnd Hpost) as Hq.
    destruct (rounds_None_rows _ _ _ _ _ _ _ _ Hok Hpost) as (Hok1 & Hclk & Hsub & Hkeep).
    assert (Hpass : ∀ q', passed_over locked (w_clock w1) (jobs (w_st w1)) q' →
                          passed_over locked (w_clock w) (jobs (w_st w)) q').
    { intros q' [Hl|Hn]; rewrite Hclk in *; [left|right].
      - etrans; [exact Hl|]. apply discardable_mono; [apply Hok1|done].
      - intros (r & Hr & Hav & Hg). apply Hn. exists r. auto. }
    destruct (IH w1 Hok1 ltac:(by rewrite Hclk))
      as [(w' & Hrun & Hall)|(w' & job & qs1 & q' & qs2 & r & Hrun & -> & Hall & Hr & Hav & Hg & Hleast & Hjob)].
    + left. exists w'. split; [done|]. constructor; [done|]. eapply Forall_impl; eauto.
    + right. rewrite Hclk in *. exists w', job, (q :: qs1), q', qs2, r. split_and!; try done; auto.
      constructor; [done|]. rewrite <- Hclk in *. eapply Forall_impl; [exact Hall|].
      intros x Hx. rewrite Hclk in *. auto.
Qed.

(** C2: the job [reserve] hands out comes from a due, free and unlocked row of
    one of the queues asked for, first in the order priority, due time, id
    among that queue's rows that a handler can be given; its attempt is
    counted and within the budget; it carries the row's payload text and its
    decoding; and every queue listed before was passed over only because it
    held no such row, or at least five spent or unreadable ones. *)
Theorem reserve_hands_out (locked : list Z) (qs : list string) (t : Z) (worker : string) (until : Z)
    (w w' : world pgdb) (job : Job) (Hwf : wf (w_st w))
    (Hu : add_seconds (w_clock w) (Z.max 1 t) = Ok until)
    (Hjob : reserve locked qs t worker w = (w', Ok (Some job))) :
  ∃ qs1 qs2 r, qs = qs1 ++ queue job :: qs2 ∧
    Forall (passed_over locked (w_clock w) (jobs (w_st w))) qs1 ∧
    r ∈ jobs (w_st w) ∧ available locked (queue job) (w_clock w) r = true ∧
    (∀ r2, r2 ∈ jobs (w_st w) → available locked (queue job) (w_clock w) r2 = true → discarded r2 = false →
       due_before r r2 = true) ∧
    id job = jr_id r ∧ name job = jr_name r ∧ payload_json job = jr_payload r ∧
    loads (jr_payload r) = Ok (JObj (payload job)) ∧ reserved_by job = worker_name worker ∧
    attempts job = jr_attempts r + 1 ∧ attempts job ≤ max_attempts job.
Proof.
  destruct (reserve_spec locked qs t worker until w (wf_rows _ Hwf) Hu)
    as [(w1 & Hrun & _)|(w1 & job1 & qs1 & q & qs2 & r & Hrun & -> & Hall & Hr & Hav & Hg & Hleast & Htj)];
    rewrite Hrun in Hjob; simplify_eq.
  destruct (to_job_fields _ _ _ Htj) as (Hi & Hq & Hn & Hp & Ha & Hm & Hb & Hl & _).
  simpl in *. apply available_queue in Hav as Hrq. rewrite Hq, Hrq.
  exists qs1, qs2, r. split_and!; try done.
  unfold discarded, exhausted in Hg. apply orb_false_iff in Hg as [Hg%Z.leb_gt _]. lia.
Qed.

(** A [reserve] does hand out a job whenever one of its queues holds a
    due, free, unlocked row with budget and a readable payload, and fewer
    than five due rows of that queue are spent or unreadable. *)
Theorem reserve_finds_work (locked : list Z) (qs : list string) (q : string) (t : Z) (worker : string) (until : Z)
    (w : world pgdb) (Hwf : wf (w_st w)) (Hu : add_seconds (w_clock w) (Z.max 1 t) = Ok until)
    (Hq : q ∈ qs) (Hrun : runnable locked q (w_clock w) (jobs (w_st w)))
    (Hfew : (length (discardable locked q (w_clock w) (jobs (w_st w))) < CLAIM_ROUNDS)%nat) :
  ∃ w' job, reserve locked qs t worker w = (w', Ok (Some job)).
Proof.
  destruct (reserve_spec locked qs t worker until w (wf_rows _ Hwf) Hu)
    as [(w1 & _ & Hall)|(w1 & job & qs1 & q1 & qs2 & r & Heq & _)]; [|eauto].
  rewrite Forall_forall in Hall. destruct (Hall q Hq) as [Hmany|Hno]; [lia|done].
Qed.

(** *** Concrete tables *)
Definition demo_row (i prio att : Z) (text : string) : job_row :=
  JobRow i "default" "mail" text att 3 prio None 0 None None "" 0.

Definition demo_db (l : list job_row) : world pgdb := World (PgDb l [] 100 0) [] 10000000.

Lemma demo_wf i1 i2 p1 p2 a1 a2 t1 t2 : i1 ≠ i2 → i1 ≤ 100 → i2 ≤ 100 → int4 p1 = true → int4 p2 = true →
  int4 a1 = true → int4 a2 = true → wf (w_st (demo_db [demo_row i1 p1 a1 t1; demo_row i2 p2 a2 t2])).
Proof.
  intros Hne H1 H2 Hp1 Hp2 Ha1 Ha2. constructor; simpl; try by repeat constructor.
  - repeat constructor; set_solver.
  - repeat constructor; unfold row_fits; simpl; rewrite ?Hp1, ?Hp2, ?Ha1, ?Ha2; reflexivity.
Qed.

Definition demo_rows : list job_row := [demo_row 1 0 0 "{}"; demo_row 2 5 1 (sq "{'to': 7}")].

Lemma reserve_from_spec_witness :
  wf (w_st (demo_db demo_rows)) ∧
  ∃ w' ans ds, _reserve_from [] "default" 60 "w1" (demo_db demo_rows) = (w', Ok ans) ∧
    rounds_post [] "default" 70000000 (worker_name "w1") CLAIM_ROUNDS (demo_db demo_rows) w' ans ds.
Proof.
  assert (H : wf (w_st (demo_db demo_rows))) by (by apply demo_wf).
  split; [exact H|]. exact (reserve_from_spec [] "default" 60 "w1" 70000000 (demo_db demo_rows) H eq_refl).
Defined.

Definition demo_reserved : world pgdb * res (option Job) :=
  reserve [] ["high"; "default"] 60 "w1" (demo_db demo_rows).

Lemma reserve_hands_out_witness :
  ∃ job, demo_reserved.2 = Ok (Some job) ∧ id job = 2 ∧ attempts job = 2 ∧
    payload job = [("to", JInt 7)] ∧ attempts job ≤ max_attempts job.
Proof.
  assert (H : wf (w_st (demo_db demo_rows))) by (by apply demo_wf).
  assert (Heq : demo_reserved = (demo_reserved.1, Ok (Some
    (MkJob 2 "default" "mail" [("to", JInt 7)] (sq "{'to': 7}") 2 3 "" "w1" None)))) by (vm_compute; reflexivity).
  destruct (reserve_hands_out [] ["high"; "default"] 60 "w1" 70000000 (demo_db demo_rows) _ _ H eq_refl Heq)
    as (_ & _ & _ & _ & _ & _ & _ & _ & _ & _ & _ & _ & _ & _ & Hbudget).
  eexists. split; [rewrite Heq; reflexivity|]. done.
Defined.

Lemma reserve_finds_work_witness :
  ∃ w' job, reserve [] ["high"; "default"] 60 "w1" (demo_db demo_rows) = (w', Ok (Some job)).
Proof.
  assert (H : wf (w_st (demo_db demo_rows))) by (by apply demo_wf).
  apply (reserve_finds_work [] ["high"; "default"] "default" 60 "w1" 70000000 (demo_db demo_rows) H eq_refl).
  - right; left.
  - exists (demo_row 1 0 0 "{}"). split; [left|]. vm_compute. done.
  - vm_compute. lia.
Defined.

(** Five spent rows of higher priority in front of one that could run. *)
Definition spent_rows : list job_row := (λ i, demo_row i 9 3 "{}") <$> [1; 2; 3; 4; 5].
Definition hidden_work : world pgdb := demo_db (spent_rows ++ [demo_row 6 0 0 "{}"]).

(** The bound on the rounds is reached: with five spent jobs ahead,
    [reserve] answers that nothing is due although a runnable job of the same
    queue is due, free and unlocked, and it stays in the table. *)
Theorem reserve_gives_up_early :
  ∃ w', reserve [] ["default"] 60 "w1" hidden_work = (w', Ok None) ∧
    runnable [] "default" (w_clock hidden_work) (jobs (w_st hidden_work)) ∧
    jobs (w_st w') = [demo_row 6 0 0 "{}"] ∧ due (w_clock w') (demo_row 6 0 0 "{}") = true ∧
    length (failed (w_st w')) = 5%nat.
Proof.
  eexists. split; [vm_compute; reflexivity|]. split; [|vm_compute; done].
  exists (demo_row 6 0 0 "{}"). split; [|vm_compute; done]. vm_compute. repeat constructor.
Qed.
