(* ===== verification/QueuePgOps.v ===== *)
(** * Push, completion and the failed table

    What each method does on every branch, the conservation of jobs between
    the two tables, and the round trips through the payload text and through
    the failed table. *)

From Stdlib Require Import ZArith Lia.
From S2P Require Import Prelude PyStr Json Sql QueueJob QueueIface QueuePg QueuePgProps QueuePgReserve.

(** ** Push *)

Section push.
Context (in_tx : bool).

Abbreviation push := (push (λ db, db) in_tx).

Lemma id_for_unique_spec k w :
  _id_for_unique k w = (w, Ok (jr_id <$> head (select_where (has_key k) (jobs (w_st w))))).
Proof. unfold _id_for_unique, select_jobs. run_prog. by destruct w. Qed.

(** The row [push] inserts. *)
Definition pushed_row (n text q : string) (pr : Z) (u : option string) (m available : Z) (w : world pgdb) : job_row :=
  new_job (if String.eqb q "" then "default" else q) n text (Z.max 1 m) pr (or_none u) available (w_clock w)
    (job_seq (w_st w) + 1).

Definition key_taken (u : option string) (l : list job_row) : option Z :=
  match or_none u with Some k => jr_id <$> head (select_where (has_key k) l) | None => None end.

Definition bump (w : world pgdb) (l : list job_row) : world pgdb :=
  set_db w (PgDb l (failed (w_st w)) (job_seq (w_st w) + 1) (failed_seq (w_st w))).

(** [push] on every branch: a key already queued answers the id of the
    row that holds it and changes nothing; otherwise a payload that JSON
    cannot hold raises [QueueError] and a due time past the calendar
    [OverflowError], both without touching the tables; values too wide for
    their columns raise the database's error and insert nothing; and in every
    other case one row is added at the end, with no attempt made, the default
    queue for an empty name, a budget of at least one and the due time moved
    by a delay that is not negative, and its fresh id is the answer. *)
Theorem push_spec (n : string) (p : option (list (string * json))) (d : Z) (q : string) (pr : Z)
    (u : option string) (m : Z) (w : world pgdb) :
  push n p d q pr u m w =
  match key_taken u (jobs (w_st w)) with
  | Some i => (w, Ok i)
  | None =>
      match encode_payload (default [] p), add_seconds (w_clock w) (Z.max 0 d) with
      | Err e, _ => (w, Err e)
      | Ok _, Err e => (w, Err e)
      | Ok text, Ok available =>
          let r := pushed_row n text q pr u m available w in
          if row_fits r then (bump w (jobs (w_st w) ++ [r]), Ok (jr_id r))
          else (bump w (jobs (w_st w)), Err (raise_exn PsycopgError "value does not fit its column"))
      end
  end.
Proof.
  unfold QueuePg.push, key_taken. unfold now_utc, mbind at 1, prog_bind at 1.
  assert (Hrest : key_taken u (jobs (w_st w)) = None →
    (encoded ← lift_res (encode_payload (default [] p));
     available_at ← lift_res (add_seconds (w_clock w) (Z.max 0 d));
     try_except
        (stmt (λ db, (db, ())) ;;
         insert_job (new_job (if String.eqb q "" then "default" else q) n encoded
                       (Z.max 1 m) pr (or_none u) available_at (w_clock w)))
        (is_class UniqueViolation)
        (λ e,
          existing ← (match or_none u with
                      | Some k =>
                          if in_tx then raise (raise_exn PsycopgError "current transaction is aborted")
                          else _id_for_unique k
                      | None => mret None
                      end);
          match existing with Some i => mret i | None => raise e end)) w =
    match encode_payload (default [] p), add_seconds (w_clock w) (Z.max 0 d) with
      | Err e, _ => (w, Err e)
      | Ok _, Err e => (w, Err e)
      | Ok text, Ok available =>
          let r := pushed_row n text q pr u m available w in
          if row_fits r then (bump w (jobs (w_st w) ++ [r]), Ok (jr_id r))
          else (bump w (jobs (w_st w)), Err (raise_exn PsycopgError "value does not fit its column"))
    end).
  { intros Hk. unfold lift_res, mbind at 1, prog_bind at 1.
    destruct (encode_payload (default [] p)) as [text|e]; [|done].
    unfold mbind at 1, prog_bind at 1. destruct (add_seconds _ _) as [av|e]; [|done].
    unfold try_except, stmt, mbind at 1, prog_bind at 1.
    unfold insert_job. cbn [w_st w_log w_clock].
    fold (pushed_row n text q pr u m av w). cbv zeta.
    destruct (row_fits (pushed_row n text q pr u m av w)) eqn:Hfit; cbn [negb]; [|by destruct w].
    change (jr_unique_key (pushed_row n text q pr u m av w)) with (or_none u).
    unfold key_taken in Hk. destruct (or_none u) as [k|]; [|by destruct w].
    assert (Hno : existsb (has_key k) (jobs (w_st w)) = false).
    { apply not_true_iff_false. intros (r & Hr%list_elem_of_In & Hh)%existsb_exists.
      assert (Hin : r ∈ select_where (has_key k) (jobs (w_st w))) by (by apply elem_of_select).
      destruct (select_where (has_key k) (jobs (w_st w))); [by apply not_elem_of_nil in Hin|done]. }
    rewrite Hno. by destruct w. }
  unfold key_taken in Hrest. destruct (or_none u) as [k|] eqn:Hu.
  - rewrite (bind_ok _ _ _ _ _ (id_for_unique_spec k w)).
    destruct (jr_id <$> head _) as [i|]; [done|]. by apply Hrest.
  - unfold mbind at 1, prog_bind at 1, mret, prog_ret. by apply Hrest.
Qed.
End push.

(** While a unique key is queued, pushing under it again answers the id of
    the job that holds it, leaves the tables alone, and that job is the only
    one with the key - however the second call's other arguments differ and
    whenever it comes. *)
Theorem push_unique_idempotent (tx tx' : bool) (n n' : string) (p p' : option (list (string * json)))
    (d d' : Z) (q q' : string) (pr pr' : Z) (k : string) (m m' : Z) (w w' : world pgdb) (i : Z) (clock : Z)
    (Hwf : wf (w_st w)) (Hk : k ≠ "")
    (Hpush : push (λ db, db) tx n p d q pr (Some k) m w = (w', Ok i)) :
  let again := World (w_st w') (w_log w') clock in
  push (λ db, db) tx' n' p' d' q' pr' (Some k) m' again = (again, Ok i) ∧
  ∃ r, select_where (has_key k) (jobs (w_st w')) = [r] ∧ jr_id r = i.
Proof.
  intros again.
  assert (Hor : or_none (Some k) = Some k) by (simpl; by destruct (String.eqb_spec k "")).
  assert (Hwf' : wf (w_st w')).
  { pose proof (push_wf (λ db, db) tx n p d q pr (Some k) m ltac:(by intros ? ?) w Hwf) as Hw.
    by rewrite Hpush in Hw. }
  assert (Hone : ∃ r, select_where (has_key k) (jobs (w_st w')) = [r] ∧ jr_id r = i).
  { assert (Hex : ∃ r rest, select_where (has_key k) (jobs (w_st w')) = r :: rest ∧ jr_id r = i).
    { rewrite push_spec in Hpush. unfold key_taken in Hpush. rewrite Hor in Hpush.
      destruct (select_where (has_key k) (jobs (w_st w))) as [|r rest] eqn:Hs; cbn [head fmap option_fmap option_map] in Hpush.
      - destruct (encode_payload _) as [text|]; [|done]. destruct (add_seconds _ _) as [av|]; [|done].
        cbv zeta in Hpush. destruct (row_fits _); [|done]. injection Hpush as <- <-.
        match goal with |- context [bump w (_ ++ [?r])] => exists r, [] end.
        split; [|done]. cbn [bump set_db w_st jobs]. unfold select_where in *.
        rewrite filter_app, Hs. rewrite filter_cons, decide_True; [done|].
        unfold has_key. apply bool_decide_eq_true. exact Hor.
      - injection Hpush as <- <-. eauto. }
    destruct Hex as (r & rest & Hs & Hi). exists r. split; [|done]. rewrite Hs. f_equal.
    destruct rest as [|r2 rest]; [done|]. exfalso.
    assert (Hnd : NoDup (omap jr_unique_key (r :: r2 :: rest))).
    { rewrite <- Hs. apply NoDup_omap_filter, Hwf'. }
    assert (Hkey : ∀ x, x ∈ r :: r2 :: rest → jr_unique_key x = Some k).
    { intros x Hx. rewrite <- Hs in Hx. apply elem_of_select in Hx as [_ Hx].
      unfold has_key in Hx. by apply bool_decide_eq_true in Hx. }
    simpl in Hnd. rewrite (Hkey r), (Hkey r2) in Hnd by set_solver.
    apply NoDup_cons in Hnd as [Hni _]. apply Hni. left. }
  split; [|exact Hone]. rewrite push_spec. unfold key_taken. rewrite Hor.
  destruct Hone as (r & Hs & Hi). subst again. simpl. rewrite Hs. simpl. by rewrite Hi.
Qed.

Lemma push_unique_idempotent_witness :
  let w := World (PgDb [] [] 0 0) [] 0 in
  let w' := (push (λ db, db) false "rebuild" None 0 "" 0 (Some "rebuild:7") 3 w).1 in
  push (λ db, db) true "other" None 5 "high" 1 (Some "rebuild:7") 1 (World (w_st w') [] 99) =
    (World (w_st w') [] 99, Ok 1).
Proof.
  intros w w'.
  assert (Hwf : wf (w_st w)) by (constructor; simpl; constructor).
  destruct (push_unique_idempotent false true "rebuild" "other" None None 0 5 "" "high" 0 1 "rebuild:7" 3 1
    w w' 1 99 Hwf ltac:(done) ltac:(vm_compute; reflexivity)) as [H _]. exact H.
Defined.

(** A payload pushed on a queue that was empty is what the next [reserve]
    of that queue gives the handler once the job is due: the same dictionary,
    its text byte for byte, the first attempt of a budget of at least one. *)
Theorem push_reserve_payload (tx : bool) (n : string) (p : list (string * json)) (d : Z) (q : string) (pr m : Z)
    (u : option string) (t : Z) (worker : string) (w w' : world pgdb) (i clock due_at until : Z)
    (Hwf : wf (w_st w)) (Hp : json_ok (JObj p)) (Hq : q ≠ "")
    (Hempty : Forall (λ r, jr_queue r ≠ q) (jobs (w_st w))) (Hkey : key_taken u (jobs (w_st w)) = None)
    (Hpush : push (λ db, db) tx n (Some p) d q pr u m w = (w', Ok i))
    (Hav : add_seconds (w_clock w) (Z.max 0 d) = Ok due_at) (Hdue : due_at ≤ clock)
    (Hu : add_seconds clock (Z.max 1 t) = Ok until) :
  ∃ w'' job text, reserve [] [q] t worker (World (w_st w') [] clock) = (w'', Ok (Some job)) ∧
    id job = i ∧ name job = n ∧ payload job = p ∧ dumps (JObj p) = Ok text ∧ payload_json job = text ∧
    attempts job = 1 ∧ max_attempts job = Z.max 1 m.
Proof.
  pose proof (push_wf (λ db, db) tx n (Some p) d q pr u m ltac:(by intros ? ?) w Hwf) as Hwf1.
  rewrite Hpush in Hwf1. cbn [fst] in Hwf1.
  rewrite push_spec, Hkey, Hav in Hpush. change (default [] (Some p)) with p in Hpush.
  unfold encode_payload in Hpush.
  destruct (dumps (JObj p)) as [text|e] eqn:Hd; [|by destruct (is_class TypeError e || is_class ValueError e)].
  cbv zeta in Hpush. set (r := pushed_row n text q pr u m due_at w) in *.
  destruct (row_fits r); [|done]. injection Hpush as <- <-.
  pose proof (loads_dumps _ _ Hp Hd) as Hload.
  set (w1 := World (w_st (bump w (jobs (w_st w) ++ [r]))) [] clock).
  assert (Hrq : jr_queue r = q) by (subst r; simpl; by destruct (String.eqb_spec q "")).
  assert (Honly : ∀ x, x ∈ jobs (w_st w1) → jr_queue x = q → x = r).
  { intros x [Hx|Hx%list_elem_of_singleton]%elem_of_app Hxq; [|done].
    rewrite Forall_forall in Hempty. by destruct (Hempty x Hx). }
  assert (Hav1 : available [] q clock r = true).
  { unfold available, claimable, skip_locked, free_at. rewrite Hrq.
    cbn [jr_available_at jr_reserved_until r pushed_row new_job].
    rewrite bool_decide_true by done. by rewrite (proj2 (Z.leb_le _ _)) by done. }
  assert (Hgood : discarded r = false).
  { unfold discarded, exhausted, decodable. cbn [jr_payload jr_attempts jr_max_attempts r pushed_row new_job].
    rewrite Hload. by rewrite (proj2 (Z.leb_gt _ _)) by lia. }
  destruct (reserve_spec [] [q] t worker until w1 (wf_rows _ Hwf1) Hu)
    as [(w2 & _ & Hall)|(w2 & job & qs1 & q1 & qs2 & r0 & Hres & Hqs & _ & Hr0 & Hav0 & _ & _ & Htj)].
  { exfalso. apply Forall_cons_1 in Hall as [[Hmany|Hno] _].
    - assert (Hnil : discardable [] q (w_clock w1) (jobs (w_st w1)) = []).
      { apply filter_none. intros x Hx [Hxa Hxb]%andb_true_iff.
        rewrite (Honly x Hx (available_queue _ _ _ _ Hxa)) in Hxb. congruence. }
      rewrite Hnil in Hmany. unfold CLAIM_ROUNDS in Hmany. simpl in Hmany. lia.
    - apply Hno. exists r. split; [apply elem_of_app; right; left|done]. }
  assert (q1 = q) as -> by (destruct qs1 as [|? [|]]; simplify_eq/=; done).
  rewrite (Honly r0 Hr0 (available_queue _ _ _ _ Hav0)) in *.
  destruct (to_job_fields _ _ _ Htj) as (Hid & _ & Hname & Hpj & Hatt & Hmax & _ & Hl & _).
  exists w2, job, text. split_and!; try done. simpl in Hl. congruence.
Qed.

Lemma push_reserve_payload_witness :
  let p := [("to", JStr "a@b.c"); ("tries", JList [JInt 1; JFloat "2.5"; JNull])] in
  let w := World (PgDb [] [] 41 0) [] 0 in
  let w' := (push (λ db, db) false "mail" (Some p) 30 "default" 0 None 0 w).1 in
  ∃ w'' job text, reserve [] ["default"] 60 "w1" (World (w_st w') [] 30000000) = (w'', Ok (Some job)) ∧
    id job = 42 ∧ name job = "mail" ∧ payload job = p ∧ dumps (JObj p) = Ok text ∧ payload_json job = text ∧
    attempts job = 1 ∧ max_attempts job = Z.max 1 0.
Proof.
  intros p w w'.
  assert (Hwf : wf (w_st w)) by (constructor; simpl; constructor).
  apply (push_reserve_payload false "mail" p 30 "default" 0 0 None 60 "w1" w w' 42 30000000 30000000 90000000);
    try done; try (vm_compute; reflexivity).
  - repeat constructor; set_solver.
Defined.

(** ** Completion *)

(** A completion acts on the row only while the claim it was handed out
    under still holds it: [delete] removes that row, [release] frees it with
    its attempts as they are, the new due time and the fitted error, [fail]
    moves it to the failed table; every other row stays as it was. When the
    claim is gone - the row deleted, released, or taken over by a later
    attempt - the tables stay as they are and a warning is logged. *)
Theorem completion_spec (job : Job) (delay : Z) (error : string) (w : world pgdb) (due_at : Z)
    (Hwf : wf (w_st w)) (Hdue : add_seconds (w_clock w) (Z.max 0 delay) = Ok due_at) :
  (∃ r, r ∈ jobs (w_st w) ∧ holds job r ∧
     delete job w = (set_db w (with_jobs (without (id job) (jobs (w_st w))) (w_st w)), Ok ()) ∧
     release job delay error w =
       (set_db w (with_jobs (replaced (id job) (release_row due_at (fit_error error) r) (jobs (w_st w))) (w_st w)),
        Ok ()) ∧
     fail job error w = (set_db w (moved r error (w_clock w) (w_st w)), Ok ())) ∨
  ((∀ r, r ∈ jobs (w_st w) → ¬ holds job r) ∧
     delete job w = (stale_after "delete" job w, Ok ()) ∧
     release job delay error w = (stale_after "release" job w, Ok ()) ∧
     fail job error w = (stale_after "fail" job w, Ok ())).
Proof.
  pose proof (wf_ids _ Hwf) as Hnd.
  assert (Huniq : ∀ r r', r ∈ jobs (w_st w) → r' ∈ jobs (w_st w) → holds job r → holds job r' → r' = r).
  { intros r r' Hr Hr' [Hi _] [Hi' _]. eapply (NoDup_fmap_inj_in jr_id (jobs (w_st w))); eauto. congruence. }
  destruct (delete_spec job w Hnd) as [(r & Hr & Hh & Hd)|[Hno Hd]].
  - left. exists r. split_and!; [done..| |].
    + destruct (release_spec job delay error w due_at (wf_rows _ Hwf) Hdue) as [(r' & Hr' & Hh' & Heq)|[Hno _]];
        [|by destruct (Hno r Hr)]. rewrite (Huniq r r') in Heq; done.
    + destruct (fail_spec job error w Hnd) as [(r' & Hr' & Hh' & Heq)|[Hno _]];
        [|by destruct (Hno r Hr)]. rewrite (Huniq r r') in Heq; done.
  - right. split_and!; [done..| |].
    + destruct (release_spec job delay error w due_at (wf_rows _ Hwf) Hdue) as [(r' & Hr' & Hh' & _)|[_ ?]];
        [by destruct (Hno r' Hr')|done].
    + destruct (fail_spec job error w Hnd) as [(r' & Hr' & Hh' & _)|[_ ?]]; [by destruct (Hno r' Hr')|done].
Qed.

Definition held_row : job_row := claim_row 70000000 "w1" (demo_row 1 0 0 "{}").
Definition held_db : world pgdb := demo_db [held_row; demo_row 2 5 1 "{}"].
Definition held_job : Job := MkJob 1 "default" "mail" [] "{}" 1 3 "" "w1" None.

Lemma held_wf : wf (w_st held_db).
Proof.
  constructor; simpl; try by repeat constructor. repeat constructor; set_solver.
Qed.

Lemma completion_spec_witness :
  ∃ r, r ∈ jobs (w_st held_db) ∧ holds held_job r ∧
    delete held_job held_db = (set_db held_db (with_jobs [demo_row 2 5 1 "{}"] (w_st held_db)), Ok ()).
Proof.
  destruct (completion_spec held_job 5 "" held_db 15000000 held_wf eq_refl)
    as [(r & Hr & Hh & Hd & _)|[Hno _]].
  - exists r. split_and!; [exact Hr|exact Hh|]. rewrite Hd. reflexivity.
  - exfalso. by apply (Hno held_row); [left|].
Defined.

(** ** Jobs are neither lost nor made up *)

(** Queue, handler name and payload text of every job, waiting or failed. *)
Definition contents (db : pgdb) : list (string * string * string) :=
  (content <$> jobs db) ++ (failed_content <$> failed db).

Definition conserves (db db' : pgdb) : Prop := wf db → wf db' ∧ contents db' ≡ₚ contents db.

#[export] Instance conserves_preorder : PreOrder conserves.
Proof.
  split; unfold conserves; [done|]. intros a b c H1 H2 Ha. destruct (H1 Ha) as [Hb E1]. destruct (H2 Hb) as [Hc E2].
  split; [done|]. by rewrite E2.
Qed.

Lemma moved_contents db r error moment : wf db → r ∈ jobs db → contents (moved r error moment db) ≡ₚ contents db.
Proof.
  intros Hwf Hr. unfold contents. cbn [moved jobs failed]. rewrite fmap_app. simpl.
  rewrite (without_Permutation (jobs db) r) at 2; [|apply Hwf|done]. rewrite fmap_cons. simpl.
  change (failed_content _) with (content r). solve_Permutation.
Qed.

Lemma move_to_failed_conserves i guard error : within conserves (_move_to_failed i guard error).
Proof.
  intros w Hwf. destruct (move_to_failed_spec i guard error w (wf_ids _ Hwf)) as [(r & Hr & _ & _ & ->)|[_ ->]];
    [|done]. split; [by apply moved_wf|by apply moved_contents].
Qed.

Lemma update_conserves p f :
  (∀ r, jr_id (f r) = jr_id r ∧ jr_unique_key (f r) = jr_unique_key r ∧ content (f r) = content r) →
  within conserves (update_jobs p f).
Proof.
  intros Hf. apply (update_jobs_within _). intros db Hfit Hwf. split.
  - assert (Hk : within (keeps wf) (update_jobs p f)) by (apply update_jobs_wf; intros r; by destruct (Hf r) as (? & ? & ?)).
    specialize (Hk (World db [] 0) Hwf). by rewrite update_jobs_run in Hk.
  - unfold contents. cbn [jobs failed].
    pose proof (update_where_keys content p f (jobs db)) as Hk. rewrite Hk by apply Hf. done.
Qed.

Lemma select_conserves p : within conserves (select_jobs p).
Proof. apply within_stmt. intros db Hwf. done. Qed.
#[export] Hint Resolve move_to_failed_conserves update_conserves select_conserves : pyr.

Lemma release_conserves job d e : within conserves (release job d e).
Proof. unfold release, _stale. within_tac. Qed.

Lemma fail_conserves job e : within conserves (fail job e).
Proof. unfold fail, _stale. within_tac. Qed.

Lemma claim_candidate_conserves locked q moment until worker :
  within conserves (claim_candidate locked q moment until worker).
Proof. unfold claim_candidate, _candidate, _claim, _read. within_tac. Qed.
#[export] Hint Resolve claim_candidate_conserves : pyr.

Lemma reserve_conserves locked qs t worker : within conserves (reserve locked qs t worker).
Proof.
  assert (Hr : ∀ q n, within conserves (reserve_rounds locked n q t worker)).
  { intros q n. induction n; simpl; unfold reserve_round; within_tac. }
  induction qs as [|q qs IH]; simpl; unfold _reserve_from; within_tac.
Qed.

Lemma failed_row_fits db r : wf db → r ∈ failed db → failed_fits r = true.
Proof. intros Hwf Hr. pose proof (wf_failed_fits _ Hwf) as Hf. rewrite Forall_forall in Hf. auto. Qed.

(** Moving one selected row back, whether it still is in the table or not. *)
Lemma requeue_row_spec m r w :
  failed_fits r = true → int4 (Z.max 1 m) = true →
  requeue_row m r w =
    (set_db w (PgDb (jobs (w_st w) ++ [new_job (fr_queue r) (fr_name r) (fr_payload r) (Z.max 1 m) 0 None
                                         (w_clock w) (w_clock w) (job_seq (w_st w) + 1)])
                (filter (λ r', fr_id r' ≠ fr_id r) (failed (w_st w)))
                (job_seq (w_st w) + 1) (failed_seq (w_st w))), Ok ()).
Proof.
  intros Hr Hm. unfold requeue_row, insert_job, delete_failed, delete_where. run_prog.
  assert (Hfit : ∀ a b i, row_fits (new_job (fr_queue r) (fr_name r) (fr_payload r) (Z.max 1 m) 0 None a b i) = true).
  { intros. unfold row_fits. cbn [jr_queue jr_name jr_attempts jr_max_attempts jr_priority jr_unique_key jr_reserved_by new_job]. rewrite Hm.
    unfold failed_fits in Hr. apply andb_true_iff in Hr as [Hr _]. apply andb_true_iff in Hr as [-> ->]. done. }
  rewrite Hfit. simpl. unfold set_db. do 3 f_equal. apply filter_ext_in.
  intros x _. apply Z.eqb_neq.
Qed.

Lemma requeued_contents m r w : wf (w_st w) → r ∈ failed (w_st w) → int4 (Z.max 1 m) = true →
  contents (w_st (requeue_row m r w).1) ≡ₚ contents (w_st w).
Proof.
  intros Hwf Hr Hm. rewrite (requeue_row_spec m r w (failed_row_fits _ _ Hwf Hr) Hm). unfold contents. cbn [set_db fst w_st jobs failed].
  rewrite fmap_app. simpl.
  rewrite (key_Permutation fr_id (failed (w_st w)) r) at 2; [|apply Hwf|done].
  rewrite fmap_cons. change (content _) with (failed_content r). solve_Permutation.
Qed.

(** The rows [retry_failed] selects. *)
Definition selected (job_id : option Z) (l : list failed_row) : list failed_row :=
  order_by failed_before (select_where (λ r, match job_id with Some i => fr_id r =? i | None => true end) l).

Lemma elem_of_selected job_id l r :
  r ∈ selected job_id l ↔ r ∈ l ∧ (∀ i, job_id = Some i → fr_id r = i).
Proof.
  unfold selected. rewrite order_by_Permutation, elem_of_select. split; intros [Hr Hp]; (split; [done|]).
  - intros i ->. by apply Z.eqb_eq.
  - destruct job_id; [|done]. apply Z.eqb_eq. auto.
Qed.

Lemma selected_NoDup job_id l : NoDup (fr_id <$> l) → NoDup (fr_id <$> selected job_id l).
Proof. intros Hnd. unfold selected. rewrite order_by_Permutation. by apply NoDup_fmap_filter. Qed.

(** What is left of the failed table once the rows [rs] were moved back. *)
Definition without_failed (rs l : list failed_row) : list failed_row := filter (λ r, fr_id r ∉ fr_id <$> rs) l.

Lemma requeue_rows_spec m rs w :
  wf (w_st w) → NoDup (fr_id <$> rs) → (∀ r, r ∈ rs → r ∈ failed (w_st w)) → int4 (Z.max 1 m) = true →
  ∃ w', for_each rs (requeue_row m) w = (w', Ok ()) ∧ wf (w_st w') ∧
    contents (w_st w') ≡ₚ contents (w_st w) ∧
    failed (w_st w') = without_failed rs (failed (w_st w)) ∧
    ∃ new, jobs (w_st w') = jobs (w_st w) ++ new ∧
      content <$> new = failed_content <$> rs ∧
      Forall (λ r, jr_attempts r = 0 ∧ jr_max_attempts r = Z.max 1 m ∧ jr_priority r = 0 ∧
                   jr_unique_key r = None ∧ jr_available_at r = w_clock w ∧ jr_reserved_until r = None) new.
Proof.
  revert w. induction rs as [|r rs IH]; intros w Hwf Hnd Hin Hm.
  { exists w. unfold without_failed. rewrite filter_all by (intros ? ?; apply not_elem_of_nil).
    split_and!; try done. exists []. rewrite app_nil_r. by split_and!. }
  cbn [for_each]. rewrite fmap_cons in Hnd. apply NoDup_cons in Hnd as [Hni Hnd].
  assert (Hr : r ∈ failed (w_st w)) by (apply Hin; left).
  pose proof (requeue_row_spec m r w (failed_row_fits _ _ Hwf Hr) Hm) as Heq.
  pose proof (requeued_contents m r w Hwf Hr Hm) as Hc.
  pose proof (requeue_row_wf m r w Hwf) as Hwf1.
  rewrite Heq in Hc, Hwf1. rewrite (bind_ok _ _ _ _ _ Heq).
  set (w1 := set_db w _) in *. cbn [fst] in *.
  destruct (IH w1) as (w' & Hrun & Hwf' & Hc' & Hf' & new & Hj' & Hn' & Hall); try done.
  { intros x Hx. unfold w1. cbn [set_db w_st failed]. apply list_elem_of_filter. split; [|apply Hin; by right].
    intros Hxr. apply Hni. rewrite <- Hxr. by apply list_elem_of_fmap_2. }
  exists w'. split_and!; [done|done|by rewrite Hc'| |].
  - rewrite Hf'. unfold w1, without_failed. cbn [set_db w_st failed]. rewrite list_filter_filter.
    apply filter_ext_in. intros x _. rewrite fmap_cons, not_elem_of_cons. tauto.
  - eexists (_ :: new). split_and!.
    + rewrite Hj'. unfold w1. cbn [set_db w_st jobs]. by rewrite <- app_assoc.
    + rewrite !fmap_cons, Hn'. done.
    + constructor; [done|]. exact Hall.
Qed.

Lemma retry_failed_spec job_id m w :
  wf (w_st w) → int4 (Z.max 1 m) = true →
  let rs := selected job_id (failed (w_st w)) in
  ∃ w', retry_failed job_id m w = (w', Ok (Z.of_nat (length rs))) ∧ wf (w_st w') ∧
    contents (w_st w') ≡ₚ contents (w_st w) ∧
    failed (w_st w') = without_failed rs (failed (w_st w)) ∧
    ∃ new, jobs (w_st w') = jobs (w_st w) ++ new ∧
      content <$> new = failed_content <$> rs ∧
      Forall (λ r, jr_attempts r = 0 ∧ jr_max_attempts r = Z.max 1 m ∧ jr_priority r = 0 ∧
                   jr_unique_key r = None ∧ jr_available_at r = w_clock w ∧ jr_reserved_until r = None) new.
Proof.
  intros Hwf Hm rs.
  destruct (requeue_rows_spec m rs w Hwf) as (w' & Hrun & Hrest).
  - apply selected_NoDup, Hwf.
  - intros r Hr. by apply elem_of_selected in Hr as [? _].
  - done.
  - exists w'. split; [|exact Hrest]. unfold retry_failed, get_st. unfold mbind at 1, prog_bind at 1. cbv zeta.
    fold (selected job_id (failed (w_st w))). fold rs. by rewrite (bind_ok _ _ _ _ _ Hrun).
Qed.

(** Whatever [reserve], [release], [fail] and [retry_failed] are called
    with, and whether they return or raise, the multiset of queue, handler
    name and payload text over both tables is the one they found: a job is
    moved between the tables, never in both, in neither or altered. *)
Theorem jobs_conserved (w : world pgdb) (Hwf : wf (w_st w)) :
  (∀ locked qs t worker, contents (w_st (reserve locked qs t worker w).1) ≡ₚ contents (w_st w)) ∧
  (∀ job d e, contents (w_st (release job d e w).1) ≡ₚ contents (w_st w)) ∧
  (∀ job e, contents (w_st (fail job e w).1) ≡ₚ contents (w_st w)) ∧
  (∀ i m, int4 (Z.max 1 m) = true → contents (w_st (retry_failed i m w).1) ≡ₚ contents (w_st w)).
Proof.
  split_and!; intros.
  - by apply reserve_conserves.
  - by apply release_conserves.
  - by apply fail_conserves.
  - destruct (retry_failed_spec i m w Hwf H) as (w' & -> & _ & Hc & _). exact Hc.
Qed.

Lemma jobs_conserved_witness :
  contents (w_st (fail held_job "boom" held_db).1) ≡ₚ contents (w_st held_db) ∧
  length (failed (w_st (fail held_job "boom" held_db).1)) = 1%nat.
Proof.
  destruct (jobs_conserved held_db held_wf) as (_ & _ & Hf & _). split; [apply Hf|vm_compute; reflexivity].
Defined.

(** ** The methods on well formed tables *)

















(** C4: a held job that fails and is then retried by its failed id is back on
    its queue with its handler name and payload byte for byte, no attempt
    spent, the new budget, priority 0, no unique key and due at once; the
    failed table is what it was before the failure and no other job moved. *)
Theorem fail_retry_roundtrip (job : Job) (error : string) (m clock : Z) (w : world pgdb) (r : job_row)
    (Hwf : wf (w_st w)) (Hr : r ∈ jobs (w_st w)) (Hh : holds job r) (Hm : int4 (Z.max 1 m) = true) :
  let later := World (w_st (fail job error w).1) [] clock in
  ∃ w2 r', retry_failed (Some (failed_seq (w_st w) + 1)) m later = (w2, Ok 1) ∧
    failed (w_st w2) = failed (w_st w) ∧ jobs (w_st w2) = without (id job) (jobs (w_st w)) ++ [r'] ∧
    content r' = content r ∧ jr_attempts r' = 0 ∧ jr_max_attempts r' = Z.max 1 m ∧ jr_priority r' = 0 ∧
    jr_unique_key r' = None ∧ jr_available_at r' = clock ∧ jr_reserved_until r' = None.
Proof.
  intros later.
  assert (Hdb : w_st later = moved r error (w_clock w) (w_st w)).
  { subst later. destruct (fail_spec job error w (wf_ids _ Hwf)) as [(r' & Hr' & Hh' & ->)|[Hno _]];
      [|by destruct (Hno r Hr)]. simpl. f_equal.
    eapply (NoDup_fmap_inj_in jr_id (jobs (w_st w))); eauto using wf_ids. destruct Hh, Hh'. congruence. }
  assert (Hwf1 : wf (w_st later)) by (rewrite Hdb; by apply moved_wf).
  destruct (retry_failed_spec (Some (failed_seq (w_st w) + 1)) m later Hwf1 Hm)
    as (w2 & Hrun & _ & _ & Hf & new & Hj & Hc & Hall).
  rewrite Hdb in *. cbn [moved jobs failed] in *.
  set (fr := FailedRow _ _ _ _ _ _ _) in *.
  assert (Hfresh : ∀ x, x ∈ failed (w_st w) → fr_id x ≠ fr_id fr).
  { intros x Hx. pose proof (wf_failed_seq _ Hwf) as Hs. rewrite Forall_forall in Hs. specialize (Hs x Hx).
    simpl. lia. }
  assert (Hsel : selected (Some (failed_seq (w_st w) + 1)) (failed (w_st w) ++ [fr]) = [fr]).
  { apply Permutation_singleton_r. unfold selected. rewrite order_by_Permutation. unfold select_where.
    rewrite filter_app, filter_none, filter_cons, decide_True; [done|apply Z.eqb_refl|].
    intros x Hx. rewrite Z.eqb_eq. by apply Hfresh. }
  rewrite Hsel in *. destruct new as [|r' [|]]; try done. apply Forall_cons_1 in Hall as [Hall _].
  destruct Hall as (? & ? & ? & ? & ? & ?).
  exists w2, r'. split_and!; try done.
  - rewrite Hf. unfold without_failed. rewrite filter_app, filter_all, filter_cons, decide_False; [by rewrite app_nil_r| |].
    + intros Hn. apply Hn. left.
    + intros x Hx [Hxf|Hxf%not_elem_of_nil]%elem_of_cons; [by apply (Hfresh x)|done].
  - rewrite Hj. by rewrite (proj1 Hh).
  - simpl in Hc. change (failed_content fr) with (content r) in Hc. congruence.
Qed.

Lemma fail_retry_roundtrip_witness :
  holds held_job held_row ∧
  ∃ w2 r', retry_failed (Some 1) 5 (World (w_st (fail held_job "boom" held_db).1) [] 42) = (w2, Ok 1) ∧
    content r' = content held_row ∧ jr_max_attempts r' = 5.
Proof.
  assert (Hh : holds held_job held_row) by done. split; [exact Hh|].
  destruct (fail_retry_roundtrip held_job "boom" 5 42 held_db held_row held_wf ltac:(left) Hh eq_refl)
    as (w2 & r' & Hrun & _ & _ & Hc & _ & Hm & _).
  exists w2, r'. split; [exact Hrun|]. split; [exact Hc|exact Hm].
Defined.

(** [retry_failed] moves each selected row in a transaction of its own,
    but its delete is not checked: when two runs selected the same failed row,
    the second one still queues it again, so one failed job becomes two. *)
Theorem requeue_stale_duplicates (m : Z) (r : failed_row) (w : world pgdb)
    (Hwf : wf (w_st w)) (Hr : r ∈ failed (w_st w)) (Hm : int4 (Z.max 1 m) = true) :
  let w1 := (requeue_row m r w).1 in let w2 := (requeue_row m r w1).1 in
  (requeue_row m r w1).2 = Ok () ∧ r ∉ failed (w_st w1) ∧
  contents (w_st w1) ≡ₚ contents (w_st w) ∧
  contents (w_st w2) ≡ₚ failed_content r :: contents (w_st w).
Proof.
  pose proof (failed_row_fits _ _ Hwf Hr) as Hfit. intros w1 w2.
  pose proof (requeued_contents m r w Hwf Hr Hm) as Hc. fold w1 in Hc.
  assert (Hw1 := requeue_row_spec m r w Hfit Hm). assert (Hw2 := requeue_row_spec m r w1 Hfit Hm).
  assert (Hgone : r ∉ failed (w_st w1)).
  { unfold w1. rewrite Hw1. cbn [fst set_db w_st failed]. rewrite list_elem_of_filter. naive_solver. }
  split_and!; [by rewrite Hw2|done|done|].
  rewrite <- Hc. unfold w2. rewrite Hw2. unfold contents. cbn [fst set_db w_st jobs failed].
  rewrite fmap_app, (filter_all (λ r', fr_id r' ≠ fr_id r)).
  - simpl. change (content _) with (failed_content r). solve_Permutation.
  - unfold w1. rewrite Hw1. cbn [fst set_db w_st failed]. by intros x [Hx _]%list_elem_of_filter.
Qed.

Definition one_failed : world pgdb :=
  World (PgDb [] [FailedRow 7 "default" "mail" "{}" 3 "boom" 0] 9 7) [] 0.

Lemma requeue_stale_duplicates_witness :
  let r := FailedRow 7 "default" "mail" "{}" 3 "boom" 0 in
  contents (w_st (requeue_row 3 r (requeue_row 3 r one_failed).1).1) ≡ₚ
    failed_content r :: contents (w_st one_failed) ∧
  jr_id <$> jobs (w_st (requeue_row 3 r (requeue_row 3 r one_failed).1).1) = [10; 11].
Proof.
  intros r. assert (Hwf : wf (w_st one_failed)).
  { constructor; simpl; try constructor; try done; constructor || set_solver. }
  destruct (requeue_stale_duplicates 3 r one_failed Hwf ltac:(left) eq_refl) as (_ & _ & _ & H).
  split; [exact H|vm_compute; reflexivity].
Defined.

(** ** Errors *)

(** An error that fits is stored as it is; a longer one is cut to a prefix
    of its characters, at most three bytes short of the limit, so what is
    stored is valid UTF-8 and at most sixteen bytes longer than the limit. *)
Theorem fit_error_spec (error : string) (cs : list (list ascii))
    (Hcs : Forall char_ok cs) (He : chars error = concat cs) :
  (Z.of_nat (length (chars error)) ≤ MAX_ERROR_BYTES → fit_error error = error) ∧
  (MAX_ERROR_BYTES < Z.of_nat (length (chars error)) →
   ∃ cs', cs' `prefix_of` cs ∧ fit_error error = of_chars (concat cs') +:+ NL +:+ "... truncated" ∧
     MAX_ERROR_BYTES - 3 ≤ Z.of_nat (length (concat cs')) ≤ MAX_ERROR_BYTES ∧
     utf8 (chars (fit_error error))).
Proof.
  unfold fit_error. split; intros Hlen.
  - by rewrite (proj2 (Z.leb_le _ _)).
  - rewrite (proj2 (Z.leb_gt _ _)) by done. rewrite He in *.
    set (cut := Z.to_nat MAX_ERROR_BYTES).
    assert (Hcut : Z.of_nat cut = MAX_ERROR_BYTES) by (unfold cut; apply Z2Nat.id; done).
    destruct (decode_ignore_take cs cut cut Hcs ltac:(lia)) as (cs' & Hpre & Hdec & Hlo & Hhi).
    exists cs'. rewrite Hdec. split_and!; [done|done|lia|lia|].
    rewrite chars_app, chars_of_chars.
    exists (cs' ++ ((λ a, [a]) <$> chars (NL +:+ "... truncated"))). split.
    + apply Forall_app. split; [|by repeat constructor].
      destruct Hpre as [k ->]. by apply Forall_app in Hcs as [? _].
    + by rewrite concat_app.
Qed.

Definition long_cs : list (list ascii) := replicate 30001 ["196"; "129"]%char.

Lemma fit_error_spec_witness :
  ∃ cs', cs' `prefix_of` long_cs ∧
    fit_error (of_chars (concat long_cs)) = of_chars (concat cs') +:+ NL +:+ "... truncated".
Proof.
  assert (Hcs : Forall char_ok long_cs) by (by apply Forall_replicate).
  destruct (fit_error_spec (of_chars (concat long_cs)) long_cs Hcs (chars_of_chars _)) as [_ H].
  destruct H as (cs' & Hp & Hf & _); [rewrite chars_of_chars; vm_compute; reflexivity|].
  exists cs'. split; [exact Hp|exact Hf].
Defined.
