(* ===== verification/QueueWorker.v ===== *)
(** * The worker loop

    [queue/worker.py] over any [QueueDriver]. The worker's store is the
    driver's store and the [should_quit] flag, which a signal may set
    wherever the worker awaits. The model has one clock for [time.monotonic]
    and the driver's [now_utc]; durations are in microseconds. *)

From Stdlib Require Import ZArith Lia.
From S2P Require Import Prelude PyStr Json QueueJob QueueIface.

Definition MAX_CONSECUTIVE_FAILURES : Z := 5.

(** [backoff_steps]: nothing, one number, or a list. *)
Inductive backoff_steps := NoSteps | OneStep (n : Z) | Steps (l : list Z).

Definition backoff (attempt : Z) (steps : backoff_steps) : Z :=
  match steps with
  | OneStep n => Z.max 0 n
  | Steps [] => 0
  | Steps l =>
      Z.max 0 (default 0 (l !! Z.to_nat (Z.min (Z.max 0 (attempt - 1)) (Z.of_nat (length l) - 1))))
  | NoSteps =>
      let l := [10; 60; 300] in
      Z.max 0 (default 0 (l !! Z.to_nat (Z.min (Z.max 0 (attempt - 1)) (Z.of_nat (length l) - 1))))
  end.

(** The driver's store and [self.should_quit]. *)
Record wstore (Q : Type) := WStore { wk_queue : Q; should_quit : bool }.
Arguments WStore {Q} _ _.
Arguments wk_queue {Q} _.
Arguments should_quit {Q} _.

Definition stop {Q} : prog (wstore Q) () := stmt (λ s, (WStore (wk_queue s) true, ())).

(** A call of the driver. *)
Definition on_queue {Q A} (m : prog Q A) : prog (wstore Q) A := λ w,
  let '(w', r) := m (World (wk_queue (w_st w)) (w_log w) (w_clock w)) in
  (World (WStore (w_st w') (should_quit (w_st w))) (w_log w') (w_clock w'), r).

(** The parts of a worker that stay: its handlers, backoff and name. *)
Record worker (H : Type) := Worker {
  w_handlers : list (string * target H);
  w_backoff : backoff_steps;
  w_id : string
}.
Arguments Worker {H} _ _ _.
Arguments w_handlers {H} _.
Arguments w_backoff {H} _.
Arguments w_id {H} _.

(** [run_handler timeout h job] is [async with asyncio.timeout(timeout): await
    h(job.payload, job)]: the job as the handler left it and how it ended, a
    timeout as [TimeoutError], a cancellation from outside as
    [CancelledError]. [sleep] is [asyncio.sleep]. Both may change anything.
    [type_name] and [traceback] are the texts Python gives an exception. *)
Section worker.
Context {Q : Type} {D : QueueDriver Q} {H : Type} (env : importer H).
Context (run_handler : Z → H → Job → world (wstore Q) → world (wstore Q) * (Job * res ())).
Context (sleep_for : Z → prog (wstore Q) ()).
Context (type_name traceback : exn → string).
Context (self : worker H).

Abbreviation store := (wstore Q).

Definition monotonic : prog store Z := now_utc.

(** The exception's report given to the driver. *)
Definition detail (e : exn) : string := type_name e +:+ ": " +:+ exn_msg e +:+ NL +:+ traceback e.

Definition _job_failed (job : Job) (error : exn) : prog store () :=
  if is_last_attempt job then
    on_queue (drv_fail job (detail error)) ;;
    out ("   failed for good: " +:+ exn_msg error) ;;
    out ("Queue job " +:+ name job +:+ " #" +:+ str_of_Z (id job) +:+ " failed permanently: " +:+ exn_msg error)
  else
    let delay := backoff (attempts job) (w_backoff self) in
    on_queue (drv_release job delay (detail error)) ;;
    out ("   failed, retrying in " +:+ str_of_Z delay +:+ "s: " +:+ exn_msg error).

Definition _safe_release (job : Job) (delay : Z) (error : string) : prog store () :=
  try_except (on_queue (drv_release job delay error)) is_exception
    (λ e, out ("Queue could not release job #" +:+ str_of_Z (id job) +:+ " during shutdown: " +:+ exn_msg e)).

(** The body of the [try]: resolve the handler and run it. *)
Definition attempt_job (job : Job) (timeout : Z) (w : world store) : world store * (Job * res ()) :=
  match resolve env (name job) (w_handlers self) with
  | Err e => (w, (job, Err e))
  | Ok h => run_handler timeout h job w
  end.

(** What follows the [try], on the job as the handler left it. *)
Definition settle (started : Z) (job : Job) (outcome : res ()) : prog store () :=
  match outcome with
  | Err e =>
      if is_class CancelledError e then
        _safe_release job 0 "Worker was cancelled mid-job" ;;
        raise e
      else if is_exception e then _job_failed job e
      else raise e
  | Ok _ =>
      if was_released job then
        on_queue (drv_release job (release_delay job) "") ;;
        out ("   released, back in " +:+ str_of_Z (release_delay job) +:+ "s")
      else
        _ ← on_queue (drv_delete job);
        now ← monotonic;
        out ("   done in " +:+ str_of_Z ((now - started) / 1000) +:+ "ms")
  end.

Definition attempt_and_settle (started : Z) (job : Job) (timeout : Z) : prog store () := λ w,
  let '(w', (job, outcome)) := attempt_job job timeout w in settle started job outcome w'.

Definition _run_job (job : Job) (timeout : Z) : prog store () :=
  _ ← out ("-> " +:+ name job +:+ " #" +:+ str_of_Z (id job) +:+ " (attempt " +:+ str_of_Z (attempts job)
    +:+ "/" +:+ str_of_Z (max_attempts job) +:+ ")");
  started ← monotonic;
  attempt_and_settle started job timeout.

Definition run_next (queues : list string) (timeout : Z) : prog store bool :=
  job ← on_queue (drv_reserve queues timeout (w_id self));
  match job with
  | None => mret false
  | Some job => _run_job job timeout ;; mret true
  end.

Definition _limit_reached (done started max_jobs max_time : Z) : prog store string :=
  if (0 <? max_jobs) && (max_jobs <=? done) then mret ("ran " +:+ str_of_Z done +:+ " jobs")
  else
    now ← monotonic;
    if (0 <? max_time) && (max_time * second <=? now - started)
    then mret ("been going for " +:+ str_of_Z ((now - started) / second) +:+ "s")
    else mret "".

(** A quarter of a second. *)
Definition slice : Z := 250000.

(** The loop of [_rest]; [slices] bounds the slices there can be. *)
Fixpoint rest_slices (slices : nat) (remaining : Z) : prog store () :=
  match slices with
  | O => mret ()
  | S slices =>
      s ← get_st;
      if (0 <? remaining) && negb (should_quit s) then
        let slice_length := Z.min slice remaining in
        sleep_for slice_length ;;
        rest_slices slices (remaining - slice_length)
      else mret ()
  end.

Definition _rest (sleep : Z) : prog store () := rest_slices (Z.to_nat (sleep / slice + 1)) sleep.

(** How an iteration of the loop ends: with an exit code, with [break] and
    the jobs done, or with the counters of the next one. *)
Inductive turn := Exit (code : Z) | Break (done : Z) | Again (done failures : Z).

Section run.
Context (queues : list string) (timeout sleep max_jobs max_time : Z) (stop_when_empty : bool).

(** The [try: job = await self.queue.reserve(...)]: the answer, or the
    exception its [except Exception] caught. *)
Definition try_reserve : prog store (option Job + exn) := λ w,
  match on_queue (drv_reserve queues timeout (w_id self)) w with
  | (w', Ok job) => (w', Ok (inl job))
  | (w', Err e) => if is_exception e then (w', Ok (inr e)) else (w', Err e)
  end.

(** One iteration of [while True]. *)
Definition loop_turn (started done failures : Z) : prog store turn :=
  s ← get_st;
  if should_quit s then
    out "Stopping: asked to shut down" ;;
    mret (Break done)
  else
    reserved ← try_reserve;
    match reserved with
    | inr e =>
        let failures := failures + 1 in
        out ("error: could not reserve a job: " +:+ exn_msg e) ;;
        if MAX_CONSECUTIVE_FAILURES <=? failures then
          out ("Stopping: the queue has been unreadable " +:+ str_of_Z MAX_CONSECUTIVE_FAILURES +:+ " times running") ;;
          mret (Exit 1)
        else
          _rest sleep ;;
          mret (Again done failures)
    | inl None =>
        if stop_when_empty then
          out "Nothing left to do" ;;
          mret (Break done)
        else
          reason ← _limit_reached done started max_jobs max_time;
          if String.eqb reason "" then
            _rest sleep ;;
            mret (Again done 0)
          else
            out ("Stopping: " +:+ reason) ;;
            mret (Break done)
    | inl (Some job) =>
        _ ← _run_job job timeout;
        let done := done + 1 in
        reason ← _limit_reached done started max_jobs max_time;
        if String.eqb reason "" then mret (Again done 0)
        else
          out ("Stopping: " +:+ reason) ;;
          mret (Break done)
    end.

(** [while True], cut off after [fuel] iterations, which answers [None]. *)
Fixpoint loop (fuel : nat) (started done failures : Z) : prog store (option Z) :=
  match fuel with
  | O => mret None
  | S fuel =>
      t ← loop_turn started done failures;
      match t with
      | Exit code => mret (Some code)
      | Break done =>
          out ("Ran " +:+ str_of_Z done +:+ " job(s)") ;;
          mret (Some 0)
      | Again done failures => loop fuel started done failures
      end
  end.

(** [run]: an exit code, or [None] when [fuel] iterations were not enough. *)
Definition run (fuel : nat) : prog store (option Z) :=
  _ ← out ("Worker " +:+ w_id self +:+ " watching " +:+ join ", " queues);
  started ← monotonic;
  loop fuel started 0 0.
End run.
End worker.
