(* ===== verification/QueueWorkerProps.v ===== *)
(** * Correctness of the worker loop

    Against a driver that records its calls: one settlement per job, the
    exit code, the end of the loop and of its rest. Against the PostgreSQL
    driver: no job that was run is left held. *)

From Stdlib Require Import ZArith Lia.
From S2P Require Import Prelude PyStr Json Sql QueueJob QueueIface QueuePg QueuePgProps QueuePgClaims QueuePgReserve QueueWorker.

(** ** Backoff *)

(** The delay before the next attempt is never negative; a list gives its
    entry for the attempts made so far and repeats the last one for ever, a
    number is used as it is, an empty list means at once, and no setting means
    10, 60 and then 300 seconds. *)
Theorem backoff_spec (attempt : Z) (steps : backoff_steps) :
  0 ≤ backoff attempt steps ∧
  match steps with
  | NoSteps => backoff attempt steps = backoff attempt (Steps [10; 60; 300])
  | OneStep n => backoff attempt steps = Z.max 0 n
  | Steps [] => backoff attempt steps = 0
  | Steps l =>
      ∃ i n, l !! i = Some n ∧ backoff attempt steps = Z.max 0 n ∧
        Z.of_nat i = if attempt <=? 1 then 0 else if attempt <=? Z.of_nat (length l) then attempt - 1
                     else Z.of_nat (length l) - 1
  end.
Proof.
  split; [destruct steps as [|n|[|]]; simpl; lia|].
  destruct steps as [|n|[|x l]]; [done..|]. unfold backoff. set (k := Z.to_nat _).
  assert (Hk : (k < length (x :: l))%nat) by (subst k; simpl length; lia).
  destruct (lookup_lt_is_Some_2 (x :: l) k Hk) as [n Hn]. rewrite Hn.
  exists k, n. split_and!; [done|done|]. subst k. simpl length.
  destruct (Z.leb_spec attempt 1), (Z.leb_spec attempt (Z.of_nat (S (length l)))); lia.
Qed.

(** ** A driver that records its calls *)

Inductive call := CReserve | CDelete (j : Job) | CRelease (j : Job) (d : Z) (e : string) | CFail (j : Job) (e : string).

Definition is_reserve (c : call) : bool := match c with CReserve => true | _ => false end.

(** How many reserves were made. *)
Definition reserves (l : list call) : nat := length (List.filter is_reserve l).

Section recorder.
Context (script : nat → res (option Job)) (answer : call → res ()).

Definition record (c : call) : prog (list call) () := λ w,
  (World (w_st w ++ [c]) (w_log w) (w_clock w), answer c).

Definition refuse {A} : prog (list call) A := raise (raise_exn OtherException "not used").

(** [reserve] answers what the script says for its turn. *)
#[export] Instance recorder : QueueDriver (list call) := {|
  drv_push _ _ _ _ _ _ _ := refuse;
  drv_reserve _ _ _ := λ w,
    (World (w_st w ++ [CReserve]) (w_log w) (w_clock w), script (reserves (w_st w)));
  drv_delete j := record (CDelete j);
  drv_release j d e := record (CRelease j d e);
  drv_fail j e := record (CFail j e);
  drv_pending _ := refuse;
  drv_stats := refuse;
  drv_failed_count := refuse;
  drv_failed_rows _ := refuse;
  drv_retry_failed _ _ := refuse;
  drv_forget_failed _ _ := refuse
|}.
End recorder.

Section recorded.
Context (script : nat → res (option Job)) (answer : call → res ()).
Context {H : Type} (env : importer H).
Abbreviation rstore := (wstore (list call)).
Context (run_handler : Z → H → Job → world rstore → world rstore * (Job * res ())).
Context (sleep_for : Z → prog rstore ()).
Context (type_name traceback : exn → string) (self : worker H).
Let D : QueueDriver (list call) := recorder script answer.

(** Handlers and sleeps do not call this driver. *)
Context (handler_quiet : ∀ t h j w, wk_queue (w_st (run_handler t h j w).1) = wk_queue (w_st w)).
Context (sleep_quiet : ∀ d w, wk_queue (w_st (sleep_for d w).1) = wk_queue (w_st w)).

Abbreviation run_job := (@_run_job (list call) D H env run_handler type_name traceback self).
Abbreviation calls w := (wk_queue (w_st w)).

(** The settlement a job is due, given how its attempt ended. *)
Definition settlement (job : Job) (outcome : res ()) : list call :=
  match outcome with
  | Ok _ => if was_released job then [CRelease job (release_delay job) ""] else [CDelete job]
  | Err e =>
      if is_class CancelledError e then [CRelease job 0 "Worker was cancelled mid-job"]
      else if is_exception e then
        if is_last_attempt job then [CFail job (detail type_name traceback e)]
        else [CRelease job (backoff (attempts job) (w_backoff self)) (detail type_name traceback e)]
      else []
  end.

Lemma settle_calls started job outcome w :
  calls (@settle (list call) D H type_name traceback self started job outcome w).1 = calls w ++ settlement job outcome ∧
  match outcome with
  | Err e => is_exception e = false → (@settle (list call) D H type_name traceback self started job outcome w).2 = Err e ∨
      ∃ c e', answer c = Err e' ∧ is_exception e' = false
  | Ok _ => True
  end.
Proof.
  unfold settle, _safe_release, _job_failed, monotonic, on_queue.
  destruct outcome as [[]|e]; simpl.
  - split; [|done]. destruct (was_released job); run_prog; by destruct (answer _).
  - destruct (is_class CancelledError e) eqn:Hc; [|destruct (is_exception e) eqn:He].
    + split.
      * run_prog. destruct (answer _) as [|e'] eqn:Ha; [done|]. by destruct (is_exception e').
      * intros _. run_prog. destruct (answer _) as [|e'] eqn:Ha; [by left|].
        destruct (is_exception e') eqn:He'; [by left|]. right. eauto.
    + split; [|done]. destruct (is_last_attempt job); run_prog; by destruct (answer _).
    + split; [by rewrite app_nil_r|]. intros _. by left.
Qed.

Lemma attempt_job_quiet job t w :
  calls (attempt_job env run_handler self job t w).1 = calls w.
Proof. unfold attempt_job. destruct (resolve _ _ _); [apply handler_quiet|done]. Qed.

(** C5: running a job makes exactly one call of the driver, and only after the
    handler ended: a job that finished is deleted, one that asked to be put
    back is released with its delay, one that raised, timed out or could not
    be resolved is released with the backoff of its attempt - or failed when
    that was its last attempt - and a cancelled one is released at once and
    the cancellation goes on. Only an exit of the whole process settles
    nothing, and it goes on too. *)
Theorem run_job_settles_once (job : Job) (t : Z) (w : world rstore) :
  ∃ w1 job' outcome,
    attempt_job env run_handler self job t w1 = ((attempt_job env run_handler self job t w1).1, (job', outcome)) ∧
    w_st w1 = w_st w ∧ w_clock w1 = w_clock w ∧
    calls (run_job job t w).1 = calls w ++ settlement job' outcome ∧
    (length (settlement job' outcome) ≤ 1)%nat ∧
    (settlement job' outcome = [] → ∃ e, outcome = Err e ∧ is_exception e = false ∧ (run_job job t w).2 = Err e) ∧
    (∀ e, outcome = Err e → is_class CancelledError e = true → (∀ c, is_ok (answer c) = true) →
       (run_job job t w).2 = Err e).
Proof.
  unfold _run_job. set (line := "-> " +:+ _).
  set (w1 := World (w_st w) (w_log w ++ [line]) (w_clock w)).
  exists w1. destruct (attempt_job env run_handler self job t w1) as [w2 [job' outcome]] eqn:Ha.
  exists job', outcome.
  assert (Hrun : run_job job t w = @settle _ D _ type_name traceback self (w_clock w) job' outcome w2).
  { unfold _run_job. fold line. unfold attempt_and_settle, monotonic. run_prog. fold w1. by rewrite Ha. }
  unfold _run_job in Hrun. fold line in Hrun.
  pose proof (attempt_job_quiet job t w1) as Hq. rewrite Ha in Hq. simpl in Hq.
  destruct (settle_calls (w_clock w) job' outcome w2) as [Hc He].
  rewrite Hrun. split_and!; try done.
  - by rewrite Hc, Hq.
  - unfold settlement. case_all; simpl; lia.
  - unfold settlement in *. intros Hs. destruct outcome as [[]|e]; [by destruct (was_released job')|].
    exists e. destruct (is_class CancelledError e) eqn:Hcl; [done|].
    destruct (is_exception e) eqn:Hex; [by destruct (is_last_attempt job')|].
    split_and!; try done. unfold settle. rewrite Hcl, Hex. done.
  - intros e -> Hcl Hok. unfold is_class in Hcl. apply bool_decide_eq_true in Hcl as Hcls.
    destruct He as [He|(c & e' & Hans & _)]; [unfold is_exception; by rewrite Hcls|done|].
    specialize (Hok c). by rewrite Hans in Hok.
Qed.

(** ** The loop *)

(** No reserve is made. *)
Definition no_reserve (s s' : rstore) : Prop := reserves (wk_queue s') = reserves (wk_queue s).

#[local] Instance no_reserve_preorder : PreOrder no_reserve.
Proof. split; unfold no_reserve; repeat intro; congruence. Qed.

Lemma reserves_app l l' : reserves (l ++ l') = (reserves l + reserves l')%nat.
Proof. unfold reserves. by rewrite List.filter_app, length_app. Qed.

Lemma run_job_no_reserve job t : within no_reserve (run_job job t).
Proof.
  intros w. unfold no_reserve, _run_job, attempt_and_settle, monotonic. run_prog.
  set (w1 := World _ _ _). pose proof (attempt_job_quiet job t w1) as Hq.
  destruct (attempt_job env run_handler self job t w1) as [w2 [job' outcome]]. simpl in Hq.
  destruct (settle_calls (w_clock w) job' outcome w2) as [Hc _]. rewrite Hc, Hq, reserves_app.
  assert (Hs : reserves (settlement job' outcome) = 0%nat) by (unfold settlement; case_all).
  rewrite Hs. subst w1. simpl. lia.
Qed.

Lemma rest_no_reserve n d : within no_reserve (rest_slices sleep_for n d).
Proof.
  revert d. induction n as [|n IH]; intros d; simpl; within_tac.
  intros w. unfold no_reserve. by rewrite sleep_quiet.
Qed.

Lemma limit_no_reserve started done_ mj mt : within no_reserve (_limit_reached (Q := list call) started done_ mj mt).
Proof. unfold _limit_reached, monotonic. within_tac. Qed.

Section loop.
Context (queues : list string) (timeout sleep max_jobs max_time : Z) (stop_when_empty : bool).

Abbreviation turn_of := (@loop_turn (list call) D H env run_handler sleep_for type_name traceback self
  queues timeout sleep max_jobs max_time stop_when_empty).
Abbreviation loop_of := (@loop (list call) D H env run_handler sleep_for type_name traceback self
  queues timeout sleep max_jobs max_time stop_when_empty).
Abbreviation run_of := (@run (list call) D H env run_handler sleep_for type_name traceback self
  queues timeout sleep max_jobs max_time stop_when_empty).

(** What one iteration may answer after the [n]th reserve. *)
Definition turn_answers (n : nat) (failures : Z) (t : turn) : Prop :=
  match script n with
  | Err _ =>
      if MAX_CONSECUTIVE_FAILURES <=? failures + 1 then t = Exit 1 else ∃ d, t = Again d (failures + 1)
  | Ok None => if stop_when_empty then ∃ d, t = Break d else (∃ d, t = Break d) ∨ ∃ d, t = Again d 0
  | Ok (Some _) => (∃ d, t = Break d) ∨ ∃ d, t = Again d 0
  end.

Lemma within_reserves {A} (m : prog rstore A) w w' r :
  within no_reserve m → m w = (w', r) → reserves (calls w') = reserves (calls w).
Proof. intros Hm Heq. specialize (Hm w). by rewrite Heq in Hm. Qed.

Lemma loop_turn_spec started d f w w' t :
  turn_of started d f w = (w', Ok t) →
  (reserves (calls w') = reserves (calls w) ∧ t = Break d) ∨
  (reserves (calls w') = S (reserves (calls w)) ∧ turn_answers (reserves (calls w)) f t).
Proof.
  unfold loop_turn, get_st. unfold mbind at 1, prog_bind at 1.
  destruct (should_quit (w_st w)).
  { left. run_prog. by simplify_eq/=. }
  unfold try_reserve, on_queue, turn_answers. unfold mbind at 1, prog_bind at 1. simpl.
  set (w1 := World (WStore (calls w ++ [CReserve]) _) _ _).
  assert (Hw1 : reserves (calls w1) = S (reserves (calls w))) by (subst w1; simpl; rewrite reserves_app; change (reserves [CReserve]) with 1%nat; lia).
  destruct (script (reserves (calls w))) as [[job|]|e] eqn:Hs.
  - intros Heq. right.
    destruct (run_job job timeout w1) as [w2 [[]|]] eqn:Hj;
      [|rewrite (bind_err _ _ _ _ _ Hj) in Heq; done].
    rewrite (bind_ok _ _ _ _ _ Hj) in Heq. apply (within_reserves _ _ _ _ (run_job_no_reserve job timeout)) in Hj.
    destruct (_limit_reached (d + 1) started max_jobs max_time w2) as [w3 [reason|]] eqn:Hl;
      [|rewrite (bind_err _ _ _ _ _ Hl) in Heq; done].
    rewrite (bind_ok _ _ _ _ _ Hl) in Heq. apply (within_reserves _ _ _ _ (limit_no_reserve _ _ _ _)) in Hl.
    destruct (String.eqb reason ""); run_prog; simplify_eq/=; (split; [congruence|eauto]).
  - destruct stop_when_empty.
    { intros Heq. right. run_prog. simplify_eq/=. eauto. }
    intros Heq. right.
    destruct (_limit_reached d started max_jobs max_time w1) as [w3 [reason|]] eqn:Hl;
      [|rewrite (bind_err _ _ _ _ _ Hl) in Heq; done].
    rewrite (bind_ok _ _ _ _ _ Hl) in Heq. apply (within_reserves _ _ _ _ (limit_no_reserve _ _ _ _)) in Hl.
    destruct (String.eqb reason ""); [|run_prog; simplify_eq/=; split; [congruence|eauto]].
    destruct (_rest sleep_for sleep w3) as [w4 [[]|]] eqn:Hr; [|rewrite (bind_err _ _ _ _ _ Hr) in Heq; done].
    rewrite (bind_ok _ _ _ _ _ Hr) in Heq. apply (within_reserves _ _ _ _ (rest_no_reserve _ _)) in Hr.
    run_prog. simplify_eq/=. split; [congruence|eauto].
  - destruct (is_exception e); [|done]. intros Heq. right.
    destruct (MAX_CONSECUTIVE_FAILURES <=? f + 1).
    { run_prog. simplify_eq/=. eauto. }
    unfold mbind at 1, prog_bind at 1, out at 1 in Heq. set (w2 := World _ _ _) in Heq.
    destruct (_rest sleep_for sleep w2) as [w4 [[]|]] eqn:Hr; [|rewrite (bind_err _ _ _ _ _ Hr) in Heq; done].
    rewrite (bind_ok _ _ _ _ _ Hr) in Heq. apply (within_reserves _ _ _ _ (rest_no_reserve _ _)) in Hr.
    subst w2. run_prog. simplify_eq/=. split; [congruence|eauto].
Qed.

(** The [f] last of the first [n] reserves failed, and before them there is
    no run of five failures. *)
Definition failing (i : nat) : Prop := is_ok (script i) = false.

Definition history (n : nat) (f : Z) : Prop :=
  0 ≤ f < MAX_CONSECUTIVE_FAILURES ∧ f ≤ Z.of_nat n ∧
  (∀ i, (Z.of_nat n - f ≤ Z.of_nat i < Z.of_nat n) → failing i) ∧
  (∀ j, (j + 5 ≤ n)%nat → ∃ i, (j ≤ i < j + 5)%nat ∧ ¬ failing i) ∧
  (f < Z.of_nat n → ¬ failing (Z.to_nat (Z.of_nat n - f - 1))).

Definition ends_with_failures (n : nat) : Prop := (5 ≤ n)%nat ∧ ∀ i, (n - 5 ≤ i < n)%nat → failing i.
Definition no_run_of_failures (n : nat) : Prop :=
  ∀ j, (j + 5 ≤ n)%nat → ∃ i, (j ≤ i < j + 5)%nat ∧ ¬ failing i.

Lemma history_no_run n f : history n f → no_run_of_failures n.
Proof. intros (_ & _ & _ & Hn & _). exact Hn. Qed.

Lemma history_ok n f : history n f → ¬ failing n → history (S n) 0.
Proof.
  intros (Hf & Hfn & _ & Hw & _) Hok. split_and!; unfold MAX_CONSECUTIVE_FAILURES; try lia.
  - intros j Hj. destruct (decide (j + 5 = S n)%nat) as [Heq|]; [exists n; split; [lia|done]|apply Hw; lia].
  - intros _. by replace (Z.to_nat (Z.of_nat (S n) - 0 - 1)) with n by lia.
Qed.

Lemma history_fail n f : history n f → failing n → f + 1 < MAX_CONSECUTIVE_FAILURES → history (S n) (f + 1).
Proof.
  intros (Hf & Hfn & Hl & Hw & Hb) Hbad Hlt. unfold history. unfold MAX_CONSECUTIVE_FAILURES in *. split_and!; try lia.
  - intros i Hi. destruct (decide (i = n)) as [->|]; [done|]. apply Hl. lia.
  - intros j Hj. destruct (decide (j + 5 = S n)%nat) as [Heq|]; [|apply Hw; lia].
    exists (Z.to_nat (Z.of_nat n - f - 1)). split; [lia|]. apply Hb. lia.
  - intros Hlt'. replace (Z.to_nat _) with (Z.to_nat (Z.of_nat n - f - 1)) by lia. apply Hb. lia.
Qed.

Lemma loop_exit_code fuel started d f w w' c :
  history (reserves (calls w)) f → loop_of fuel started d f w = (w', Ok (Some c)) →
  (c = 1 ∧ ends_with_failures (reserves (calls w'))) ∨ (c = 0 ∧ no_run_of_failures (reserves (calls w'))).
Proof.
  revert d f w. induction fuel as [|fuel IH]; intros d f w Hh Heq; [done|]. cbn [loop] in Heq.
  destruct (turn_of started d f w) as [w1 [t|]] eqn:Ht; [|rewrite (bind_err _ _ _ _ _ Ht) in Heq; done].
  rewrite (bind_ok _ _ _ _ _ Ht) in Heq.
  assert (Hbreak : ∀ d' n, no_run_of_failures n → reserves (calls w1) = n → t = Break d' →
    (c = 1 ∧ ends_with_failures (reserves (calls w'))) ∨ (c = 0 ∧ no_run_of_failures (reserves (calls w')))).
  { intros d' n Hn Hr ->. run_prog. simplify_eq/=. right. done. }
  apply loop_turn_spec in Ht as [[Hr ->]|[Hr Ht]].
  { apply (Hbreak d (reserves (calls w))); [by eapply history_no_run|done|done]. }
  unfold turn_answers in Ht. set (n := reserves (calls w)) in *.
  destruct (script n) as [a|e] eqn:Hs.
  - assert (Hok : ¬ failing n) by (unfold failing; by rewrite Hs).
    pose proof (history_ok n f Hh Hok) as Hh'.
    assert (Ht' : (∃ d, t = Break d) ∨ ∃ d, t = Again d 0).
    { destruct a as [job|]; [done|]. destruct stop_when_empty; [by left|done]. }
    destruct Ht' as [[d' Hb]|[d' ->]]; [apply (Hbreak d' (S n)); [by eapply history_no_run|done|done]|].
    eapply (IH d' 0 w1); [by rewrite Hr|done].
  - assert (Hbad : failing n) by (unfold failing; by rewrite Hs).
    destruct (Z.leb_spec MAX_CONSECUTIVE_FAILURES (f + 1)) as [Hge|Hlt].
    + subst t. run_prog. simplify_eq/=. left. split; [done|]. rewrite Hr. unfold MAX_CONSECUTIVE_FAILURES in *.
      destruct Hh as (Hf & Hfn & Hl & _). unfold MAX_CONSECUTIVE_FAILURES in *. split; [lia|].
      intros i Hi. destruct (decide (i = n)) as [->|]; [done|]. apply Hl. lia.
    + destruct Ht as [d' ->]. eapply (IH d' (f + 1) w1); [rewrite Hr; by apply history_fail|done].
Qed.

(** The worker's exit code tells whether the queue became unreadable: it is
    1 exactly when the last five reserves it made all failed, and otherwise 0,
    in which case no five reserves in a row failed at any time - whatever
    became of the jobs. *)
Theorem run_exit_code (fuel : nat) (w w' : world rstore) (c : Z) (Hfresh : calls w = [])
    (Hrun : run_of fuel w = (w', Ok (Some c))) :
  (c = 1 ∧ ends_with_failures (reserves (calls w'))) ∨ (c = 0 ∧ no_run_of_failures (reserves (calls w'))).
Proof.
  unfold run, monotonic, now_utc, out in Hrun. unfold mbind, prog_bind in Hrun. simpl in Hrun.
  eapply loop_exit_code; [|exact Hrun]. simpl. rewrite Hfresh.
  unfold history, MAX_CONSECUTIVE_FAILURES. change (reserves []) with 0%nat. split_and!; intros; first [lia|exfalso; lia].
Qed.

Lemma loop_ends k fuel started d f w :
  stop_when_empty = true → script k = Ok None →
  (reserves (calls w) ≤ k)%nat → (k < reserves (calls w) + fuel)%nat →
  (loop_of fuel started d f w).2 ≠ Ok None.
Proof.
  intros Hstop Hk. revert d f w. induction fuel as [|fuel IH]; intros d f w Hle Hlt; [lia|]. cbn [loop].
  destruct (turn_of started d f w) as [w1 [t|]] eqn:Ht; [|by rewrite (bind_err _ _ _ _ _ Ht)].
  rewrite (bind_ok _ _ _ _ _ Ht). apply loop_turn_spec in Ht as [[Hr ->]|[Hr Ht]]; [done|].
  destruct t as [c|d'|d' f']; [done..|].
  destruct (decide (reserves (calls w) = k)) as [Heq|Hne].
  - exfalso. unfold turn_answers in Ht. rewrite Heq, Hk, Hstop in Ht. by destruct Ht as [? ?].
  - apply IH; lia.
Qed.

(** C6: with [stop_when_empty] the loop ends: if the queue answers "nothing due"
    at the [k]th reserve, at most [k + 1] iterations are made, whatever the
    jobs, the failures of the queue and the signals before it. *)
Theorem run_terminates (k : nat) (w : world rstore) (Hfresh : calls w = [])
    (Hstop : stop_when_empty = true) (Hempty : script k = Ok None) :
  (run_of (S k) w).2 ≠ Ok None.
Proof.
  unfold run, monotonic, now_utc, out. unfold mbind, prog_bind. cbn beta iota.
  apply (loop_ends k); try done; simpl; rewrite Hfresh; change (reserves []) with 0%nat; lia.
Qed.
End loop.
End recorded.

(** *** A concrete worker *)
Definition no_imports : importer () := Importer (λ _, Err (raise_exn ImportError "none")) (λ _ _, Ok (TOther "")).
Definition demo_self : worker () := Worker [("mail", TCallable ())] NoSteps "w1".
Definition demo_handler (ok : bool) : Z → () → Job → world (wstore (list call)) → world (wstore (list call)) * (Job * res ()) :=
  λ _ _ j w, (w, (j, if ok then Ok () else Err (raise_exn ValueError "boom"))).
Definition demo_sleep : Z → prog (wstore (list call)) () := λ _, mret ().
Definition demo_world : world (wstore (list call)) := World (WStore [] false) [] 0.
Definition a_job (att : Z) : Job := MkJob 1 "default" "mail" [] "{}" att 3 "" "w1" None.
Definition answers_ok : call → res () := λ _, Ok ().

Lemma run_job_settles_once_witness :
  wk_queue (w_st (@_run_job _ (recorder (λ _, Ok None) answers_ok) _ no_imports (demo_handler false)
      (λ _, "ValueError") (λ _, "") demo_self (a_job 3) 60 demo_world).1)
    = [CFail (a_job 3) ("ValueError: boom" +:+ NL)].
Proof.
  destruct (run_job_settles_once (λ _, Ok None) answers_ok no_imports (demo_handler false)
    (λ _, "ValueError") (λ _, "") demo_self (λ _ _ _ _, eq_refl) (a_job 3) 60 demo_world)
    as (w1 & job' & outcome & Ha & _ & _ & Hc & _).
  unfold attempt_job in Ha. simpl in Ha. unfold demo_handler in Ha. injection Ha as <- <-.
  rewrite Hc. reflexivity.
Defined.

Definition broken_queue : nat → res (option Job) := λ n, if (n <? 2)%nat then Ok None else Err (raise_exn PsycopgError "down").

Abbreviation demo_run stop_empty script fuel :=
  (@run _ (recorder script answers_ok) _ no_imports (demo_handler true) demo_sleep
    (λ _, "") (λ _, "") demo_self ["default"] 60 1000000 0 0 stop_empty fuel demo_world).

Lemma run_exit_code_witness :
  (demo_run false broken_queue 20).2 = Ok (Some 1) ∧ ∃ n, ends_with_failures broken_queue n.
Proof.
  assert (Hcode : (demo_run false broken_queue 20).2 = Ok (Some 1)) by (vm_compute; reflexivity).
  split; [exact Hcode|].
  match type of Hcode with (?m).2 = _ => destruct m as [w' r] eqn:Hrun end. simpl in Hcode. subst r.
  destruct (run_exit_code broken_queue answers_ok no_imports (demo_handler true) demo_sleep (λ _, "") (λ _, "")
    demo_self (λ _ _ _ _, eq_refl) (λ _ _, eq_refl) ["default"] 60 1000000 0 0 false 20 demo_world _ 1 eq_refl Hrun)
    as [[_ H]|[H _]]; [|discriminate].
  eexists. exact H.
Defined.

Definition two_jobs : nat → res (option Job) := λ n, if (n <? 2)%nat then Ok (Some (a_job 1)) else Ok None.

Lemma run_terminates_witness : (demo_run true two_jobs 3).2 ≠ Ok None.
Proof.
  exact (run_terminates two_jobs answers_ok no_imports (demo_handler true) demo_sleep (λ _, "") (λ _, "")
    demo_self (λ _ _ _ _, eq_refl) (λ _ _, eq_refl) ["default"] 60 1000000 0 0 true 2 demo_world eq_refl eq_refl eq_refl).
Defined.

(** ** The rest between polls *)

Section rest.
Context {Q : Type} (sleep_for : Z → prog (wstore Q) ()).

Lemma rest_done n d : d ≤ 0 → ∀ w, rest_slices sleep_for n d w = (w, Ok ()).
Proof.
  intros Hd w. destruct n as [|n]; [done|]. simpl. run_prog.
  by rewrite (proj2 (Z.ltb_ge _ _)).
Qed.

Lemma rest_more n k d w : d ≤ Z.of_nat n * slice → rest_slices sleep_for (n + k) d w = rest_slices sleep_for n d w.
Proof.
  revert d w. induction n as [|n IH]; intros d w Hd.
  { rewrite !rest_done; [done|simpl in Hd; lia..]. }
  cbn [rest_slices Nat.add]. unfold get_st, mbind at 1 3, prog_bind at 1 3.
  destruct ((0 <? d) && negb (should_quit (w_st w))) eqn:Hc; [|done].
  unfold mbind, prog_bind. destruct (sleep_for (Z.min slice d) w) as [w' [[]|]]; [|done].
  apply IH. unfold slice in *. lia.
Qed.

(** The rest between two polls ends: whatever the sleeps do, it takes at
    most [sleep / 0.25 + 1] slices, more iterations would change nothing; it
    never sleeps longer than a quarter second at a time; and once the worker
    was asked to stop it sleeps no more. *)
Theorem rest_terminates (sleep : Z) (w : world (wstore Q)) :
  (∀ n, (Z.to_nat (sleep / slice + 1) ≤ n)%nat → rest_slices sleep_for n sleep w = _rest sleep_for sleep w) ∧
  (should_quit (w_st w) = true → _rest sleep_for sleep w = (w, Ok ())) ∧
  (∀ n, rest_slices (λ d w, if d <=? slice then sleep_for d w else (w, Err (raise_exn ValueError "overslept"))) n sleep w
        = rest_slices sleep_for n sleep w).
Proof.
  split_and!.
  - intros n Hn. unfold _rest. set (m := Z.to_nat _) in *.
    replace n with (m + (n - m))%nat by lia. apply rest_more. subst m. unfold slice.
    destruct (Z.le_gt_cases 0 (sleep / 250000 + 1)) as [Hp|Hp].
    + rewrite Z2Nat.id by done. pose proof (Z.mod_pos_bound sleep 250000 ltac:(lia)).
      pose proof (Z.div_mod sleep 250000 ltac:(lia)). lia.
    + pose proof (Z.mod_pos_bound sleep 250000 ltac:(lia)). pose proof (Z.div_mod sleep 250000 ltac:(lia)). lia.
  - intros Hq. unfold _rest. destruct (Z.to_nat _); [done|]. simpl. run_prog. by rewrite Hq, andb_false_r.
  - intros n. revert sleep w. induction n as [|n IH]; intros sleep w; [done|]. cbn [rest_slices].
    unfold get_st, mbind at 1 3, prog_bind at 1 3. destruct (_ && _); [|done].
    rewrite (proj2 (Z.leb_le (Z.min slice sleep) slice)) by lia.
    unfold mbind, prog_bind. destruct (sleep_for _ w) as [w' [[]|]]; [apply IH|done].
Qed.
End rest.

(** ** On the PostgreSQL driver *)

Section pg.
Context (locked : list Z) (ts : string → option Z).
Context {H : Type} (env : importer H).
Context (run_handler : Z → H → Job → world (wstore pgdb) → world (wstore pgdb) * (Job * res ())).
Context (type_name traceback : exn → string) (self : worker H).
Let D : QueueDriver pgdb := pg_driver locked (λ db, db) false ts.

(** A handler may change the tables through other connections, as long as
    they stay well formed, and may ask for its job's release; the rest of the
    job is not its business. *)
Context (handler_wf : ∀ t h j w, wf (wk_queue (w_st w)) → wf (wk_queue (w_st (run_handler t h j w).1))).
Context (handler_job : ∀ t h j w,
  let j' := (run_handler t h j w).2.1 in id j' = id j ∧ reserved_by j' = reserved_by j ∧ attempts j' = attempts j).

(** A completion that returned left no row held by its job. *)
Lemma completion_settles job m w w' :
  completion job m → wf (w_st w) → m w = (w', Ok ()) →
  wf (w_st w') ∧ ∀ r, r ∈ jobs (w_st w') → ¬ holds job r.
Proof.
  intros Hm Hwf Heq. split.
  { destruct (completion_good job m Hm) as [_ Hk]. specialize (Hk w Hwf). by rewrite Heq in Hk. }
  pose proof (wf_ids _ Hwf) as Hnd. destruct Hm as [|d e|e].
  - destruct (delete_spec job w Hnd) as [(r & Hr & Hh & Hd)|[Hno Hd]]; rewrite Hd in Heq; simplify_eq/=; [|exact Hno].
    intros x [_ Hne]%elem_of_without [Hi _]. done.
  - destruct (add_seconds (w_clock w) (Z.max 0 d)) as [av|ex] eqn:Hav.
    + destruct (release_spec job d e w av (wf_rows _ Hwf) Hav) as [(r & Hr & Hh & Hd)|[Hno Hd]]; rewrite Hd in Heq;
        simplify_eq/=; [|exact Hno].
      intros x [[_ Hne]|[-> _]]%elem_of_replaced (Hi & Hb & _); [done|by simpl in Hb].
    + exfalso. unfold release in Heq. run_prog. by rewrite Hav in Heq.
  - destruct (fail_spec job e w Hnd) as [(r & Hr & Hh & Hd)|[Hno Hd]]; rewrite Hd in Heq; simplify_eq/=; [|exact Hno].
    intros x [_ Hne]%elem_of_without [Hi _]. destruct Hh as [Hri _]. congruence.
Qed.

(** The driver's part of a worker's world. *)
Definition queue_world (w : world (wstore pgdb)) : world pgdb := World (wk_queue (w_st w)) (w_log w) (w_clock w).

Lemma on_queue_then {A} (m : prog pgdb ()) (k : () → prog (wstore pgdb) A) w w' a :
  (on_queue m ≫= k) w = (w', Ok a) →
  ∃ wq, m (queue_world w) = (wq, Ok ()) ∧
    k () (World (WStore (w_st wq) (should_quit (w_st w))) (w_log wq) (w_clock wq)) = (w', Ok a).
Proof.
  unfold on_queue, mbind, prog_bind, queue_world. destruct (m _) as [wq [[]|]]; intros; [eauto|done].
Qed.

Lemma settle_completion started job outcome w w' :
  @settle pgdb D H type_name traceback self started job outcome w = (w', Ok ()) →
  ∃ m wq, completion job m ∧ m (queue_world w) = (wq, Ok ()) ∧ wk_queue (w_st w') = w_st wq.
Proof.
  intros Heq. unfold settle, _job_failed in Heq.
  destruct outcome as [[]|e].
  - destruct (was_released job); apply on_queue_then in Heq as (wq & Hm & Hk); run_prog; simplify_eq/=.
    + exists (release job (release_delay job) ""), wq. split_and!; [constructor|done..].
    + exists (delete job), wq. split_and!; [constructor|done..].
  - destruct (is_class CancelledError e).
    { exfalso. unfold mbind, prog_bind in Heq. by destruct (_safe_release _ _ _ w) as [? [|]]. }
    destruct (is_exception e); [|done].
    destruct (is_last_attempt job); apply on_queue_then in Heq as (wq & Hm & Hk); run_prog; simplify_eq/=.
    + eexists (fail job _), wq. split_and!; [constructor|done..].
    + eexists (release job _ _), wq. split_and!; [constructor|done..].
Qed.

(** With the PostgreSQL driver, a [run_next] that returns leaves the tables
    well formed; when it ran a job, no row is held by that job's claim any
    more - the row was deleted, freed, moved to the failed table, or had been
    taken over - whatever the handler did to the tables meanwhile; and when it
    did not, [reserve] had nothing to hand out. *)
Theorem run_next_settles (queues : list string) (t until : Z) (w w' : world (wstore pgdb)) (ran : bool)
    (Hwf : wf (wk_queue (w_st w))) (Hu : add_seconds (w_clock w) (Z.max 1 t) = Ok until)
    (Hrun : @run_next pgdb D H env run_handler type_name traceback self queues t w = (w', Ok ran)) :
  wf (wk_queue (w_st w')) ∧
  match (reserve locked queues t (w_id self) (queue_world w)).2 with
  | Ok (Some job) => ran = true ∧ ∀ r, r ∈ jobs (wk_queue (w_st w')) → ¬ holds job r
  | Ok None => ran = false
  | Err _ => False
  end.
Proof.
  unfold run_next in Hrun. pose proof (reserve_wf locked queues t (w_id self) (queue_world w) Hwf) as Hwf1.
  unfold on_queue, mbind at 1, prog_bind at 1 in Hrun. simpl in Hrun. fold (queue_world w) in Hrun.
  destruct (reserve locked queues t (w_id self) (queue_world w)) as [wq [[job|]|e]]; simpl in *;
    [|by run_prog; simplify_eq/=|done].
  set (w1 := World _ (w_log wq) _) in Hrun.
  unfold _run_job, attempt_and_settle, monotonic, mbind, prog_bind, out, now_utc in Hrun. simpl in Hrun.
  set (w2 := World _ (_ ++ _) _) in Hrun.
  destruct (attempt_job env run_handler self job t w2) as [w3 [job' outcome]] eqn:Ha.
  destruct (@settle _ _ _ _ _ _ _ job' outcome w3) as [w4 [[]|]] eqn:Hs; [|done].
  unfold mret, prog_ret in Hrun. injection Hrun as <- <-.
  apply settle_completion in Hs as (m & wq' & Hm & Hmq & Hq).
  assert (Hjob : wf (w_st (queue_world w3)) ∧ ∀ r, holds job r → holds job' r).
  { unfold attempt_job in Ha. destruct (resolve env (name job) (w_handlers self)) as [h|]; simplify_eq/=; [|done].
    pose proof (handler_wf t h job w2 Hwf1) as Hw. destruct (handler_job t h job w2) as (Hi & Hb & Hatt).
    rewrite Ha in *. simpl in *. split; [done|]. unfold holds. rewrite Hi, Hb, Hatt. done. }
  destruct Hjob as [Hw3 Hsame].
  destruct (completion_settles job' m _ _ Hm Hw3 Hmq) as [Hwf' Hno].
  rewrite Hq. split_and!; [done|done|]. intros r Hr Hh. by apply (Hno r Hr), Hsame.
Qed.
End pg.

Definition pg_handler : Z → () → Job → world (wstore pgdb) → world (wstore pgdb) * (Job * res ()) :=
  λ _ _ j w, (w, (QueueJob.release j 30, Ok ())).
Definition pg_world : world (wstore pgdb) := World (WStore (w_st (demo_db demo_rows)) false) [] 10000000.

Lemma run_next_settles_witness :
  let w' := (@run_next _ (pg_driver [] (λ db, db) false (λ _, None)) _ no_imports pg_handler (λ _, "") (λ _, "")
               demo_self ["default"] 60 pg_world).1 in
  wf (wk_queue (w_st w')) ∧ Forall (λ r, jr_reserved_by r = None) (jobs (wk_queue (w_st w'))).
Proof.
  intros w'. split; [|vm_compute; repeat constructor].
  assert (Hwf : wf (wk_queue (w_st pg_world))) by (by apply demo_wf).
  assert (Hu : add_seconds (w_clock pg_world) (Z.max 1 60) = Ok 70000000) by (vm_compute; reflexivity).
  assert (Hrun : @run_next _ (pg_driver [] (λ db, db) false (λ _, None)) _ no_imports pg_handler (λ _, "") (λ _, "")
                   demo_self ["default"] 60 pg_world = (w', Ok true)).
  { unfold w'. match goal with |- ?r = _ => assert (Hr : r.2 = Ok true) by (vm_compute; reflexivity) end.
    rewrite <- Hr. apply surjective_pairing. }
  assert (Hkeep : ∀ (t : Z) (h : ()) (j : Job) (w : world (wstore pgdb)),
    wf (w_st (queue_world w)) → wf (w_st (queue_world (pg_handler t h j w).1))) by (intros t h j w Hw; exact Hw).
  destruct (run_next_settles [] (λ _, None) no_imports pg_handler (λ _, "") (λ _, "") demo_self Hkeep
    (λ _ _ _ _, conj eq_refl (conj eq_refl eq_refl)) ["default"] 60 70000000 pg_world w' true Hwf Hu Hrun) as [Hw _].
  exact Hw.
Defined.
