(* ===== verification/Redis.v ===== *)
(** * The Redis commands the code calls

    The server is a parameter: [Redis R] lists its commands over a keyspace
    [R], [RedisLaws R] what the theorems use of their documentation - what
    each command does to the hashes, and that a [ZREM] that removed nothing
    changed nothing. The reply of a command that cannot answer is [None].
    Failures of the connection are not modelled. *)

From Stdlib Require Import ZArith Lia.
From S2P Require Import Prelude PyStr Json.

(** A delivered stream entry: its id and the value of its first field. *)
Definition delivery : Type := string * string.

Class Redis (R : Type) := {
  r_get : string → R → option string;
  r_set : string → string → R → R;
  r_del : string → R → R;
  r_exists : string → R → bool;
  r_incr : string → R → R * Z;
  (** [EXPIRE key seconds] and [TTL key], -1 without an expiry, -2 without a key *)
  r_expire : string → Z → R → R;
  r_ttl : string → R → Z;
  r_hget : string → string → R → option string;
  r_hset : string → list (string * string) → R → R;
  r_hincrby : string → string → Z → R → R;
  r_hgetall : string → R → list (string * string);
  r_sadd : string → string → R → R;
  r_smembers : string → R → list string;
  r_zadd : string → Z → string → R → R;
  r_zrem : string → string → R → R * bool;
  r_zcard : string → R → Z;
  (** [ZCOUNT key -inf max] *)
  r_zcount : string → Z → R → Z;
  (** [ZRANGEBYSCORE key -inf max LIMIT 0 n], with and without the maximum itself *)
  r_zrangebyscore : string → Z → option nat → R → list string;
  r_zrangebelow : string → Z → R → list string;
  (** [ZRANGE key 0 -1] and [ZREVRANGE key 0 n-1], everything for [None] *)
  r_zrange : string → R → list string;
  r_zrevrange : string → option Z → R → list string;
  (** [XADD stream * job v] *)
  r_xadd : string → string → R → R * string;
  r_xack : string → string → string → R → R;
  r_xdel : string → string → R → R;
  (** [XGROUP CREATE stream group 0 MKSTREAM], its error caught *)
  r_xgroup_create : string → string → R → R;
  (** [XAUTOCLAIM stream group consumer min_idle 0-0 COUNT 1] *)
  r_xautoclaim : string → string → string → Z → R → R * option delivery;
  (** [XREADGROUP GROUP group consumer COUNT 1 STREAMS stream >] *)
  r_xreadgroup : string → string → string → R → R * option delivery;
  r_xlen : string → R → Z;
  (** [XINFO GROUPS stream]: the groups with their pending counts *)
  r_xinfo_groups : string → R → list (string * Z)
}.

(** The value a list of assignments gives a field: the last one counts. *)
Definition assigned (fs : list (string * string)) (f : string) : option string := dict_get f (rev fs).

(** A command that leaves every hash alone. *)
Definition keeps_hashes {R} `{Redis R} (g : R → R) : Prop := ∀ k f r, r_hget k f (g r) = r_hget k f r.

Class RedisLaws (R : Type) `{Redis R} := {
  hget_hset k k' f fs r : r_hget k f (r_hset k' fs r) =
    if decide (k = k') then match assigned fs f with Some v => Some v | None => r_hget k f r end else r_hget k f r;
  hget_hincrby k k' f f' n r : r_hget k f (r_hincrby k' f' n r) =
    if decide (k = k' ∧ f = f')
    then Some (str_of_Z (default 0 (r_hget k f r ≫= Z_of_str) + n)) else r_hget k f r;
  hget_del k k' f r : r_hget k f (r_del k' r) = if decide (k = k') then None else r_hget k f r;
  hget_set k k' f v r : k ≠ k' → r_hget k f (r_set k' v r) = r_hget k f r;
  hget_exists k f r : r_exists k r = false → r_hget k f r = None;
  exists_del k r : r_exists k (r_del k r) = false;
  hgetall_hget k r f : dict_get f (r_hgetall k r) = r_hget k f r;
  sadd_hashes k v : keeps_hashes (r_sadd k v);
  zadd_hashes k s v : keeps_hashes (r_zadd k s v);
  zrem_hashes k v : keeps_hashes (λ r, (r_zrem k v r).1);
  xadd_hashes s v : keeps_hashes (λ r, (r_xadd s v r).1);
  xack_hashes s g e : keeps_hashes (r_xack s g e);
  xdel_hashes s e : keeps_hashes (r_xdel s e);
  xgroup_hashes s g : keeps_hashes (r_xgroup_create s g);
  xautoclaim_hashes s g c m : keeps_hashes (λ r, (r_xautoclaim s g c m r).1);
  xreadgroup_hashes s g c : keeps_hashes (λ r, (r_xreadgroup s g c r).1);
  expire_hashes k s : 0 < s → keeps_hashes (r_expire k s);
  zrem_absent k v r : (r_zrem k v r).2 = false → (r_zrem k v r).1 = r
}.

(** ** A keyspace that satisfies the laws

    Used by the witnesses: hashes, strings, sorted sets, sets and streams in
    maps of their own, entries numbered in order, and a delivered entry
    counting as idle at once. *)
Record keyspace := Keyspace {
  ks_hashes : gmap string (list (string * string));
  ks_strings : gmap string string;
  ks_ttls : gmap string Z;
  ks_zsets : gmap string (list (string * Z));
  ks_sets : gmap string (list string);
  (** the entries of a stream: id, value, and whether it was delivered *)
  ks_streams : gmap string (list (string * string * bool));
  ks_next : Z
}.

Definition empty_keyspace : keyspace := Keyspace ∅ ∅ ∅ ∅ ∅ ∅ 0.

Section keyspace.
Implicit Type r : keyspace.

Definition hash_of (k : string) r : list (string * string) := default [] (ks_hashes r !! k).
Definition zset_of (k : string) r : list (string * Z) := default [] (ks_zsets r !! k).
Definition stream_of (k : string) r : list (string * string * bool) := default [] (ks_streams r !! k).

Definition with_hash (k : string) (d : list (string * string)) r :=
  Keyspace (<[k := d]> (ks_hashes r)) (ks_strings r) (ks_ttls r) (ks_zsets r) (ks_sets r) (ks_streams r) (ks_next r).
Definition with_string (k v : string) r :=
  Keyspace (ks_hashes r) (<[k := v]> (ks_strings r)) (ks_ttls r) (ks_zsets r) (ks_sets r) (ks_streams r) (ks_next r).
Definition with_zset (k : string) (d : list (string * Z)) r :=
  Keyspace (ks_hashes r) (ks_strings r) (ks_ttls r) (<[k := d]> (ks_zsets r)) (ks_sets r) (ks_streams r) (ks_next r).
Definition with_stream (k : string) (d : list (string * string * bool)) r :=
  Keyspace (ks_hashes r) (ks_strings r) (ks_ttls r) (ks_zsets r) (ks_sets r) (<[k := d]> (ks_streams r)) (ks_next r + 1).

Definition score_le (a b : string * Z) : Prop := a.2 < b.2 ∨ a.2 = b.2 ∧ String.leb a.1 b.1 = true.
#[local] Instance score_le_dec a b : Decision (score_le a b).
Proof. unfold score_le. apply _. Defined.
Definition ranked_of (k : string) r : list (string * Z) := merge_sort score_le (zset_of k r).

(** The first entry delivered, or not yet delivered, to the group. *)
Definition first_entry (delivered : bool) (k : string) r : option delivery :=
  e ← List.find (λ e, Bool.eqb e.2 delivered) (stream_of k r); Some e.1.
Definition deliver (e : delivery) (k : string) r :=
  with_stream k ((λ x, if String.eqb x.1.1 e.1 then (x.1, true) else x) <$> stream_of k r) r.

#[export] Instance keyspace_redis : Redis keyspace := {|
  r_get k r := ks_strings r !! k;
  r_set k v r := with_string k v r;
  r_del k r := Keyspace (delete k (ks_hashes r)) (delete k (ks_strings r)) (delete k (ks_ttls r))
                 (delete k (ks_zsets r)) (delete k (ks_sets r)) (delete k (ks_streams r)) (ks_next r);
  r_exists k r := bool_decide (is_Some (ks_hashes r !! k)) || bool_decide (is_Some (ks_strings r !! k))
                  || bool_decide (is_Some (ks_zsets r !! k)) || bool_decide (is_Some (ks_streams r !! k));
  r_incr k r := let n := default 0 (ks_strings r !! k ≫= Z_of_str) + 1 in (with_string k (str_of_Z n) r, n);
  r_expire k s r := Keyspace (ks_hashes r) (ks_strings r) (<[k := s]> (ks_ttls r)) (ks_zsets r) (ks_sets r)
                      (ks_streams r) (ks_next r);
  r_ttl k r := match ks_strings r !! k with
               | None => -2
               | Some _ => default (-1) (ks_ttls r !! k)
               end;
  r_hget k f r := dict_get f (hash_of k r);
  r_hset k fs r := with_hash k (foldl (λ d kv, dict_set kv.1 kv.2 d) (hash_of k r) fs) r;
  r_hincrby k f n r := with_hash k (dict_set f (str_of_Z (default 0 (dict_get f (hash_of k r) ≫= Z_of_str) + n))
                                      (hash_of k r)) r;
  r_hgetall k r := hash_of k r;
  r_sadd k v r := Keyspace (ks_hashes r) (ks_strings r) (ks_ttls r) (ks_zsets r)
                    (<[k := v :: filter (λ x, x ≠ v) (default [] (ks_sets r !! k))]> (ks_sets r))
                    (ks_streams r) (ks_next r);
  r_smembers k r := default [] (ks_sets r !! k);
  r_zadd k s v r := with_zset k (dict_set v s (zset_of k r)) r;
  r_zrem k v r := if dict_has v (zset_of k r) then (with_zset k (dict_pop v (zset_of k r)) r, true) else (r, false);
  r_zcard k r := Z.of_nat (length (zset_of k r));
  r_zcount k m r := Z.of_nat (length (filter (λ x, x.2 ≤ m) (zset_of k r)));
  r_zrangebyscore k m n r :=
    let l := (filter (λ x, x.2 ≤ m) (ranked_of k r)).*1 in match n with Some n => take n l | None => l end;
  r_zrangebelow k m r := (filter (λ x, x.2 < m) (ranked_of k r)).*1;
  r_zrange k r := (ranked_of k r).*1;
  r_zrevrange k n r := let l := rev (ranked_of k r).*1 in match n with Some n => take (Z.to_nat n) l | None => l end;
  r_xadd k v r := let e := str_of_Z (ks_next r) in (with_stream k (stream_of k r ++ [(e, v, false)]) r, e);
  r_xack k g e r := with_stream k ((λ x, if String.eqb x.1.1 e then (x.1, false) else x) <$> stream_of k r) r;
  r_xdel k e r := with_stream k (filter (λ x, x.1.1 ≠ e) (stream_of k r)) r;
  r_xgroup_create k g r := with_stream k (stream_of k r) r;
  r_xautoclaim k g c m r := (r, first_entry true k r);
  r_xreadgroup k g c r :=
    match first_entry false k r with Some e => (deliver e k r, Some e) | None => (r, None) end;
  r_xlen k r := Z.of_nat (length (stream_of k r));
  r_xinfo_groups k r := [("workers", Z.of_nat (length (filter (λ x, x.2 = true) (stream_of k r))))]
|}.
End keyspace.

Lemma dict_get_assign (fs d : list (string * string)) f :
  dict_get f (foldl (λ d kv, dict_set kv.1 kv.2 d) d fs) =
    match assigned fs f with Some v => Some v | None => dict_get f d end.
Proof.
  unfold assigned. revert d. induction fs as [|[k v] fs IH] using rev_ind; intros d; [done|].
  rewrite foldl_app, rev_app_distr. simpl. rewrite dict_get_set. case_decide; [done|]. apply IH.
Qed.

#[export] Instance keyspace_laws : RedisLaws keyspace.
Proof.
  split; unfold keeps_hashes; simpl; unfold hash_of; intros; simpl.
  - case_decide as Hk; [subst; rewrite lookup_insert_eq; apply dict_get_assign|by rewrite lookup_insert_ne by congruence].
  - destruct (decide (k = k')) as [->|Hk]; [rewrite lookup_insert_eq; simpl; rewrite dict_get_set|
      rewrite lookup_insert_ne by congruence]; repeat case_decide; naive_solver.
  - case_decide as Hk; [subst; by rewrite lookup_delete_eq|by rewrite lookup_delete_ne by congruence].
  - done.
  - destruct (ks_hashes r !! k) eqn:Hh; [|done]. exfalso. rewrite bool_decide_true in H by eauto. done.
  - rewrite !lookup_delete_eq. done.
  - done.
  - done.
  - done.
  - by destruct (dict_has v _).
  - done.
  - done.
  - done.
  - done.
  - done.
  - by destruct (first_entry false s r).
  - done.
  - by destruct (dict_has v _).
Qed.
