(* ===== verification/QueueRedis.v ===== *)
(** * The Redis queue driver

    [queue/driver_redis.py]: the Lua scripts as functions of the keyspace,
    written with the commands they call in the order they call them, and the
    methods that run them. Times are whole seconds, as the scripts use them. *)

From Stdlib Require Import ZArith Lia.
From S2P Require Import Prelude PyStr Json QueueJob QueueIface Redis.
From S2P Require QueuePg.

Definition CONSUMER : string := "shared".
Definition PROMOTE_LIMIT : nat := 50.
Definition MAX_ERROR_BYTES : Z := 60000.

Definition fit_error (error : string) : string :=
  let raw := chars error in
  let cut := Z.to_nat MAX_ERROR_BYTES in
  if Z.of_nat (length raw) <=? MAX_ERROR_BYTES then error
  else of_chars (decode_ignore cut (take cut raw)) +:+ NL +:+ "... truncated".

(** [tonumber(x or d) or d] *)
Definition tonumber (x : option string) (d : Z) : Z := default d (x ≫= Z_of_str).

Definition nonempty (x : option string) : option string :=
  match x with Some s => if String.eqb s "" then None else Some s | None => None end.

(** ** The scripts

    [p] is the prefix. *)
Section scripts.
Context {R : Type} `{Redis R} (p : string).

Definition _job_key (id : string) : string := p +:+ "j:" +:+ id.
Definition _unique_key (u : string) : string := p +:+ "u:" +:+ u.
Definition _stream (queue level : string) : string := p +:+ "q:" +:+ queue +:+ ":s:" +:+ level.
Definition _levels (queue : string) : string := p +:+ "q:" +:+ queue +:+ ":levels".
Definition _delayed (queue : string) : string := p +:+ "q:" +:+ queue +:+ ":delayed".
Definition _failed : string := p +:+ "failed".

(** Makes job [id] ready on its level. *)
Definition add_ready (queue level id : string) (r : R) : R :=
  let '(r, entry) := r_xadd (_stream queue level) id r in
  let r := r_hset (_job_key id) [("entry", entry)] r in
  r_zadd (_levels queue) (tonumber (Some level) 0) level r.

Definition new_fields (queue name payload max_attempts level uk available_at created_at : string) : list (string * string) :=
  [("queue", queue); ("name", name); ("payload", payload);
   ("attempts", "0"); ("max_attempts", max_attempts); ("priority", level);
   ("unique_key", uk); ("available_at", available_at); ("reserved_until", "0");
   ("reserved_by", ""); ("last_error", ""); ("created_at", created_at); ("entry", "")].

(** The script past its unique-key test. *)
Definition push_new (queue name payload : string) (priority max_attempts : Z) (uk : string) (available_at : Z)
    (created_at : string) (now : Z) (r : R) : R * string :=
  let level := str_of_Z priority in
  let '(r, n) := r_incr (p +:+ "seq") r in
  let id := str_of_Z n in
  let r := r_hset (_job_key id) (new_fields queue name payload (str_of_Z max_attempts) level uk
                                   (str_of_Z available_at) created_at) r in
  let r := if String.eqb uk "" then r else r_set (_unique_key uk) id r in
  let r := r_sadd (p +:+ "queues") queue r in
  let r := if now <? available_at then r_zadd (_delayed queue) available_at id r
           else add_ready queue level id r in
  (r, id).

Definition _PUSH (queue name payload : string) (priority max_attempts : Z) (uk : string) (available_at : Z)
    (created_at : string) (now : Z) (r : R) : R * string :=
  let add := push_new queue name payload priority max_attempts uk available_at created_at now in
  if String.eqb uk "" then add r
  else match r_get (_unique_key uk) r with
       | None => add r
       | Some held =>
           if r_exists (_job_key held) r then (r, held) else add (r_del (_unique_key uk) r)
       end.

(** Moves one due job out of the delayed set, if nobody did so before. *)
Definition promote (queue : string) (r : R) (id : string) : R :=
  let '(r, removed) := r_zrem (_delayed queue) id r in
  if removed then
    match r_hget (_job_key id) "priority" r with
    | Some level => add_ready queue level id r
    | None => r
    end
  else r.

(** What [_RESERVE] returns: the id, the entry and [HGETALL]. *)
Definition reply : Type := string * string * list (string * string).

Section reserve.
Context (queue : string) (now timeout : Z) (worker group : string) (failed_at exhausted_error : string).

(** [XACK] and [XDEL] of the entry looked at. *)
Definition drop_entry (stream entry : string) (r : R) : R := r_xdel stream entry (r_xack stream group entry r).

(** Frees the unique key of a job that will not run again. *)
Definition free_key (job : string) (r : R) : R :=
  match nonempty (r_hget job "unique_key" r) with
  | Some uk => r_hset job [("unique_key", "")] (r_del (_unique_key uk) r)
  | None => r
  end.

Definition take_entry (stream : string) (r : R) : R * option delivery :=
  let '(r, auto) := r_xautoclaim stream group CONSUMER (timeout * 1000) r in
  match auto with
  | Some taken => (r, Some taken)
  | None => r_xreadgroup stream group CONSUMER r
  end.

(** One delivered entry: claimed, or removed with what it stands for. *)
Definition consider (stream entry id : string) (r : R) : R * option reply :=
  let job := _job_key id in
  let until_ := tonumber (r_hget job "reserved_until" r) 0 in
  let attempts := tonumber (r_hget job "attempts" r) 0 in
  let max_attempts := tonumber (r_hget job "max_attempts" r) 1 in
  if negb (r_exists job r) then (drop_entry stream entry r, None)
  else if now <? until_ then
    let r := r_zadd (_delayed queue) until_ id r in
    let r := r_hset job [("entry", "")] r in
    (drop_entry stream entry r, None)
  else if max_attempts <=? attempts then
    let r := drop_entry stream entry r in
    let r := free_key job r in
    let r := r_hset job [("error", exhausted_error); ("failed_at", failed_at);
                         ("reserved_until", "0"); ("reserved_by", ""); ("entry", "")] r in
    (r_zadd _failed now id r, None)
  else
    let r := r_hincrby job "attempts" 1 r in
    let r := r_hset job [("reserved_by", worker); ("reserved_until", str_of_Z (now + timeout)); ("entry", entry)] r in
    (r, Some (id, entry, r_hgetall job r)).

(** The rounds on one level. *)
Fixpoint level_rounds (rounds : nat) (stream : string) (r : R) : R * option reply :=
  match rounds with
  | O => (r, None)
  | S rounds =>
      match take_entry stream r with
      | (r, None) => (r, None)
      | (r, Some (entry, id)) =>
          match consider stream entry id r with
          | (r, Some found) => (r, Some found)
          | (r, None) => level_rounds rounds stream r
          end
      end
  end.

Fixpoint each_level (rounds : nat) (ranked : list string) (r : R) : R * option reply :=
  match ranked with
  | [] => (r, None)
  | level :: ranked =>
      let stream := _stream queue level in
      match level_rounds rounds stream (r_xgroup_create stream group r) with
      | (r, Some found) => (r, Some found)
      | (r, None) => each_level rounds ranked r
      end
  end.

Definition _RESERVE (promote_limit rounds : nat) (r : R) : R * option reply :=
  let due := r_zrangebyscore (_delayed queue) now (Some promote_limit) r in
  let r := foldl (promote queue) r due in
  each_level rounds (r_zrevrange (_levels queue) None r) r.
End reserve.

(** The scripts that end a claim. [_HELD] answers the job's stream, or [None]
    when the claim is not the one named. *)
Section held.
Context (queue id entry group reserved_by attempts : string).

Definition _HELD (r : R) : option string :=
  let job := _job_key id in
  if bool_decide (r_hget job "reserved_by" r = Some reserved_by ∧ r_hget job "attempts" r = Some attempts)
  then Some (_stream queue (default "0" (r_hget job "priority" r)))
  else None.

Definition _COMPLETE (r : R) : R * Z :=
  match _HELD r with
  | None => (r, 0)
  | Some stream =>
      let r := drop_entry group stream entry r in
      let r := match nonempty (r_hget (_job_key id) "unique_key" r) with
               | Some uk => r_del (_unique_key uk) r
               | None => r
               end in
      (r_del (_job_key id) r, 1)
  end.

Definition _RELEASE (available_at : Z) (error : string) (r : R) : R * Z :=
  match _HELD r with
  | None => (r, 0)
  | Some stream =>
      let r := r_zadd (_delayed queue) available_at id r in
      let r := r_hset (_job_key id) [("available_at", str_of_Z available_at); ("reserved_until", "0");
                                     ("reserved_by", ""); ("last_error", error); ("entry", "")] r in
      (drop_entry group stream entry r, 1)
  end.

Definition _FAIL (error : string) (now : Z) (failed_at : string) (r : R) : R * Z :=
  match _HELD r with
  | None => (r, 0)
  | Some stream =>
      let r := drop_entry group stream entry r in
      let r := free_key (_job_key id) r in
      let r := r_hset (_job_key id) [("error", error); ("failed_at", failed_at); ("reserved_until", "0");
                                     ("reserved_by", ""); ("entry", "")] r in
      (r_zadd _failed now id r, 1)
  end.
End held.

Definition _REQUEUE (id : string) (max_attempts now : Z) (r : R) : R * Z :=
  let '(r, removed) := r_zrem _failed id r in
  if negb removed then (r, 0)
  else if negb (r_exists (_job_key id) r) then (r, 0)
  else
    let queue := default "default" (nonempty (r_hget (_job_key id) "queue" r)) in
    let r := r_hset (_job_key id)
      [("attempts", "0"); ("max_attempts", str_of_Z max_attempts); ("priority", "0"); ("unique_key", "");
       ("available_at", str_of_Z now); ("reserved_until", "0"); ("reserved_by", ""); ("last_error", "");
       ("error", ""); ("failed_at", "")] r in
    (r_sadd (p +:+ "queues") queue (add_ready queue "0" id r), 1).

Definition _FORGET (id : string) (r : R) : R * Z :=
  let '(r, removed) := r_zrem _failed id r in
  if negb removed then (r, 0) else (r_del (_job_key id) r, 1).
End scripts.

(** ** The driver

    [stamp] is [moment.strftime] and [parse_epoch] the [strptime] attempts
    of [_epoch], the standard library's calendar. *)
Section driver.
Context {R : Type} `{Redis R} (prefix group : string).
Context (stamp_of : Z → string) (parse_epoch : string → option Z).

(** [int(now_utc().timestamp())] *)
Definition now_seconds : prog R Z := moment ← now_utc; mret (moment / second).

Definition stamp (moment : Z) : string := stamp_of moment.

Definition _stale (action : string) (job : Job) : prog R () :=
  out ("Queue " +:+ action +:+ " of job " +:+ name job +:+ " #" +:+ str_of_Z (id job)
    +:+ " ignored: " +:+ reserved_by job +:+ " no longer holds attempt " +:+ str_of_Z (attempts job)
    +:+ ", another worker took it over").

Definition push (name : string) (payload : option (list (string * json))) (delay : Z) (queue : string)
    (priority : Z) (unique : option string) (max_attempts : Z) : prog R Z :=
  moment ← now_utc;
  let now := moment / second in
  encoded ← lift_res (QueuePg.encode_payload (default [] payload));
  result ← stmt (_PUSH prefix (if String.eqb queue "" then "default" else queue) name encoded priority
                   (Z.max 1 max_attempts) (default "" unique) (now + Z.max 0 delay) (stamp moment) now);
  match Z_of_str result with
  | Some i => mret i
  | None => raise (raise_exn ValueError "invalid literal for int()")
  end.

(** [fields.get(f) or d] *)
Definition field (f : string) (fields : list (string * string)) (d : string) : string :=
  default d (nonempty (dict_get f fields)).

Definition int_field (f : string) (fields : list (string * string)) (d : Z) : res Z :=
  match nonempty (dict_get f fields) with
  | None => Ok d
  | Some s => match Z_of_str s with
              | Some n => Ok n
              | None => Err (raise_exn ValueError "invalid literal for int()")
              end
  end.

Definition _to_job (job_id : Z) (fields : list (string * string)) (entry : string) : res (option Job) :=
  match loads (field "payload" fields "") with
  | Ok (JObj payload) =>
      attempts ← int_field "attempts" fields 1;
      max_attempts ← int_field "max_attempts" fields 1;
      Ok (Some (MkJob job_id (field "queue" fields "default") (field "name" fields "") payload
                  (field "payload" fields "") (Z.max 1 attempts) (Z.max 1 max_attempts) entry
                  (field "reserved_by" fields "") None))
  | _ => Ok None
  end.

Definition _fail_raw (job_id queue entry reserved_by attempts error : string) : prog R bool :=
  moment ← now_utc;
  held ← stmt (_FAIL prefix queue job_id entry group reserved_by attempts (fit_error error)
                 (moment / second) (stamp moment));
  mret (negb (held =? 0)).

Definition _reserve_from (queue : string) (timeout : Z) (worker : string) : prog R (option Job) :=
  moment ← now_utc;
  result ← stmt (_RESERVE prefix queue (moment / second) (Z.max 1 timeout) (QueuePg.worker_name worker) group
                   (stamp moment) QueuePg.EXHAUSTED_ERROR PROMOTE_LIMIT QueuePg.CLAIM_ROUNDS);
  match result with
  | None => mret None
  | Some (job_id, entry, fields) =>
      match Z_of_str job_id with
      | None => raise (raise_exn ValueError "invalid literal for int()")
      | Some i =>
          job ← lift_res (_to_job i fields entry);
          match job with
          | Some job => mret (Some job)
          | None =>
              _fail_raw job_id (field "queue" fields queue) entry (field "reserved_by" fields "")
                (field "attempts" fields "") "Payload is not valid JSON, so no handler could be given it." ;;
              mret None
          end
      end
  end.

Fixpoint reserve (queues : list string) (timeout : Z) (worker : string) : prog R (option Job) :=
  match queues with
  | [] => mret None
  | queue :: queues =>
      job ← _reserve_from queue timeout worker;
      match job with
      | Some job => mret (Some job)
      | None => reserve queues timeout worker
      end
  end.

Definition delete (job : Job) : prog R () :=
  held ← stmt (_COMPLETE prefix (queue job) (str_of_Z (id job)) (handle job) group (reserved_by job)
                 (str_of_Z (attempts job)));
  if held =? 0 then _stale "delete" job else mret ().

Definition release (job : Job) (delay : Z) (error : string) : prog R () :=
  now ← now_seconds;
  held ← stmt (_RELEASE prefix (queue job) (str_of_Z (id job)) (handle job) group (reserved_by job)
                 (str_of_Z (attempts job)) (now + Z.max 0 delay) (fit_error error));
  if held =? 0 then _stale "release" job else mret ().

Definition fail (job : Job) (error : string) : prog R () :=
  held ← _fail_raw (str_of_Z (id job)) (queue job) (handle job) (reserved_by job) (str_of_Z (attempts job)) error;
  if held : bool then mret () else _stale "fail" job.

(** *** Reports *)

(** [sorted(str(name) for name in names)] *)
Definition _queue_names : prog R (list string) :=
  r ← get_st; mret (merge_sort String.le (r_smembers (prefix +:+ "queues") r)).

(** The entries of a level and how many of them are delivered to the group. *)
Definition level_counts (queue level : string) (r : R) : Z * Z :=
  let stream := _stream prefix queue level in
  let entries := r_xlen stream r in
  if entries =? 0 then (0, 0)
  else (entries, foldr Z.add 0 (snd <$> filter (λ g, g.1 = group) (r_xinfo_groups stream r))).

Definition _counts (queue : string) (now : Z) : prog R queue_stats :=
  r ← get_st;
  let levels := r_zrevrange (_levels prefix queue) None r in
  let counts := (λ level, level_counts queue level r) <$> levels in
  let ready := foldr Z.add 0 counts.*1 in
  let held := foldr Z.add 0 counts.*2 in
  let due := r_zcount (_delayed prefix queue) now r in
  let scheduled := r_zcard (_delayed prefix queue) r in
  let pending := Z.max 0 (ready - held) + due in
  let delayed := Z.max 0 (scheduled - due) in
  mret (QueueStats queue pending delayed held (pending + delayed + held)).

Fixpoint map_prog {A B} (f : A → prog R B) (l : list A) : prog R (list B) :=
  match l with
  | [] => mret []
  | x :: l => y ← f x; ys ← map_prog f l; mret (y :: ys)
  end.

Definition pending (queue : option string) : prog R Z :=
  now ← now_seconds;
  queues ← (match queue with Some q => mret [q] | None => _queue_names end);
  rows ← map_prog (λ name, _counts name now) queues;
  mret (foldr Z.add 0 (qs_pending <$> rows)).

Definition stats : prog R (list queue_stats) :=
  now ← now_seconds;
  names ← _queue_names;
  rows ← map_prog (λ name, _counts name now) names;
  mret (filter (λ s, 0 < qs_total s) rows).

Definition failed_count : prog R Z := r ← get_st; mret (r_zcard (_failed prefix) r).

Definition failed_row_of (job_id : string) (fields : list (string * string)) : res (option failed_report) :=
  match fields with
  | [] => Ok None
  | _ =>
      i ← (match Z_of_str job_id with Some i => Ok i | None => Err (raise_exn ValueError "invalid literal for int()") end);
      n ← int_field "attempts" fields 0;
      Ok (Some (FailedReport i (Stamped (field "failed_at" fields "")) (field "queue" fields "")
                  (field "name" fields "") n (field "error" fields "")))
  end.

Definition failed_rows (limit : Z) : prog R (list failed_report) :=
  r ← get_st;
  let ids := r_zrevrange (_failed prefix) (Some (Z.max 1 limit)) r in
  rows ← map_prog (λ i, lift_res (failed_row_of i (r_hgetall (_job_key prefix i) r))) ids;
  mret (omap (λ x, x) rows).

Fixpoint sum_scripts (f : string → R → R * Z) (ids : list string) : prog R Z :=
  match ids with
  | [] => mret 0
  | i :: ids => n ← stmt (f i); m ← sum_scripts f ids; mret (n + m)
  end.

Definition retry_failed (job_id : option Z) (max_attempts : Z) : prog R Z :=
  now ← now_seconds;
  r ← get_st;
  let ids := match job_id with Some i => [str_of_Z i] | None => r_zrange (_failed prefix) r end in
  sum_scripts (λ i, _REQUEUE prefix i (Z.max 1 max_attempts) now) ids.

Definition _epoch (before : string) : res Z :=
  match parse_epoch before with
  | Some t => Ok t
  | None => Err (queue_error (repr before +:+ " is not a date this queue can read."))
  end.

Definition forget_failed (job_id : option Z) (before : option string) : prog R Z :=
  r ← get_st;
  ids ← (match job_id, before with
         | Some i, _ => mret [str_of_Z i]
         | None, Some b => t ← lift_res (_epoch b); mret (r_zrangebelow (_failed prefix) t r)
         | None, None => mret (r_zrange (_failed prefix) r)
         end);
  sum_scripts (_FORGET prefix) ids.
End driver.

Definition redis_driver {R : Type} `{Redis R} (prefix group : string) (stamp_of : Z → string)
    (parse_epoch : string → option Z) : QueueDriver R := {|
  drv_push := push prefix stamp_of;
  drv_reserve := reserve prefix group stamp_of;
  drv_delete := delete prefix group;
  drv_release := release prefix group;
  drv_fail := fail prefix group stamp_of;
  drv_pending := pending prefix group;
  drv_stats := stats prefix group;
  drv_failed_count := failed_count prefix;
  drv_failed_rows := failed_rows prefix;
  drv_retry_failed := retry_failed prefix;
  drv_forget_failed := forget_failed prefix parse_epoch
|}.

(** [RedisQueue(redis_con, prefix, group)]: empty arguments stand for the
    defaults. *)
Definition __init__ (prefix group : string) : string * string :=
  (if String.eqb prefix "" then "queue:" else prefix, if String.eqb group "" then "workers" else group).
