(* ===== verification/QueueRedisProps.v ===== *)
(** * Correctness of the Redis queue driver

    Proved from the laws of the commands alone: what a claim is, that its
    completion counts once, what a push stores, and that only failed jobs are
    requeued or forgotten. *)

From Stdlib Require Import ZArith Lia.
From S2P Require Import Prelude PyStr Json QueueJob QueueIface Redis QueueRedis.
From S2P Require QueuePg.

Section redis.
Context {R : Type} `{RedisLaws R} (p group : string) (stamp_of : Z → string).
Implicit Type r : R.

Lemma append_inj (s t u : string) : s +:+ t = s +:+ u → t = u.
Proof. induction s as [|a s IH]; simpl; [done|]. intros [=]. auto. Qed.

Lemma job_unique_keys i u : _job_key p i ≠ _unique_key p u.
Proof. unfold _job_key, _unique_key. intros Heq%append_inj. done. Qed.

(** ** Frames *)
Lemma drop_entry_hashes s e : keeps_hashes (drop_entry group s e).
Proof. intros k f r. unfold drop_entry. by rewrite xdel_hashes, xack_hashes. Qed.

Lemma hget_hset_same k f v fs r : assigned fs f = Some v → r_hget k f (r_hset k fs r) = Some v.
Proof. intros Ha. rewrite hget_hset, decide_True by done. by rewrite Ha. Qed.

Lemma hget_hset_other k f fs r : assigned fs f = None → ∀ k', r_hget k f (r_hset k' fs r) = r_hget k f r.
Proof. intros Ha k'. rewrite hget_hset. case_decide; [by rewrite Ha|done]. Qed.

Lemma add_ready_hget q l i r k f : f ≠ "entry" → r_hget k f (add_ready p q l i r) = r_hget k f r.
Proof.
  intros Hf. unfold add_ready. pose proof (xadd_hashes (_stream p q l) i k f r) as Hx. cbv beta in Hx.
  destruct (r_xadd (_stream p q l) i r) as [r1 e]. simpl in Hx.
  rewrite zadd_hashes, hget_hset_other; [exact Hx|]. unfold assigned. simpl. by rewrite decide_False.
Qed.

(** ** Ending a claim *)

(** The claim [job] was handed out under holds its hash. *)
Definition held_by (job : Job) r : Prop :=
  r_hget (_job_key p (str_of_Z (id job))) "reserved_by" r = Some (reserved_by job) ∧
  r_hget (_job_key p (str_of_Z (id job))) "attempts" r = Some (str_of_Z (attempts job)).

#[local] Instance held_by_dec job r : Decision (held_by job r).
Proof. unfold held_by. apply _. Defined.

Lemma HELD_None job r :
  ¬ held_by job r → _HELD p (queue job) (str_of_Z (id job)) (reserved_by job) (str_of_Z (attempts job)) r = None.
Proof. intros Hn. unfold _HELD. by rewrite bool_decide_false. Qed.

Lemma HELD_Some job r :
  held_by job r → ∃ s, _HELD p (queue job) (str_of_Z (id job)) (reserved_by job) (str_of_Z (attempts job)) r = Some s.
Proof. intros Hh. unfold _HELD. rewrite bool_decide_true by exact Hh. eauto. Qed.

(** The three ways to end a claim. *)
Inductive ends (job : Job) : prog R () → Prop :=
  | end_delete : ends job (delete p group job)
  | end_release d e : ends job (release p group job d e)
  | end_fail e : ends job (fail p group stamp_of job e).

Lemma ends_stale job m w :
  ends job m → ¬ held_by job (w_st w) →
  (m w).2 = Ok () ∧ w_st (m w).1 = w_st w ∧ length (w_log (m w).1) = S (length (w_log w)).
Proof.
  intros Hm Hn. pose proof (HELD_None job _ Hn) as HN.
  destruct Hm; unfold delete, release, fail, _fail_raw, now_seconds, _stale; run_prog;
    unfold _COMPLETE, _RELEASE, _FAIL; rewrite HN; simpl; rewrite length_app; simpl; split_and!; done || lia.
Qed.

(** After a claim was ended it no longer holds the job. *)
Lemma ends_released job m w :
  ends job m → reserved_by job ≠ "" → ¬ held_by job (w_st (m w).1).
Proof.
  intros Hm Hw. destruct (decide (held_by job (w_st w))) as [Hh|Hn].
  2:{ destruct (ends_stale job m w Hm Hn) as (_ & -> & _). done. }
  destruct (HELD_Some job _ Hh) as [s HS]. intros [Hb _].
  destruct Hm; unfold delete, release, fail, _fail_raw, now_seconds, _stale in Hb; run_prog;
    unfold _COMPLETE, _RELEASE, _FAIL in Hb; rewrite HS in Hb; simpl in Hb.
  - by rewrite hget_del, decide_True in Hb.
  - rewrite drop_entry_hashes in Hb. erewrite hget_hset_same in Hb by reflexivity. congruence.
  - rewrite zadd_hashes in Hb. erewrite hget_hset_same in Hb by reflexivity. congruence.
Qed.

(** C7: a claim on a Redis job is ended at most once: after any [delete],
    [release] or [fail] of a job, every further one for the same claim returns,
    leaves the whole keyspace as it is - the job's hash, the stream entry a
    new holder may rely on, the delayed and failed sets - and logs that the
    claim is stale. *)
Theorem redis_claim_ends_once (job : Job) (m1 m2 : prog R ()) (w : world R) (clock : Z)
    (Hw : reserved_by job ≠ "") (H1 : ends job m1) (H2 : ends job m2) :
  let again := World (w_st (m1 w).1) (w_log (m1 w).1) clock in
  (m2 again).2 = Ok () ∧ w_st (m2 again).1 = w_st again ∧
  length (w_log (m2 again).1) = S (length (w_log again)).
Proof. intros again. apply (ends_stale job m2 again H2). by apply ends_released. Qed.

(** ** Reserving *)

Section reserve.
Context (queue : string) (now timeout : Z) (worker : string) (failed_at exhausted : string).

(** What a claim looks like when it is made: the reply is the job's hash with
    its attempt counted, within the budget, and held by the worker. *)
Definition claimed (r' : R) (found : reply) : Prop :=
  let '(i, entry, fields) := found in
  ∃ n m, n ≤ m ∧
    (∀ f, dict_get f fields = r_hget (_job_key p i) f r') ∧
    r_hget (_job_key p i) "attempts" r' = Some (str_of_Z n) ∧
    tonumber (r_hget (_job_key p i) "max_attempts" r') 1 = m ∧
    r_hget (_job_key p i) "reserved_by" r' = Some worker ∧
    r_hget (_job_key p i) "reserved_until" r' = Some (str_of_Z (now + timeout)) ∧
    r_hget (_job_key p i) "entry" r' = Some entry ∧
    (∀ q, _HELD p q i worker (str_of_Z n) r' ≠ None) ∧
    (∀ q b k, k ≠ n → _HELD p q i b (str_of_Z k) r' = None).

Lemma consider_claims stream entry i r r' found :
  consider p queue now timeout worker group failed_at exhausted stream entry i r = (r', Some found) →
  claimed r' found ∧ tonumber (r_hget (_job_key p i) "reserved_until" r) 0 ≤ now ∧
  found.1 = (i, entry).
Proof.
  unfold consider. set (job := _job_key p i).
  destruct (negb (r_exists job r)); [done|].
  destruct (Z.ltb_spec now (tonumber (r_hget job "reserved_until" r) 0)) as [|Hfree]; [done|].
  destruct (Z.leb_spec (tonumber (r_hget job "max_attempts" r) 1) (tonumber (r_hget job "attempts" r) 0)) as [|Hm]; [done|].
  intros [= <- <-]. split_and!; [|done|done].
  set (r1 := r_hset job _ _).
  assert (Hatt : r_hget job "attempts" r1 = Some (str_of_Z (tonumber (r_hget job "attempts" r) 0 + 1))).
  { unfold r1. rewrite hget_hset_other by done. by rewrite hget_hincrby, decide_True by done. }
  assert (Hmax : r_hget job "max_attempts" r1 = r_hget job "max_attempts" r).
  { unfold r1. rewrite hget_hset_other by done. rewrite hget_hincrby, decide_False by naive_solver. done. }
  assert (Hby : r_hget job "reserved_by" r1 = Some worker) by (unfold r1; by erewrite hget_hset_same by reflexivity).
  unfold claimed. fold job. eexists _, _. split_and!; [| |exact Hatt|reflexivity|exact Hby| | | |].
  - rewrite Hmax. lia.
  - intros f. apply hgetall_hget.
  - unfold r1. by erewrite hget_hset_same by reflexivity.
  - unfold r1. by erewrite hget_hset_same by reflexivity.
  - intros q. unfold _HELD. fold job. by rewrite bool_decide_true.
  - intros q b k Hk. unfold _HELD. fold job. rewrite bool_decide_false; [done|].
    intros [_ Ha]. rewrite Hatt in Ha. injection Ha as Ha. apply (inj str_of_Z) in Ha. lia.
Qed.

Lemma level_rounds_claims rounds stream r r' found :
  level_rounds p queue now timeout worker group failed_at exhausted rounds stream r = (r', Some found) →
  claimed r' found.
Proof.
  revert r. induction rounds as [|rounds IH]; intros r; simpl; [done|].
  destruct (take_entry timeout group stream r) as [r1 [[e i]|]]; [|done].
  destruct (consider _ _ _ _ _ _ _ _ stream e i r1) as [r2 [found2|]] eqn:Hc; [|apply IH].
  intros [= <- <-]. by apply consider_claims in Hc as [? _].
Qed.

Lemma each_level_claims rounds ranked r r' found :
  each_level p queue now timeout worker group failed_at exhausted rounds ranked r = (r', Some found) →
  claimed r' found.
Proof.
  revert r. induction ranked as [|level ranked IH]; intros r; simpl; [done|].
  destruct (level_rounds _ _ _ _ _ _ _ _ rounds _ _) as [r1 [found1|]] eqn:Hl; [|apply IH].
  intros [= <- <-]. by eapply level_rounds_claims.
Qed.

(** What the reserve script hands out is a claim: the reply is the job's
    hash as it is now; its attempt was counted and is within the job's budget;
    the hash names the worker, the deadline and the stream entry; exactly this
    attempt passes the test the completion scripts open with, and no other
    attempt does, so every claim handed out before is void. *)
Theorem redis_reserve_claims (promote_limit rounds : nat) (r r' : R) (found : reply)
    (Hres : _RESERVE p queue now timeout worker group failed_at exhausted promote_limit rounds r = (r', Some found)) :
  claimed r' found.
Proof. eapply each_level_claims. exact Hres. Qed.
End reserve.

(** ** Push *)

Lemma push_new_hash q n text pr m uk av created now r r2 s :
  push_new p q n text pr m uk av created now r = (r2, s) →
  ∃ j, s = str_of_Z j ∧ ∀ f v, f ≠ "entry" →
    assigned (new_fields q n text (str_of_Z m) (str_of_Z pr) uk (str_of_Z av) created) f = Some v →
    r_hget (_job_key p s) f r2 = Some v.
Proof.
  unfold push_new. destruct (r_incr _ r) as [r1 j]. cbv zeta. intros [= <- <-]. exists j. split; [done|].
  intros f v Hf Ha. destruct (now <? _).
  all: rewrite ?zadd_hashes, ?add_ready_hget by done; rewrite sadd_hashes.
  all: destruct (String.eqb uk ""); rewrite ?hget_set by apply job_unique_keys; by apply hget_hset_same.
Qed.

(** [push] under a unique key whose job exists answers that job's id and
    leaves the keyspace as it is; in every other case the new id's hash holds
    the queue, the handler's name, the payload byte for byte, no attempt, a
    budget of at least one, the due second and the unique key. *)
Theorem redis_push_spec (n : string) (payload : option (list (string * json))) (delay : Z) (q : string)
    (pr : Z) (u : option string) (m : Z) (w w' : world R) (i : Z) (text : string)
    (Htext : QueuePg.encode_payload (default [] payload) = Ok text)
    (Hpush : push p stamp_of n payload delay q pr u m w = (w', Ok i)) :
  (∃ k held, u = Some k ∧ k ≠ "" ∧ r_get (_unique_key p k) (w_st w) = Some held ∧
     r_exists (_job_key p held) (w_st w) = true ∧ Z_of_str held = Some i ∧ w_st w' = w_st w) ∨
  (let job := _job_key p (str_of_Z i) in
   r_hget job "queue" (w_st w') = Some (if String.eqb q "" then "default" else q) ∧
   r_hget job "name" (w_st w') = Some n ∧ r_hget job "payload" (w_st w') = Some text ∧
   r_hget job "attempts" (w_st w') = Some "0" ∧
   r_hget job "max_attempts" (w_st w') = Some (str_of_Z (Z.max 1 m)) ∧
   r_hget job "available_at" (w_st w') = Some (str_of_Z (w_clock w / second + Z.max 0 delay)) ∧
   r_hget job "unique_key" (w_st w') = Some (default "" u)).
Proof.
  unfold push, now_utc, lift_res, stmt in Hpush. unfold mbind, prog_bind in Hpush. rewrite Htext in Hpush.
  destruct (_PUSH _ _ _ _ _ _ _ _ _ _ _) as [r2 s] eqn:Hp. cbn [w_st w_log w_clock] in Hpush.
  destruct (Z_of_str s) as [j|] eqn:Hs; [|done].
  unfold mret, prog_ret in Hpush. injection Hpush as <- <-. cbn [w_st].
  assert (Hnew : ∀ r, push_new p (if String.eqb q "" then "default" else q) n text pr (Z.max 1 m) (default "" u)
      (w_clock w / second + Z.max 0 delay) (stamp stamp_of (w_clock w)) (w_clock w / second) r = (r2, s) →
    let job := _job_key p (str_of_Z j) in
    r_hget job "queue" r2 = Some (if String.eqb q "" then "default" else q) ∧
    r_hget job "name" r2 = Some n ∧ r_hget job "payload" r2 = Some text ∧
    r_hget job "attempts" r2 = Some "0" ∧
    r_hget job "max_attempts" r2 = Some (str_of_Z (Z.max 1 m)) ∧
    r_hget job "available_at" r2 = Some (str_of_Z (w_clock w / second + Z.max 0 delay)) ∧
    r_hget job "unique_key" r2 = Some (default "" u)).
  { intros r Hr. apply push_new_hash in Hr as (j' & -> & Hf). rewrite Z_of_str_of_Z in Hs. injection Hs as ->.
    cbv zeta. split_and!; by apply Hf. }
  unfold _PUSH in Hp. cbv zeta in Hp.
  destruct (String.eqb_spec (default "" u) "") as [_|Hne]; [right; eauto|].
  destruct (r_get _ (w_st w)) as [held|] eqn:Hg; [|right; eauto].
  destruct (r_exists _ (w_st w)) eqn:He; [|right; eauto]. injection Hp as <- <-.
  left. destruct u as [k|]; [|done]. eauto 10.
Qed.

(** ** The failed set *)

(** A job that is not in the failed set is neither requeued nor forgotten:
    the scripts answer 0 and leave the keyspace as it is, so naming a waiting
    or running job cannot reset it, delete it or queue it a second time. A
    failed one is taken out of the set first, and a requeued one keeps its
    payload with no attempt spent. *)
Theorem redis_only_failed (i : string) (m now : Z) (r : R) :
  ((r_zrem (_failed p) i r).2 = false → _REQUEUE p i m now r = (r, 0) ∧ _FORGET p i r = (r, 0)) ∧
  ((r_zrem (_failed p) i r).2 = true →
   (_FORGET p i r).2 = 1 ∧ (∀ f, r_hget (_job_key p i) f (_FORGET p i r).1 = None) ∧
   (∀ r', _REQUEUE p i m now r = (r', 1) →
      r_hget (_job_key p i) "payload" r' = r_hget (_job_key p i) "payload" r ∧
      r_hget (_job_key p i) "name" r' = r_hget (_job_key p i) "name" r ∧
      r_hget (_job_key p i) "attempts" r' = Some "0" ∧
      r_hget (_job_key p i) "max_attempts" r' = Some (str_of_Z m))).
Proof.
  pose proof (zrem_hashes (_failed p) i) as Hz. unfold _REQUEUE, _FORGET. split; intros Hm.
  - pose proof (zrem_absent (_failed p) i r Hm) as Hr. destruct (r_zrem (_failed p) i r) as [r1 b].
    simpl in *. subst. done.
  - assert (Hzr : ∀ k f, r_hget k f (r_zrem (_failed p) i r).1 = r_hget k f r) by (intros; apply Hz).
    clear Hz. rename Hzr into Hz. destruct (r_zrem (_failed p) i r) as [r1 b]. simpl in *. subst b. simpl.
    split_and!; [done|intros f; by rewrite hget_del, decide_True|].
    intros r' Heq. destruct (negb (r_exists _ r1)); [done|]. injection Heq as <-.
    split_and!; rewrite sadd_hashes, add_ready_hget by done.
    + by rewrite hget_hset_other, Hz.
    + by rewrite hget_hset_other, Hz.
    + by apply hget_hset_same.
    + by apply hget_hset_same.
Qed.
End redis.

(** ** Witnesses, on a concrete keyspace *)
Definition redis_world (r : keyspace) (seconds : Z) : world keyspace := World r [] (seconds * second).
Definition demo_stamp : Z → string := str_of_Z.

Definition demo_pushed : world keyspace :=
  (push "queue:" demo_stamp "mail" (Some [("to", JInt 7)]) 0 "" 5 (Some "k") 3 (redis_world empty_keyspace 100)).1.

Definition demo_reserve := _RESERVE "queue:" "default" 100 60 "w1" "workers" "" "" 50 5 (w_st demo_pushed).

Definition demo_redis_job : Job :=
  MkJob 1 "default" "mail" [("to", JInt 7)] (sq "{'to': 7}") 1 3 "0" "w1" None.

Lemma redis_claim_ends_once_witness :
  (delete "queue:" "workers" demo_redis_job (World demo_reserve.1 [] 0)).2 = Ok () ∧
  (release "queue:" "workers" demo_redis_job 5 ""
     (World (w_st (delete "queue:" "workers" demo_redis_job (World demo_reserve.1 [] 0)).1)
            (w_log (delete "queue:" "workers" demo_redis_job (World demo_reserve.1 [] 0)).1) 9)).2 = Ok ().
Proof.
  split; [vm_compute; reflexivity|].
  apply (redis_claim_ends_once "queue:" "workers" demo_stamp demo_redis_job
    (delete "queue:" "workers" demo_redis_job) (release "queue:" "workers" demo_redis_job 5 "")
    (World demo_reserve.1 [] 0) 9); [discriminate|constructor|constructor].
Defined.

Lemma redis_reserve_claims_witness :
  ∃ found, demo_reserve.2 = Some found ∧ found.1 = ("1", "0") ∧ claimed "queue:" 100 60 "w1" demo_reserve.1 found.
Proof.
  destruct demo_reserve as [r' [found|]] eqn:Hr; [|exfalso; vm_compute in Hr; discriminate].
  exists found. split; [reflexivity|]. split.
  - vm_compute in Hr. injection Hr as _ <-. reflexivity.
  - exact (redis_reserve_claims "queue:" "workers" demo_stamp "default" 100 60 "w1" "" "" 50 5 (w_st demo_pushed) r' found Hr).
Defined.

Lemma redis_push_spec_witness :
  r_hget "queue:j:1" "payload" (w_st demo_pushed) = Some (sq "{'to': 7}").
Proof.
  destruct (redis_push_spec "queue:" demo_stamp "mail" (Some [("to", JInt 7)]) 0 "" 5 (Some "k") 3
    (redis_world empty_keyspace 100) demo_pushed 1 (sq "{'to': 7}") ltac:(vm_compute; reflexivity)
    ltac:(vm_compute; reflexivity)) as [(k & held & _ & _ & Hg & _)|(_ & _ & Hp & _)].
  - exfalso. vm_compute in Hg. discriminate.
  - exact Hp.
Defined.

Definition demo_failed : keyspace :=
  (_FAIL "queue:" "default" "1" "0" "workers" "w1" "1" "boom" 200 "then" demo_reserve.1).1.

Lemma redis_only_failed_witness :
  _REQUEUE "queue:" "1" 3 300 demo_reserve.1 = (demo_reserve.1, 0) ∧
  r_hget "queue:j:1" "payload" (_REQUEUE "queue:" "1" 3 300 demo_failed).1 = Some (sq "{'to': 7}").
Proof.
  split.
  - apply (redis_only_failed "queue:" "1" 3 300 demo_reserve.1). vm_compute. reflexivity.
  - assert (Hm : (r_zrem (_failed "queue:") "1" demo_failed).2 = true) by (vm_compute; reflexivity).
    assert (Hq : _REQUEUE "queue:" "1" 3 300 demo_failed = ((_REQUEUE "queue:" "1" 3 300 demo_failed).1, 1))
      by (vm_compute; reflexivity).
    destruct (proj2 (redis_only_failed "queue:" "1" 3 300 demo_failed) Hm) as (_ & _ & Hr).
    destruct (Hr _ Hq) as [Hp _]. refine (eq_trans Hp _). vm_compute. reflexivity.
Defined.
