(* ===== verification/MigDiscovery.v ===== *)
(** * Migration files

    [migrations/discovery.py]: reading and checking the files of a migrations
    directory, the crude scans of their SQL, new file names, and the
    splitting of a script into statements. A directory is the list of its
    files with their bytes. [checksum_bytes] (SHA-256) and
    [sqlite3.complete_statement] are parameters. *)

From Stdlib Require Import ZArith Lia.
From S2P Require Import Prelude PyStr Json.

Definition NO_TRANSACTION_DIRECTIVE : string := "-- migrations:no-transaction".
Definition FOREIGN_KEYS_OFF_DIRECTIVE : string := "-- migrations:foreign-keys-off".

Definition migration_error (msg : string) : exn := raise_exn MigrationError msg.

(** ** File names *)

(** Characters of a pattern with [9] for a digit. *)
Definition matches_shape (shape : list ascii) (l : list ascii) : bool :=
  forallb (λ ac, if Ascii.eqb ac.1 "9"%char then is_digit ac.2 else Ascii.eqb ac.1 ac.2) (zip shape l)
  && (length shape =? length l)%nat.

Definition slug_char (a : ascii) : bool := is_lower a || is_digit a.
Definition slug_or_dash (a : ascii) : bool := slug_char a || Ascii.eqb a "-"%char.

Definition stamp_shape : list ascii := chars "9999-99-99-999999".

(** [YYYY-MM-DD-HHMMSS-slug.sql], the digits ASCII ones: the groups of [MIGRATION_FILENAME_RE], up to
    a final newline. *)
Definition filename_parts (l : list ascii) : option (list ascii * list ascii) :=
  let prefix := take 17 l in
  let rest := drop 18 l in
  let slug := take (length rest - 4) rest in
  if matches_shape stamp_shape prefix && bool_decide (l !! 17%nat = Some "-"%char)
     && bool_decide (drop (length rest - 4) rest = chars ".sql")
     && negb (match slug with [] => true | _ => false end) && forallb slug_or_dash slug
  then Some (prefix, slug) else None.

Definition MIGRATION_FILENAME_RE (name : string) : option (list ascii * list ascii) :=
  match filename_parts (chars name) with
  | Some parts => Some parts
  | None =>
      match rev (chars name) with
      | a :: r => if Ascii.eqb a "010"%char then filename_parts (rev r) else None
      | [] => None
      end
  end.

(** ** Files *)
Record MigrationFile := MkMigrationFile {
  mf_name : string; mf_prefix : string; mf_sql : string; mf_checksum : string;
  mf_no_transaction : bool; mf_foreign_keys_off : bool
}.

(** A directory's path and, if it exists, its files. *)
Record directory := Directory { dir_path : string; dir_files : option (list (string * list ascii)) }.

(** [raw.decode("utf-8")]: the text if every byte belongs to a character. *)
Fixpoint valid_utf8 (fuel : nat) (l : list ascii) : bool :=
  match fuel with
  | O => match l with [] => true | _ => false end
  | S fuel =>
      match l with
      | [] => true
      | _ =>
          match List.find (λ n, utf8_char (take n l) && (n <=? length l)%nat) [1; 2; 3; 4]%nat with
          | Some n => valid_utf8 fuel (drop n l)
          | None => false
          end
      end
  end.

Definition decode_utf8 (l : list ascii) : option string :=
  if valid_utf8 (length l) l then Some (of_chars l) else None.

Definition first_line (sql : string) : string := strip (hd "" (split "010"%char sql)).

Section discovery.
Context (sha256_hex : list ascii → string) (complete_statement : string → bool).

Definition checksum_bytes (data : list ascii) : string := sha256_hex data.

Definition load_migration (name : string) (raw : list ascii) : res MigrationFile :=
  match MIGRATION_FILENAME_RE name with
  | None => Err (migration_error ("Bad migration filename " +:+ repr name
                   +:+ ": expected YYYY-MM-DD-HHMMSS-kebab-name.sql"))
  | Some (prefix, _) =>
      match decode_utf8 raw with
      | None => Err (migration_error ("Migration " +:+ repr name +:+ " is not valid UTF-8"))
      | Some sql =>
          Ok (MkMigrationFile name (of_chars prefix) sql (checksum_bytes raw)
                (String.eqb (first_line sql) NO_TRANSACTION_DIRECTIVE)
                (String.eqb (first_line sql) FOREIGN_KEYS_OFF_DIRECTIVE))
      end
  end.

Definition file_le (a b : string * list ascii) : Prop := String.leb a.1 b.1 = true.
#[export] Instance file_le_dec a b : Decision (file_le a b).
Proof. unfold file_le. apply _. Defined.

(** [sorted(directory.glob("*.sql"))] *)
Definition sql_files (files : list (string * list ascii)) : list (string * list ascii) :=
  merge_sort file_le (filter (λ f, startswith (of_chars (rev (chars ".sql"))) (of_chars (rev (chars f.1))) = true) files).

Fixpoint load_all (files : list (string * list ascii)) : res (list MigrationFile) :=
  match files with
  | [] => Ok []
  | (name, raw) :: files => m ← load_migration name raw; ms ← load_all files; Ok (m :: ms)
  end.

(** The loop over the loaded files with [seen] so far. *)
Fixpoint check_prefixes (seen : list (string * string)) (ms : list MigrationFile) : res () :=
  match ms with
  | [] => Ok ()
  | m :: ms =>
      match dict_get (mf_prefix m) seen with
      | Some other => Err (migration_error ("Duplicate migration timestamp " +:+ mf_prefix m +:+ ": " +:+ other
                             +:+ " and " +:+ mf_name m))
      | None => check_prefixes (dict_set (mf_prefix m) (mf_name m) seen) ms
      end
  end.

Definition discover (d : directory) : res (list MigrationFile) :=
  match dir_files d with
  | None => Err (migration_error ("Migrations directory does not exist: " +:+ dir_path d))
  | Some files =>
      migrations ← load_all (sql_files files);
      _ ← check_prefixes [] migrations;
      Ok migrations
  end.

(** ** Scans of the SQL text *)

(** [enumerate(lines, start=n)] *)
Fixpoint enumerate {A} (n : Z) (l : list A) : list (Z * A) :=
  match l with [] => [] | x :: l => (n, x) :: enumerate (n + 1) l end.

Definition is_meta_command (line : string) : bool :=
  match drop_while is_space (chars line) with a :: _ => Ascii.eqb a "092"%char | [] => false end.

Definition find_meta_commands (sql : string) : list (Z * string) :=
  (λ nl, (nl.1, rstrip_by is_space nl.2)) <$>
    filter (λ nl, is_meta_command nl.2 = true) (enumerate 1 (split "010"%char sql)).

(** Removes [--] up to the end of its line, anywhere. *)
Fixpoint strip_comments (in_comment : bool) (l : list ascii) : list ascii :=
  match l with
  | [] => []
  | a :: l' =>
      if Ascii.eqb a "010"%char then a :: strip_comments false l'
      else if in_comment then strip_comments true l'
      else if Ascii.eqb a "-"%char
              && match l' with b :: _ => Ascii.eqb b "-"%char | [] => false end
      then strip_comments true l'
      else a :: strip_comments false l'
  end.

Definition count_statements (sql : string) : Z :=
  Z.of_nat (length (filter (λ part, strip part ≠ "") (split ";"%char (of_chars (strip_comments false (chars sql)))))).

(** ** New files *)

(** The calendar fields of a moment. *)
Record datetime := Datetime { dt_year : Z; dt_month : Z; dt_day : Z; dt_hour : Z; dt_minute : Z; dt_second : Z }.

Definition digit (n : Z) : ascii := ascii_of_N (Z.to_N (48 + n mod 10)).
Definition two_digits (n : Z) : list ascii := [digit (n / 10); digit n].
Definition four_digits (n : Z) : list ascii := [digit (n / 1000); digit (n / 100); digit (n / 10); digit n].

(** [f"{now:%Y-%m-%d-%H%M%S}"] *)
Definition stamp (now : datetime) : list ascii :=
  four_digits (dt_year now) ++ ["-"%char] ++ two_digits (dt_month now) ++ ["-"%char] ++ two_digits (dt_day now)
  ++ ["-"%char] ++ two_digits (dt_hour now) ++ two_digits (dt_minute now) ++ two_digits (dt_second now).

(** [re.sub("[^a-z0-9]+", "-", s)] *)
Fixpoint dash_runs (in_run : bool) (l : list ascii) : list ascii :=
  match l with
  | [] => []
  | a :: l' =>
      if slug_char a then a :: dash_runs false l'
      else if in_run then dash_runs true l' else "-"%char :: dash_runs true l'
  end.

(** Letters are the ASCII ones: any other character is part of a dash. *)
Definition slug (name : string) : string :=
  strip_by (Ascii.eqb "-"%char) (of_chars (dash_runs false (chars (lower name)))).

Definition new_filename (name : string) (now : datetime) : res string :=
  if String.eqb (slug name) "" then
    Err (migration_error ("Migration name " +:+ repr name +:+ " contains no usable characters"))
  else Ok (of_chars (stamp now) +:+ "-" +:+ slug name +:+ ".sql").

(** ** Statements of a SQLite script *)

(** How many bytes the line boundary at the head of [l] has, 0 if there is
    none: those of [str.splitlines()], the last three being U+0085, U+2028
    and U+2029. *)
Definition line_break (l : list ascii) : nat :=
  match l with
  | "013"%char :: "010"%char :: _ => 2
  | ("010" | "011" | "012" | "013" | "028" | "029" | "030")%char :: _ => 1
  | "194"%char :: "133"%char :: _ => 2
  | "226"%char :: "128"%char :: ("168" | "169")%char :: _ => 3
  | _ => 0
  end%nat.

(** [str.splitlines()]; [skip] bytes of a boundary are still to be passed
    over. *)
Fixpoint split_lines_from (skip : nat) (l : list ascii) : list (list ascii) :=
  match l with
  | [] => []
  | a :: l' =>
      match skip with
      | S skip => split_lines_from skip l'
      | O =>
          match line_break l with
          | S n => [] :: split_lines_from n l'
          | O =>
              match split_lines_from 0 l' with
              | [] => [[a]]
              | p :: ps => (a :: p) :: ps
              end
          end
      end
  end.

Definition split_lines (l : list ascii) : list (list ascii) := split_lines_from 0 l.

(** [line.split("--", 1)[0]] *)
Fixpoint before_dashes (l : list ascii) : list ascii :=
  match l with
  | [] => []
  | a :: l' =>
      if Ascii.eqb a "-"%char && match l' with b :: _ => Ascii.eqb b "-"%char | [] => false end
      then [] else a :: before_dashes l'
  end.

Definition _has_code (statement : string) : bool :=
  existsb (λ line, let s := strip (of_chars (before_dashes line)) in negb (String.eqb s "") && negb (String.eqb s ";"))
    (split_lines (chars statement)).

(** The loop of [split_statements]: the pieces cut off, and what is left in
    the buffer at the end. *)
Fixpoint cut_statements (buffer : string) (parts : list string) : list string * string :=
  match parts with
  | [] => ([], buffer)
  | part :: parts =>
      let buffer := buffer +:+ part +:+ ";" in
      if complete_statement buffer
      then let '(pieces, rest) := cut_statements "" parts in (buffer :: pieces, rest)
      else cut_statements buffer parts
  end.

(** [buffer[:-1]] *)
Definition drop_last (s : string) : string := of_chars (take (length (chars s) - 1) (chars s)).

Definition split_statements (script : string) : list string :=
  let '(pieces, rest) := cut_statements "" (split ";"%char script) in
  filter (λ s, _has_code s = true) ((strip <$> pieces) ++ [strip (drop_last rest)]).
End discovery.
