(* ===== verification/MigDiscoveryProps.v ===== *)
(** * Migration files: properties

    The name a new file gets, the order names sort in, what [discover]
    accepts, and that splitting a script loses nothing. *)

From Stdlib Require Import ZArith Lia.
From S2P Require Import Prelude PyStr Json MigDiscovery.

(** ** Comparing texts *)
Fixpoint cmp (a b : list ascii) : comparison :=
  match a, b with
  | [], [] => Eq
  | [], _ => Lt
  | _, [] => Gt
  | x :: a, y :: b => match Ascii.compare x y with Eq => cmp a b | c => c end
  end.

Lemma compare_cmp s t : String.compare s t = cmp (chars s) (chars t).
Proof.
  revert t. induction s as [|x s IH]; intros [|y t]; simpl; [done..|].
  unfold chars in *. simpl. by destruct (Ascii.compare x y).
Qed.

Lemma ascii_compare_refl x : Ascii.compare x x = Eq.
Proof. apply N.compare_refl. Qed.

Lemma cmp_refl a : cmp a a = Eq.
Proof. induction a as [|x a IH]; simpl; [done|]. by rewrite ascii_compare_refl. Qed.

Lemma cmp_eq a b : cmp a b = Eq → a = b.
Proof.
  revert b. induction a as [|x a IH]; intros [|y b]; simpl; try done.
  destruct (Ascii.compare x y) eqn:Hx; [|done..]. intros Ha. f_equal; [by apply Ascii.compare_eq_iff|auto].
Qed.

Lemma cmp_app a b x y : length a = length b → cmp (a ++ x) (b ++ y) = match cmp a b with Eq => cmp x y | c => c end.
Proof.
  revert b. induction a as [|u a IH]; intros [|v b] Hl; simpl in *; [done..|].
  destruct (Ascii.compare u v); [apply IH; lia|done..].
Qed.

Lemma cmp_app_same a x y : cmp (a ++ x) (a ++ y) = cmp x y.
Proof. rewrite cmp_app by done. by rewrite cmp_refl. Qed.

Lemma leb_cmp s t : String.leb s t = match cmp (chars s) (chars t) with Gt => false | _ => true end.
Proof. unfold String.leb. by rewrite compare_cmp. Qed.

Lemma ltb_cmp s t : String.ltb s t = match cmp (chars s) (chars t) with Lt => true | _ => false end.
Proof. unfold String.ltb. by rewrite compare_cmp. Qed.

(** ** Digits *)
Definition comparison_eqb (a b : comparison) : bool :=
  match a, b with Eq, Eq | Lt, Lt | Gt, Gt => true | _, _ => false end.

Lemma comparison_eqb_eq a b : comparison_eqb a b = true → a = b.
Proof. by destruct a, b. Qed.

Definition below (n : nat) : list Z := Z.of_nat <$> List.seq 0 n.

Lemma elem_below n k : 0 ≤ n < Z.of_nat k → In n (below k).
Proof.
  intros Hn. unfold below. rewrite <- (Z2Nat.id n) by lia. apply list_elem_of_In, list_elem_of_fmap_2.
  apply list_elem_of_In, in_seq. lia.
Qed.

Lemma two_digits_cmp n m : 0 ≤ n < 100 → 0 ≤ m < 100 → cmp (two_digits n) (two_digits m) = (n ?= m).
Proof.
  intros Hn%(elem_below _ 100) Hm%(elem_below _ 100).
  assert (Hall : forallb (λ n, forallb (λ m, comparison_eqb (cmp (two_digits n) (two_digits m)) (n ?= m)) (below 100))
                   (below 100) = true) by (vm_compute; reflexivity).
  rewrite forallb_forall in Hall. specialize (Hall n Hn). rewrite forallb_forall in Hall.
  by apply comparison_eqb_eq, Hall.
Qed.

Lemma four_digits_split n : 0 ≤ n < 10000 → four_digits n = two_digits (n / 100) ++ two_digits (n mod 100).
Proof.
  intros Hn. unfold four_digits, two_digits, digit. simpl. do 2 f_equal; [|f_equal; [|f_equal]].
  all: do 3 f_equal; Z.to_euclidean_division_equations; lia.
Qed.

Lemma four_digits_cmp n m : 0 ≤ n < 10000 → 0 ≤ m < 10000 → cmp (four_digits n) (four_digits m) = (n ?= m).
Proof.
  intros Hn Hm. rewrite !four_digits_split, cmp_app by done.
  rewrite !two_digits_cmp by (Z.to_euclidean_division_equations; lia).
  destruct (Z.compare_spec (n / 100) (m / 100)) as [Hq|Hq|Hq]; [destruct (Z.compare_spec (n mod 100) (m mod 100))|..];
    symmetry; first [apply Z.compare_eq_iff|apply Z.compare_lt_iff|apply Z.compare_gt_iff];
    Z.to_euclidean_division_equations; lia.
Qed.

Lemma digit_is_digit n : is_digit (digit n) = true.
Proof.
  unfold digit, is_digit, code. pose proof (Z.mod_pos_bound n 10 ltac:(lia)).
  rewrite N_ascii_embedding by lia. rewrite Z2N.id by lia.
  apply andb_true_intro. split; apply Z.leb_le; lia.
Qed.

(** ** File names *)
Lemma matches_shape_length shape l : matches_shape shape l = true → length shape = length l.
Proof. intros [_ Hl%Nat.eqb_eq]%andb_true_iff. done. Qed.

Lemma stamp_shape_ok now : matches_shape stamp_shape (MigDiscovery.stamp now) = true.
Proof.
  unfold matches_shape, MigDiscovery.stamp, four_digits, two_digits, stamp_shape. simpl.
  by rewrite !digit_is_digit.
Qed.

Lemma filename_parts_build p g :
  matches_shape stamp_shape p = true → g ≠ [] → forallb slug_or_dash g = true →
  filename_parts (p ++ "-"%char :: g ++ chars ".sql") = Some (p, g).
Proof.
  intros Hp Hg Hs. pose proof (matches_shape_length _ _ Hp) as Hl. change (length stamp_shape) with 17%nat in Hl.
  unfold filename_parts.
  rewrite (take_app_length' p) by done. rewrite Hp.
  rewrite (lookup_app_r p) by lia. rewrite <- Hl. simpl lookup.
  replace (drop 18 (p ++ "-"%char :: g ++ chars ".sql")) with (g ++ chars ".sql")
    by (rewrite drop_app_ge by lia; by rewrite <- Hl).
  rewrite length_app. change (length (chars ".sql")) with 4%nat.
  rewrite Nat.add_sub, take_app_length, drop_app_length, Hs.
  rewrite !bool_decide_true by done. by destruct g.
Qed.

Lemma filename_parts_inv l p g : filename_parts l = Some (p, g) →
  l = p ++ "-"%char :: g ++ chars ".sql" ∧ length p = 17%nat ∧ g ≠ [] ∧ forallb slug_or_dash g = true.
Proof.
  unfold filename_parts. destruct (matches_shape _ _) eqn:Hp; [|done]. simpl.
  case_bool_decide as Hd; [|done]. case_bool_decide as Hs; [|done]. simpl.
  set (rest := drop 18 l) in *. destruct (take (length rest - 4) rest) as [|a g'] eqn:Hg; [done|]. 
  destruct (forallb slug_or_dash (a :: g')) eqn:Hf; [|by rewrite andb_false_r]. cbn [negb andb]. intros [= <- <-].
  pose proof (matches_shape_length _ _ Hp) as Hl. change (length stamp_shape) with 17%nat in Hl.
  split_and!; [|exact (eq_sym Hl)|discriminate|exact Hf].
  rewrite <- Hs, <- Hg, take_drop. unfold rest. rewrite <- (take_drop 17 l) at 1. f_equal. by apply drop_S.
Qed.

Lemma slug_chars_dash b l : forallb slug_or_dash (dash_runs b l) = true.
Proof.
  revert b. induction l as [|a l IH]; intros b; simpl; [done|].
  destruct (slug_char a) eqn:Ha; simpl; [unfold slug_or_dash; by rewrite Ha, IH|]. by destruct b; simpl.
Qed.

Lemma forallb_drop_while p q l : forallb p l = true → forallb p (drop_while q l) = true.
Proof. induction l as [|a l IH]; simpl; [done|]. intros [Ha Hl]%andb_true_iff. destruct (q a); [auto|]. simpl. by rewrite Ha. Qed.

Lemma forallb_rev (p : ascii → bool) l : forallb p l = true → forallb p (rev l) = true.
Proof. rewrite !forallb_forall. intros Hl x Hx. apply Hl. by apply in_rev. Qed.

Lemma slug_ok name : forallb slug_or_dash (chars (slug name)) = true.
Proof.
  unfold slug, strip_by, rstrip_by, lstrip_by. rewrite !chars_of_chars.
  apply forallb_rev, forallb_drop_while, forallb_rev, forallb_drop_while, slug_chars_dash.
Qed.

(** A new migration gets a name [discover] accepts: its groups are the
    moment it was made, to the second, and the slug of the name asked for,
    letters, digits and dashes only. It is refused exactly when nothing of the
    name is left. *)
Theorem new_filename_roundtrip (name : string) (now : datetime) :
  match new_filename name now with
  | Ok f => MIGRATION_FILENAME_RE f = Some (MigDiscovery.stamp now, chars (slug name)) ∧ slug name ≠ ""
  | Err e => slug name = "" ∧ is_class MigrationError e = true
  end.
Proof.
  unfold new_filename. destruct (String.eqb_spec (slug name) "") as [Hs|Hs]; [done|]. split; [|done].
  unfold MIGRATION_FILENAME_RE. rewrite !chars_app, chars_of_chars. 
  change (chars "-" ++ chars (slug name) ++ chars ".sql") with ("-"%char :: chars (slug name) ++ chars ".sql").
  rewrite filename_parts_build; [done|apply stamp_shape_ok| |apply slug_ok].
  intros Hn. apply Hs. by rewrite <- (of_chars_chars (slug name)), Hn.
Qed.

(** ** The order of names *)

(** The fields of a moment are in their ranges. *)
Definition valid_datetime (d : datetime) : Prop :=
  1000 ≤ dt_year d ≤ 9999 ∧ 1 ≤ dt_month d ≤ 12 ∧ 1 ≤ dt_day d ≤ 31 ∧
  0 ≤ dt_hour d < 24 ∧ 0 ≤ dt_minute d < 60 ∧ 0 ≤ dt_second d < 60.

Definition fields (d : datetime) : list Z :=
  [dt_year d; dt_month d; dt_day d; dt_hour d; dt_minute d; dt_second d].

(** [a] is before [b]: the first field that differs is smaller. *)
Fixpoint compare_fields (a b : list Z) : comparison :=
  match a, b with
  | x :: a, y :: b => match x ?= y with Eq => compare_fields a b | c => c end
  | _, _ => Eq
  end.
Definition before (a b : datetime) : Prop := compare_fields (fields a) (fields b) = Lt.

Lemma stamp_cmp a b : valid_datetime a → valid_datetime b →
  cmp (MigDiscovery.stamp a) (MigDiscovery.stamp b) = compare_fields (fields a) (fields b).
Proof.
  intros Ha Hb. unfold valid_datetime, MigDiscovery.stamp, fields, compare_fields in *.
  rewrite cmp_app, four_digits_cmp by (done || lia). destruct (_ ?= _); [|done..].
  rewrite cmp_app_same, cmp_app, two_digits_cmp by (done || lia). destruct (_ ?= _); [|done..].
  rewrite cmp_app_same, cmp_app, two_digits_cmp by (done || lia). destruct (_ ?= _); [|done..].
  rewrite cmp_app_same, cmp_app, two_digits_cmp by (done || lia). destruct (_ ?= _); [|done..].
  rewrite cmp_app, two_digits_cmp by (done || lia). destruct (_ ?= _); [|done..].
  rewrite two_digits_cmp by lia. by destruct (_ ?= _).
Qed.

(** The names of migrations made one after the other sort, as plain text,
    in the order of their moments, whatever the migrations are called. *)
Theorem new_filenames_chronological (n m f g : string) (a b : datetime)
    (Ha : valid_datetime a) (Hb : valid_datetime b) (Hab : before a b)
    (Hf : new_filename n a = Ok f) (Hg : new_filename m b = Ok g) : String.ltb f g = true.
Proof.
  unfold new_filename in Hf, Hg. destruct (String.eqb (slug n) ""); [done|]. destruct (String.eqb (slug m) ""); [done|].
  assert (of_chars (MigDiscovery.stamp a) +:+ "-" +:+ slug n +:+ ".sql" = f) as <- by congruence.
  assert (of_chars (MigDiscovery.stamp b) +:+ "-" +:+ slug m +:+ ".sql" = g) as <- by congruence.
  rewrite ltb_cmp, !chars_app, !chars_of_chars, cmp_app by done.
  rewrite stamp_cmp by done. unfold before in Hab. by rewrite Hab.
Qed.

Lemma new_filenames_chronological_witness :
  String.ltb "2024-02-29-235959-zebra.sql" "2024-03-01-000000-add-users.sql" = true.
Proof.
  apply (new_filenames_chronological "Zebra!" "Add users" _ _
    (Datetime 2024 2 29 23 59 59) (Datetime 2024 3 1 0 0 0));
    [unfold valid_datetime; simpl; lia..|reflexivity|vm_compute; reflexivity|vm_compute; reflexivity].
Defined.

(** ** What a directory holds *)
Definition is_sql_file (f : string * list ascii) : Prop :=
  startswith (of_chars (rev (chars ".sql"))) (of_chars (rev (chars f.1))) = true.
#[export] Instance is_sql_file_dec f : Decision (is_sql_file f).
Proof. unfold is_sql_file. apply _. Defined.

Lemma load_all_ok sha files ms : load_all sha files = Ok ms →
  Forall2 (λ f m, load_migration sha f.1 f.2 = Ok m) files ms.
Proof.
  revert ms. induction files as [|[n raw] files IH]; intros ms; simpl; [intros [= <-]; constructor|].
  unfold mbind, res_bind. destruct (load_migration sha n raw) as [m|] eqn:Hm; [|done].
  destruct (load_all sha files) as [ms'|]; [|done]. intros [= <-]. constructor; [done|auto].
Qed.

Lemma load_all_err sha files e : load_all sha files = Err e →
  ∃ f, f ∈ files ∧ load_migration sha f.1 f.2 = Err e.
Proof.
  induction files as [|[n raw] files IH]; simpl; [done|]. unfold mbind, res_bind.
  destruct (load_migration sha n raw) as [m|] eqn:Hm; [|intros [= <-]; exists (n, raw); split; [left|done]].
  destruct (load_all sha files); [done|]. intros [= <-]. destruct IH as (f & Hf & He); [done|].
  exists f. split; [by right|done].
Qed.

Lemma load_migration_fields sha n raw m : load_migration sha n raw = Ok m →
  mf_name m = n ∧ mf_checksum m = sha raw ∧ decode_utf8 raw = Some (mf_sql m) ∧
  ∃ g, MIGRATION_FILENAME_RE n = Some (chars (mf_prefix m), g).
Proof.
  unfold load_migration. destruct (MIGRATION_FILENAME_RE n) as [[p g]|]; [|done].
  destruct (decode_utf8 raw); [|done]. intros [= <-]. simpl. rewrite chars_of_chars. eauto.
Qed.

Lemma load_migration_error sha n raw e : load_migration sha n raw = Err e →
  is_class MigrationError e = true ∧ (MIGRATION_FILENAME_RE n = None ∨ decode_utf8 raw = None).
Proof.
  unfold load_migration. destruct (MIGRATION_FILENAME_RE n) as [[p g]|]; [|intros [= <-]; auto].
  destruct (decode_utf8 raw); [done|]. intros [= <-]. auto.
Qed.

(** The dictionary built up by the loop has the prefixes seen. *)
Lemma check_prefixes_spec seen ms :
  match check_prefixes seen ms with
  | Ok _ => NoDup (mf_prefix <$> ms) ∧ ∀ m, m ∈ ms → mf_prefix m ∉ seen.*1
  | Err e => is_class MigrationError e = true ∧ ¬ (NoDup (mf_prefix <$> ms) ∧ ∀ m, m ∈ ms → mf_prefix m ∉ seen.*1)
  end.
Proof.
  revert seen. induction ms as [|m ms IH]; intros seen; simpl.
  { split; [constructor|]. by intros m ?%not_elem_of_nil. }
  destruct (dict_get (mf_prefix m) seen) as [other|] eqn:Hg.
  - split; [done|]. intros [_ Hs]. apply (Hs m); [left|].
    apply dict_get_Some_elem in Hg. by apply list_elem_of_fmap_2 with (f := fst) in Hg.
  - apply dict_get_None in Hg. specialize (IH (dict_set (mf_prefix m) (mf_name m) seen)).
    destruct (check_prefixes _ ms) as [|e].
    + destruct IH as [Hnd Hs]. split.
      * constructor; [|done]. intros (m' & Hm & Hin)%list_elem_of_fmap. apply (Hs m' Hin), dict_set_keys. by left.
      * intros m' [->|Hin]%elem_of_cons; [done|]. intros Hk. apply (Hs m' Hin), dict_set_keys. by right.
    + destruct IH as [He Hn]. split; [done|]. intros [[Hni Hnd]%NoDup_cons Hs]. apply Hn. split; [done|].
      intros m' Hin [Hk|Hk]%dict_set_keys; [|apply (Hs m'); [by right|done]].
      apply Hni. rewrite <- Hk. by apply list_elem_of_fmap_2.
Qed.

Lemma file_le_total : Total file_le.
Proof.
  intros a b. unfold file_le. destruct (String.leb_total a.1 b.1); auto.
Qed.

Lemma file_le_trans : Transitive file_le.
Proof.
  intros a b c Hab Hbc. unfold file_le in *. apply Is_true_eq_true. change (String.le a.1 c.1).
  transitivity b.1; apply Is_true_eq_left; done.
Qed.

(** [m] sorts before [n], with an earlier timestamp. *)
Definition earlier (m n : MigrationFile) : Prop :=
  String.ltb (mf_prefix m) (mf_prefix n) = true ∧ String.ltb (mf_name m) (mf_name n) = true.

Lemma filename_prefix n p g : MIGRATION_FILENAME_RE n = Some (p, g) → ∃ r, chars n = p ++ r ∧ length p = 17%nat.
Proof.
  unfold MIGRATION_FILENAME_RE. destruct (filename_parts (chars n)) as [[p' g']|] eqn:Hf.
  - intros [= <- <-]. apply filename_parts_inv in Hf as (Hl & Hp & _). eauto.
  - destruct (rev (chars n)) as [|a r] eqn:Hr; [done|]. destruct (Ascii.eqb a _); [|done].
    intros (Hl & Hp & _)%filename_parts_inv. exists (("-"%char :: g ++ chars ".sql") ++ [a]). split; [|done].
    rewrite <- (rev_involutive (chars n)), Hr. simpl rev. by rewrite Hl, <- app_assoc.
Qed.

Lemma loaded_earlier sha f g m n : file_le f g →
  load_migration sha f.1 f.2 = Ok m → load_migration sha g.1 g.2 = Ok n → mf_prefix m ≠ mf_prefix n → earlier m n.
Proof.
  unfold file_le, earlier. rewrite leb_cmp, !ltb_cmp. intros Hle.
  intros (-> & _ & _ & ? & (r & Hr & Hlr)%filename_prefix)%load_migration_fields.
  intros (-> & _ & _ & ? & (s & Hs & Hls)%filename_prefix)%load_migration_fields Hne.
  rewrite Hr, Hs, cmp_app in * by congruence.
  destruct (cmp _ _) eqn:Hc; [|done..]. apply cmp_eq in Hc. exfalso. apply Hne.
  by rewrite <- (of_chars_chars (mf_prefix m)), Hc, of_chars_chars.
Qed.

Lemma loaded_sorted sha files ms :
  StronglySorted file_le files → Forall2 (λ f m, load_migration sha f.1 f.2 = Ok m) files ms →
  NoDup (mf_prefix <$> ms) → StronglySorted earlier ms.
Proof.
  intros Hs Hl. induction Hl as [|f m files ms Hm Hl IH]; intros Hnd; [constructor|].
  apply StronglySorted_cons in Hs as [Hf Hs]. rewrite fmap_cons in Hnd. apply NoDup_cons in Hnd as [Hni Hnd].
  constructor; [by apply IH|]. apply Forall_forall. intros n Hn.
  apply list_elem_of_lookup in Hn as [i Hi]. destruct (Forall2_lookup_r _ _ _ _ _ Hl Hi) as (g & Hg & Hload).
  eapply loaded_earlier; [|exact Hm|exact Hload|].
  - rewrite Forall_forall in Hf. apply Hf. by eapply list_elem_of_lookup_2.
  - intros Heq. apply Hni. rewrite Heq. apply list_elem_of_fmap_2. by eapply list_elem_of_lookup_2.
Qed.

(** [discover] reads exactly the [.sql] files of the directory, in the order
    of their names and of their timestamps, which are all different; each keeps
    the text and the checksum of its bytes. It fails, with a [MigrationError],
    only if the directory is missing, a name is not of the pattern, a file is
    not UTF-8, or two files share a timestamp. *)
Theorem discover_spec (sha : list ascii → string) (d : directory) :
  match discover sha d with
  | Ok ms => ∃ files, dir_files d = Some files ∧
      (mf_name <$> ms) ≡ₚ (filter is_sql_file files).*1 ∧ StronglySorted earlier ms ∧
      (∀ m, m ∈ ms → ∃ raw, (mf_name m, raw) ∈ files ∧ mf_checksum m = sha raw ∧ decode_utf8 raw = Some (mf_sql m))
  | Err e => is_class MigrationError e = true ∧
      (dir_files d = None ∨ ∃ files, dir_files d = Some files ∧
        ((∃ f, f ∈ files ∧ is_sql_file f ∧ (MIGRATION_FILENAME_RE f.1 = None ∨ decode_utf8 f.2 = None)) ∨
         ∃ ms, load_all sha (sql_files files) = Ok ms ∧ ¬ NoDup (mf_prefix <$> ms)))
  end.
Proof.
  unfold discover. destruct (dir_files d) as [files|]; [|by auto].
  assert (Hperm : sql_files files ≡ₚ filter is_sql_file files) by apply merge_sort_Permutation.
  unfold mbind, res_bind. destruct (load_all sha (sql_files files)) as [ms|e] eqn:Hl.
  - apply load_all_ok in Hl as Hf. pose proof (check_prefixes_spec [] ms) as Hc.
    destruct (check_prefixes [] ms) as [u|e].
    + exists files. split; [done|]. destruct Hc as [Hnd _]. split_and!.
      * rewrite <- Hperm. apply Permutation_refl'. clear -Hf.
        induction Hf as [|f m fs ms (Hn & _)%load_migration_fields _ IH]; [done|]. csimpl. by rewrite Hn, IH.
      * eapply loaded_sorted; [|exact Hf|done]. pose proof file_le_trans. pose proof file_le_total.
        apply StronglySorted_merge_sort; apply _.
      * intros m (i & Hi)%list_elem_of_lookup. destruct (Forall2_lookup_r _ _ _ _ _ Hf Hi) as ([n raw] & Hg & Hload).
        apply load_migration_fields in Hload as (Hn & Hcs & Hd & _). simpl in *. subst n. exists raw. split; [|done].
        apply list_elem_of_lookup_2 in Hg. rewrite Hperm in Hg. by apply list_elem_of_filter in Hg as [_ ?].
    + destruct Hc as [He Hn]. split; [done|]. right. exists files. split; [done|]. right. exists ms. split; [done|].
      intros Hnd. apply Hn. split; [done|]. intros m _. by apply not_elem_of_nil.
  - apply load_all_err in Hl as (f & Hf & [He Hbad]%load_migration_error). split; [done|]. right.
    exists files. split; [done|]. left. exists f. rewrite Hperm in Hf. apply list_elem_of_filter in Hf as [? ?]. done.
Qed.

(** ** Statements of a script *)
Section statements.
Context (complete_statement : string → bool).

(** Nothing up to a [;] of the text is a complete statement. *)
Definition open_text (l : list ascii) : Prop :=
  ∀ q r, l = q ++ ";"%char :: r → complete_statement (of_chars (q ++ [";"%char])) = false.

(** A complete statement, the first one of its text. *)
Definition statement (p : string) : Prop :=
  complete_statement p = true ∧ ∃ l, p = of_chars (l ++ [";"%char]) ∧
  ∀ q r, l ++ [";"%char] = q ++ ";"%char :: r → r ≠ [] → complete_statement (of_chars (q ++ [";"%char])) = false.

Lemma split_chars_parts c l : Forall (λ p, c ∉ p) (split_chars c l).
Proof.
  induction l as [|a l IH]; simpl; [constructor; [apply not_elem_of_nil|constructor]|].
  destruct (Ascii.eqb_spec a c) as [->|Ha].
  - constructor; [apply not_elem_of_nil|done].
  - destruct (split_chars c l) as [|p ps]; [constructor; [|constructor]; intros [->|Hx%not_elem_of_nil]%elem_of_cons; done|].
    apply Forall_cons in IH as [Hp Hps]. constructor; [|done].
    intros [->|Hin]%elem_of_cons; done.
Qed.

Lemma split_chars_concat c l : concat ((λ p, p ++ [c]) <$> split_chars c l) = l ++ [c].
Proof.
  induction l as [|a l IH]; simpl; [done|].
  destruct (Ascii.eqb_spec a c) as [->|Ha]; [csimpl; by rewrite IH|].
  destruct (split_chars c l) as [|p ps]; [destruct l; done|]. csimpl in *. by rewrite IH.
Qed.

Lemma snoc_semicolon (b part q r : list ascii) : ";"%char ∉ part →
  (b ++ part) ++ [";"%char] = q ++ ";"%char :: r →
  (r = [] ∧ q = b ++ part) ∨ ∃ r', b = q ++ ";"%char :: r'.
Proof.
  intros Hp Heq. destruct r as [|x r _] using rev_ind; [left; apply app_inj_tail in Heq as [-> _]; done|]. right.
  rewrite app_comm_cons, app_assoc in Heq. apply app_inj_tail in Heq as [Heq _].
  destruct (decide (length q < length b)%nat) as [Hlt|Hge].
  - exists (drop (S (length q)) b). rewrite <- (take_drop (length q) b) at 1.
    assert (Hq : take (length q) b = q).
    { rewrite <- (take_app_le b part) by lia. by rewrite Heq, take_app_length. }
    rewrite Hq. f_equal. apply drop_S.
    rewrite <- (lookup_app_l b part) by lia. rewrite Heq. by apply list_lookup_middle.
  - exfalso. apply Hp. apply list_elem_of_lookup. exists (length q - length b)%nat.
    rewrite <- lookup_app_r by lia. rewrite Heq. by apply list_lookup_middle.
Qed.

Lemma cut_statements_spec parts (b : list ascii) : Forall (λ p, ";"%char ∉ p) parts → open_text b →
  let '(pieces, rest) := cut_statements complete_statement (of_chars b) (of_chars <$> parts) in
  concat (chars <$> pieces) ++ chars rest = b ++ concat ((λ p, p ++ [";"%char]) <$> parts) ∧
  Forall statement pieces ∧ open_text (chars rest).
Proof.
  revert b. induction parts as [|p parts IH]; intros b Hp Hb; csimpl.
  { rewrite chars_of_chars, app_nil_r. split_and!; [done|constructor|done]. }
  apply Forall_cons in Hp as [Hp Hps].
  assert (Hbuf : of_chars b +:+ of_chars p +:+ ";" = of_chars ((b ++ p) ++ [";"%char])).
  { rewrite <- (of_chars_chars (_ +:+ _)), !chars_app, !chars_of_chars. by rewrite app_assoc. }
  rewrite Hbuf. destruct (complete_statement _) eqn:Hc.
  - specialize (IH [] Hps). simpl in IH. change (of_chars []) with "" in IH.
    destruct (cut_statements complete_statement "" _) as [pieces rest].
    destruct IH as (Hcat & Hst & Hop); [by intros [|] ?|]. csimpl. split_and!; [|constructor; [|done]|done].
    + rewrite chars_of_chars, <- !app_assoc, Hcat. simpl. by rewrite <- ?app_assoc.
    + split; [done|]. exists (b ++ p). split; [done|]. intros q r Hq Hr.
      destruct (snoc_semicolon b p q r Hp Hq) as [[? _]|[r' Hr']]; [done|]. by eapply Hb.
  - specialize (IH ((b ++ p) ++ [";"%char]) Hps). destruct (cut_statements _ _ _) as [pieces rest].
    destruct IH as (Hcat & Hst & Hop).
    + intros q r Hq. destruct (snoc_semicolon b p q r Hp Hq) as [[_ ->]|[r' Hr']]; [done|]. by eapply Hb.
    + split_and!; [|done|done]. rewrite Hcat. by rewrite <- !app_assoc.
Qed.

(** Splitting a SQLite script loses nothing and cuts only where a statement
    ends: the pieces in a row are the script with one [;] more, each piece ends
    at the first [;] that completes a statement, and no statement is complete
    in the remainder - so a [;] inside a literal or a trigger body stays where
    it is. What is executed is each piece and the remainder without the added
    [;], stripped, except those that are only comments. *)
Theorem split_statements_spec (script : string) : ∃ pieces rest,
  concat (chars <$> pieces) ++ chars rest = chars script ++ [";"%char] ∧
  Forall statement pieces ∧ open_text (chars rest) ∧
  split_statements complete_statement script =
    filter (λ s, _has_code s = true) ((strip <$> pieces) ++ [strip (drop_last rest)]).
Proof.
  pose proof (cut_statements_spec (split_chars ";"%char (chars script)) [] (split_chars_parts _ _)) as Hc.
  unfold split_statements, split. change "" with (of_chars []).
  destruct (cut_statements _ _ _) as [pieces rest]. destruct Hc as (Hcat & Hst & Hop); [by intros [|] ?|].
  exists pieces, rest. split_and!; [|done|done|done]. rewrite Hcat. simpl. apply split_chars_concat.
Qed.
End statements.
