(* ===== verification/MigStates.v ===== *)
(** * Migration states

    [migrations/states.py]: what the files on disk and the rows of the
    tracking table say together. *)

From Stdlib Require Import ZArith Lia.
From S2P Require Import Prelude PyStr Json MigDiscovery.

Inductive State := APPLIED | PENDING | DRIFT | MISSING.

#[export] Instance State_eq_dec : EqDecision State.
Proof. solve_decision. Defined.

(** The value of the [StrEnum] member. *)
Definition state_value (s : State) : string :=
  match s with APPLIED => "applied" | PENDING => "PENDING" | DRIFT => "DRIFT" | MISSING => "MISSING" end.

Record AppliedRow := MkAppliedRow { ar_name : string; ar_checksum : string; ar_applied_at : datetime }.

Record MigrationState := MkMigrationState {
  ms_name : string; ms_state : State; ms_file : option MigrationFile; ms_row : option AppliedRow
}.

(** [{file.name: file for file in files}] and [{row.name: row for row in rows}] *)
Definition by_name (files : list MigrationFile) : list (string * MigrationFile) :=
  dict_of ((λ f, (mf_name f, f)) <$> files).
Definition rows_by_name (rows : list AppliedRow) : list (string * AppliedRow) :=
  dict_of ((λ r, (ar_name r, r)) <$> rows).

Definition state_of (file : option MigrationFile) (row : option AppliedRow) : State :=
  match file, row with
  | None, _ => MISSING
  | Some _, None => PENDING
  | Some file, Some row => if String.eqb (ar_checksum row) (mf_checksum file) then APPLIED else DRIFT
  end.

Definition compute_states (files : list MigrationFile) (rows : list AppliedRow) : list MigrationState :=
  (λ name,
    let file := dict_get name (by_name files) in
    let row := dict_get name (rows_by_name rows) in
    MkMigrationState name (state_of file row) file row)
  <$> merge_sort String.le (remove_dups ((by_name files).*1 ++ (rows_by_name rows).*1)).

Definition pending (states : list MigrationState) : list MigrationState :=
  filter (λ s, ms_state s = PENDING) states.

Definition blocking (states : list MigrationState) : list MigrationState :=
  filter (λ s, ms_state s = DRIFT ∨ ms_state s = MISSING) states.

(** ** What the states say *)

Lemma dict_of_keyed {K V} `{EqDecision K} (key : V → K) (l : list V) k :
  match dict_get k (dict_of ((λ v, (key v, v)) <$> l)) with
  | Some v => v ∈ l ∧ key v = k
  | None => k ∉ key <$> l
  end.
Proof.
  unfold dict_of. induction l as [|v l IH] using rev_ind; [simpl; apply not_elem_of_nil|].
  rewrite !fmap_app, foldl_app. simpl. rewrite dict_get_set. case_decide as Hk; [subst; split; [apply elem_of_app; right; left|done]|].
  destruct (dict_get k _) as [w|].
  - destruct IH as [Hw Hkw]. split; [apply elem_of_app; by left|done].
  - intros [Hin|Heq%list_elem_of_singleton]%elem_of_app; done.
Qed.

Lemma dict_of_keys {K V} `{EqDecision K} (key : V → K) (l : list V) k :
  k ∈ (dict_of ((λ v, (key v, v)) <$> l)).*1 ↔ k ∈ key <$> l.
Proof.
  pose proof (dict_of_keyed key l k) as Hk. destruct (dict_get k _) as [v|] eqn:Hg.
  - destruct Hk as [Hv <-]. split; intros _; [by apply list_elem_of_fmap_2|].
    apply dict_get_Some_elem in Hg. change (key v) with ((key v, v).1). by apply list_elem_of_fmap_2.
  - apply dict_get_None in Hg. done.
Qed.

Lemma compute_states_names files rows :
  ms_name <$> compute_states files rows = merge_sort String.le (remove_dups ((by_name files).*1 ++ (rows_by_name rows).*1)).
Proof. unfold compute_states. rewrite <- list_fmap_compose. apply list_fmap_id. Qed.

Lemma sorted_names_strict (l : list string) : NoDup l → StronglySorted String.le l →
  StronglySorted (λ a b, String.ltb a b = true) l.
Proof.
  intros Hnd Hs. induction Hs as [|x l Hs IH Hx]; [constructor|].
  apply NoDup_cons in Hnd as [Hni Hnd]. constructor; [by apply IH|]. rewrite Forall_forall in *.
  intros y Hy. specialize (Hx y Hy). unfold String.le in Hx. apply Is_true_eq_true in Hx.
  unfold String.leb, String.ltb in *. destruct (String.compare x y) eqn:Hc; [|done..].
  apply String.compare_eq_iff in Hc as ->. done.
Qed.

(** The states are one per name found on disk or in the tracking table, in
    strictly ascending order - a row without a file sorts in among the files -
    and each says which of its two sides are there and whether their
    checksums agree. *)
Theorem compute_states_spec (files : list MigrationFile) (rows : list AppliedRow) :
  StronglySorted (λ a b, String.ltb a b = true) (ms_name <$> compute_states files rows) ∧
  (∀ n, n ∈ ms_name <$> compute_states files rows ↔ n ∈ mf_name <$> files ∨ n ∈ ar_name <$> rows) ∧
  ∀ s, s ∈ compute_states files rows →
    (match ms_file s with Some f => f ∈ files ∧ mf_name f = ms_name s | None => ms_name s ∉ mf_name <$> files end) ∧
    (match ms_row s with Some r => r ∈ rows ∧ ar_name r = ms_name s | None => ms_name s ∉ ar_name <$> rows end) ∧
    (ms_state s = APPLIED ↔ ∃ f r, ms_file s = Some f ∧ ms_row s = Some r ∧ ar_checksum r = mf_checksum f) ∧
    (ms_state s = DRIFT ↔ ∃ f r, ms_file s = Some f ∧ ms_row s = Some r ∧ ar_checksum r ≠ mf_checksum f) ∧
    (ms_state s = PENDING ↔ is_Some (ms_file s) ∧ ms_row s = None) ∧
    (ms_state s = MISSING ↔ ms_file s = None).
Proof.
  rewrite compute_states_names. split_and!.
  - apply sorted_names_strict; [|apply StronglySorted_merge_sort; apply _].
    rewrite merge_sort_Permutation. apply NoDup_remove_dups.
  - intros n. rewrite merge_sort_Permutation, elem_of_remove_dups, elem_of_app. unfold by_name, rows_by_name.
    by rewrite !dict_of_keys.
  - intros s Hs. unfold compute_states in Hs. apply list_elem_of_fmap in Hs as (n & -> & _). cbn [ms_file ms_row ms_name ms_state].
    split; [exact (dict_of_keyed mf_name files n)|]. split; [exact (dict_of_keyed ar_name rows n)|].
    unfold state_of. destruct (dict_get n (by_name files)) as [f|], (dict_get n (rows_by_name rows)) as [r|];
      try destruct (String.eqb_spec (ar_checksum r) (mf_checksum f)); unfold is_Some; naive_solver.
Qed.
