(* ===== verification/MigTracker.v ===== *)
(** * The migration tracking table

    [migrations/tracker.py] and [migrations/tracker_sqlite.py] as one set of
    operations, with [is_sqlite] telling the two apart. The connection is in
    autocommit mode wherever a lock is taken, so [_unlock] never finds a failed
    transaction to roll back. *)

From Stdlib Require Import ZArith Lia.
From S2P Require Import Prelude PyStr Json Sql MigDiscovery MigStates.

Definition ADVISORY_LOCK_KEY : Z := 4829173465872001.

Definition EXPECTED_COLUMNS : list string := ["id"; "name"; "checksum"; "applied_at"; "duration_ms"; "applied_by"].

(** ** Databases and connections *)
Record tracking_row := TrackingRow {
  tk_name : string; tk_checksum : string; tk_applied_at : datetime; tk_duration_ms : Z; tk_applied_by : string
}.

(** A table: its columns and, read as a tracking table, its rows. *)
Record table := Table { tb_columns : list string; tb_rows : list tracking_row }.

(** A database: the tables by name, and everything else as [D]. *)
Record database (D : Type) := Database { db_schema : D; db_tables : list (string * table) }.
Arguments Database {D} _ _.
Arguments db_schema {D} _.
Arguments db_tables {D} _.

(** What a session changes: the database it sees, the locks it holds, whether
    SQLite enforces foreign keys, and, while a transaction is open, the
    database it goes back to if that is rolled back. *)
Record session (D : Type) := Session {
  se_db : database D; se_tx : option (database D); se_locks : Z; se_foreign_keys : bool
}.
Arguments Session {D} _ _ _ _.
Arguments se_db {D} _.
Arguments se_tx {D} _.
Arguments se_locks {D} _.
Arguments se_foreign_keys {D} _.

(** What stays: the kind of connection, its mode, and the SQLite path. *)
Record connection := Connection { is_sqlite : bool; autocommit : bool; db_path : string }.

Definition on_db {D} (f : database D → database D) (s : session D) : session D :=
  Session (f (se_db s)) (se_tx s) (se_locks s) (se_foreign_keys s).
Definition set_data {D} (data : database D * option (database D)) (s : session D) : session D :=
  Session data.1 data.2 (se_locks s) (se_foreign_keys s).
Definition set_locks {D} (n : Z) (s : session D) : session D := Session (se_db s) (se_tx s) n (se_foreign_keys s).
Definition set_foreign_keys {D} (b : bool) (s : session D) : session D := Session (se_db s) (se_tx s) (se_locks s) b.
(** The database without what an open transaction did. *)
Definition rolled_back {D} (s : session D) : session D :=
  match se_tx s with Some d => set_data (d, None) s | None => s end.

Definition get_table {D} (name : string) (d : database D) : option table := dict_get name (db_tables d).
Definition set_table {D} (name : string) (t : table) (d : database D) : database D :=
  Database (db_schema d) (dict_set name t (db_tables d)).

Definition max_int4 : Z := 2147483647.

(** [current_timestamp] turns the clock into the calendar. *)
Section tracker.
Context {D : Type} (conn : connection) (current_timestamp : Z → datetime).

Abbreviation prog := (prog (session D)).

(** An error of the database driver. *)
Definition database_error (msg : string) : exn :=
  raise_exn (if is_sqlite conn then OtherException else PsycopgError) msg.
Definition unique_violation (msg : string) : exn :=
  raise_exn (if is_sqlite conn then OtherException else UniqueViolation) msg.

Definition sorted_names (l : list string) : list string := merge_sort String.le l.

Definition check_columns (table : string) (found : list string) : res () :=
  match filter (λ c, c ∉ found) EXPECTED_COLUMNS with
  | [] => Ok ()
  | missing =>
      Err (migration_error ("Table " +:+ repr table +:+ " exists but is not a migration tracking table: missing column(s) "
        +:+ join ", " (sorted_names missing) +:+ "; it has "
        +:+ (let columns := join ", " (sorted_names found) in if String.eqb columns "" then "no columns" else columns)
        +:+ ". Point the tracker at a free name via config[" +:+ DQ +:+ "migrations" +:+ DQ +:+ "]["
        +:+ DQ +:+ "table" +:+ DQ +:+ "], or drop/rename the existing table if it is not in use."))
  end.

(** [_TABLE_NAME] *)
Definition plain_table_name (s : string) : bool :=
  match chars s with
  | a :: l => (is_alpha a || Ascii.eqb a "_"%char) && forallb (λ b, is_alnum b || Ascii.eqb b "_"%char) l
  | [] => false
  end.
Definition _TABLE_NAME (s : string) : bool := dollar plain_table_name s.

(** The constructors: [SqliteTracker] refuses a name that is not plain. *)
Definition __init__ (table : string) : res string :=
  if is_sqlite conn && negb (_TABLE_NAME table)
  then Err (migration_error ("Tracking table name " +:+ repr table +:+ " must be a plain identifier"))
  else Ok table.

(** [CREATE TABLE IF NOT EXISTS] *)
Definition _create_table (table : string) : prog () :=
  stmt (λ s, (on_db (λ d, match get_table table d with
                          | Some _ => d
                          | None => set_table table (Table EXPECTED_COLUMNS []) d
                          end) s, ())).

Definition _verify_columns (table : string) : prog () :=
  s ← get_st;
  lift_res (check_columns table (match get_table table (se_db s) with Some t => tb_columns t | None => [] end)).

Definition ensure_table (table : string) : prog () := _create_table table ;; _verify_columns table.

(** A statement on the rows of a table; it fails if there is no such table. *)
Definition on_rows {A} (table : string) (f : list tracking_row → res (list tracking_row * A)) : prog A :=
  s ← get_st;
  match get_table table (se_db s) with
  | None => raise (database_error ("no such table: " +:+ table))
  | Some t =>
      r ← lift_res (f (tb_rows t));
      set_st (on_db (set_table table (Table (tb_columns t) r.1)) s) ;;
      mret r.2
  end.

Definition row_le (a b : tracking_row) : Prop := String.le (tk_name a) (tk_name b).
#[local] Instance row_le_dec a b : Decision (row_le a b).
Proof. unfold row_le. apply _. Defined.

Definition to_applied (r : tracking_row) : AppliedRow := MkAppliedRow (tk_name r) (tk_checksum r) (tk_applied_at r).

(** [SELECT name, checksum, applied_at ... ORDER BY name], in byte order *)
Definition applied_rows (table : string) : prog (list AppliedRow) :=
  on_rows table (λ rows, Ok (rows, to_applied <$> order_by row_le rows)).

Definition record (table name checksum : string) (duration_ms : Z) (applied_by : string) : prog () :=
  now ← now_utc;
  on_rows table (λ rows,
    if negb (is_sqlite conn) && (max_int4 <? duration_ms) then Err (database_error "integer out of range")
    else if bool_decide (name ∈ tk_name <$> rows) then Err (unique_violation "duplicate key value violates unique constraint")
    else Ok (rows ++ [TrackingRow name checksum (current_timestamp now) duration_ms applied_by], ())).

Definition set_checksum (checksum : string) (r : tracking_row) : tracking_row :=
  TrackingRow (tk_name r) checksum (tk_applied_at r) (tk_duration_ms r) (tk_applied_by r).

(** True when exactly one row was changed. *)
Definition update_checksum (table name checksum : string) : prog bool :=
  on_rows table (λ rows,
    let '(rows, count) := update_where (λ r, String.eqb (tk_name r) name) (set_checksum checksum) rows in
    Ok (rows, count =? 1)).

(** [pg_advisory_lock] or the lock file; [_unlock]. *)
Definition acquire : prog () := stmt (λ s, (set_locks (se_locks s + 1) s, ())).
Definition _unlock : prog () := stmt (λ s, (set_locks (se_locks s - 1) s, ())).

(** [try: m except BaseException: suppress(Exception): unlock; raise else: unlock] *)
Definition unlock_after {A} (m : prog A) : prog A := λ w,
  match m w with
  | (w', Err e) => ((try_except _unlock is_exception (λ _, mret ()) w').1, Err e)
  | (w', Ok a) => (_ ← _unlock; mret a) w'
  end.

(** [async with tracker.lock(): m]. An in-memory SQLite database needs no
    lock. *)
Definition lock {A} (m : prog A) : prog A :=
  if is_sqlite conn then
    if String.eqb (db_path conn) "" || String.eqb (db_path conn) ":memory:" then m
    else _ ← acquire; try_finally m _unlock
  else _ ← acquire; unlock_after m.
End tracker.
