(* ===== verification/MigCommands.v ===== *)
(** * The migration commands

    [migrations/commands.py]: status, apply, baseline, new and repair against
    one connection. [run_sql] is what the server does with a text of SQL - to
    the whole database, the tracking table included, and to the open
    transaction, which a text can end or begin - [elapsed] how long it
    takes, [commit_check] what it makes of a COMMIT, [fk_violations] what
    [PRAGMA foreign_key_check] lists and [encode] the connection's encoding;
    [prompt] is the operator. *)

From Stdlib Require Import ZArith Lia.
From S2P Require Import Prelude PyStr Json Sql MigDiscovery MigStates MigTracker.

(** ** Quoting *)
Definition _sql_literal (value : string) : string := SQ +:+ replace_char "039"%char (SQ +:+ SQ) value +:+ SQ.

Definition plain_identifier (s : string) : bool :=
  match chars s with
  | a :: l => (is_lower a || Ascii.eqb a "_"%char)
              && forallb (λ b, is_lower b || is_digit b || Ascii.eqb b "_"%char) l
  | [] => false
  end.
Definition _PLAIN_IDENTIFIER (s : string) : bool := dollar plain_identifier s.

Definition _sql_identifier (name : string) : string :=
  if _PLAIN_IDENTIFIER name then name else DQ +:+ replace_char "034"%char (DQ +:+ DQ) name +:+ DQ.

(** [moment.strftime("%Y-%m-%d %H:%M")] *)
Definition minute_stamp (d : datetime) : string :=
  of_chars (four_digits (dt_year d) ++ ["-"%char] ++ two_digits (dt_month d) ++ ["-"%char] ++ two_digits (dt_day d)
    ++ [" "%char] ++ two_digits (dt_hour d) ++ [":"%char] ++ two_digits (dt_minute d)).

(** [for x in l: body], where an answer is an early [return]. *)
Fixpoint first_return {S A B} (body : A → prog S (option B)) (l : list A) : prog S (option B) :=
  match l with
  | [] => mret None
  | x :: l => r ← body x; match r with Some b => mret (Some b) | None => first_return body l end
  end.

Section commands.
Context {D : Type} (conn : connection) (current_timestamp : Z → datetime).
Context (run_sql : string → database D * option (database D) → database D * option (database D) * res ()) (elapsed : string → database D → Z).
Context (encode : string → res string) (commit_check : database D * option (database D) → res ()).
Context (fk_violations : database D → list (string * string * string)).
Context (sha256_hex : list ascii → string) (complete_statement : string → bool).

Abbreviation prog := (prog (session D)).

Definition _make_tracker (table : string) : res string := MigTracker.__init__ conn table.
Definition _autocommit : bool := autocommit conn.

(** [await conn.execute(sql)] *)
Definition send (sql : string) : prog () := λ w,
  let '(data, r) := run_sql sql (se_db (w_st w), se_tx (w_st w)) in
  (World (set_data data (w_st w)) (w_log w) (w_clock w + elapsed sql (se_db (w_st w))), r).

Definition _execute (sql : string) : prog () :=
  if is_sqlite conn then for_each (split_statements complete_statement sql) send
  else text ← lift_res (encode sql); send text.

(** [async with conn.transaction(): m]. On a connection with no transaction
    open, BEGIN, and at the end COMMIT, or ROLLBACK after an error, of [m] or
    of the COMMIT: of no effect if [m] has ended the transaction by then. With
    one open, a savepoint, which is taken to last as long as that one. *)
Definition in_transaction {A} (m : prog A) : prog A := λ w,
  let s := w_st w in
  let at_end (f : session D → session D) (w' : world (session D)) := World (f (w_st w')) (w_log w') (w_clock w') in
  match se_tx s with
  | None =>
      match m (at_end (set_data (se_db s, Some (se_db s))) w) with
      | (w', Err e) => (at_end rolled_back w', Err e)
      | (w', Ok a) =>
          match commit_check (se_db (w_st w'), se_tx (w_st w')) with
          | Err e => (at_end rolled_back w', Err e)
          | Ok _ => (at_end (λ s, set_data (se_db s, None) s) w', Ok a)
          end
      end
  | Some _ =>
      match m w with
      | (w', r) =>
          match se_tx (w_st w'), r with
          | None, Ok _ => (w', Err (database_error conn "no transaction in progress"))
          | None, Err e => (w', Err e)
          | Some _, Err e => (at_end (on_db (λ _, se_db s)) w', Err e)
          | Some _, Ok a => (w', Ok a)
          end
      end
  end.

Definition switch_foreign_keys (b : bool) : prog () := stmt (λ s, (set_foreign_keys b s, ())).

(** [async with _foreign_keys_off(conn, enabled): m] *)
Definition _foreign_keys_off {A} (enabled : bool) (m : prog A) : prog A :=
  if negb enabled || negb (is_sqlite conn) then m
  else _ ← switch_foreign_keys false; try_finally m (switch_foreign_keys true).

Definition show_violation (v : string * string * string) : string :=
  v.1.1 +:+ " rowid " +:+ v.1.2 +:+ " -> " +:+ v.2.

Definition _check_foreign_keys : prog () :=
  if negb (is_sqlite conn) then mret ()
  else
    s ← get_st;
    match fk_violations (se_db s) with
    | [] => mret ()
    | violations =>
        let n := Z.of_nat (length violations) in
        let shown := join "; " (show_violation <$> take 10 violations) in
        let more := if 10 <? n then " (and " +:+ str_of_Z (n - 10) +:+ " more)" else "" in
        raise (migration_error ("foreign key check failed: " +:+ shown +:+ more))
    end.

Definition _load_states (directory : directory) (table : string) : prog (list MigrationState) :=
  _ ← lift_res (_make_tracker table);
  _ ← ensure_table table;
  files ← lift_res (discover sha256_hex directory);
  rows ← applied_rows conn table;
  mret (compute_states files rows).

(** [f"{state.state:<8} {state.name"] *)
Definition state_line (s : MigrationState) : string := "  " +:+ ljust 8 (state_value (ms_state s)) +:+ " " +:+ ms_name s.

Definition missing_advice (table : string) (s : MigrationState) : prog () :=
  if decide (ms_state s = MISSING) then
    _ ← out ("MISSING: " +:+ ms_name s +:+ " is gone, so `migrations repair` cannot help. Restore the file");
    _ ← out "from version control, or - if it is gone for good and its schema change is known to";
    out ("be in place - drop the tracking row:  DELETE FROM " +:+ _sql_identifier table
      +:+ " WHERE name = " +:+ _sql_literal (ms_name s) +:+ ";")
  else mret ().

Definition _report_blocking (states : list MigrationState) (table : string) : prog () :=
  let blocked := blocking states in
  _ ← for_each blocked (λ s,
    if decide (ms_state s = DRIFT) then out (state_line s +:+ "  (file changed after it was applied)")
    else out (state_line s +:+ "  (applied, but the file is gone)"));
  _ ← out "";
  _ ← (if existsb (λ s, bool_decide (ms_state s = DRIFT)) blocked
       then out "DRIFT: revert the edit, or run `migrations repair <name>` if the edit was deliberate."
       else mret ());
  for_each blocked (missing_advice table).

(** [except MigrationError as e: out(f"error: {e}")], then [return 1] *)
Definition or_error {A} (m : prog A) : prog (option A) :=
  try_except (a ← m; mret (Some a)) (is_class MigrationError)
    (λ e, _ ← out ("error: " +:+ exn_msg e); mret None).

Definition cmd_status (directory : directory) (table : string) (check : bool) : prog Z :=
  loaded ← or_error (_load_states directory table);
  match loaded with
  | None => mret 1
  | Some [] => _ ← out "No migrations found."; mret 0
  | Some states =>
      _ ← for_each states (λ s,
        let applied_at := match ms_row s with Some r => minute_stamp (ar_applied_at r) | None => "" end in
        out ("  " +:+ ljust 8 (state_value (ms_state s)) +:+ " " +:+ ljust 52 (ms_name s) +:+ " " +:+ applied_at));
      let blocked := blocking states in
      let waiting := pending states in
      let count (l : list MigrationState) := Z.of_nat (length l) in
      _ ← out "";
      _ ← out (str_of_Z (count states - count waiting - count blocked) +:+ " applied, " +:+ str_of_Z (count waiting)
               +:+ " pending, " +:+ str_of_Z (count blocked) +:+ " blocked");
      if check && (match waiting with [] => false | _ => true end || match blocked with [] => false | _ => true end)
      then mret 1 else mret 0
  end.

(** ** apply *)

(** [state.file.prefix <= to] for a state with a file *)
Definition up_to (to : string) (s : MigrationState) : bool :=
  match ms_file s with Some f => String.leb (mf_prefix f) to | None => false end.

Definition known_prefixes (states : list MigrationState) : list string :=
  omap (λ s, mf_prefix <$> ms_file s) states.

(** The migrations a command works on: the pending ones, up to [to], which has
    to be known. *)
Definition wanted (states : list MigrationState) (to : option string) : option (list MigrationState) :=
  let queue := pending states in
  match to with
  | None => Some queue
  | Some to =>
      if bool_decide (to ∈ known_prefixes states) then Some (filter (λ s, up_to to s = true) queue) else None
  end.

(** [assert state.file is not None] *)
Definition file_of (s : MigrationState) : prog MigrationFile :=
  match ms_file s with Some f => mret f | None => raise (raise_exn AssertionError "") end.

Definition print_meta (nl : Z * string) : prog () := out ("    line " +:+ str_of_Z nl.1 +:+ ": " +:+ nl.2).

(** The scan of one file before anything is applied. *)
Definition scan_file (s : MigrationState) : prog (option Z) :=
  f ← file_of s;
  match find_meta_commands (mf_sql f) with
  | _ :: _ =>
      _ ← out ("error: " +:+ ms_name s +:+ " contains psql meta-command(s) psycopg cannot execute:");
      _ ← for_each (find_meta_commands (mf_sql f)) print_meta;
      _ ← out ("Strip them (pg_dump emits " +:+ BS +:+ "restrict / " +:+ BS +:+ "unrestrict) and try again.");
      mret (Some 1)
  | [] =>
      if mf_no_transaction f && (1 <? count_statements (mf_sql f)) then
        _ ← out ("error: " +:+ ms_name s +:+ " is marked `-- migrations:no-transaction` but contains");
        _ ← out "more than one statement. Postgres runs a multi-statement send inside an";
        _ ← out "implicit transaction, which would defeat the directive. Split the file so";
        _ ← out "each no-transaction migration contains exactly one statement.";
        mret (Some 1)
      else if mf_foreign_keys_off f && negb (is_sqlite conn) then
        _ ← out ("error: " +:+ ms_name s +:+ " is marked `" +:+ FOREIGN_KEYS_OFF_DIRECTIVE +:+ "`, which is for SQLite");
        _ ← out "table rebuilds only. Postgres does not delete rows to drop a table, so it has";
        _ ← out "nothing to switch off; remove the directive.";
        mret (Some 1)
      else mret None
  end.

Definition milliseconds (started now : Z) : Z := (now - started) / 1000.

(** The [try] around one file: its SQL and its tracking row; the duration. *)
Definition run_file (table applied_by name : string) (f : MigrationFile) : prog Z :=
  started ← now_utc;
  if mf_no_transaction f then
    _ ← _execute (mf_sql f);
    now ← now_utc;
    _ ← record conn current_timestamp table name (mf_checksum f) (milliseconds started now) applied_by;
    mret (milliseconds started now)
  else
    _foreign_keys_off (mf_foreign_keys_off f) (in_transaction (
      _ ← _execute (mf_sql f);
      _ ← (if mf_foreign_keys_off f then _check_foreign_keys else mret ());
      now ← now_utc;
      _ ← record conn current_timestamp table name (mf_checksum f) (milliseconds started now) applied_by;
      mret (milliseconds started now))).

Definition report_failure (s : MigrationState) (f : MigrationFile) (e : exn) : prog Z :=
  _ ← out ("FAILED " +:+ ms_name s +:+ ": " +:+ exn_msg e);
  _ ← (if mf_no_transaction f then
         _ ← out "This file ran OUTSIDE a transaction, so it may have PARTIALLY applied.";
         _ ← out "It was not recorded as applied. Inspect the database and undo whatever";
         _ ← out "landed (a failed CREATE INDEX CONCURRENTLY leaves an invalid index)";
         out "before re-running."
       else out "Stopped. Nothing after this migration was applied.");
  mret 1.

Definition apply_one (table applied_by : string) (dry_run : bool) (s : MigrationState) : prog (option Z) :=
  f ← file_of s;
  if dry_run then _ ← out ("would apply " +:+ ms_name s); mret None
  else
    r ← try_except (duration_ms ← run_file table applied_by (ms_name s) f; mret (inl duration_ms))
          is_exception (λ e, code ← report_failure s f e; mret (inr code));
    match r with
    | inr code => mret (Some code)
    | inl duration_ms =>
        _ ← out ("applied " +:+ ms_name s +:+ " (" +:+ str_of_Z duration_ms +:+ " ms)");
        mret None
    end.

(** The part of [cmd_apply] past the [blocking] test. *)
Definition apply_queue (table applied_by : string) (dry_run : bool) (queue : list MigrationState) : prog Z :=
  match queue with
  | [] => _ ← out "Database is up to date; nothing to apply."; mret 0
  | _ =>
      refused ← first_return scan_file queue;
      match refused with
      | Some code => mret code
      | None =>
          stopped ← first_return (apply_one table applied_by dry_run) queue;
          match stopped with
          | Some code => mret code
          | None =>
              let n := str_of_Z (Z.of_nat (length queue)) in
              _ ← out (if dry_run then n +:+ " migration(s) would be applied; nothing was changed."
                       else "Applied " +:+ n +:+ " migration(s).");
              mret 0
          end
      end
  end.

Definition unknown_prefix (to : option string) : prog Z :=
  _ ← out ("error: no migration with prefix " +:+ repr (default "" to)); mret 1.

Definition apply_states (table applied_by : string) (dry_run : bool) (to : option string) (states : list MigrationState) : prog Z :=
  match blocking states with
  | _ :: _ => _ ← _report_blocking states table; mret 1
  | [] =>
      match wanted states to with
      | None => unknown_prefix to
      | Some queue => apply_queue table applied_by dry_run queue
      end
  end.

Definition cmd_apply (directory : directory) (table : string) (dry_run : bool) (to : option string) (applied_by : string) : prog Z :=
  if negb _autocommit then _ ← out "error: cmd_apply requires an autocommit connection"; mret 1
  else
    _ ← lift_res (_make_tracker table);
    lock conn (
      loaded ← or_error (_load_states directory table);
      match loaded with
      | None => mret 1
      | Some states => apply_states table applied_by dry_run to states
      end).

(** ** baseline *)

(** The operator's answers: [None] for [q], otherwise what was chosen. *)
Fixpoint choose (prompt : string → res string) (stamp_rest : bool) (candidates : list MigrationState)
    : res (option (list MigrationState)) :=
  match candidates with
  | [] => Ok (Some [])
  | s :: candidates =>
      if stamp_rest then rest ← choose prompt true candidates; Ok (option_map (cons s) rest)
      else
        text ← prompt ("  " +:+ ljust 52 (ms_name s) +:+ " mark as already applied? [y/N/a/q] ");
        let answer := lower (strip text) in
        if String.eqb answer "q" then Ok None
        else if String.eqb answer "a" then rest ← choose prompt true candidates; Ok (option_map (cons s) rest)
        else if String.eqb answer "y" then rest ← choose prompt false candidates; Ok (option_map (cons s) rest)
        else choose prompt false candidates
  end.

Definition stamp_chosen (table applied_by : string) (chosen : list MigrationState) : prog () :=
  in_transaction (for_each chosen (λ s,
    f ← file_of s; record conn current_timestamp table (ms_name s) (mf_checksum f) 0 applied_by)).

Definition baseline_candidates (table applied_by : string) (assume_yes : bool) (prompt : string → res string)
    (candidates : list MigrationState) : prog Z :=
  match candidates with
  | [] => _ ← out "Nothing to baseline; every migration on disk is already recorded."; mret 0
  | _ =>
      chosen ← lift_res (choose prompt assume_yes candidates);
      match chosen with
      | None => _ ← out "Aborted; nothing was written."; mret 1
      | Some chosen =>
          written ← try_except (_ ← stamp_chosen table applied_by chosen; mret true) is_exception
            (λ e, _ ← out ("error: failed to write tracking rows: " +:+ exn_msg e);
                  _ ← out "Nothing was written.";
                  mret false);
          if written : bool then
            _ ← out "";
            _ ← out ("stamped " +:+ str_of_Z (Z.of_nat (length chosen)) +:+ " migration(s) as applied (not executed); "
                     +:+ str_of_Z (Z.of_nat (length candidates) - Z.of_nat (length chosen)) +:+ " left pending");
            mret 0
          else mret 1
      end
  end.

Definition cmd_baseline (directory : directory) (table : string) (to : option string) (assume_yes : bool)
    (applied_by : string) (prompt : string → res string) : prog Z :=
  if negb _autocommit then _ ← out "error: cmd_baseline requires an autocommit connection"; mret 1
  else
    _ ← lift_res (_make_tracker table);
    lock conn (
      loaded ← or_error (_load_states directory table);
      match loaded with
      | None => mret 1
      | Some states =>
          match wanted states to with
          | None => unknown_prefix to
          | Some candidates => baseline_candidates table applied_by assume_yes prompt candidates
          end
      end).

(** ** repair *)

(** [pathlib.PurePath(name).name] *)
Definition path_name (name : string) : string :=
  default "" (last (filter (λ p, p ≠ "" ∧ p ≠ ".") (split "/"%char name))).

Definition cmd_repair (directory : directory) (table : string) (name : string) : prog Z :=
  if negb _autocommit then _ ← out "error: cmd_repair requires an autocommit connection"; mret 1
  else if negb (String.eqb name (path_name name)) then
    _ ← out ("error: " +:+ repr name +:+ " must be a plain migration filename, not a path"); mret 1
  else
    match dict_get name (default [] (dir_files directory)) with
    | None => _ ← out ("error: no such migration file: " +:+ dir_path directory +:+ "/" +:+ name); mret 1
    | Some raw =>
        loaded ← or_error (lift_res (load_migration sha256_hex name raw));
        match loaded with
        | None => mret 1
        | Some migration =>
            _ ← lift_res (_make_tracker table);
            ensured ← or_error (ensure_table table);
            match ensured with
            | None => mret 1
            | Some _ =>
                changed ← update_checksum conn table (mf_name migration) (mf_checksum migration);
                if changed : bool then
                  _ ← out ("repaired " +:+ mf_name migration +:+ ": checksum re-stamped to "
                           +:+ py_take 12 (mf_checksum migration) +:+ "...");
                  mret 0
                else
                  _ ← out ("error: " +:+ mf_name migration
                    +:+ " has no tracking row - it was never applied, so there is nothing to repair");
                  mret 1
            end
        end
    end.
End commands.

(** ** new *)
Definition _NEW_FILE_TEMPLATE (name : string) : string :=
  join NL ["-- " +:+ name; "--";
    "-- Runs in a transaction. Add `-- migrations:no-transaction` as the very first line if this";
    "-- file needs CREATE INDEX CONCURRENTLY or anything else Postgres refuses inside one."; "--";
    "-- A no-transaction file must contain exactly ONE statement. Postgres wraps a";
    "-- multi-statement send in an implicit transaction, which would defeat the directive, so";
    "-- `apply` refuses such a file. Split it into one file per statement."; ""].

Definition cmd_new (name : string) (now : datetime) : prog directory Z :=
  d ← get_st;
  match new_filename name now with
  | Err e => _ ← out ("error: " +:+ exn_msg e); mret 1
  | Ok filename =>
      match dir_files d with
      | None => _ ← out ("error: migrations directory does not exist: " +:+ dir_path d); mret 1
      | Some files =>
          let path := dir_path d +:+ "/" +:+ filename in
          if dict_has filename files then _ ← out ("error: " +:+ path +:+ " already exists"); mret 1
          else
            _ ← set_st (Directory (dir_path d) (Some (dict_set filename (chars (_NEW_FILE_TEMPLATE name)) files)));
            _ ← out ("created " +:+ path);
            mret 0
      end
  end.
