(* ===== verification/MigCommandsProps.v ===== *)
(** * The migration commands: properties

    What [apply] leaves behind, that it can be run again, that [baseline]
    never executes anything, what [repair] re-stamps, that every command gives
    its lock back, and that quoting cannot be escaped. *)

From Stdlib Require Import ZArith Lia.
From S2P Require Import Prelude PyStr Json Sql MigDiscovery MigDiscoveryProps MigStates MigTracker MigCommands.

Section props.
Context {D : Type} (conn : connection) (current_timestamp : Z → datetime).
Context (run_sql : string → database D * option (database D) → database D * option (database D) * res ()) (elapsed : string → database D → Z).
Context (encode : string → res string) (commit_check : database D * option (database D) → res ()).
Context (fk_violations : database D → list (string * string * string)).
Context (sha256_hex : list ascii → string) (complete_statement : string → bool).

Abbreviation execute := (_execute conn run_sql elapsed encode complete_statement).
Abbreviation runfile := (run_file conn current_timestamp run_sql elapsed encode commit_check fk_violations complete_statement).
Abbreviation load := (_load_states (D := D) conn sha256_hex).
Abbreviation apply1 := (apply_one conn current_timestamp run_sql elapsed encode commit_check fk_violations complete_statement).
Abbreviation status := (cmd_status (D := D) conn sha256_hex).
Abbreviation apply := (cmd_apply conn current_timestamp run_sql elapsed encode commit_check fk_violations sha256_hex complete_statement).
Abbreviation baseline := (cmd_baseline conn current_timestamp commit_check sha256_hex).
Abbreviation repair := (cmd_repair (D := D) conn sha256_hex).

(** ** Relations kept by every part of a command *)
Section related.
Context (R : session D → session D → Prop) `{!PreOrder R}.
Lemma within_first_return {A B} (body : A → prog (session D) (option B)) l :
  (∀ x, within R (body x)) → within R (first_return body l).
Proof.
  intros Hb. induction l as [|x l IH]; simpl; [apply within_ret; apply _|].
  apply within_bind; [apply _|apply Hb|]. intros [b|]; [apply within_ret; apply _|done].
Qed.

(** The row operations, for a relation that holds whenever only the database
    changes. *)
Section database.
Context (Hdb : ∀ f s, R s (on_db f s)).

Lemma within_on_rows {A} table (f : list tracking_row → res (list tracking_row * A)) : within R (on_rows conn table f).
Proof.
  intros w. unfold on_rows. run_prog. destruct (get_table table _); [|reflexivity]. simpl.
  destruct (f _) as [[rows a]|]; simpl; [apply Hdb|reflexivity].
Qed.

Lemma within_ensure table : within R (ensure_table table).
Proof.
  unfold ensure_table, _create_table, _verify_columns. within_tac.
Qed.

Lemma within_load directory table : within R (load directory table).
Proof. unfold _load_states, applied_rows. pose proof within_ensure. pose proof @within_on_rows. within_tac. Qed.
End database.

(** Statements and transactions, for a relation that holds whenever only the
    database and the transaction change. *)
Section data.
Context (Hdata : ∀ data s, R s (set_data data s)).

Lemma on_db_related f s : R s (on_db f s).
Proof. exact (Hdata (f (se_db s), se_tx s) s). Qed.

Lemma rolled_back_related s : R s (rolled_back s).
Proof. unfold rolled_back. destruct (se_tx s); [apply Hdata|done]. Qed.

Lemma within_in_transaction {A} (m : prog (session D) A) : within R m → within R (in_transaction conn commit_check m).
Proof.
  intros Hm w. unfold in_transaction. destruct (se_tx (w_st w)) as [d|] eqn:Htx.
  - specialize (Hm w). destruct (m w) as [w' r]. simpl in Hm. destruct (se_tx (w_st w')), r; simpl; try done.
    etrans; [exact Hm|apply on_db_related].
  - cbn [w_st w_log w_clock].
    match goal with |- context[m ?v] => specialize (Hm v); destruct (m v) as [w' [a|e]] end; cbn [fst w_st] in *;
      (etrans; [apply (Hdata (se_db (w_st w), Some (se_db (w_st w))))|]); (etrans; [exact Hm|]); [|apply rolled_back_related].
    destruct (commit_check _); simpl; [apply Hdata|apply rolled_back_related].
Qed.

Lemma within_send sql : within R (send run_sql elapsed sql).
Proof. intros w. unfold send. destruct (run_sql _ _) as [d r]. simpl. apply Hdata. Qed.

Lemma within_execute sql : within R (execute sql).
Proof. unfold _execute. pose proof within_send. within_tac. Qed.

End data.
End related.

(** ** Locks and foreign keys *)

(** The session holds the locks it held, and enforces foreign keys if it did. *)
Definition restored (s s' : session D) : Prop :=
  se_locks s' = se_locks s ∧ (se_foreign_keys s = true → se_foreign_keys s' = true).
#[local] Instance restored_preorder : PreOrder restored.
Proof. split; [by intros ?|]. intros ??? [??] [??]. split; [congruence|auto]. Qed.

Definition untouched (s s' : session D) : Prop :=
  se_locks s' = se_locks s ∧ se_foreign_keys s' = se_foreign_keys s.
#[local] Instance untouched_preorder : PreOrder untouched.
Proof. split; [by intros ?|]. intros ??? [??] [??]. split; congruence. Qed.

Lemma untouched_restored {A} (m : prog (session D) A) : within untouched m → within restored m.
Proof. intros Hm w. destruct (Hm w) as [Hl Hf]. split; [done|]. congruence. Qed.

Lemma lock_restored {A} (m : prog (session D) A) : within restored m → within restored (lock conn m).
Proof.
  intros Hm. unfold lock. destruct (is_sqlite conn).
  - destruct (_ || _); [done|]. intros w. run_prog. unfold acquire, _unlock. run_prog.
    set (w1 := World _ _ _). specialize (Hm w1). destruct (m w1) as [w2 r]. simpl in *. destruct Hm as [Hl Hf].
    split; simpl in *; [lia|done].
  - intros w. unfold mbind, prog_bind, unlock_after, acquire, _unlock, stmt. simpl.
    set (w1 := World _ _ _). specialize (Hm w1). unfold try_except, mbind, prog_bind.
    destruct (m w1) as [w2 [a|e]]; simpl in *; destruct Hm as [Hl Hf]; split; simpl in *; [lia|done|lia|done].
Qed.

Lemma fk_off_restored {A} b (m : prog (session D) A) : within untouched m → within restored (_foreign_keys_off conn b m).
Proof.
  intros Hm. unfold _foreign_keys_off. destruct (_ || _); [by apply untouched_restored|].
  intros w. unfold switch_foreign_keys. run_prog. set (w1 := World _ _ _). specialize (Hm w1).
  destruct (m w1) as [w2 r]. simpl in *. destruct Hm as [Hl _]. by split.
Qed.

Lemma untouched_execute sql : within untouched (execute sql).
Proof. apply within_execute; [apply _|by intros]. Qed.

Lemma untouched_record table n cs d by_ : within untouched (record (D := D) conn current_timestamp table n cs d by_).
Proof.
  unfold record. within_step; [apply _|apply within_now; apply _|]. apply within_on_rows; [apply _|by intros].
Qed.

Lemma untouched_load directory table : within untouched (load directory table).
Proof. apply within_load; [apply _|by intros]. Qed.

Lemma untouched_transaction {A} (m : prog (session D) A) :
  within untouched m → within untouched (in_transaction conn commit_check m).
Proof. apply within_in_transaction; [apply _|done]. Qed.

Lemma untouched_check_foreign_keys : within untouched (_check_foreign_keys conn fk_violations).
Proof. unfold _check_foreign_keys. within_tac. Qed.

Lemma restored_run_file table by_ n f : within restored (runfile table by_ n f).
Proof.
  pose proof untouched_execute. pose proof untouched_record. pose proof untouched_check_foreign_keys.
  unfold run_file. within_step; [apply _|apply within_now; apply _|]. destruct (mf_no_transaction f).
  - apply untouched_restored. within_tac.
  - apply fk_off_restored, untouched_transaction. within_tac.
Qed.

Lemma restored_apply_states table by_ dry to states :
  within restored (apply_states conn current_timestamp run_sql elapsed encode commit_check fk_violations complete_statement
                     table by_ dry to states).
Proof.
  pose proof restored_run_file.
  unfold apply_states, _report_blocking, missing_advice, unknown_prefix, apply_queue. within_tac.
  all: apply within_first_return; [apply _|]; intros s; unfold scan_file, print_meta, apply_one, report_failure, file_of; within_tac.
Qed.

Lemma within_or_error {A} (R : session D → session D → Prop) `{!PreOrder R} (m : prog (session D) A) :
  within R m → within R (or_error m).
Proof. intros Hm. unfold or_error. within_tac. Qed.

Lemma restored_baseline table by_ yes prompt candidates :
  within restored (baseline_candidates conn current_timestamp commit_check table by_ yes prompt candidates).
Proof.
  unfold baseline_candidates, stamp_chosen. within_tac. apply untouched_restored, untouched_transaction.
  pose proof untouched_record. unfold file_of. within_tac.
Qed.

(** However a command ends - returned or raised, refused, failed in the
    middle of a file or interrupted by the operator's prompt - it has given
    back every lock it took, and SQLite enforces foreign keys again if it did
    before. *)
Theorem commands_restore_session (dir : directory) (table : string) (w : world (session D)) :
  (∀ check, restored (w_st w) (w_st (status dir table check w).1)) ∧
  (∀ dry_run to applied_by, restored (w_st w) (w_st (apply dir table dry_run to applied_by w).1)) ∧
  (∀ to yes applied_by prompt, restored (w_st w) (w_st (baseline dir table to yes applied_by prompt w).1)) ∧
  (∀ name, restored (w_st w) (w_st (repair dir table name w).1)).
Proof.
  assert (Hload : ∀ d t, within restored (load d t)) by (intros; apply untouched_restored, untouched_load).
  pose proof restored_apply_states as Happ. pose proof restored_baseline as Hbase.
  assert (Hor : ∀ A (m : prog (session D) A), within restored m → within restored (or_error m))
    by (intros; by apply within_or_error; [apply _|]).
  split_and!; intros.
  - revert w. change (within restored (status dir table check)). unfold cmd_status. within_tac.
  - revert w. change (within restored (apply dir table dry_run to applied_by)). unfold cmd_apply. within_tac.
    apply lock_restored. within_tac.
  - revert w. change (within restored (baseline dir table to yes applied_by prompt)). unfold cmd_baseline. within_tac.
    apply lock_restored. unfold unknown_prefix. within_tac.
  - revert w. change (within restored (repair dir table name)). unfold cmd_repair, update_checksum. within_tac.
    + apply Hor. within_tac.
    + apply Hor, untouched_restored, within_ensure; [apply _|by intros].
    + apply untouched_restored, within_on_rows; [apply _|by intros].
Qed.

(** ** The tracking rows *)
Definition rows_in (table : string) (d : database D) : list tracking_row :=
  match get_table table d with Some t => tb_rows t | None => [] end.

(** What the rows say: names and checksums. *)
Definition recorded (table : string) (d : database D) : list (string * string) :=
  (λ r, (tk_name r, tk_checksum r)) <$> rows_in table d.

(** The database with the tracking table created if it was missing. *)
Definition ensured (table : string) (d : database D) : database D :=
  match get_table table d with Some _ => d | None => set_table table (Table EXPECTED_COLUMNS []) d end.

(** Nothing but the tracking table differs. *)
Definition only_table (table : string) (d d' : database D) : Prop :=
  db_schema d' = db_schema d ∧ ∀ t, t ≠ table → get_table t d' = get_table t d.
#[local] Instance only_table_preorder table : PreOrder (only_table table).
Proof.
  split; [by intros d; split|]. intros ??? [H1 H2] [H3 H4]. split; [congruence|].
  intros t Ht. by rewrite H4, H2.
Qed.

Lemma get_set_table table t tb (d : database D) :
  get_table t (set_table table tb d) = if decide (table = t) then Some tb else get_table t d.
Proof. unfold get_table, set_table. simpl. rewrite dict_get_set. repeat case_decide; congruence. Qed.

Lemma only_set_table table tb (d : database D) : only_table table d (set_table table tb d).
Proof. split; [done|]. intros t Ht. rewrite get_set_table. by rewrite decide_False. Qed.

Lemma only_ensured table d : only_table table d (ensured table d).
Proof. unfold ensured. destruct (get_table table d); [done|apply only_set_table]. Qed.

Lemma rows_ensured table d : rows_in table (ensured table d) = rows_in table d.
Proof.
  unfold rows_in, ensured. destruct (get_table table d) as [t|] eqn:Ht; [by rewrite Ht|].
  by rewrite get_set_table, decide_True.
Qed.

Lemma recorded_ensured table d : recorded table (ensured table d) = recorded table d.
Proof. unfold recorded. by rewrite rows_ensured. Qed.

Lemma set_same_table table t (d : database D) : get_table table d = Some t →
  set_table table (Table (tb_columns t) (tb_rows t)) d = d.
Proof. destruct d as [sc ts]. unfold get_table, set_table. simpl. intros Ht. f_equal. apply dict_set_same. by destruct t. Qed.

Lemma record_spec table n cs d by_ w :
  match record conn current_timestamp table n cs d by_ w with
  | (w', Ok _) => recorded table (se_db (w_st w')) = recorded table (se_db (w_st w)) ++ [(n, cs)] ∧
                  only_table table (se_db (w_st w)) (se_db (w_st w')) ∧ n ∉ (recorded table (se_db (w_st w))).*1
  | (w', Err _) => w_st w' = w_st w
  end.
Proof.
  unfold record, on_rows. run_prog. unfold recorded, rows_in.
  destruct (get_table table _) as [t|] eqn:Ht; [|done]. simpl. destruct (_ && _); [done|].
  case_bool_decide as Hn; [done|]. simpl. split_and!; [|apply only_set_table|].
  - rewrite get_set_table, decide_True by done. simpl. by rewrite fmap_app.
  - intros Hin. apply Hn. by rewrite <- list_fmap_compose in Hin.
Qed.

Definition states_at (files : list MigrationFile) (table : string) (d : database D) : list MigrationState :=
  compute_states files (to_applied <$> order_by row_le (rows_in table d)).

(** The table is there and has the expected columns. *)
Definition tracked (table : string) (d : database D) : Prop :=
  ∃ t, get_table table d = Some t ∧ check_columns table (tb_columns t) = Ok ().

Lemma load_spec dir table w :
  match load dir table w with
  | (w', Ok states) => se_db (w_st w') = ensured table (se_db (w_st w)) ∧ tracked table (se_db (w_st w')) ∧
      ∃ files, discover sha256_hex dir = Ok files ∧ states = states_at files table (se_db (w_st w))
  | (w', Err _) => se_db (w_st w') = se_db (w_st w) ∨ se_db (w_st w') = ensured table (se_db (w_st w))
  end.
Proof.
  unfold _load_states, ensure_table, _create_table, _verify_columns, applied_rows, on_rows. run_prog.
  destruct (_make_tracker conn table); simpl; [|by left].
  set (d := se_db (w_st w)). fold (ensured table d). destruct (check_columns _ _) as [[]|] eqn:Hc; [|by right].
  destruct (discover _ _) as [files|]; [|by right]. simpl.
  destruct (get_table table (ensured table d)) as [t|] eqn:Ht; [|by right]. simpl.
  rewrite set_same_table by done. split; [done|]. split; [by exists t|]. exists files. split; [done|].
  unfold states_at. rewrite <- (rows_ensured table d). unfold rows_in. by rewrite Ht.
Qed.

Lemma lock_run {A} (m : prog (session D) A) w w' r : lock conn m w = (w', r) →
  ∃ w0 w1, se_db (w_st w0) = se_db (w_st w) ∧ m w0 = (w1, r) ∧ se_db (w_st w') = se_db (w_st w1).
Proof.
  unfold lock. destruct (is_sqlite conn).
  - destruct (_ || _); [by eauto|]. run_prog. unfold acquire, _unlock. run_prog. set (w1 := World _ _ _).
    destruct (m w1) as [w2 r2] eqn:Hm. intros [= <- <-]. exists w1, w2. done.
  - unfold mbind, prog_bind, unlock_after, acquire, _unlock, stmt. simpl. set (w1 := World _ _ _).
    unfold try_except, mbind, prog_bind. destruct (m w1) as [w2 [a|e]] eqn:Hm; intros [= <- <-]; exists w1, w2; done.
Qed.

Lemma or_error_run {A} (m : prog (session D) A) w w' r : or_error m w = (w', r) →
  match r with
  | Ok (Some a) => m w = (w', Ok a)
  | Ok None => ∃ w1 e, m w = (w1, Err e) ∧ w_st w' = w_st w1
  | Err e => m w = (w', Err e)
  end.
Proof.
  unfold or_error. run_prog. destruct (m w) as [w1 [a|e]]; [by intros [= <- <-]|].
  destruct (is_class _ e); intros [= <- <-]; [by eauto|done].
Qed.

(** ** baseline *)

(** The row that records a migration as applied. *)
Definition stamped (s : MigrationState) : option (string * string) :=
  (λ f, (ms_name s, mf_checksum f)) <$> ms_file s.

Lemma choose_sublist prompt rest candidates chosen : choose prompt rest candidates = Ok (Some chosen) →
  chosen `sublist_of` candidates ∧ (rest = true → chosen = candidates).
Proof.
  revert rest chosen. induction candidates as [|s l IH]; intros rest chosen; simpl; [by intros [= <-]|].
  assert (Hcons : ∀ b, (r ← choose prompt b l; Ok (option_map (cons s) r)) = Ok (Some chosen) →
    chosen `sublist_of` s :: l ∧ (b = true → chosen = s :: l)).
  { intros b. unfold mbind, res_bind. destruct (choose prompt b l) as [[l'|]|] eqn:Hc; [|done..].
    intros [= <-]. apply IH in Hc as [Hs Hr]. split; [by apply sublist_skip|]. intros Hb. by rewrite Hr. }
  destruct rest; [apply Hcons|]. unfold mbind at 1, res_bind at 1. destruct (prompt _) as [text|]; [|done].
  destruct (String.eqb _ "q"); [done|]. destruct (String.eqb _ "a"); [intros [Hs _]%Hcons; done|].
  destruct (String.eqb _ "y"); [intros [Hs _]%Hcons; done|]. intros [Hs _]%IH. split; [by apply sublist_cons|done].
Qed.

Lemma stamp_all table by_ l w :
  match for_each l (λ s, f ← file_of s; record conn current_timestamp table (ms_name s) (mf_checksum f) 0 by_) w with
  | (w', Ok _) => recorded table (se_db (w_st w')) = recorded table (se_db (w_st w)) ++ omap stamped l ∧
                  only_table table (se_db (w_st w)) (se_db (w_st w'))
  | (w', Err _) => True
  end.
Proof.
  revert w. induction l as [|s l IH]; intros w; simpl; [by rewrite app_nil_r|].
  unfold file_of. destruct (ms_file s) as [f|] eqn:Hf; [|done].
  pose proof (record_spec table (ms_name s) (mf_checksum f) 0 by_ w) as Hr.
  unfold mbind at 1, prog_bind at 1. unfold mret, prog_ret. unfold mbind at 1, prog_bind at 1.
  destruct (record _ _ _ _ _ _ _ w) as [w1 [[]|]]; [|done]. destruct Hr as (Hrec & Ht & _).
  specialize (IH w1). destruct (for_each l _ w1) as [w2 [[]|]]; [|done]. destruct IH as [Hrec2 Ht2].
  split; [|by etrans]. rewrite Hrec2, Hrec, <- app_assoc. unfold stamped at 2. by rewrite Hf.
Qed.

(** What runs in a transaction, and what is left if it fails. *)
Lemma in_transaction_run {A} (m : prog (session D) A) w w' r : in_transaction conn commit_check m w = (w', r) →
  ∃ w0 w1 r1, se_db (w_st w0) = se_db (w_st w) ∧ m w0 = (w1, r1) ∧
    match r with
    | Ok a => r1 = Ok a ∧ se_db (w_st w') = se_db (w_st w1)
    | Err _ => se_tx (w_st w1) = se_tx (w_st w0) → se_db (w_st w') = se_db (w_st w)
    end.
Proof.
  unfold in_transaction, rolled_back. destruct (se_tx (w_st w)) as [d|] eqn:Htx.
  - destruct (m w) as [w1 r1] eqn:Hm. exists w, w1, r1. split; [done|]. split; [done|]. rewrite Htx.
    destruct (se_tx (w_st w1)), r1; by simplify_eq/=.
  - match goal with |- context[m ?v] => destruct (m v) as [w1 r1] eqn:Hm; exists v, w1, r1 end.
    split; [done|]. split; [done|]. cbn [w_st se_tx set_data snd fst].
    destruct r1 as [a|e]; [destruct (commit_check _)|]; destruct (se_tx (w_st w1)); intros; simplify_eq/=; try done; intros; by simplify_eq/=.
Qed.

(** The open transaction is the same. *)
Definition same_tx (s s' : session D) : Prop := se_tx s' = se_tx s.
#[local] Instance same_tx_preorder : PreOrder same_tx.
Proof. split; [by intros ?|]. intros ???. unfold same_tx. congruence. Qed.

Lemma record_same_tx table n cs d by_ : within same_tx (record (D := D) conn current_timestamp table n cs d by_).
Proof.
  unfold record. within_step; [apply _|apply within_now; apply _|]. apply within_on_rows; [apply _|by intros].
Qed.

Lemma stamp_chosen_spec table by_ l w :
  match stamp_chosen conn current_timestamp commit_check table by_ l w with
  | (w', Ok _) => recorded table (se_db (w_st w')) = recorded table (se_db (w_st w)) ++ omap stamped l ∧
                  only_table table (se_db (w_st w)) (se_db (w_st w'))
  | (w', Err _) => se_db (w_st w') = se_db (w_st w)
  end.
Proof.
  destruct (stamp_chosen conn current_timestamp commit_check table by_ l w) as [w' r] eqn:Hr.
  apply in_transaction_run in Hr as (w0 & w1 & r1 & Hw0 & Hm & Hend). pose proof (stamp_all table by_ l w0) as Hst. rewrite Hm in Hst.
  destruct r as [u|e]; [destruct Hend as [-> ->]; by rewrite <- Hw0|]. apply Hend.
  assert (Htx : within same_tx (for_each l (λ s, f ← file_of s; record conn current_timestamp table (ms_name s) (mf_checksum f) 0 by_))).
  { pose proof record_same_tx. unfold file_of. within_tac. }
  specialize (Htx w0). by rewrite Hm in Htx.
Qed.

Lemma baseline_candidates_spec table by_ yes prompt candidates w w' r :
  baseline_candidates conn current_timestamp commit_check table by_ yes prompt candidates w = (w', r) →
  only_table table (se_db (w_st w)) (se_db (w_st w')) ∧
  ∃ chosen, recorded table (se_db (w_st w')) = recorded table (se_db (w_st w)) ++ omap stamped chosen ∧
    (r ≠ Ok 0 → chosen = []) ∧
    (r = Ok 0 → chosen `sublist_of` candidates ∧ (yes = true → chosen = candidates)).
Proof.
  assert (Hno : ∀ w' : world (session D), se_db (w_st w') = se_db (w_st w) → r ≠ Ok 0 → only_table table (se_db (w_st w)) (se_db (w_st w')) ∧
    ∃ chosen, recorded table (se_db (w_st w')) = recorded table (se_db (w_st w)) ++ omap stamped chosen ∧
    (r ≠ Ok 0 → chosen = []) ∧ (r = Ok 0 → chosen `sublist_of` candidates ∧ (yes = true → chosen = candidates))).
  { intros w2 Hdb Hr. rewrite Hdb. split; [done|]. exists []. by rewrite app_nil_r. }
  unfold baseline_candidates. destruct candidates as [|s l].
  { run_prog. intros [= <- <-]. split; [done|]. exists []. rewrite app_nil_r. split_and!; [done|done|]. intros _. by split. }
  set (candidates := s :: l) in *. unfold lift_res. unfold mbind at 1, prog_bind at 1.
  destruct (choose prompt yes candidates) as [[chosen|]|e] eqn:Hc; [| |by intros [= <- <-]; apply Hno].
  2:{ run_prog. intros [= <- <-]. by apply Hno. }
  apply choose_sublist in Hc as [Hsub Hall]. pose proof (stamp_chosen_spec table by_ chosen w) as Hst.
  run_prog. destruct (stamp_chosen conn current_timestamp commit_check table by_ chosen w) as [w1 [[]|e]].
  - intros [= <- <-]. simpl. destruct Hst as [Hrec Ht]. split; [done|]. exists chosen. done.
  - destruct (is_exception e); simpl; intros [= <- <-]; by apply Hno.
Qed.

(** [baseline] never executes a migration: nothing of the database but the
    tracking table changes. It records, without running them, migrations that
    are on disk, not yet recorded and within [to] - the chosen ones, all of them
    when told to assume yes - and only if it answers 0; answered [q], refused,
    or failing while it writes, it records nothing. *)
Theorem baseline_spec (dir : directory) (table : string) (to : option string) (yes : bool) (by_ : string)
    (prompt : string → res string) (w : world (session D)) :
  let '(w', r) := baseline dir table to yes by_ prompt w in
  only_table table (se_db (w_st w)) (se_db (w_st w')) ∧
  ∃ chosen, recorded table (se_db (w_st w')) = recorded table (se_db (w_st w)) ++ omap stamped chosen ∧
    (r ≠ Ok 0 → chosen = []) ∧
    (r = Ok 0 → ∃ files candidates, discover sha256_hex dir = Ok files ∧
       wanted (states_at files table (se_db (w_st w))) to = Some candidates ∧
       chosen `sublist_of` candidates ∧ (yes = true → chosen = candidates)).
Proof.
  destruct (baseline dir table to yes by_ prompt w) as [w' r] eqn:Hb.
  assert (Hno : r ≠ Ok 0 → (se_db (w_st w') = se_db (w_st w) ∨ se_db (w_st w') = ensured table (se_db (w_st w))) →
    only_table table (se_db (w_st w)) (se_db (w_st w')) ∧
    ∃ chosen, recorded table (se_db (w_st w')) = recorded table (se_db (w_st w)) ++ omap stamped chosen ∧
    (r ≠ Ok 0 → chosen = []) ∧
    (r = Ok 0 → ∃ files candidates, discover sha256_hex dir = Ok files ∧
       wanted (states_at files table (se_db (w_st w))) to = Some candidates ∧
       chosen `sublist_of` candidates ∧ (yes = true → chosen = candidates))).
  { intros Hr [-> | ->]; (split; [done || apply only_ensured|]); exists []; rewrite app_nil_r, ?recorded_ensured; done. }
  unfold cmd_baseline in Hb. destruct (negb _); [run_prog; simplify_eq/=; apply Hno; [done|by left]|].
  unfold lift_res in Hb. unfold mbind at 1, prog_bind at 1 in Hb.
  destruct (_make_tracker conn table); [|simplify_eq; apply Hno; [done|by left]].
  apply lock_run in Hb as (w0 & w1 & Hw0 & Hb & Hw1). rewrite <- Hw0 in *. rewrite Hw1 in *. clear Hw0 Hw1 w w'.
  unfold mbind at 1, prog_bind at 1 in Hb. destruct (or_error (load dir table) w0) as [w2 r2] eqn:Hl.
  apply or_error_run in Hl. pose proof (load_spec dir table w0) as Hspec. destruct r2 as [[states|]|e].
  - rewrite Hl in Hspec. destruct Hspec as (Hdb & _ & files & Hd & ->).
    destruct (wanted _ to) as [candidates|] eqn:Hw.
    + apply baseline_candidates_spec in Hb as [Ht (chosen & Hrec & Hn & Hs)]. rewrite Hdb in *.
      split; [etrans; [apply only_ensured|done]|]. exists chosen. rewrite recorded_ensured in Hrec.
      split_and!; [done|done|]. intros Hr. destruct (Hs Hr) as [? ?]. eauto 10.
    + unfold unknown_prefix in Hb. run_prog. simplify_eq/=. apply Hno; [done|by right].
  - destruct Hl as (w3 & e & Hl & Hst). rewrite Hl in Hspec. unfold mret, prog_ret in Hb. simplify_eq. rewrite Hst in *.
    by apply Hno.
  - rewrite Hl in Hspec. simplify_eq. by apply Hno.
Qed.

(** ** repair *)
Lemma ensure_spec table (w : world (session D)) :
  w_st (ensure_table table w).1 = on_db (ensured table) (w_st w).
Proof. unfold ensure_table, _create_table, _verify_columns. run_prog. by repeat case_match. Qed.

Definition restamped (name checksum : string) (rows : list tracking_row) : list tracking_row :=
  (λ r, if String.eqb (tk_name r) name then set_checksum checksum r else r) <$> rows.

Lemma update_checksum_spec table name cs w :
  match update_checksum conn table name cs w with
  | (w', Ok b) => rows_in table (se_db (w_st w')) = restamped name cs (rows_in table (se_db (w_st w))) ∧
      only_table table (se_db (w_st w)) (se_db (w_st w')) ∧
      b = (Z.of_nat (length (select_where (λ r, String.eqb (tk_name r) name) (rows_in table (se_db (w_st w))))) =? 1)
  | (w', Err _) => w_st w' = w_st w
  end.
Proof.
  unfold update_checksum, on_rows, rows_in. run_prog. destruct (get_table table _) as [t|] eqn:Ht; [|done]. simpl.
  split_and!; [by rewrite get_set_table, decide_True|apply only_set_table|done].
Qed.

Lemma select_none {A} (p : A → bool) (f : A → A) (l : list A) :
  select_where p l = [] → (λ x, if p x then f x else x) <$> l = l.
Proof.
  unfold select_where. induction l as [|x l IH]; csimpl; [done|]. rewrite filter_cons.
  destruct (p x) eqn:Hp; [by rewrite decide_True|]. rewrite decide_False by done. intros Hl. by rewrite IH.
Qed.

Lemma select_unique table name (rows : list tracking_row) : NoDup (tk_name <$> rows) →
  (Z.of_nat (length (select_where (λ r, String.eqb (tk_name r) name) rows)) =? 1) = false →
  restamped name table rows = rows.
Proof.
  intros Hnd Hc. apply select_none. unfold select_where in *.
  destruct (filter _ rows) as [|r l] eqn:Hf; [done|]. exfalso.
  assert (Hr : r ∈ filter (λ r, String.eqb (tk_name r) name = true) rows) by (rewrite Hf; left).
  apply list_elem_of_filter in Hr as [Hn Hin]. apply String.eqb_eq in Hn.
  pose proof (filter_key_unique tk_name name rows r Hnd Hin Hn) as Hu.
  assert (Heq : filter (λ r, String.eqb (tk_name r) name = true) rows = [r]).
  { rewrite <- Hu. apply filter_ext_in. intros x _. by rewrite String.eqb_eq. }
  rewrite Hf in Heq. injection Heq as ->. done.
Qed.

(** After the checksum of a file was stamped on its row, the two agree. *)
Lemma restamped_no_drift dir files name raw rows table d ms s :
  dir_files dir = Some files → NoDup files.*1 → dict_get name files = Some raw →
  rows_in table d = restamped name (sha256_hex raw) rows →
  discover sha256_hex dir = Ok ms → s ∈ states_at ms table d → ms_name s = name → ms_state s ≠ DRIFT.
Proof.
  intros Hd Hnd Hraw Hrows Hms Hs Hn Hdrift.
  apply compute_states_spec in Hs as (Hf & Hrow & _ & Hdr & _). apply Hdr in Hdrift as (f & row & Hsf & Hsr & Hne).
  rewrite Hsf, Hsr, Hn in *. destruct Hf as [Hf Hfn], Hrow as [Hrow Hrn].
  pose proof (discover_spec sha256_hex dir) as Hdisc. rewrite Hms in Hdisc.
  destruct Hdisc as (files' & Hd' & _ & _ & Hfiles). rewrite Hd in Hd'. injection Hd' as <-.
  destruct (Hfiles f Hf) as (raw' & Hin & Hcs & _). rewrite Hfn in Hin.
  apply (elem_dict_get _ _ _ Hnd) in Hin. rewrite Hraw in Hin. injection Hin as <-.
  apply Hne. rewrite Hcs. apply list_elem_of_fmap in Hrow as (t & -> & Ht). rewrite order_by_Permutation in Ht.
  rewrite Hrows in Ht. apply list_elem_of_fmap in Ht as (t0 & -> & _). simpl in *.
  destruct (String.eqb_spec (tk_name t0) name); [done|]. simpl in Hrn. done.
Qed.

(** A [repair] that answers 0 gave one recorded migration, the one named,
    the checksum of its file, and changed nothing else: no migration is run,
    and that migration is no longer in drift. In any other case it changed
    nothing. *)
Theorem repair_spec (dir : directory) (table name : string) (w : world (session D)) :
  let '(w', r) := repair dir table name w in
  let rows := rows_in table (se_db (w_st w)) in
  only_table table (se_db (w_st w)) (se_db (w_st w')) ∧
  (r = Ok 0 → ∃ files raw, dir_files dir = Some files ∧ dict_get name files = Some raw ∧ name ∈ tk_name <$> rows ∧
     rows_in table (se_db (w_st w')) = restamped name (sha256_hex raw) rows ∧
     (∀ ms s, NoDup files.*1 → discover sha256_hex dir = Ok ms → s ∈ states_at ms table (se_db (w_st w')) →
        ms_name s = name → ms_state s ≠ DRIFT)) ∧
  (r ≠ Ok 0 → NoDup (tk_name <$> rows) → rows_in table (se_db (w_st w')) = rows).
Proof.
  destruct (repair dir table name w) as [w' r] eqn:Hr. simpl.
  assert (Hno : r ≠ Ok 0 → (se_db (w_st w') = se_db (w_st w) ∨ se_db (w_st w') = ensured table (se_db (w_st w))) →
    only_table table (se_db (w_st w)) (se_db (w_st w')) ∧ rows_in table (se_db (w_st w')) = rows_in table (se_db (w_st w))).
  { intros _ [-> | ->]; [done|]. split; [apply only_ensured|apply rows_ensured]. }
  unfold cmd_repair in Hr.
  destruct (negb _); [run_prog; simplify_eq/=; destruct Hno; [done|by left|done]|].
  destruct (negb _); [run_prog; simplify_eq/=; destruct Hno; [done|by left|done]|].
  destruct (dict_get name _) as [raw|] eqn:Hraw; [|run_prog; simplify_eq/=; destruct Hno; [done|by left|done]].
  destruct (load_migration sha256_hex name raw) as [m|e] eqn:Hm.
  2:{ unfold or_error in Hr. run_prog. destruct (is_class _ e); simplify_eq/=; destruct Hno; (done || by left). }
  assert (Hmn : mf_name m = name ∧ mf_checksum m = sha256_hex raw).
  { unfold load_migration in Hm. destruct (MIGRATION_FILENAME_RE name) as [[]|]; [|done].
    destruct (decode_utf8 raw); [|done]. by simplify_eq. }
  destruct Hmn as [Hmn Hmc].
  unfold mbind at 1, prog_bind at 1, or_error at 1 in Hr. unfold try_except, mbind at 1, prog_bind at 1, lift_res at 1, mret at 1, prog_ret at 1 in Hr.
  unfold mbind at 1, prog_bind at 1, lift_res at 1 in Hr.
  destruct (_make_tracker conn table); [|simplify_eq; destruct Hno; [done|by left|done]].
  unfold mbind at 1, prog_bind at 1 in Hr. destruct (or_error (ensure_table table) w) as [w1 ensured_] eqn:He.
  apply or_error_run in He. pose proof (ensure_spec table w) as Hens.
  destruct ensured_ as [[u|]|e].
  2:{ destruct He as (w2 & e & He & Hw). rewrite He in Hens. run_prog. simplify_eq/=. rewrite Hw, Hens in *.
      destruct Hno; [done|by right|done]. }
  2:{ rewrite He in Hens. simplify_eq/=. rewrite Hens in *. destruct Hno; [done|by right|done]. }
  rewrite He in Hens. simpl in Hens. rewrite Hmn, Hmc in Hr.
  unfold mbind at 1, prog_bind at 1 in Hr. pose proof (update_checksum_spec table name (sha256_hex raw) w1) as Hu.
  destruct (update_checksum conn table name (sha256_hex raw) w1) as [w2 [b|e]].
  2:{ simplify_eq/=. rewrite Hu, Hens in *. destruct Hno; [done|by right|done]. }
  rewrite Hens in Hu. cbn [on_db se_db] in Hu. rewrite rows_ensured in Hu. destruct Hu as (Hrows & Honly & Hb).
  assert (Hres : r = (if b then Ok 0 else Ok 1) ∧ w_st w' = w_st w2).
  { destruct b; run_prog; by simplify_eq/=. }
  destruct Hres as [-> ->]. split; [etrans; [apply only_ensured|exact Honly]|]. split; intros Hc.
  - destruct b; [|done]. destruct (dir_files dir) as [files|] eqn:Hd; [|done]. simpl in Hraw.
    exists files, raw. split_and!; [done|done| |done|].
    + symmetry in Hb. apply Z.eqb_eq in Hb. destruct (select_where _ _) as [|x l] eqn:Hs; [done|].
      assert (Hx : x ∈ select_where (λ r, String.eqb (tk_name r) name) (rows_in table (se_db (w_st w)))) by (rewrite Hs; left).
      apply elem_of_select in Hx as [Hx <-%String.eqb_eq]. by apply list_elem_of_fmap_2.
    + intros ms s Hnd Hms Hs Hn. by eapply restamped_no_drift.
  - intros Hnd. destruct b; [done|]. rewrite Hrows. by apply select_unique.
Qed.

(** ** apply *)

(** The files of [l] were run in a row, each of them with success; nothing
    else happened but lines printed in between. *)
Inductive ran (table by_ : string) : list MigrationState → world (session D) → world (session D) → Prop :=
  | ran_nil w w' : w_st w' = w_st w → ran table by_ [] w w'
  | ran_cons s f l w w1 w2 w' d :
      w_st w1 = w_st w → ms_file s = Some f → runfile table by_ (ms_name s) f w1 = (w2, Ok d) →
      ran table by_ l w2 w' → ran table by_ (s :: l) w w'.

(** The file of [s] was run after that, and failed. *)
Definition failed_at (table by_ : string) (s : MigrationState) (w w' : world (session D)) : Prop :=
  ∃ f w1 w2 e, w_st w1 = w_st w ∧ ms_file s = Some f ∧ runfile table by_ (ms_name s) f w1 = (w2, Err e) ∧
    w_st w' = w_st w2.

Lemma ran_start table by_ l w0 w w' : w_st w = w_st w0 → ran table by_ l w w' → ran table by_ l w0 w'.
Proof.
  intros Hw Hr. destruct Hr as [w w' Hst|s f l w w1 w2 w' d Hst Hf Hrun Hr].
  - apply ran_nil. congruence.
  - eapply ran_cons; [|exact Hf|exact Hrun|exact Hr]. congruence.
Qed.

Lemma apply_one_spec table by_ s w :
  match apply1 table by_ false s w with
  | (w', Ok None) => ran table by_ [s] w w'
  | (w', Ok (Some c)) => c = 1 ∧ failed_at table by_ s w w'
  | (w', Err e) => is_exception e = false ∨ ms_file s = None
  end.
Proof.
  unfold apply_one, file_of. destruct (ms_file s) as [f|] eqn:Hf; [|by right].
  unfold mbind at 1, prog_bind at 1, mret at 1, prog_ret at 1. cbn [orb]. unfold mbind at 1, prog_bind at 1.
  unfold try_except, mbind at 1, prog_bind at 1.
  destruct (runfile table by_ (ms_name s) f w) as [w1 [d|e]] eqn:Hrun.
  - unfold mret, prog_ret. simpl. run_prog. eapply ran_cons; [done|exact Hf|exact Hrun|by constructor].
  - destruct (is_exception e) eqn:He; [|by left]. unfold report_failure.
    destruct (mf_no_transaction f); run_prog; (split; [done|]); exists f, w, w1, e; done.
Qed.

Lemma apply_all_spec table by_ queue w w' r : first_return (apply1 table by_ false) queue w = (w', Ok r) →
  ∃ k w1, ran table by_ (take k queue) w w1 ∧
    match r with
    | None => k = length queue ∧ w_st w' = w_st w1
    | Some c => c = 1 ∧ ∃ s, queue !! k = Some s ∧ failed_at table by_ s w1 w'
    end.
Proof.
  revert w. induction queue as [|s queue IH]; intros w; simpl.
  { intros [= <- <-]. exists 0%nat, w. split; [by constructor|done]. }
  pose proof (apply_one_spec table by_ s w) as Hs. unfold mbind, prog_bind.
  destruct (apply1 table by_ false s w) as [w1 [[c|]|e]]; [| |done].
  - intros [= <- <-]. destruct Hs as [-> Hs]. exists 0%nat, w. split; [by constructor|]. eauto.
  - intros (k & w2 & Hran & Hr)%IH. exists (S k), w2. split; [|destruct r as [c|]; [done|]; by destruct Hr as [-> ?]].
    inversion Hs as [|? f ? ? wa wb ? d Hwa Hf Hrun Hnil]; subst. inversion Hnil; subst.
    cbn [take]. eapply ran_cons; [exact Hwa|exact Hf|exact Hrun|by eapply ran_start].
Qed.

Lemma scan_quiet l w : w_st (first_return (S := session D) (scan_file conn) l w).1 = w_st w.
Proof.
  symmetry. revert w. apply (within_first_return eq (scan_file (D := D) conn) l).
  intros s. unfold scan_file, file_of, print_meta. within_tac.
Qed.

(** Nothing happened but that the tracking table may have been created. *)
Definition only_created (table : string) (d d' : database D) : Prop := d' = d ∨ d' = ensured table d.

(** *** Scripts that keep to themselves *)

(** The texts a file is sent as. *)
Definition texts_of (f : MigrationFile) : list string :=
  if is_sqlite conn then split_statements complete_statement (mf_sql f)
  else match encode (mf_sql f) with Ok text => [text] | Err _ => [] end.

(** A file that leaves the tracking table alone, and the transaction it is
    sent in open. *)
Definition confined (table : string) (f : MigrationFile) : Prop :=
  ∀ sql d tx, sql ∈ texts_of f →
    get_table table (run_sql sql (d, tx)).1.1 = get_table table d ∧ (run_sql sql (d, tx)).1.2 = tx.

Definition same_tracking (table : string) (s s' : session D) : Prop :=
  get_table table (se_db s') = get_table table (se_db s) ∧ se_tx s' = se_tx s.
#[local] Instance same_tracking_preorder table : PreOrder (same_tracking table).
Proof. split; [by intros ?|]. intros ??? [??] [??]. split; congruence. Qed.

Lemma execute_confined table f : confined table f → within (same_tracking table) (execute (mf_sql f)).
Proof.
  intros Hf.
  assert (Hs : ∀ sql, sql ∈ texts_of f → within (same_tracking table) (send run_sql elapsed sql)).
  { intros sql Hsql w. unfold send, same_tracking. specialize (Hf sql (se_db (w_st w)) (se_tx (w_st w)) Hsql).
    by destruct (run_sql _ _) as [[d tx] r]. }
  unfold _execute, texts_of in *. destruct (is_sqlite conn).
  - revert Hs. generalize (split_statements complete_statement (mf_sql f)). intros l Hs.
    induction l as [|x l IH]; simpl; [within_tac|]. apply within_bind; [apply _|apply Hs; left|].
    intros _. apply IH. intros sql Hsql. apply Hs. by right.
  - destruct (encode (mf_sql f)) as [text|e]; [|intros w; by simpl]. intros w. apply (Hs text). left.
Qed.

Lemma same_tracking_recorded table s s' : same_tracking table s s' → recorded table (se_db s') = recorded table (se_db s).
Proof. intros [Ht _]. unfold recorded, rows_in. by rewrite Ht. Qed.

Lemma fk_off_run {A} b (m : prog (session D) A) w w' r : _foreign_keys_off conn b m w = (w', r) →
  ∃ w0 w1, se_db (w_st w0) = se_db (w_st w) ∧ m w0 = (w1, r) ∧ se_db (w_st w') = se_db (w_st w1).
Proof.
  unfold _foreign_keys_off. destruct (_ || _); [by eauto|]. unfold switch_foreign_keys. run_prog.
  set (w1 := World _ _ _). destruct (m w1) as [w2 r2] eqn:Hm. intros [= <- <-]. exists w1, w2. done.
Qed.

(** What the row of a file adds, and what stays. *)
Definition adds (table n cs : string) (d d' : database D) : Prop :=
  recorded table d' = recorded table d ++ [(n, cs)] ∧ (n ∉ (recorded table d).*1) ∧ (tracked table d → tracked table d').

Lemma record_adds table n cs ms by_ w w' u : record conn current_timestamp table n cs ms by_ w = (w', Ok u) →
  adds table n cs (se_db (w_st w)) (se_db (w_st w')).
Proof.
  intros Hr. pose proof (record_spec table n cs ms by_ w) as Hs. rewrite Hr in Hs. destruct Hs as (Hrec & _ & Hn).
  split_and!; [done|done|]. intros (t & Ht & Hc). unfold record, on_rows in Hr. run_prog. rewrite Ht in Hr. simpl in Hr.
  destruct (_ && _); [done|]. case_bool_decide; [done|]. simplify_eq/=. eexists. by rewrite get_set_table, decide_True.
Qed.

Lemma same_tracking_adds table n cs s s1 s2 : same_tracking table s s1 →
  adds table n cs (se_db s1) (se_db s2) → adds table n cs (se_db s) (se_db s2).
Proof.
  intros Ht (Hr & Hn & Htr). rewrite (same_tracking_recorded _ _ _ Ht) in *. split_and!; [done|done|].
  intros (t & Hg & Hc). apply Htr. exists t. split; [|done]. destruct Ht as [-> _]. done.
Qed.

(** The body of [run_file], inside a transaction or outside. *)
Lemma file_body_spec table by_ n f started w w' r : confined table f →
  (_ ← execute (mf_sql f);
   _ ← (if mf_foreign_keys_off f then _check_foreign_keys conn fk_violations else mret ());
   now ← now_utc;
   _ ← record conn current_timestamp table n (mf_checksum f) (milliseconds started now) by_;
   mret (milliseconds started now)) w = (w', r) →
  match r with
  | Ok _ => adds table n (mf_checksum f) (se_db (w_st w)) (se_db (w_st w'))
  | Err _ => same_tracking table (w_st w) (w_st w')
  end.
Proof.
  intros Hf Hr. unfold mbind at 1, prog_bind at 1 in Hr. pose proof (execute_confined table f Hf w) as Ht.
  destruct (execute (mf_sql f) w) as [w1 [u|e]]; simpl in Ht; [|by injection Hr as <- <-].
  unfold mbind at 1, prog_bind at 1 in Hr.
  assert (Hck : ∀ b : bool, w_st ((if b then _check_foreign_keys conn fk_violations else mret ()) w1).1 = w_st w1).
  { intros []; [|done]. unfold _check_foreign_keys. destruct (negb _); [done|]. run_prog. by destruct (fk_violations (se_db (w_st w1))). }
  specialize (Hck (mf_foreign_keys_off f)). match type of Hck with w_st (?m w1).1 = _ => destruct (m w1) as [w4 [u4|e]] end;
    simpl in Hck; [|injection Hr as <- <-; by rewrite Hck].
  assert (Hnow : now_utc w4 = (w4, Ok (w_clock w4))) by done. rewrite (bind_ok _ _ _ _ _ Hnow) in Hr.
  set (ms := milliseconds started (w_clock w4)) in *. pose proof (record_spec table n (mf_checksum f) ms by_ w4) as Hs.
  destruct (record conn current_timestamp table n (mf_checksum f) ms by_ w4) as [w5 [u5|e]] eqn:Hrec;
    [rewrite (bind_ok _ _ _ _ _ Hrec) in Hr|rewrite (bind_err _ _ _ _ _ Hrec) in Hr]; injection Hr as <- <-.
  - eapply same_tracking_adds; [exact Ht|]. rewrite <- Hck. by eapply record_adds.
  - by rewrite Hs, Hck.
Qed.

Lemma run_file_spec table by_ n f w w' r : confined table f → runfile table by_ n f w = (w', r) →
  match r with
  | Ok _ => adds table n (mf_checksum f) (se_db (w_st w)) (se_db (w_st w'))
  | Err _ => recorded table (se_db (w_st w')) = recorded table (se_db (w_st w)) ∧
             (mf_no_transaction f = false → se_db (w_st w') = se_db (w_st w))
  end.
Proof.
  intros Hf. unfold run_file. unfold now_utc at 1. unfold mbind at 1, prog_bind at 1. destruct (mf_no_transaction f) eqn:Hnt.
  - unfold now_utc. unfold mbind at 1, prog_bind at 1. pose proof (execute_confined table f Hf w) as Ht.
    destruct (execute (mf_sql f) w) as [w1 [u|e]]; simpl in Ht;
      [|intros [= <- <-]; split; [by apply same_tracking_recorded|done]].
    unfold mbind at 1, prog_bind at 1. unfold mbind at 1, prog_bind at 1.
    destruct (record _ _ _ _ _ _ _ w1) as [w2 [u2|e]] eqn:Hr; unfold mret, prog_ret; intros [= <- <-].
    + eapply same_tracking_adds; [exact Ht|]. by eapply record_adds.
    + split; [|done]. pose proof (record_spec table n (mf_checksum f) (milliseconds (w_clock w) (w_clock w1)) by_ w1) as Hs.
      rewrite Hr in Hs. rewrite Hs. by apply same_tracking_recorded.
  - intros (w0 & w1 & Hw0 & Hr & Hw1)%fk_off_run. apply in_transaction_run in Hr as (w2 & w3 & r1 & Hw2 & Hm & Hend).
    pose proof (file_body_spec table by_ n f (w_clock w) w2 w3 r1 Hf Hm) as Hbody.
    rewrite Hw1, <- Hw0, <- Hw2. destruct r as [d|e]; [destruct Hend as [-> ->]; done|].
    assert (Hsame : se_db (w_st w1) = se_db (w_st w2)); [|by rewrite Hsame].
    rewrite Hw2. apply Hend. destruct r1 as [a|e1]; [|by destruct Hbody].
    assert (Htx : within same_tx (_ ← (if mf_foreign_keys_off f then _check_foreign_keys conn fk_violations else mret ());
       now ← now_utc; _ ← record conn current_timestamp table n (mf_checksum f) (milliseconds (w_clock w) now) by_;
       mret (milliseconds (w_clock w) now))).
    { pose proof record_same_tx. unfold _check_foreign_keys. within_tac. }
    apply bind_inv in Hm as (w4 & u & He & Hm). pose proof (execute_confined table f Hf w2) as [_ Ht]. rewrite He in Ht.
    specialize (Htx w4). rewrite Hm in Htx. cbn [fst] in *. unfold same_tx in Htx. congruence.
Qed.

(** The files of [l] keep to themselves. *)
Definition all_confined (table : string) (l : list MigrationState) : Prop :=
  ∀ s f, s ∈ l → ms_file s = Some f → confined table f.

Lemma ran_recorded table by_ l w w' : ran table by_ l w w' → all_confined table l →
  recorded table (se_db (w_st w')) = recorded table (se_db (w_st w)) ++ omap stamped l ∧
  (tracked table (se_db (w_st w)) → tracked table (se_db (w_st w'))) ∧
  (NoDup (recorded table (se_db (w_st w))).*1 → NoDup (recorded table (se_db (w_st w'))).*1).
Proof.
  intros Hr. induction Hr as [w w' Hst|s f l w w1 w2 w' d Hst Hf Hrun Hr IH]; intros Hconf.
  - rewrite Hst. split; [by rewrite app_nil_r|done].
  - destruct IH as (IHr & IHt & IHn); [intros s' f' Hs'; apply Hconf; by right|].
    apply run_file_spec in Hrun as (Hadd & Hni & Htr); [|by apply (Hconf s); [left|]]. rewrite Hst in *. split_and!; [|auto|].
    + rewrite IHr, Hadd, <- app_assoc. csimpl. unfold stamped at 2. by rewrite Hf.
    + intros Hnd. apply IHn. rewrite Hadd, fmap_app. apply NoDup_app. split_and!; [done| |apply NoDup_singleton].
      intros n Hn Hin. apply list_elem_of_singleton in Hin as ->. done.
Qed.

Lemma scan_code (queue : list MigrationState) w w' (c : Z) :
  first_return (S := session D) (scan_file conn) queue w = (w', Ok (Some c)) → c = 1.
Proof.
  revert w w'. induction queue as [|s q IH]; intros w w'; simpl; [done|].
  unfold mbind, prog_bind. destruct (scan_file conn s w) as [w2 [[c'|]|e]] eqn:Hs; [|by apply IH|done].
  intros [= <- <-]. unfold scan_file, file_of in Hs. destruct (ms_file s) as [f|]; [|done]. run_prog.
  destruct (find_meta_commands (mf_sql f)); [repeat case_match; by simplify_eq/=|].
  destruct (for_each _ _ _) as [? [|]]; by simplify_eq/=.
Qed.

Lemma apply_queue_spec table by_ queue w w' code :
  apply_queue conn current_timestamp run_sql elapsed encode commit_check fk_violations complete_statement
    table by_ false queue w = (w', Ok code) →
  (code = 1 ∧ w_st w' = w_st w) ∨
  ∃ k w1, ran table by_ (take k queue) w w1 ∧
    ((code = 0 ∧ k = length queue ∧ w_st w' = w_st w1) ∨
     (code = 1 ∧ ∃ s, queue !! k = Some s ∧ failed_at table by_ s w1 w')).
Proof.
  unfold apply_queue. destruct queue as [|s l].
  { run_prog. intros [= <- <-]. right. exists 0%nat, w. split; [by constructor|]. by left. }
  set (queue := s :: l). unfold mbind at 1, prog_bind at 1. pose proof (scan_quiet queue w) as Hq.
  destruct (first_return (scan_file conn) queue w) as [w1 [[c|]|e]] eqn:Hscan; simpl in Hq; [| |done].
  - unfold mret, prog_ret. intros [= <- <-]. left. split; [|done]. by eapply scan_code.
  - unfold mbind at 1, prog_bind at 1.
    destruct (first_return (apply_one _ _ _ _ _ _ _ _ _ _ _) queue w1) as [w2 [r|]] eqn:Hall; [|done].
    apply apply_all_spec in Hall as (k & w3 & Hran & Hr). intros Hrest. right. exists k, w3.
    split; [by eapply ran_start|]. destruct r as [c|].
    + unfold mret, prog_ret in Hrest. injection Hrest as <- <-. right. destruct Hr as [-> Hr]. done.
    + destruct Hr as [-> Hst]. run_prog. simplify_eq/=. left. done.
Qed.

(** C8: an [apply] that returns either did nothing - and answers 1 - or went
    through the pending migrations up to [to], in the order of their names,
    and ran the first ones to their end, each script and then its tracking
    row. It answers 0 if that was all of them; otherwise it answers 1, the
    next one was run and failed, and none after it. If moreover each script it
    came to leaves the tracking table alone, and the transaction it is sent in
    open, exactly those that succeeded were added to the tracking table, and
    a failed migration that was not marked to run outside a transaction leaves
    the database exactly as the last completed one did. *)
Theorem apply_spec (dir : directory) (table : string) (to : option string) (by_ : string) (w w' : world (session D)) (code : Z)
    (Hrun : apply dir table false to by_ w = (w', Ok code)) :
  (code = 1 ∧ only_created table (se_db (w_st w)) (se_db (w_st w'))) ∨
  ∃ files queue k w0 w1, let states := states_at files table (se_db (w_st w)) in
    discover sha256_hex dir = Ok files ∧ blocking states = [] ∧ wanted states to = Some queue ∧
    se_db (w_st w0) = ensured table (se_db (w_st w)) ∧ tracked table (se_db (w_st w0)) ∧
    ran table by_ (take k queue) w0 w1 ∧
    ((code = 0 ∧ k = length queue ∧ se_db (w_st w') = se_db (w_st w1)) ∨
     (code = 1 ∧ ∃ s w2, queue !! k = Some s ∧ failed_at table by_ s w1 w2 ∧ se_db (w_st w') = se_db (w_st w2))) ∧
    (all_confined table (take (S k) queue) →
       recorded table (se_db (w_st w1)) = recorded table (se_db (w_st w)) ++ omap stamped (take k queue) ∧
       recorded table (se_db (w_st w')) = recorded table (se_db (w_st w1)) ∧
       ∀ s f, queue !! k = Some s → ms_file s = Some f → mf_no_transaction f = false → se_db (w_st w') = se_db (w_st w1)).
Proof.
  unfold cmd_apply in Hrun. destruct (negb _); [run_prog; simplify_eq/=; left; split; [done|by left]|].
  unfold lift_res in Hrun. unfold mbind at 1, prog_bind at 1 in Hrun. destruct (_make_tracker conn table); [|done].
  apply lock_run in Hrun as (wa & wb & Hwa & Hrun & Hwb). rewrite Hwb, <- Hwa. clear Hwa Hwb w w'.
  unfold mbind at 1, prog_bind at 1 in Hrun. destruct (or_error (load dir table) wa) as [w2 r2] eqn:Hl.
  apply or_error_run in Hl. pose proof (load_spec dir table wa) as Hspec. destruct r2 as [[states|]|e]; [| |done].
  2:{ destruct Hl as (w3 & e & Hl & Hst). rewrite Hl in Hspec. unfold mret, prog_ret in Hrun. injection Hrun as <- <-.
      left. split; [done|]. by rewrite Hst. }
  rewrite Hl in Hspec. destruct Hspec as (Hdb & Htr & files & Hd & ->). unfold apply_states in Hrun.
  destruct (blocking _) eqn:Hblock.
  2:{ left. unfold mbind, prog_bind in Hrun.
      assert (Hq : within eq (_report_blocking (D := D) (states_at files table (se_db (w_st wa))) table)).
      { unfold _report_blocking, missing_advice. within_tac. }
      specialize (Hq w2). destruct (_report_blocking _ _ w2) as [w3 [u|]]; [|done]. simpl in Hq.
      unfold mret, prog_ret in Hrun. injection Hrun as <- <-. split; [done|]. right. by rewrite <- Hq. }
  destruct (wanted _ to) as [queue|] eqn:Hw.
  2:{ unfold unknown_prefix in Hrun. run_prog. simplify_eq/=. left. split; [done|by right]. }
  apply apply_queue_spec in Hrun as [[-> Hst]|(k & w3 & Hran & Hend)]; [left; split; [done|]; right; by rewrite Hst|].
  right. exists files, queue, k, w2, w3. cbv zeta. split_and!; try done.
  { destruct Hend as [(-> & -> & ->)|(-> & s & Hs & Hfail)]; [by left|right]. split; [done|]. by exists s, wb. }
  intros Hconf. pose proof (ran_recorded _ _ _ _ _ Hran) as Hrec. destruct Hrec as (Hrec & _).
  { intros s f Hs. apply Hconf. apply elem_of_take in Hs as (i & Hs & Hi). apply elem_of_take. exists i. split; [done|lia]. }
  rewrite Hdb, recorded_ensured in Hrec. split; [exact Hrec|].
  destruct Hend as [(-> & -> & ->)|(-> & s & Hs & f & w4 & w5 & e & Hw4 & Hf & Hrunf & Hst)].
  { split; [done|]. intros s f Hs%lookup_lt_Some. lia. }
  apply run_file_spec in Hrunf as [Hr Hno]; [|apply (Hconf s); [|done]].
  2: { apply (list_elem_of_lookup_2 _ k). rewrite lookup_take_lt by lia. done. }
  rewrite Hst, <- Hw4. split; [done|]. intros s' f' Hs' Hf' Hnt. apply Hno. congruence.
Qed.

(** *** Running it again *)
Lemma recorded_checksum table d n : NoDup (recorded table d).*1 →
  ar_checksum <$> dict_get n (rows_by_name (to_applied <$> order_by row_le (rows_in table d))) = dict_get n (recorded table d).
Proof.
  intros Hnd. pose proof (dict_of_keyed ar_name (to_applied <$> order_by row_le (rows_in table d)) n) as Hk.
  fold (rows_by_name (to_applied <$> order_by row_le (rows_in table d))) in Hk.
  destruct (dict_get n (rows_by_name _)) as [r|].
  - destruct Hk as [Hr Hn]. apply list_elem_of_fmap in Hr as (t & -> & Ht). rewrite order_by_Permutation in Ht.
    simpl in *. symmetry. apply elem_dict_get; [done|]. rewrite <- Hn. unfold recorded.
    by apply (list_elem_of_fmap_2 (λ r, (tk_name r, tk_checksum r))).
  - symmetry. apply dict_get_None. intros Hin. apply Hk. rewrite order_by_Permutation.
    unfold recorded in Hin. rewrite <- !list_fmap_compose in *. exact Hin.
Qed.

Lemma elem_states_at files table d n : n ∈ mf_name <$> files ∨ n ∈ (recorded table d).*1 →
  ∃ s, s ∈ states_at files table d ∧ ms_name s = n.
Proof.
  intros Hn. destruct (compute_states_spec files (to_applied <$> order_by row_le (rows_in table d))) as (_ & Hnames & _).
  assert (Hin : n ∈ ms_name <$> states_at files table d).
  { apply Hnames. destruct Hn as [Hn|Hn]; [by left|right]. rewrite order_by_Permutation.
    unfold recorded in Hn. rewrite <- !list_fmap_compose in *. exact Hn. }
  apply list_elem_of_fmap in Hin as (s & -> & Hs). eauto.
Qed.

Lemma states_at_elem files table d s : s ∈ states_at files table d → NoDup (recorded table d).*1 →
  ms_file s = dict_get (ms_name s) (by_name files) ∧
  ar_checksum <$> ms_row s = dict_get (ms_name s) (recorded table d) ∧
  ms_state s = state_of (ms_file s) (ms_row s).
Proof.
  intros Hs Hnd. unfold states_at, compute_states in Hs. apply list_elem_of_fmap in Hs as (n & -> & _).
  cbn [ms_file ms_row ms_name ms_state]. split_and!; [done|by apply recorded_checksum|done].
Qed.

Lemma dict_get_app {K V} `{EqDecision K} (k : K) (d1 d2 : list (K * V)) v :
  dict_get k d1 = Some v → dict_get k (d1 ++ d2) = Some v.
Proof. induction d1 as [|[k' v'] d1 IH]; simpl; [done|]. destruct (decide _); auto. Qed.

Lemma all_applied files table d d' :
  NoDup (recorded table d).*1 → NoDup (recorded table d').*1 → blocking (states_at files table d) = [] →
  recorded table d' = recorded table d ++ omap stamped (pending (states_at files table d)) →
  Forall (λ s, ms_state s = APPLIED) (states_at files table d').
Proof.
  intros Hnd Hnd' Hb Hrec. apply Forall_forall. intros s' Hs'.
  destruct (states_at_elem _ _ _ _ Hs' Hnd') as (Hf' & Hr' & ->).
  assert (Hs : ∃ s, s ∈ states_at files table d ∧ ms_name s = ms_name s').
  { destruct (compute_states_spec files (to_applied <$> order_by row_le (rows_in table d'))) as (_ & Hnames & _).
    destruct (proj1 (Hnames (ms_name s')) ltac:(by apply list_elem_of_fmap_2)) as [Hin|Hin].
    { apply elem_states_at. by left. }
    assert (Hin' : ms_name s' ∈ (recorded table d').*1).
    { rewrite order_by_Permutation in Hin. unfold recorded. rewrite <- !list_fmap_compose in *. exact Hin. }
    clear Hin. rewrite Hrec, fmap_app in Hin'. apply elem_of_app in Hin' as [Hin|Hin].
    - apply elem_states_at. by right.
    - apply list_elem_of_fmap in Hin as (x & Hx & (s & Hs & Hst)%list_elem_of_omap). unfold stamped in Hst.
      destruct (ms_file s); [|done]. apply list_elem_of_filter in Hs as [_ Hs]. exists s. split; [exact Hs|].
      simpl in Hst. rewrite Hx. by injection Hst as <-. }
  destruct Hs as (s & Hs & Hn). destruct (states_at_elem _ _ _ _ Hs Hnd) as (Hf & Hr & Hst). rewrite Hn in *.
  rewrite Hf', <- Hf in *. assert (Hnb : s ∉ blocking (states_at files table d)) by (rewrite Hb; apply not_elem_of_nil).
  unfold blocking in Hnb. rewrite list_elem_of_filter in Hnb. unfold state_of in *.
  destruct (ms_file s) as [f|] eqn:Hfs; [|naive_solver].
  assert (Hgoal : dict_get (ms_name s') (recorded table d') = Some (mf_checksum f)).
  { destruct (ms_row s) as [r|] eqn:Hrs.
    - destruct (String.eqb_spec (ar_checksum r) (mf_checksum f)) as [<-|]; [|naive_solver].
      rewrite Hrec. apply dict_get_app. by rewrite <- Hr.
    - apply elem_dict_get; [done|]. rewrite Hrec. apply elem_of_app. right. apply list_elem_of_omap.
      exists s. split; [by apply list_elem_of_filter|]. unfold stamped. by rewrite Hfs, Hn. }
  rewrite Hgoal in Hr'. destruct (ms_row s') as [r'|]; [|done]. simpl in Hr'. injection Hr' as ->. by rewrite String.eqb_refl.
Qed.

Lemma load_ok dir table w t files : _make_tracker conn table = Ok t → tracked table (se_db (w_st w)) →
  discover sha256_hex dir = Ok files →
  ∃ w', load dir table w = (w', Ok (states_at files table (se_db (w_st w)))) ∧ se_db (w_st w') = se_db (w_st w).
Proof.
  intros Hmk (tb & Ht & Hc) Hd. pose proof (load_spec dir table w) as Hspec.
  destruct (load dir table w) as [w' [states|e]] eqn:Hl.
  - destruct Hspec as (Hdb & _ & files' & Hd' & ->). rewrite Hd in Hd'. injection Hd' as <-. exists w'. split; [done|].
    rewrite Hdb. unfold ensured. by rewrite Ht.
  - exfalso. unfold _load_states, ensure_table, _create_table, _verify_columns, applied_rows, on_rows in Hl. run_prog.
    rewrite Hmk in Hl. simpl in Hl. rewrite !Ht in Hl. simpl in Hl. rewrite Hc, Hd in Hl. simpl in Hl. by repeat case_match; simplify_eq.
Qed.

Lemma apply_zero dir table to by_ w w' : apply dir table false to by_ w = (w', Ok 0) →
  autocommit conn = true ∧ ∃ t, _make_tracker conn table = Ok t.
Proof.
  unfold cmd_apply, _autocommit. destruct (autocommit conn); [|run_prog; intros; by simplify_eq/=]. simpl.
  unfold lift_res, mbind at 1, prog_bind at 1. destruct (_make_tracker conn table); [eauto|done].
Qed.

(** C9: after an [apply] that answers 0 every migration on disk is recorded with
    the checksum of its file, and applying again, however the second run is
    made, answers 0 and leaves the database as it is: provided that the
    scripts of the migrations that were pending leave the tracking table
    alone, and the transactions they are sent in open. *)
Theorem apply_idempotent (dir : directory) (table by_ by2 : string) (w w' w2 : world (session D))
    (Hnd : NoDup (recorded table (se_db (w_st w))).*1)
    (Hconf : ∀ files, discover sha256_hex dir = Ok files → all_confined table (pending (states_at files table (se_db (w_st w)))))
    (Hrun : apply dir table false None by_ w = (w', Ok 0)) (Hsame : se_db (w_st w2) = se_db (w_st w')) :
  (∃ files, discover sha256_hex dir = Ok files ∧
     Forall (λ s, ms_state s = APPLIED) (states_at files table (se_db (w_st w')))) ∧
  (apply dir table false None by2 w2).2 = Ok 0 ∧
  se_db (w_st (apply dir table false None by2 w2).1) = se_db (w_st w2).
Proof.
  destruct (apply_zero _ _ _ _ _ _ Hrun) as [Hauto [t Hmk]].
  apply apply_spec in Hrun as [[? _]|(files & queue & k & w0 & w1 & Hd & Hb & Hw & Hw0 & Htr & Hran & Hend & Hrec)]; [done|].
  destruct Hend as [(_ & -> & Hdb)|[? _]]; [|done]. rewrite firstn_all in *. rewrite take_ge in Hrec by lia.
  injection Hw as <-. specialize (Hconf files Hd). destruct (Hrec Hconf) as [Hrec' _]. clear Hrec. rename Hrec' into Hrec.
  apply ran_recorded in Hran as (_ & Htr' & Hnd'); [|done]. specialize (Htr' Htr).
  rewrite Hw0, recorded_ensured in Hnd'. specialize (Hnd' Hnd). rewrite <- Hdb in *.
  pose proof (all_applied files table _ _ Hnd Hnd' Hb Hrec) as Hall. split; [by exists files|].
  rewrite <- Hsame in *. destruct (apply dir table false None by2 w2) as [w3 r] eqn:Hagain. simpl.
  unfold cmd_apply, _autocommit in Hagain. rewrite Hauto, Hmk in Hagain. simpl in Hagain.
  unfold mbind at 1, prog_bind at 1, lift_res at 1 in Hagain.
  apply lock_run in Hagain as (wa & wb & Hwa & Hm & Hwb). rewrite Hwb, <- Hwa in *. clear Hwb Hwa.
  destruct (load_ok dir table wa t files Hmk Htr' Hd) as (wc & Hl & Hwc).
  unfold or_error, try_except in Hm. unfold mbind at 1 2, prog_bind at 1 2 in Hm. rewrite Hl in Hm.
  unfold mret at 1, prog_ret at 1 in Hm. unfold apply_states, blocking in Hm.
  rewrite filter_none in Hm by (intros s Hs; rewrite Forall_forall in Hall; rewrite (Hall s Hs); naive_solver).
  unfold wanted, pending in Hm.
  rewrite filter_none in Hm by (intros s Hs; rewrite Forall_forall in Hall; by rewrite (Hall s Hs)).
  unfold apply_queue in Hm. run_prog. by simplify_eq/=.
Qed.

(** ** Refusals *)

(** The scan refuses the file of [s]. *)
Definition refused (s : MigrationState) : Prop :=
  ∃ f, ms_file s = Some f ∧
    (find_meta_commands (mf_sql f) ≠ [] ∨ (mf_no_transaction f = true ∧ 1 < count_statements (mf_sql f)) ∨
     (mf_foreign_keys_off f = true ∧ is_sqlite conn = false)).

Lemma scan_refused s (w w' : world (session D)) : scan_file conn s w = (w', Ok None) → ¬ refused s.
Proof.
  intros Hs (f & Hf & Hbad). unfold scan_file, file_of in Hs. rewrite Hf in Hs. run_prog.
  destruct (find_meta_commands (mf_sql f)) as [|nl l] eqn:Hm.
  - destruct Hbad as [Hbad|[[Hnt Hc]|[Hfk Hsq]]]; [done| |].
    + rewrite Hnt, (proj2 (Z.ltb_lt _ _) Hc) in Hs. by simplify_eq/=.
    + rewrite Hfk, Hsq in Hs. destruct (_ && _) in Hs; by simplify_eq/=.
  - destruct (for_each _ _ _) as [? [|]] in Hs; by simplify_eq/=.
Qed.

Lemma scan_stops (queue : list MigrationState) (w w' : world (session D)) :
  Exists refused queue → first_return (scan_file conn) queue w ≠ (w', Ok None).
Proof.
  intros Hex. revert w. induction queue as [|s q IH]; intros w; [by inversion Hex|]. simpl. unfold mbind, prog_bind.
  destruct (scan_file conn s w) as [w2 [[c|]|e]] eqn:Hs; [done| |done].
  apply IH. inversion Hex; subst; [|done]. by apply scan_refused in Hs.
Qed.

Lemma dry_run_quiet table by_ l : within eq (first_return (apply1 table by_ true) l).
Proof. apply within_first_return; [apply _|]. intros s. unfold apply_one, file_of. cbn [orb]. within_tac. Qed.

Lemma apply_queue_refused table by_ dry queue w w' r :
  apply_queue conn current_timestamp run_sql elapsed encode commit_check fk_violations complete_statement
    table by_ dry queue w = (w', r) →
  dry = true ∨ Exists refused queue → w_st w' = w_st w ∧ (dry = false → r ≠ Ok 0).
Proof.
  unfold apply_queue. destruct queue as [|s l].
  { run_prog. intros [= <- <-] [->|Hex]; [done|by inversion Hex]. }
  set (queue := s :: l). unfold mbind at 1, prog_bind at 1. pose proof (scan_quiet queue w) as Hq.
  destruct (first_return (scan_file conn) queue w) as [w1 [[c|]|e]] eqn:Hscan; simpl in Hq.
  - unfold mret, prog_ret. intros [= <- <-] _. split; [done|]. intros _ [= ->]. by apply scan_code in Hscan.
  - intros Hrest [->|Hex]; [|exfalso; by eapply scan_stops]. split; [|done].
    unfold mbind at 1, prog_bind at 1 in Hrest. pose proof (dry_run_quiet table by_ queue w1) as Hd.
    destruct (first_return _ queue w1) as [w2 [[c|]|e]]; simpl in Hd; run_prog; simplify_eq/=; congruence.
  - intros [= <- <-] _. done.
Qed.

(** A dry run, a connection that is not in autocommit mode, a directory
    that cannot be read, a migration that drifted or lost its file, an unknown
    [to], and any file to be applied that has psql meta-commands, more than one
    statement outside a transaction, or the SQLite directive elsewhere: nothing
    is executed and nothing recorded - at most the empty tracking table is
    created - and, dry runs apart, the answer is not 0. *)
Theorem apply_refuses (dir : directory) (table : string) (dry : bool) (to : option string) (by_ : string) (w : world (session D))
    (Hwhy : autocommit conn = false ∨ dry = true ∨ (∃ e, discover sha256_hex dir = Err e) ∨
       ∃ files, discover sha256_hex dir = Ok files ∧
         let states := states_at files table (se_db (w_st w)) in
         blocking states ≠ [] ∨ wanted states to = None ∨ ∃ queue, wanted states to = Some queue ∧ Exists refused queue) :
  only_created table (se_db (w_st w)) (se_db (w_st (apply dir table dry to by_ w).1)) ∧
  (dry = false → (apply dir table dry to by_ w).2 ≠ Ok 0).
Proof.
  destruct (apply dir table dry to by_ w) as [w' r] eqn:Hrun. simpl. unfold cmd_apply, _autocommit in Hrun.
  destruct (autocommit conn); simpl in Hrun; [|run_prog; simplify_eq/=; split; [by left|done]].
  unfold lift_res in Hrun. unfold mbind at 1, prog_bind at 1 in Hrun.
  destruct (_make_tracker conn table); [|simplify_eq; split; [by left|done]].
  apply lock_run in Hrun as (wa & wb & Hwa & Hrun & Hwb). rewrite Hwb, <- Hwa in *. clear Hwa Hwb w w'.
  unfold mbind at 1, prog_bind at 1 in Hrun. destruct (or_error (load dir table) wa) as [w2 r2] eqn:Hl.
  apply or_error_run in Hl. pose proof (load_spec dir table wa) as Hspec. destruct r2 as [[states|]|e].
  - rewrite Hl in Hspec. destruct Hspec as (Hdb & _ & files & Hd & ->).
    assert (Hst : w_st wb = w_st w2 ∧ (dry = false → r ≠ Ok 0));
      [|destruct Hst as [-> Hst]; split; [by right|done]].
    unfold apply_states in Hrun. destruct (blocking _) as [|s0 l0] eqn:Hb.
    + destruct (wanted _ to) as [queue|] eqn:Hw.
      * eapply apply_queue_refused; [exact Hrun|]. rewrite Hd in Hwhy. naive_solver.
      * unfold unknown_prefix in Hrun. run_prog. by simplify_eq/=.
    + assert (Hq : within eq (_report_blocking (D := D) (states_at files table (se_db (w_st wa))) table)).
      { unfold _report_blocking, missing_advice. within_tac. }
      specialize (Hq w2). unfold mbind, prog_bind in Hrun. destruct (_report_blocking _ _ w2) as [w3 [u|]]; simpl in Hq;
        unfold mret, prog_ret in Hrun; by simplify_eq/=.
  - destruct Hl as (w3 & e & Hl & Hst). rewrite Hl in Hspec. unfold mret, prog_ret in Hrun. injection Hrun as <- <-.
    rewrite Hst. by split.
  - rewrite Hl in Hspec. injection Hrun as <- <-. by split.
Qed.
End props.

(** ** Quoting *)

(** Reads a quoted text up to its closing quote, a doubled one standing for
    itself: what the server does with a literal or an identifier. *)
Fixpoint read_body (q : ascii) (l : list ascii) : option (list ascii * list ascii) :=
  match l with
  | [] => None
  | a :: l' =>
      if Ascii.eqb a q then
        match l' with
        | b :: l'' => if Ascii.eqb b q then (λ r, (q :: r.1, r.2)) <$> read_body q l'' else Some ([], l')
        | [] => Some ([], [])
        end
      else (λ r, (a :: r.1, r.2)) <$> read_body q l'
  end.

Definition read_quoted (q : ascii) (l : list ascii) : option (list ascii * list ascii) :=
  match l with a :: l' => if Ascii.eqb a q then read_body q l' else None | [] => None end.

Lemma read_body_doubled q v rest : head rest ≠ Some q →
  read_body q (flat_map (λ x, if Ascii.eqb x q then [q; q] else [x]) v ++ q :: rest) = Some (v, rest).
Proof.
  intros Hr. induction v as [|a v IH]; simpl.
  - rewrite Ascii.eqb_refl. destruct rest as [|b rest]; [done|]. destruct (Ascii.eqb_spec b q) as [->|]; [|done]. done.
  - destruct (Ascii.eqb_spec a q) as [->|Ha]; simpl.
    + rewrite Ascii.eqb_refl. by rewrite IH.
    + rewrite (proj2 (Ascii.eqb_neq a q) Ha). by rewrite IH.
Qed.

(** The SQL printed for a migration that lost its file cannot be broken out
    of: the server reads back exactly the name given, whatever quotes it
    contains, and goes on right after it; an identifier is left bare only if it
    is a plain one. *)
Theorem quoting_roundtrip (value : string) (rest : list ascii)
    (Hrest : head rest ≠ Some "'"%char ∧ head rest ≠ Some "034"%char) :
  read_quoted "'"%char (chars (_sql_literal value) ++ rest) = Some (chars value, rest) ∧
  (_PLAIN_IDENTIFIER value = true ∧ _sql_identifier value = value ∨
   _PLAIN_IDENTIFIER value = false ∧
   read_quoted "034"%char (chars (_sql_identifier value) ++ rest) = Some (chars value, rest)).
Proof.
  destruct Hrest as [Hs Hd]. unfold _sql_literal, _sql_identifier, replace_char. split.
  - rewrite !chars_app, chars_of_chars, <- !app_assoc. change (chars SQ) with ["'"%char]. simpl.
    by apply read_body_doubled.
  - destruct (_PLAIN_IDENTIFIER value); [by left|right]. split; [done|].
    rewrite !chars_app, chars_of_chars, <- !app_assoc. change (chars DQ) with ["034"%char]. simpl.
    by apply read_body_doubled.
Qed.

Lemma quoting_roundtrip_witness :
  read_quoted "'"%char (chars (_sql_literal "o'clock'; DROP") ++ chars ";") = Some (chars "o'clock'; DROP", chars ";").
Proof. apply (quoting_roundtrip "o'clock'; DROP" (chars ";")). by split. Defined.

(** ** A concrete database *)
Definition demo_conn : connection := Connection false true "".
Definition demo_now (t : Z) : datetime := Datetime 2024 1 1 0 0 (t / 1000000).
(** A server that commits in the middle of one of its scripts, before a
    statement that fails. *)
Definition demo_sql (sql : string) (data : database (list string) * option (database (list string)))
    : database (list string) * option (database (list string)) * res () :=
  let '(d, tx) := data in
  let d' := Database (db_schema d ++ [sql]) (db_tables d) in
  if startswith "boom" sql then (d, tx, Err (raise_exn PsycopgError "boom"))
  else if startswith "create d; commit;" sql then (d', None, Err (raise_exn PsycopgError "boom"))
  else (d', tx, Ok ()).
Definition demo_file (n sql : string) : string * list ascii := (n, chars sql).
Definition demo_dir (third : string) : directory :=
  Directory "m" (Some [demo_file "2024-01-02-000000-b.sql" "create b"; demo_file "2024-01-01-000000-a.sql" "create a";
                       demo_file "2024-01-03-000000-c.sql" third]).
Definition demo_session : world (session (list string)) := World (Session (Database [] []) None 0 true) [] 0.
Abbreviation demo_apply := (cmd_apply demo_conn demo_now demo_sql (λ _ _, 5000) Ok (λ _, Ok ()) (λ _, []) of_chars (λ _, true)).

Lemma demo_confined table f : startswith "create d; commit;" (mf_sql f) = false → confined demo_conn demo_sql Ok (λ _, true) table f.
Proof.
  intros Hf sql d tx Hsql. unfold texts_of in Hsql. simpl in Hsql. apply list_elem_of_singleton in Hsql as ->. unfold demo_sql.
  rewrite Hf. by destruct (startswith "boom" _).
Defined.

Abbreviation demo_failed := (demo_apply (demo_dir "boom c") "migrations" false None "me" demo_session).
Abbreviation demo_done := (demo_apply (demo_dir "create c") "migrations" false None "me" demo_session).

Abbreviation demo_ran := (ran demo_conn demo_now demo_sql (λ _ _, 5000) Ok (λ _, Ok ()) (λ _, []) (λ _, true)).

Lemma apply_spec_witness :
  (recorded "migrations" (se_db (w_st demo_failed.1))).*1 = ["2024-01-01-000000-a.sql"; "2024-01-02-000000-b.sql"] ∧
  ∃ queue k w0 w1, demo_ran "migrations" "me" (take k queue) w0 w1 ∧
    recorded "migrations" (se_db (w_st demo_failed.1)) = recorded "migrations" (se_db (w_st w1)).
Proof.
  split; [vm_compute; reflexivity|].
  assert (Hrun : demo_failed = (demo_failed.1, Ok 1)) by (vm_compute; reflexivity).
  destruct (apply_spec demo_conn demo_now demo_sql (λ _ _, 5000) Ok (λ _, Ok ()) (λ _, []) of_chars (λ _, true)
    (demo_dir "boom c") "migrations" None "me" demo_session demo_failed.1 1 Hrun)
    as [[_ [Hn|Hn]]|(files & queue & k & w0 & w1 & Hd & _ & Hw & _ & _ & Hran & _ & Hrest)].
  - exfalso. vm_compute in Hn. discriminate.
  - exfalso. vm_compute in Hn. discriminate.
  - exists queue, k, w0, w1. split; [exact Hran|].
    vm_compute in Hd. injection Hd as <-. vm_compute in Hw. injection Hw as <-.
    apply Hrest. intros s f Hs Hf. apply demo_confined.
    apply elem_of_take in Hs as (i & Hi & _). repeat (destruct i as [|i]; [injection Hi as <-; injection Hf as <-; reflexivity|]). discriminate.
Defined.

(** A script that commits by itself: it fails and is not recorded, but what
    it did up to there stays in the database. *)
Abbreviation demo_committed := (demo_apply (demo_dir "create d; commit; boom") "migrations" false None "me" demo_session).

Example committed_script_stays :
  demo_committed.2 = Ok 1 ∧
  (recorded "migrations" (se_db (w_st demo_committed.1))).*1 = ["2024-01-01-000000-a.sql"; "2024-01-02-000000-b.sql"] ∧
  db_schema (se_db (w_st demo_committed.1)) = ["create a"; "create b"; "create d; commit; boom"].
Proof. vm_compute. done. Qed.

Lemma apply_idempotent_witness :
  (demo_apply (demo_dir "create c") "migrations" false None "you" demo_done.1).2 = Ok 0.
Proof.
  apply (apply_idempotent demo_conn demo_now demo_sql (λ _ _, 5000) Ok (λ _, Ok ()) (λ _, []) of_chars (λ _, true)
    (demo_dir "create c") "migrations" "me" "you" demo_session demo_done.1 demo_done.1);
    [constructor| |vm_compute; reflexivity|reflexivity].
  intros files Hd s f Hs Hf. vm_compute in Hd. injection Hd as <-. apply demo_confined.
  apply list_elem_of_In in Hs. vm_compute in Hs.
  destruct Hs as [<-|[<-|[<-|[]]]]; injection Hf as <-; reflexivity.
Defined.

Lemma apply_refuses_witness :
  (demo_apply (demo_dir (BS +:+ "restrict x")) "migrations" false None "me" demo_session).2 ≠ Ok 0.
Proof.
  apply (apply_refuses demo_conn demo_now demo_sql (λ _ _, 5000) Ok (λ _, Ok ()) (λ _, []) of_chars (λ _, true)
    (demo_dir (BS +:+ "restrict x")) "migrations" false None "me" demo_session); [|reflexivity].
  right. right. right. eexists. split; [vm_compute; reflexivity|]. cbv zeta. right. right. eexists.
  split; [vm_compute; reflexivity|]. do 2 apply Exists_cons_tl. apply Exists_cons_hd.
  eexists. split; [reflexivity|]. left. vm_compute. discriminate.
Defined.
