(* ===== verification/MigService.v ===== *)
(** * The migrations service

    [migrations/_service.py]: the configured targets and the dispatch of one
    command over them. Configurations are records with the documented keys;
    a path is its text. The store holds the databases by what they physically
    are and the migration directories by their path; [reachable] says whether
    a connection can be opened. *)

From Stdlib Require Import ZArith Lia.
From S2P Require Import Prelude PyStr Json Sql MigDiscovery MigStates MigTracker MigCommands.

Definition PGSQL : string := "pgsql".
Definition SQLITE : string := "sqlite".
Definition _DEFAULT_DIR : string := "data/migrations".
Definition _DEFAULT_TABLE : string := "migrations".
Definition _DEFAULT_TARGET_NAME : string := "main".

(** [x or d] *)
Definition or_default (x : option string) (d : string) : string :=
  match x with Some s => if String.eqb s "" then d else s | None => d end.
Definition or_port (x : option Z) (d : Z) : Z :=
  match x with Some n => if n =? 0 then d else n | None => d end.

(** An entry of [config["db"]]. *)
Record db_entry := DbEntry {
  db_driver_key : option string; db_hostname : option string; db_port : option Z; db_username : option string;
  db_password : option string; db_database : option string; db_ssl : option string
}.

Definition db_driver (e : db_entry) : res string :=
  let driver := or_default (db_driver_key e) PGSQL in
  if String.eqb driver PGSQL || String.eqb driver SQLITE then Ok driver
  else Err (raise_exn ValueError ("Unknown database driver " +:+ repr driver +:+ "; expected " +:+ repr PGSQL
              +:+ " or " +:+ repr SQLITE)).

(** The arguments of [psycopg.connect]. *)
Record connect_args := ConnectArgs {
  ca_host : string; ca_port : Z; ca_user : string; ca_password : string; ca_dbname : string; ca_sslmode : string;
  ca_autocommit : bool
}.

(** [d[key]] *)
Definition required (key : string) (v : option string) : res string :=
  match v with Some v => Ok v | None => Err (raise_exn KeyError key) end.

Definition connect_kwargs (e : db_entry) : res connect_args :=
  driver ← db_driver e;
  if negb (String.eqb driver PGSQL) then
    Err (raise_exn ValueError ("This command needs Postgres; the configured database uses the " +:+ repr driver +:+ " driver"))
  else
    host ← required "hostname" (db_hostname e);
    user ← required "username" (db_username e);
    password ← required "password" (db_password e);
    dbname ← required "database" (db_database e);
    Ok (ConnectArgs host (or_port (db_port e) 5432) user password dbname (or_default (db_ssl e) "prefer") true).

(** The physical database of an entry. *)
Inductive identity :=
  | SqliteFile (path : string)
  | PgDatabase (host : option string) (port : Z) (dbname : option string).

#[export] Instance identity_eq_dec : EqDecision identity.
Proof. solve_decision. Defined.

Record Target := MkTarget { t_name : string; t_db : string; t_directory : string; t_table : string }.

Record target_entry := TargetEntry { te_db : option string; te_dir : option string; te_table : option string }.

(** [config["migrations"]]: the flat keys and [targets], if they are there. *)
Record settings := Settings {
  st_dir : option string; st_table : option string; st_targets : option (list (string * target_entry))
}.

Record config := Config {
  cf_migrations : settings; cf_db : list (string * db_entry); cf_current_path : option string; cf_app_version : option string
}.

Definition is_absolute (path : string) : bool := startswith "/" path.

Definition _resolve_directory (raw_dir : option string) (c : config) : res string :=
  let directory := or_default raw_dir _DEFAULT_DIR in
  if is_absolute directory then Ok directory
  else
    match cf_current_path c with
    | None => Err (migration_error ("migrations dir " +:+ repr directory +:+ " is relative but config has no "
                +:+ DQ +:+ "current_path" +:+ DQ +:+ " to resolve it against; either set current_path or use an absolute dir."))
    | Some current_path => Ok (current_path +:+ "/" +:+ directory)
    end.

Section targets.
Context (realpath : string → string).

Definition _database_identity (e : db_entry) : res identity :=
  driver ← db_driver e;
  Ok (if String.eqb driver SQLITE then SqliteFile (realpath (default "None" (db_database e)))
      else PgDatabase (db_hostname e) (or_port (db_port e) 5432) (db_database e)).

(** [db_config[target.db]] *)
Definition entry_of (db : list (string * db_entry)) (name : string) : res db_entry :=
  match dict_get name db with Some e => Ok e | None => Err (raise_exn KeyError name) end.

Fixpoint reject_shared (seen : list (identity * string * string)) (targets : list Target) (db : list (string * db_entry)) : res () :=
  match targets with
  | [] => Ok ()
  | t :: targets =>
      e ← entry_of db (t_db t);
      i ← _database_identity e;
      match dict_get (i, t_table t) seen with
      | Some clash =>
          Err (migration_error ("migrations targets " +:+ repr clash +:+ " and " +:+ repr (t_name t)
            +:+ " resolve to the same physical database and both track in table " +:+ repr (t_table t)
            +:+ "; each would report the other's migrations as MISSING."))
      | None => reject_shared (dict_set (i, t_table t) (t_name t) seen) targets db
      end
  end.

Definition _reject_shared_tracking_tables (targets : list (string * Target)) (db : list (string * db_entry)) : res () :=
  reject_shared [] targets.*2 db.

Definition resolve_target (c : config) (name : string) (entry : target_entry) : res Target :=
  let db_name := or_default (te_db entry) name in
  if negb (dict_has db_name (cf_db c)) then
    Err (migration_error ("migrations target " +:+ repr name +:+ " names db " +:+ repr db_name
      +:+ ", which is not configured under config[" +:+ DQ +:+ "db" +:+ DQ +:+ "]; configured db keys are: "
      +:+ or_default (Some (join ", " (sorted_names (cf_db c).*1))) "none" +:+ "."))
  else
    directory ← _resolve_directory (te_dir entry) c;
    Ok (MkTarget name db_name directory (or_default (te_table entry) _DEFAULT_TABLE)).

Fixpoint resolve_entries (c : config) (raw : list (string * target_entry)) (targets : list (string * Target))
    : res (list (string * Target)) :=
  match raw with
  | [] => Ok targets
  | (name, entry) :: raw => t ← resolve_target c name entry; resolve_entries c raw (dict_set name t targets)
  end.

(** The flat keys in use, sorted. *)
Definition flat_keys (s : settings) : list string :=
  (match st_dir s with Some _ => ["dir"] | None => [] end) ++ (match st_table s with Some _ => ["table"] | None => [] end).

Definition resolve_targets (c : config) : res (list (string * Target)) :=
  let settings := cf_migrations c in
  match st_targets settings with
  | Some raw_targets =>
      match flat_keys settings, raw_targets with
      | _ :: _, _ =>
          Err (migration_error ("config[" +:+ DQ +:+ "migrations" +:+ DQ +:+ "] mixes " +:+ DQ +:+ "targets" +:+ DQ
            +:+ " with the flat key(s) " +:+ join ", " (flat_keys settings) +:+ "; that is ambiguous, not merged."))
      | [], [] =>
          Err (migration_error ("config[" +:+ DQ +:+ "migrations" +:+ DQ +:+ "][" +:+ DQ +:+ "targets" +:+ DQ
            +:+ "] is present but empty; declare at least one target."))
      | [], _ =>
          targets ← resolve_entries c raw_targets [];
          _ ← _reject_shared_tracking_tables targets (cf_db c);
          Ok targets
      end
  | None =>
      directory ← _resolve_directory (st_dir settings) c;
      let table := or_default (st_table settings) _DEFAULT_TABLE in
      Ok [(_DEFAULT_TARGET_NAME, MkTarget _DEFAULT_TARGET_NAME _DEFAULT_TARGET_NAME directory table)]
  end.
End targets.

Definition _FAN_OUT_STEPS (step : string) : bool := String.eqb step "status" || String.eqb step "apply".

(** What a line becomes before it is printed. *)
Definition _out_for (name : string) (multi : bool) (line : string) : string :=
  if negb multi then line
  else if String.eqb line "" then "" else "[" +:+ name +:+ "] " +:+ line.

Definition _select_targets {S} (step : string) (requested : option string) (targets : list (string * Target)) : prog S (list Target) :=
  match requested with
  | Some name =>
      match dict_get name targets with
      | Some t => mret [t]
      | None =>
          _ ← out ("error: no migrations target " +:+ repr name +:+ "; configured targets are: "
                   +:+ or_default (Some (join ", " targets.*1)) "none" +:+ ".");
          raise (system_exit 1)
      end
  | None =>
      if _FAN_OUT_STEPS step || (length targets =? 1)%nat then mret targets.*2
      else
        _ ← out ("error: migrations " +:+ repr step +:+ " needs --target since more than one target is configured; "
                 +:+ "configured targets are: " +:+ join ", " targets.*1 +:+ ".");
        raise (system_exit 1)
  end.

(** The command line. *)
Record arguments := Arguments_ {
  a_step : string; a_target : option string; a_check : bool; a_dry_run : bool; a_to : option string; a_yes : bool; a_name : string
}.

(** ** Dispatch *)
Record store (D : Type) := Store { sv_databases : list (identity * database D); sv_directories : list (string * directory) }.
Arguments Store {D} _ _.
Arguments sv_databases {D} _.
Arguments sv_directories {D} _.

Section service.
Context {D : Type} (empty : D) (realpath : string → string).
Context (current_timestamp : Z → datetime).
Context (run_sql : bool → string → database D * option (database D) → database D * option (database D) * res ()) (elapsed : string → database D → Z).
Context (encode : string → res string) (commit_check : database D * option (database D) → res ()).
Context (fk_violations : database D → list (string * string * string)).
Context (sha256_hex : list ascii → string) (complete_statement : string → bool).
Context (reachable : db_entry → res ()) (input : string → res string) (hostname : string).

Definition directory_at (path : string) (s : store D) : directory := default (Directory path None) (dict_get path (sv_directories s)).
Definition database_at (i : identity) (s : store D) : database D := default (Database empty []) (dict_get i (sv_databases s)).

(** [async with connect(entry) as conn: m conn], [m] writing its lines through
    [print_line]: an autocommit connection on either driver. A session starts
    with foreign keys enforced and no transaction open and ends with its
    locks; a transaction a script left open is committed with it, or rolled
    back after an error. *)
Definition with_connection {A} (print_line : string → string) (e : db_entry)
    (m : connection → prog (session D) A) : prog (store D) A := λ w,
  match driver ← db_driver e; i ← _database_identity realpath e;
        _ ← (if String.eqb driver SQLITE then Ok () else _ ← connect_kwargs e; Ok ());
        _ ← reachable e; Ok (driver, i) with
  | Err x => (w, Err x)
  | Ok (driver, i) =>
      let conn := Connection (String.eqb driver SQLITE) true (default "None" (db_database e)) in
      let '(w', r) := m conn (World (Session (database_at i (w_st w)) None 0 true) [] (w_clock w)) in
      let left := match r with Ok _ => w_st w' | Err _ => rolled_back (w_st w') end in
      (World (Store (dict_set i (se_db left) (sv_databases (w_st w))) (sv_directories (w_st w)))
         (w_log w ++ (print_line <$> w_log w')) (w_clock w'), r)
  end.

(** [new] works on the directory alone. *)
Definition on_directory {A} (print_line : string → string) (path : string) (m : prog directory A) : prog (store D) A := λ w,
  let '(w', r) := m (World (directory_at path (w_st w)) [] (w_clock w)) in
  (World (Store (sv_databases (w_st w)) (dict_set path (w_st w') (sv_directories (w_st w))))
     (w_log w ++ (print_line <$> w_log w')) (w_clock w'), r).

(** The command of one target on its connection. *)
Definition run_command (args : arguments) (applied_by : string) (t : Target) (d : directory) (conn : connection) : prog (session D) Z :=
  let table := t_table t in
  if String.eqb (a_step args) "status" then cmd_status conn sha256_hex d table (a_check args)
  else if String.eqb (a_step args) "apply" then
    cmd_apply conn current_timestamp (run_sql (is_sqlite conn)) elapsed encode commit_check fk_violations sha256_hex
      complete_statement d table (a_dry_run args) (a_to args) applied_by
  else if String.eqb (a_step args) "baseline" then
    cmd_baseline conn current_timestamp commit_check sha256_hex d table (a_to args) (a_yes args) applied_by input
  else if String.eqb (a_step args) "repair" then cmd_repair conn sha256_hex d table (a_name args)
  else _ ← out ("error: unknown migrations command " +:+ repr (a_step args)); mret 1.

Definition run_target (args : arguments) (c : config) (multi : bool) (applied_by : string) (t : Target) : prog (store D) Z :=
  _ ← out ("migrations: target=" +:+ t_name t +:+ " dir=" +:+ t_directory t +:+ " table=" +:+ t_table t);
  e ← lift_res (entry_of (cf_db c) (t_db t));
  s ← get_st;
  with_connection (_out_for (t_name t) multi) e (run_command args applied_by t (directory_at (t_directory t) s)).

(** The loop over the selected targets, with the code so far. *)
Fixpoint each_target (args : arguments) (c : config) (multi : bool) (applied_by : string) (code : Z) (l : list Target) : prog (store D) Z :=
  match l with
  | [] => mret code
  | t :: l =>
      target_code ← run_target args c multi applied_by t;
      if String.eqb (a_step args) "apply" then
        if target_code =? 0 then each_target args c multi applied_by target_code l else mret target_code
      else if String.eqb (a_step args) "status" then
        each_target args c multi applied_by (if code =? 0 then target_code else code) l
      else each_target args c multi applied_by target_code l
  end.

Definition service_body (args : arguments) (c : config) : prog (store D) Z :=
  targets ← lift_res (resolve_targets realpath c);
  selected ← _select_targets (a_step args) (a_target args) targets;
  match selected with
  | [] => raise (raise_exn RuntimeError "migrations: no targets selected; this should be unreachable")
  | target :: _ =>
      let multi := (1 <? length selected)%nat in
      if String.eqb (a_step args) "new" then
        now ← now_utc;
        code ← on_directory (_out_for (t_name target) multi) (t_directory target) (cmd_new (a_name args) (current_timestamp now));
        raise (system_exit code)
      else
        let applied_by := default "unknown" (cf_app_version c) +:+ " @ " +:+ hostname in
        each_target args c multi applied_by 0 selected
  end.

(** [except (KeyboardInterrupt, CancelledError)] *)
Definition is_interrupt (e : exn) : bool := is_class KeyboardInterrupt e || is_class CancelledError e.

Definition init_service (args : arguments) (c : config) : prog (store D) () :=
  code ← try_except (service_body args c) (λ e, is_interrupt e || is_exception e)
    (λ e, _ ← out (if is_interrupt e then "migrations: interrupted; the database may be partially migrated"
                   else "migrations: unhandled failure: " +:+ exn_msg e);
          raise (system_exit 1));
  raise (system_exit code).
End service.
