(* ===== verification/MigServiceProps.v ===== *)
(** * The migrations service: properties

    No two targets track in one table, and what the exit code of the service
    says. *)

From Stdlib Require Import ZArith Lia.
From S2P Require Import Prelude PyStr Json Sql MigDiscovery MigStates MigTracker MigCommands MigCommandsProps MigService.

Section service.
Context {D : Type} (empty : D) (realpath : string → string).
Context (current_timestamp : Z → datetime).
Context (run_sql : bool → string → database D * option (database D) → database D * option (database D) * res ()) (elapsed : string → database D → Z).
Context (encode : string → res string) (commit_check : database D * option (database D) → res ()).
Context (fk_violations : database D → list (string * string * string)).
Context (sha256_hex : list ascii → string) (complete_statement : string → bool).
Context (reachable : db_entry → res ()) (input : string → res string) (hostname : string).


Abbreviation run_target := (run_target empty realpath current_timestamp run_sql elapsed encode commit_check fk_violations
  sha256_hex complete_statement reachable input).
Abbreviation each_target := (each_target empty realpath current_timestamp run_sql elapsed encode commit_check fk_violations
  sha256_hex complete_statement reachable input).
Abbreviation init_service := (init_service empty realpath current_timestamp run_sql elapsed encode commit_check fk_violations
  sha256_hex complete_statement reachable input hostname).

(** ** The exit code *)

(** The targets of [l] were run in a row and each of them answered 0. *)
Inductive all_zero (args : arguments) (c : config) (multi : bool) (by_ : string) :
    list Target → world (store D) → world (store D) → Prop :=
  | zero_nil w : all_zero args c multi by_ [] w w
  | zero_cons t l w w1 w' : run_target args c multi by_ t w = (w1, Ok 0) → all_zero args c multi by_ l w1 w' →
      all_zero args c multi by_ (t :: l) w w'.

(** [apply] over several targets goes through them in order and stops at the
    first one that fails or raises: the store and the outcome are then those
    of that target's command, run after the ones before it had answered 0,
    and no later target is touched. *)
Theorem apply_stops_at_first_failure (args : arguments) (c : config) (multi : bool) (by_ : string) (l : list Target)
    (w w' : world (store D)) (r : res Z) (Hs : a_step args = "apply") (Hrun : each_target args c multi by_ 0 l w = (w', r)) :
  (r = Ok 0 ∧ all_zero args c multi by_ l w w') ∨
  (∃ k t w1, l !! k = Some t ∧ all_zero args c multi by_ (take k l) w w1 ∧ run_target args c multi by_ t w1 = (w', r) ∧ r ≠ Ok 0).
Proof.
  revert w Hrun. induction l as [|t l IH]; intros w; simpl.
  { intros [= <- <-]. left. split; [done|constructor]. }
  unfold mbind, prog_bind. destruct (run_target args c multi by_ t w) as [w1 [n|e]] eqn:Ht.
  2:{ intros [= <- <-]. right. exists 0%nat, t, w. split_and!; [done|constructor|done|done]. }
  rewrite Hs, String.eqb_refl. destruct (Z.eqb_spec n 0) as [->|Hn].
  - intros [[-> Hz]|(k & t' & w2 & Hk & Hz & Hr & Hne)]%IH.
    + left. split; [done|]. by econstructor.
    + right. exists (S k), t', w2. split_and!; [done|by econstructor|done|done].
  - unfold mret, prog_ret. intros [= <- <-]. right. exists 0%nat, t, w. split_and!; [done|constructor|done|congruence].
Qed.

Lemma each_target_status args c multi by_ code l w w' : a_step args = "status" →
  each_target args c multi by_ code l w = (w', Ok 0) → code = 0 ∧ all_zero args c multi by_ l w w'.
Proof.
  intros Hs. revert code w. induction l as [|t l IH]; intros code w; simpl.
  { intros [= <- ->]. split; [done|constructor]. }
  unfold mbind, prog_bind. destruct (run_target args c multi by_ t w) as [w1 [n|e]] eqn:Ht; [|done].
  rewrite Hs. simpl. destruct (Z.eqb_spec code 0) as [->|Hc]; intros [Hn Hz]%IH; [|done]. subst n.
  split; [done|]. by econstructor.
Qed.

Lemma each_target_zero args c multi by_ l w w' : _FAN_OUT_STEPS (a_step args) = true ∨ length l = 1%nat →
  each_target args c multi by_ 0 l w = (w', Ok 0) → all_zero args c multi by_ l w w'.
Proof.
  intros Hl He. destruct (String.eqb_spec (a_step args) "apply") as [Ha|Ha].
  { apply apply_stops_at_first_failure in He as [[_ Hz]|(k & t & w1 & _ & _ & _ & Hne)]; done. }
  destruct (String.eqb_spec (a_step args) "status") as [Hs|Hs]; [by eapply each_target_status|].
  destruct Hl as [Hl|Hl].
  { unfold _FAN_OUT_STEPS in Hl. apply orb_true_iff in Hl as [Hl|Hl]; apply String.eqb_eq in Hl; done. }
  destruct l as [|t [|]]; [done| |done]. simpl in He. unfold mbind, prog_bind in He.
  destruct (run_target args c multi by_ t w) as [w1 [n|e]] eqn:Ht; [|done].
  rewrite (proj2 (String.eqb_neq _ _) Ha), (proj2 (String.eqb_neq _ _) Hs) in He. unfold mret, prog_ret in He.
  simplify_eq. econstructor; [exact Ht|constructor].
Qed.

Lemma select_targets_spec {S} step requested targets (w w' : world S) r : _select_targets step requested targets w = (w', r) →
  match r with
  | Ok l => w' = w ∧ (∀ t, t ∈ l → t ∈ targets.*2) ∧ (_FAN_OUT_STEPS step = true ∨ length l = 1%nat) ∧
            (requested = None → l = targets.*2)
  | Err e => e = system_exit 1
  end.
Proof.
  unfold _select_targets. destruct requested as [name|].
  - destruct (dict_get name targets) as [t|] eqn:Hg; run_prog; intros [= <- <-]; [|done].
    split_and!; [done| |by right|done]. intros t' ->%list_elem_of_singleton. apply dict_get_Some_elem in Hg.
    by apply (list_elem_of_fmap_2 snd) in Hg.
  - destruct (_FAN_OUT_STEPS step || (length targets =? 1)%nat) eqn:Hc; run_prog; intros [= <- <-]; [|done].
    split_and!; [done|done| |done]. apply orb_true_iff in Hc as [Hc|Hc%Nat.eqb_eq]; [by left|right]. by rewrite length_fmap.
Qed.

Lemma each_target_raise args c multi by_ code l w w' e : each_target args c multi by_ code l w = (w', Err e) →
  ∃ t w1, t ∈ l ∧ run_target args c multi by_ t w1 = (w', Err e).
Proof.
  revert code w. induction l as [|t l IH]; intros code w; simpl; [done|].
  unfold mbind, prog_bind. destruct (run_target args c multi by_ t w) as [w1 [n|e']] eqn:Ht.
  - intros Hr. assert (Hrec : ∃ code', each_target args c multi by_ code' l w1 = (w', Err e)).
    { destruct (String.eqb _ _); [destruct (n =? 0); [by eauto|done]|]. destruct (String.eqb _ _); eauto. }
    destruct Hrec as [code' (t' & w2 & Hin & Hr')%IH]. exists t', w2. split; [by right|done].
  - intros [= <- <-]. exists t, w. split; [left|done].
Qed.

Lemma entry_of_error db n e : entry_of db n = Err e → exn_cls e ≠ SystemExit.
Proof. unfold entry_of. destruct (dict_get n db); [done|]. by intros [= <-]. Qed.

Lemma identity_error x e : _database_identity realpath x = Err e → exn_cls e ≠ SystemExit.
Proof. unfold _database_identity, db_driver. run_prog. destruct (_ || _); [done|]. by intros [= <-]. Qed.

Lemma reject_shared_error seen l db e : reject_shared realpath seen l db = Err e → exn_cls e ≠ SystemExit.
Proof.
  revert seen. induction l as [|t l IH]; intros seen; simpl; [done|]. unfold mbind, res_bind.
  destruct (entry_of db (t_db t)) eqn:He; [|intros [= <-]; by eapply entry_of_error].
  destruct (_database_identity realpath a) eqn:Hi; [|intros [= <-]; by eapply identity_error].
  destruct (dict_get _ seen); [by intros [= <-]|apply IH].
Qed.

Lemma resolve_directory_error d c e : _resolve_directory d c = Err e → exn_cls e ≠ SystemExit.
Proof. unfold _resolve_directory. destruct (is_absolute _); [done|]. destruct (cf_current_path c); [done|]. by intros [= <-]. Qed.

Lemma resolve_entries_error c raw acc e : resolve_entries c raw acc = Err e → exn_cls e ≠ SystemExit.
Proof.
  revert acc. induction raw as [|[n x] raw IH]; intros acc; simpl; [done|]. unfold mbind, res_bind.
  destruct (resolve_target c n x) eqn:Hr; [apply IH|]. intros [= <-]. unfold resolve_target in Hr.
  destruct (negb _); [by injection Hr as <-|]. unfold mbind, res_bind in Hr.
  destruct (_resolve_directory _ c) eqn:Hd; [done|]. injection Hr as <-. by eapply resolve_directory_error.
Qed.

Lemma resolve_targets_error c e : resolve_targets realpath c = Err e → exn_cls e ≠ SystemExit.
Proof.
  unfold resolve_targets, _reject_shared_tracking_tables. destruct (st_targets _) as [raw|].
  - destruct (flat_keys _); [|by intros [= <-]]. destruct raw as [|x raw]; [by intros [= <-]|].
    unfold mbind, res_bind. destruct (resolve_entries c (x :: raw) []) eqn:He; [|intros [= <-]; by eapply resolve_entries_error].
    destruct (reject_shared _ _ _ _) eqn:Hr; [done|]. intros [= <-]. by eapply reject_shared_error.
  - unfold mbind, res_bind. destruct (_resolve_directory _ c) eqn:Hd; [done|]. intros [= <-]. by eapply resolve_directory_error.
Qed.

Lemma exn_cases e : is_interrupt e || is_exception e = true ∨ exn_cls e = SystemExit.
Proof. unfold is_interrupt, is_class, is_exception. destruct (exn_cls e) eqn:He; auto. Qed.

(** The service never ends silently: it always exits the process, and the
    exit code is 0 only if the configuration was resolved, at least one target
    was selected - all of them for [status] and [apply] without [--target] -
    and the command was run on every one of them and answered 0. Interrupts
    and every other error become a code that is not 0; only something that
    exits the process from inside a command could bring its own code. *)
Theorem service_exit_code (args : arguments) (c : config) (w : world (store D)) :
  ∃ w' e, init_service args c w = (w', Err e) ∧ exn_cls e = SystemExit ∧
    (exn_code e = 0 → a_step args = "new" ∨ ∃ targets selected,
      let by_ := default "unknown" (cf_app_version c) +:+ " @ " +:+ hostname in
      let multi := (1 <? length selected)%nat in
      resolve_targets realpath c = Ok targets ∧ selected ≠ [] ∧ (∀ t, t ∈ selected → t ∈ targets.*2) ∧
      (a_target args = None → selected = targets.*2) ∧
      (all_zero args c multi by_ selected w w' ∨
       ∃ t w1, t ∈ selected ∧ run_target args c multi by_ t w1 = (w', Err e))).
Proof.
  unfold init_service, try_except. unfold mbind at 1, prog_bind at 1.
  destruct (service_body _ _ _ _ _ _ _ _ _ _ _ _ _ args c w) as [w1 [code|e]] eqn:Hb.
  - exists w1, (system_exit code). split_and!; [done|done|]. intros Hc. simpl in Hc. subst code.
    unfold service_body in Hb. unfold mbind at 1, prog_bind at 1, lift_res in Hb.
    destruct (resolve_targets realpath c) as [targets|] eqn:Ht; [|done].
    unfold mbind at 1, prog_bind at 1 in Hb. destruct (_select_targets _ _ targets w) as [w2 r2] eqn:Hsel.
    apply select_targets_spec in Hsel. destruct r2 as [selected|]; [|done]. destruct Hsel as (-> & Hin & Hfan & Hall).
    destruct selected as [|t l]; [done|]. destruct (String.eqb_spec (a_step args) "new") as [Hn|Hn]; [by left|].
    right. exists targets, (t :: l). split_and!; [done|done|done|done|]. left.
    by apply each_target_zero.
  - destruct (is_interrupt e || is_exception e) eqn:He.
    { exists (World (w_st w1) (w_log w1 ++ [if is_interrupt e then "migrations: interrupted; the database may be partially migrated"
        else "migrations: unhandled failure: " +:+ exn_msg e]) (w_clock w1)), (system_exit 1). split_and!; done. }
    exists w1, e. destruct (exn_cases e) as [?|Hcls]; [congruence|]. split_and!; [done|done|]. intros Hc.
    unfold service_body in Hb. unfold mbind at 1, prog_bind at 1, lift_res in Hb.
    assert (Hex : e ≠ system_exit 1) by (intros ->; done).
    destruct (resolve_targets realpath c) as [targets|e'] eqn:Ht.
    2:{ exfalso. apply resolve_targets_error in Ht. by simplify_eq. }
    unfold mbind at 1, prog_bind at 1 in Hb. destruct (_select_targets _ _ targets w) as [w2 r2] eqn:Hsel.
    apply select_targets_spec in Hsel. destruct r2 as [selected|]; [|by simplify_eq]. destruct Hsel as (-> & Hin & Hfan & Hall).
    destruct selected as [|t l]; [run_prog; simplify_eq; done|].
    destruct (String.eqb_spec (a_step args) "new") as [Hn|Hn]; [by left|].
    right. exists targets, (t :: l). split_and!; [done|done|done|done|]. right. by eapply each_target_raise.
Qed.
End service.

(** ** Tracking tables *)

(** The database and the table a target tracks in. *)
Definition tracks (realpath : string → string) (db : list (string * db_entry)) (t : Target) : option (identity * string) :=
  match e ← entry_of db (t_db t); _database_identity realpath e with
  | Ok i => Some (i, t_table t)
  | Err _ => None
  end.

Lemma reject_shared_ok realpath seen l db : reject_shared realpath seen l db = Ok () →
  NoDup (tracks realpath db <$> l) ∧ Forall (λ t, ∃ k, tracks realpath db t = Some k ∧ k ∉ seen.*1) l.
Proof.
  revert seen. induction l as [|t l IH]; intros seen; simpl; [split; constructor|].
  unfold mbind, res_bind. destruct (entry_of db (t_db t)) as [e|] eqn:He; [|done].
  destruct (_database_identity realpath e) as [i|] eqn:Hi; [|done].
  assert (Htr : tracks realpath db t = Some (i, t_table t)).
  { unfold tracks, mbind, res_bind. by rewrite He, Hi. }
  destruct (dict_get (i, t_table t) seen) eqn:Hg; [done|]. intros [Hnd Hall]%IH. apply dict_get_None in Hg.
  split.
  - constructor; [|done]. intros (t' & Ht' & Hin)%list_elem_of_fmap. rewrite Forall_forall in Hall.
    destruct (Hall t' Hin) as (k & Hk & Hni). rewrite Hk, Htr in Ht'. injection Ht' as <-. apply Hni, dict_set_keys. by left.
  - constructor; [by exists (i, t_table t)|]. eapply Forall_impl; [exact Hall|]. intros t' (k & Hk & Hni). exists k. split; [done|].
    intros Hin. apply Hni, dict_set_keys. by right.
Qed.

Lemma resolve_entries_names c raw acc targets : resolve_entries c raw acc = Ok targets →
  (∀ n t, (n, t) ∈ acc → t_name t = n ∧ dict_has (t_db t) (cf_db c) = true) → NoDup acc.*1 →
  (∀ n t, (n, t) ∈ targets → t_name t = n ∧ dict_has (t_db t) (cf_db c) = true) ∧ NoDup targets.*1 ∧
  (∀ n, n ∈ targets.*1 ↔ n ∈ acc.*1 ∨ n ∈ raw.*1).
Proof.
  revert acc. induction raw as [|[n x] raw IH]; intros acc; simpl.
  { intros [= <-] Ha Hnd. split_and!; [done|done|]. intros n. split; [by left|]. by intros [?|?%not_elem_of_nil]. }
  unfold mbind, res_bind. destruct (resolve_target c n x) as [t|] eqn:Hr; [|done]. intros Hrest Ha Hnd.
  assert (Ht : t_name t = n ∧ dict_has (t_db t) (cf_db c) = true).
  { unfold resolve_target in Hr. destruct (dict_has _ (cf_db c)) eqn:Hh; [|done]. simpl in Hr.
    unfold mbind, res_bind in Hr. destruct (_resolve_directory _ c); [|done]. by injection Hr as <-. }
  destruct (IH _ Hrest) as (H1 & H2 & H3); [|by apply dict_set_NoDup|].
  - intros n' t' Hin. apply elem_dict_get in Hin; [|by apply dict_set_NoDup]. rewrite dict_get_set in Hin.
    case_decide; [by simplify_eq|]. apply dict_get_Some_elem in Hin. by apply Ha.
  - split_and!; [done|done|]. intros n'. rewrite H3, dict_set_keys, elem_of_cons. naive_solver.
Qed.

(** A configuration that is accepted gives at least one target, each under
    its own name; with [targets], each on a configured database, and no two of
    them track in the same table of the same physical database, whatever the
    names of their database entries. *)
Theorem targets_never_share (realpath : string → string) (c : config) (targets : list (string * Target))
    (Hres : resolve_targets realpath c = Ok targets) :
  targets ≠ [] ∧ NoDup targets.*1 ∧ (∀ n t, (n, t) ∈ targets → t_name t = n) ∧
  match st_targets (cf_migrations c) with
  | None => targets.*1 = [_DEFAULT_TARGET_NAME]
  | Some raw => (∀ n, n ∈ targets.*1 ↔ n ∈ raw.*1) ∧
      (∀ n t, (n, t) ∈ targets → dict_has (t_db t) (cf_db c) = true) ∧
      NoDup (tracks realpath (cf_db c) <$> targets.*2) ∧ Forall (λ t, is_Some (tracks realpath (cf_db c) t)) targets.*2
  end.
Proof.
  unfold resolve_targets, _reject_shared_tracking_tables in Hres. destruct (st_targets _) as [raw|].
  - destruct (flat_keys _); [|done]. destruct raw as [|x raw]; [done|]. unfold mbind, res_bind in Hres.
    destruct (resolve_entries c (x :: raw) []) as [ts|] eqn:He; [|done].
    destruct (reject_shared realpath [] ts.*2 (cf_db c)) as [[]|] eqn:Hr; [|done]. injection Hres as ->.
    apply reject_shared_ok in Hr as [Hnd Hall].
    apply resolve_entries_names in He as (H1 & H2 & H3); [|by intros ?? ?%not_elem_of_nil|constructor].
    split_and!; [|done|by intros n t Hin; destruct (H1 n t Hin)| |by intros n t Hin; destruct (H1 n t Hin)|done|].
    + intros ->. destruct (not_elem_of_nil x.1). apply (H3 x.1). right. left.
    + intros n. rewrite H3. split; [|by right]. by intros [?%not_elem_of_nil|?].
    + eapply Forall_impl; [exact Hall|]. intros t (k & -> & _). done.
  - unfold mbind, res_bind in Hres. destruct (_resolve_directory _ c); [|done]. injection Hres as <-.
    split_and!; [done|apply NoDup_singleton| |done]. intros n t [= -> ->]%list_elem_of_singleton. done.
Qed.

(** ** A concrete configuration *)
Definition demo_entry (dbname : string) : db_entry :=
  DbEntry None (Some "localhost") None (Some "u") (Some "p") (Some dbname) None.
Definition demo_config : config :=
  Config (Settings None None (Some [("main", TargetEntry None (Some "/m") None); ("gis", TargetEntry (Some "geo") (Some "/g") (Some "gis_log"))]))
    [("main", demo_entry "app"); ("geo", demo_entry "app")] None None.
Definition demo_args (step : string) : arguments := Arguments_ step None false false None false "".
Definition demo_store : store (list string) :=
  Store [] [("/m", demo_dir "boom"); ("/g", demo_dir "create c")].
Abbreviation demo_each := (each_target (D := list string) [] (λ p, p) demo_now (λ _, demo_sql) (λ _ _, 5000) Ok (λ _, Ok ())
  (λ _, []) of_chars (λ _, true) (λ _, Ok ()) Ok (demo_args "apply") demo_config true "me").
Abbreviation demo_all_zero := (all_zero (D := list string) [] (λ p, p) demo_now (λ _, demo_sql) (λ _ _, 5000) Ok (λ _, Ok ())
  (λ _, []) of_chars (λ _, true) (λ _, Ok ()) Ok).
Definition demo_targets : list (string * Target) :=
  [("main", MkTarget "main" "main" "/m" "migrations"); ("gis", MkTarget "gis" "geo" "/g" "gis_log")].

Lemma targets_never_share_witness :
  resolve_targets (λ p, p) demo_config = Ok demo_targets ∧ NoDup (tracks (λ p, p) (cf_db demo_config) <$> demo_targets.*2).
Proof.
  assert (Hr : resolve_targets (λ p, p) demo_config = Ok demo_targets) by (vm_compute; reflexivity).
  split; [exact Hr|]. destruct (targets_never_share (λ p, p) demo_config demo_targets Hr) as (_ & _ & _ & _ & _ & Hnd & _).
  exact Hnd.
Defined.

Lemma apply_stops_at_first_failure_witness :
  (demo_each 0 demo_targets.*2 (World demo_store [] 0)).2 = Ok 1 ∧
  ∃ k w1, (k < 2)%nat ∧ demo_all_zero (demo_args "apply") demo_config true "me" (take k demo_targets.*2) (World demo_store [] 0) w1.
Proof.
  assert (Hcode : (demo_each 0 demo_targets.*2 (World demo_store [] 0)).2 = Ok 1) by (vm_compute; reflexivity).
  split; [exact Hcode|].
  destruct (apply_stops_at_first_failure (D := list string) [] (λ p, p) demo_now (λ _, demo_sql) (λ _ _, 5000) Ok (λ _, Ok ())
    (λ _, []) of_chars (λ _, true) (λ _, Ok ()) Ok (demo_args "apply") demo_config true "me" demo_targets.*2
    (World demo_store [] 0) (demo_each 0 demo_targets.*2 (World demo_store [] 0)).1 (Ok 1) eq_refl)
    as [[Hc _]|(k & t & w1 & Hk & Hz & _)].
  - rewrite <- Hcode. destruct (demo_each 0 demo_targets.*2 (World demo_store [] 0)). reflexivity.
  - discriminate.
  - exists k, w1. split; [|exact Hz]. apply lookup_lt_Some in Hk. exact Hk.
Defined.
