(* ===== verification/QueueCommands.v ===== *)
(** * The queue command line

    [queue/commands.py] and [queue/_service.py]: the commands over any
    [QueueDriver], the installation of the schema, and the dispatch on the
    configured driver. The schema template, the calendar, the file system's
    errors and the connections are parameters. *)

From Stdlib Require Import ZArith Lia.
From S2P Require Import Prelude PyStr Json QueueJob QueueIface QueueWorker MigDiscovery MigService Redis.
From S2P Require QueuePg QueueRedis.

(** What the template becomes. *)
Definition rename_tables (table failed_table schema : string) : string :=
  let schema := if String.eqb failed_table "queue_failed_jobs" then schema
                else replace_str "queue_failed_jobs" failed_table schema in
  if String.eqb table "queue_jobs" then schema else replace_str "queue_jobs" table schema.

(** [template] and [written] are the outcomes of reading the template and of
    writing the file. *)
Definition cmd_install (template : res string) (written : res ()) (table failed_table : string) (now : datetime) : prog directory Z :=
  d ← get_st;
  match _ ← QueuePg.assert_table_name table; QueuePg.assert_table_name failed_table with
  | Err e => _ ← out ("error: " +:+ exn_msg e); mret 2
  | Ok _ =>
      match dir_files d with
      | None => _ ← out ("error: no migrations directory at " +:+ dir_path d); mret 2
      | Some files =>
          match template with
          | Err e => _ ← out ("error: could not read the template: " +:+ exn_msg e); mret 1
          | Ok schema =>
              match new_filename "create queue tables" now with
              | Err e => _ ← out ("error: " +:+ exn_msg e); mret 2
              | Ok filename =>
                  let path := dir_path d +:+ "/" +:+ filename in
                  if dict_has filename files then _ ← out ("error: " +:+ path +:+ " already exists"); mret 1
                  else
                    match written with
                    | Err e => _ ← out ("error: could not write " +:+ path +:+ ": " +:+ exn_msg e); mret 1
                    | Ok _ =>
                        _ ← set_st (Directory (dir_path d)
                                      (Some (dict_set filename (chars (rename_tables table failed_table schema)) files)));
                        _ ← out ("Wrote " +:+ path);
                        _ ← out "Review it, then: python3 src/app.py migrations apply";
                        mret 0
                    end
              end
          end
      end
  end.

(** [_BEFORE_RE] *)
Definition before_shape (s : string) : bool :=
  matches_shape (chars "9999-99-99") (chars s) || matches_shape (chars "9999-99-99 99:99:99") (chars s).
Definition _BEFORE_RE (s : string) : bool := dollar before_shape s.

Definition parse_queues (raw : option string) (d : string) : list string :=
  let names := strip <$> split ","%char (or_default raw d) in
  match filter (λ name, name ≠ "") names with [] => [d] | names => names end.

(** ** Commands over a driver *)
Section commands.
Context {Q : Type} {D : QueueDriver Q} (str_of_moment : Z → string).

(** [except (psycopg.Error, QueueError) as e: out(...); return 1] *)
Definition or_report {A} (text : string) (m : prog Q A) : prog Q (option A) :=
  try_except (a ← m; mret (Some a)) (λ e, is_psycopg_error e || is_class QueueError e)
    (λ e, _ ← out (text +:+ exn_msg e); mret None).

Definition show_stats (r : queue_stats) : string :=
  ljust 24 (qs_queue r) +:+ " " +:+ rjust 9 (str_of_Z (qs_pending r)) +:+ " " +:+ rjust 9 (str_of_Z (qs_delayed r))
  +:+ " " +:+ rjust 9 (str_of_Z (qs_reserved r)) +:+ " " +:+ rjust 9 (str_of_Z (qs_total r)).

Definition cmd_status : prog Q Z :=
  read ← or_report "error: cannot read the queue: " (rows ← drv_stats; failed ← drv_failed_count; mret (rows, failed));
  match read with
  | None => mret 1
  | Some (rows, failed) =>
      _ ← (match rows with
           | [] => out "No jobs queued."
           | _ =>
               _ ← out (ljust 24 "queue" +:+ " " +:+ rjust 9 "pending" +:+ " " +:+ rjust 9 "delayed" +:+ " "
                        +:+ rjust 9 "held" +:+ " " +:+ rjust 9 "total");
               for_each rows (λ r, out (show_stats r))
           end);
      _ ← out "";
      _ ← out ("failed: " +:+ str_of_Z failed);
      _ ← (if 0 <? failed then out "Read them with: python3 src/app.py queue failed" else mret ());
      mret 0
  end.

Definition show_when (w : failed_when) : string :=
  match w with AtMoment t => str_of_moment t | Stamped s => s end.

Definition show_failed (r : failed_report) : prog Q () :=
  _ ← out ("#" +:+ ljust 6 (str_of_Z (rep_id r)) +:+ " " +:+ ljust 26 (show_when (rep_failed_at r)) +:+ " "
           +:+ ljust 16 (rep_queue r) +:+ " " +:+ rep_name r +:+ " (" +:+ str_of_Z (rep_attempts r) +:+ " attempts)");
  let line := hd "" (split "010"%char (rep_error r)) in
  if String.eqb line "" then mret () else out ("    " +:+ line).

Definition cmd_failed (limit : Z) : prog Q Z :=
  if limit <? 1 then _ ← out "error: --limit must be at least 1"; mret 2
  else
    read ← or_report "error: cannot read the queue: " (drv_failed_rows limit);
    match read with
    | None => mret 1
    | Some [] => _ ← out "Nothing has failed."; mret 0
    | Some rows =>
        _ ← for_each rows show_failed;
        _ ← out "";
        _ ← out "Requeue one with: python3 src/app.py queue retry --id N";
        mret 0
    end.

Definition cmd_retry (job_id : option Z) (all_jobs : bool) (max_attempts : Z) : prog Q Z :=
  if bool_decide (job_id = None) && negb all_jobs then _ ← out "error: retry needs --id N or --all"; mret 2
  else
    count ← or_report "error: could not requeue: " (drv_retry_failed job_id max_attempts);
    match count with
    | None => mret 1
    | Some count =>
        if count =? 0 then
          _ ← out "Nothing to requeue.";
          mret (if bool_decide (job_id = None) then 0 else 1)
        else
          _ ← out ("Requeued " +:+ str_of_Z count +:+ " job(s).");
          mret 0
    end.

Definition cmd_forget (job_id : option Z) (all_jobs : bool) (before : option string) : prog Q Z :=
  if bool_decide (job_id = None) && negb all_jobs && bool_decide (before = None) then
    _ ← out "error: forget needs --id N, --all or --before DATE"; mret 2
  else if match before with Some b => negb (_BEFORE_RE b) | None => false end then
    _ ← out ("error: --before=" +:+ repr (default "" before) +:+ " must be YYYY-MM-DD or 'YYYY-MM-DD HH:MM:SS'");
    mret 2
  else
    count ← or_report "error: could not forget: " (drv_forget_failed job_id before);
    match count with
    | None => mret 1
    | Some count => _ ← out ("Deleted " +:+ str_of_Z count +:+ " row(s)."); mret 0
    end.
End commands.

(** ** The service *)

(** The keys of [config["queue"]] that are set. *)
Record queue_config (H : Type) := QueueConfig {
  qc_driver : option string; qc_db : option string; qc_table : option string; qc_failed_table : option string;
  qc_prefix : option string; qc_group : option string; qc_queue : option string; qc_tries : option Z;
  qc_backoff : option backoff_steps; qc_timeout : option Z; qc_sleep : option Z;
  qc_handlers : option (list (string * target H))
}.
Arguments QueueConfig {H} _ _ _ _ _ _ _ _ _ _ _ _.
Arguments qc_driver {H} _.
Arguments qc_db {H} _.
Arguments qc_table {H} _.
Arguments qc_failed_table {H} _.
Arguments qc_prefix {H} _.
Arguments qc_group {H} _.
Arguments qc_queue {H} _.
Arguments qc_tries {H} _.
Arguments qc_backoff {H} _.
Arguments qc_timeout {H} _.
Arguments qc_sleep {H} _.
Arguments qc_handlers {H} _.

Record queue_settings := QueueSettings {
  qs_driver : string; qs_db : string; qs_table : string; qs_failed_table : string; qs_default_queue : string;
  qs_tries : Z; qs_backoff : backoff_steps; qs_timeout : Z; qs_sleep : Z
}.

(** [{**_DEFAULTS, **config["queue"]}]; a sleep is in microseconds. *)
Definition _settings {H} (c : queue_config H) : queue_settings :=
  QueueSettings (default "database" (qc_driver c)) (default "main" (qc_db c)) (default "queue_jobs" (qc_table c))
    (default "queue_failed_jobs" (qc_failed_table c)) (default "default" (qc_queue c)) (default 3 (qc_tries c))
    (default (Steps [10; 60; 300]) (qc_backoff c)) (default 300 (qc_timeout c)) (default 1000000 (qc_sleep c)).

Definition resolve_handlers {H} (c : queue_config H) : list (string * target H) := default [] (qc_handlers c).

(** The command line. *)
Record queue_args := QueueArgs {
  qa_step : string; qa_dir : option string; qa_queue : option string; qa_once : bool; qa_max_jobs : Z; qa_max_time : Z;
  qa_stop_when_empty : bool; qa_timeout : option Z; qa_sleep : option Z; qa_limit : Z; qa_id : option Z; qa_all : bool;
  qa_before : option string
}.

Definition _migrations_dir (realpath : string → string) (args : queue_args) (c : config) : res string :=
  let raw := or_default (qa_dir args) "" in
  if negb (String.eqb raw "") then
    Ok (if is_absolute raw then raw else or_default (cf_current_path c) "." +:+ "/" +:+ raw)
  else
    targets ← resolve_targets realpath c;
    match targets with
    | t :: _ => Ok (t_directory t.2)
    | [] => Err (raise_exn RuntimeError "StopIteration")
    end.

Section dispatch.
Context {Q : Type} {D : QueueDriver Q} {H : Type} (env : importer H).
Context (run_handler : Z → H → Job → world (wstore Q) → world (wstore Q) * (Job * res ())).
Context (sleep_for : Z → prog (wstore Q) ()) (type_name traceback : exn → string) (str_of_moment : Z → string).
Context (worker_id : string).

(** [worker_id] is [f"{socket.gethostname()}:{os.getpid()}"]. *)
Definition make_worker (settings : queue_settings) (c : queue_config H) : worker H :=
  Worker (resolve_handlers c) (qs_backoff settings) (py_take 64 worker_id).

Definition _work (fuel : nat) (args : queue_args) (settings : queue_settings) (c : queue_config H) : prog (wstore Q) (option Z) :=
  let max_jobs := if qa_once args then 1 else qa_max_jobs args in
  let stop_when_empty := qa_stop_when_empty args || qa_once args in
  run env run_handler sleep_for type_name traceback (make_worker settings c)
    (parse_queues (qa_queue args) (qs_default_queue settings)) (default (qs_timeout settings) (qa_timeout args))
    (default (qs_sleep settings) (qa_sleep args)) max_jobs (qa_max_time args) stop_when_empty fuel.

(** [None] when the worker's loop was cut off after [fuel] iterations. *)
Definition _dispatch (fuel : nat) (args : queue_args) (settings : queue_settings) (c : queue_config H) : prog (wstore Q) (option Z) :=
  let step := qa_step args in
  if String.eqb step "work" then _work fuel args settings c
  else if String.eqb step "status" then code ← on_queue cmd_status; mret (Some code)
  else if String.eqb step "failed" then code ← on_queue (cmd_failed str_of_moment (qa_limit args)); mret (Some code)
  else if String.eqb step "retry" then
    code ← on_queue (cmd_retry (qa_id args) (qa_all args) (qs_tries settings)); mret (Some code)
  else if String.eqb step "forget" then
    code ← on_queue (cmd_forget (qa_id args) (qa_all args) (qa_before args)); mret (Some code)
  else _ ← out ("error: unknown queue command " +:+ repr step); mret (Some 1).
End dispatch.

(** What the service reaches: the two stores and the migrations directories. *)
Record service_store (R : Type) := ServiceStore {
  sq_pg : QueuePg.pgdb; sq_redis : R; sq_directories : list (string * directory)
}.
Arguments ServiceStore {R} _ _ _.
Arguments sq_pg {R} _.
Arguments sq_redis {R} _.
Arguments sq_directories {R} _.

(** A program on a part of the store; a worker starts with no stop asked for. *)
Definition on_part {S Q A} (get : S → Q) (put : Q → S → S) (m : prog (wstore Q) A) : prog S A := λ w,
  let '(w', r) := m (World (WStore (get (w_st w)) false) (w_log w) (w_clock w)) in
  (World (put (wk_queue (w_st w')) (w_st w)) (w_log w') (w_clock w'), r).

Section service.
Context {R : Type} `{HR : Redis R} {H : Type} (env : importer H).
Context (pg_handler : Z → H → Job → world (wstore QueuePg.pgdb) → world (wstore QueuePg.pgdb) * (Job * res ())).
Context (redis_handler : Z → H → Job → world (wstore R) → world (wstore R) * (Job * res ())).
Context (pg_sleep : Z → prog (wstore QueuePg.pgdb) ()) (redis_sleep : Z → prog (wstore R) ()).
Context (type_name traceback : exn → string) (str_of_moment : Z → string) (worker_id : string).
Context (locked : list Z) (others : QueuePg.pgdb → QueuePg.pgdb) (parse_timestamp : string → option Z).
Context (stamp_of : Z → string) (parse_epoch : string → option Z).
Context (realpath : string → string) (calendar : Z → datetime) (template : res string) (written : res ()).
Context (pg_reachable : db_entry → res ()) (redis_reachable : res ()).

Definition install_at (settings : queue_settings) (path : string) (now : Z) : prog (service_store R) Z := λ w,
  let d := default (Directory path None) (dict_get path (sq_directories (w_st w))) in
  let '(w', r) := cmd_install template written (qs_table settings) (qs_failed_table settings) (calendar now)
                    (World d (w_log w) (w_clock w)) in
  (World (ServiceStore (sq_pg (w_st w)) (sq_redis (w_st w)) (dict_set path (w_st w') (sq_directories (w_st w))))
     (w_log w') (w_clock w'), r).

Definition install (args : queue_args) (settings : queue_settings) (c : config) : prog (service_store R) Z :=
  path ← lift_res (_migrations_dir realpath args c);
  now ← now_utc;
  install_at settings path now.

(** The body of the [try]; [raise SystemExit] ends it early. *)
Definition queue_body (fuel : nat) (args : queue_args) (q : queue_config H) (c : config) : prog (service_store R) (option Z) :=
  let settings := _settings q in
  let driver := qs_driver settings in
  if negb (String.eqb driver "database" || String.eqb driver "redis") then
    _ ← out ("error: config[" +:+ DQ +:+ "queue" +:+ DQ +:+ "][" +:+ DQ +:+ "driver" +:+ DQ +:+ "] is " +:+ repr driver
             +:+ "; it must be " +:+ DQ +:+ "database" +:+ DQ +:+ " or " +:+ DQ +:+ "redis" +:+ DQ +:+ ".");
    raise (system_exit 2)
  else if String.eqb (qa_step args) "install" then
    if String.eqb driver "redis" then
      _ ← out "Nothing to install: this queue is not on a database."; raise (system_exit 0)
    else code ← install args settings c; raise (system_exit code)
  else if String.eqb driver "redis" then
    let '(prefix, group) := QueueRedis.__init__ (or_default (qc_prefix q) "queue:") (or_default (qc_group q) "workers") in
    _ ← lift_res redis_reachable;
    on_part sq_redis (λ r s, ServiceStore (sq_pg s) r (sq_directories s))
      (_dispatch (D := QueueRedis.redis_driver prefix group stamp_of parse_epoch) env redis_handler redis_sleep
         type_name traceback str_of_moment worker_id fuel args settings q)
  else
    match dict_get (qs_db settings) (cf_db c) with
    | None =>
        _ ← out ("error: no database " +:+ repr (qs_db settings) +:+ " in config[" +:+ DQ +:+ "db" +:+ DQ +:+ "]; configured are: "
                 +:+ or_default (Some (join ", " (MigTracker.sorted_names (cf_db c).*1))) "none" +:+ ".");
        raise (system_exit 2)
    | Some e =>
        _ ← lift_res (connect_kwargs e);
        _ ← lift_res (pg_reachable e);
        _ ← lift_res (QueuePg.__init__ (qs_table settings) (qs_failed_table settings));
        on_part sq_pg (λ d s, ServiceStore d (sq_redis s) (sq_directories s))
          (_dispatch (D := QueuePg.pg_driver locked others false parse_timestamp) env pg_handler pg_sleep
             type_name traceback str_of_moment worker_id fuel args settings q)
    end.

(** The [except] clauses in their order. *)
Definition on_error (e : exn) : prog (service_store R) (option Z) :=
  _ ← out (if is_class QueueError e then "error: " +:+ exn_msg e
           else if is_interrupt e then "queue: interrupted"
           else "queue: unhandled failure");
  raise (system_exit 1).

(** Exits the process, or answers [()] when [fuel] iterations of the worker
    were not enough. *)
Definition init_service (fuel : nat) (args : queue_args) (q : queue_config H) (c : config) : prog (service_store R) () :=
  code ← try_except (queue_body fuel args q c) (λ e, is_interrupt e || is_exception e) on_error;
  match code with
  | Some code => raise (system_exit code)
  | None => mret ()
  end.
End service.
