(* ===== verification/QueueCommandsProps.v ===== *)
(** * The queue command line: properties

    What each command does with the driver's answer, and that the service
    always exits and only touches the store of the configured driver. *)

From Stdlib Require Import ZArith Lia.
From S2P Require Import Prelude PyStr Json QueueJob QueueIface QueueWorker MigDiscovery MigService MigServiceProps Redis QueueCommands.
From S2P Require QueuePg QueueRedis.

Section commands.
Context {Q : Type} {D : QueueDriver Q} (str_of_moment : Z → string).

(** The errors a command reports itself. *)
Definition reported (e : exn) : bool := is_psycopg_error e || is_class QueueError e.

(** Only lines were printed. *)
Definition same_store (w w' : world Q) : Prop := w_st w' = w_st w ∧ w_clock w' = w_clock w.

(** [run] refused, or called the driver and answers [code a] for its answer
    [a], 1 for an error it reports, and passes any other error on. *)
Definition answers {A} (run : world Q * res Z) (call : world Q * res A) (code : A → Z) : Prop :=
  match call with
  | (w1, Ok a) => same_store w1 run.1 ∧ run.2 = Ok (code a)
  | (w1, Err e) => same_store w1 run.1 ∧ run.2 = if reported e then Ok 1 else Err e
  end.

Ltac quiet := run_prog; unfold same_store in *; simpl in *; try done; auto.

Lemma same_store_refl w : same_store w w.
Proof. done. Qed.

Lemma out_lines {A} (l : list A) (f : A → prog Q ()) (w : world Q) :
  (∀ x w, same_store w (f x w).1 ∧ (f x w).2 = Ok ()) →
  same_store w (for_each l f w).1 ∧ (for_each l f w).2 = Ok ().
Proof.
  intros Hf. revert w. induction l as [|x l IH]; intros w; simpl; [done|]. unfold mbind, prog_bind.
  destruct (Hf x w) as [Hs Hr]. destruct (f x w) as [w1 [u|e]]; simpl in *; [|done].
  destruct (IH w1) as [Hs' Hr']. split; [|done]. unfold same_store in *. destruct Hs, Hs'. split; congruence.
Qed.

Lemma or_report_run {A} text (m : prog Q A) w :
  match m w with
  | (w1, Ok a) => or_report text m w = (w1, Ok (Some a))
  | (w1, Err e) => if reported e then same_store w1 (or_report text m w).1 ∧ (or_report text m w).2 = Ok None
                   else or_report text m w = (w1, Err e)
  end.
Proof. unfold or_report, reported. run_prog. destruct (m w) as [w1 [a|e]]; [done|]. by destruct (_ || _). Qed.

Lemma answers_report {A} text (m : prog Q A) (k : A → prog Q Z) (code : A → Z) w :
  (∀ a w, same_store w (k a w).1 ∧ (k a w).2 = Ok (code a)) →
  answers ((r ← or_report text m; match r with None => mret 1 | Some a => k a end) w) (m w) code.
Proof.
  intros Hk. pose proof (or_report_run text m w) as Hr. unfold answers, mbind, prog_bind.
  destruct (m w) as [w1 [a|e]]; [rewrite Hr; apply Hk|].
  destruct (reported e); [|by rewrite Hr]. destruct Hr as [Hs Ho].
  destruct (or_report _ _ _) as [w2 r]. simpl in *. by subst r.
Qed.

(** What [cmd_status] asks the driver. *)
Definition status_call : prog Q (list queue_stats * Z) := rows ← drv_stats; failed ← drv_failed_count; mret (rows, failed).

(** Over any driver, each command is refused with code 2 before the driver
    is touched when its options do not say what to act on, calls the driver
    exactly once otherwise, reports a database or queue error as code 1,
    passes every other error on, and answers 0 - except that requeueing one
    job by id that is not there is an error, and requeueing all of none is
    not. *)
Theorem queue_commands_spec (w : world Q) :
  answers (cmd_status w) (status_call w) (λ _, 0) ∧
  (∀ limit, if limit <? 1 then same_store w (cmd_failed str_of_moment limit w).1 ∧ (cmd_failed str_of_moment limit w).2 = Ok 2
            else answers (cmd_failed str_of_moment limit w) (drv_failed_rows limit w) (λ _, 0)) ∧
  (∀ id all n, if bool_decide (id = None) && negb all then same_store w (cmd_retry id all n w).1 ∧ (cmd_retry id all n w).2 = Ok 2
     else answers (cmd_retry id all n w) (drv_retry_failed id n w)
            (λ count, if (count =? 0) && bool_decide (id ≠ None) then 1 else 0)) ∧
  (∀ id all before,
     if (bool_decide (id = None) && negb all && bool_decide (before = None)) ||
        match before with Some b => negb (_BEFORE_RE b) | None => false end
     then same_store w (cmd_forget id all before w).1 ∧ (cmd_forget id all before w).2 = Ok 2
     else answers (cmd_forget id all before w) (drv_forget_failed id before w) (λ _, 0)).
Proof.
  split_and!.
  - unfold cmd_status. fold status_call. apply answers_report. intros [rows failed] w1.
    destruct rows as [|r rows]; [destruct (0 <? failed); quiet|].
    cbv beta iota. set (all := r :: rows). clearbody all. set (head_line := ljust 24 "queue" +:+ _).
    set (w2 := World (w_st w1) (w_log w1 ++ [head_line]) (w_clock w1)).
    destruct (out_lines all (λ r, out (show_stats r)) w2) as [[Hs1 Hs2] Hk]; [done|].
    run_prog. fold w2. match goal with H : _ = Ok () |- _ => revert Hs1 Hs2 H end.
    match goal with |- context [for_each all ?f w2] => destruct (for_each all f w2) as [w3 [u|]] end; simpl; [|done].
    intros Hs1 Hs2 _. destruct (0 <? failed); (split; [split; assumption|reflexivity]).
  - intros limit. unfold cmd_failed. destruct (limit <? 1); [done|]. apply answers_report.
    intros rows w1. destruct rows as [|r rows]; [quiet|]. cbv beta iota. set (all := r :: rows). clearbody all. unfold mbind, prog_bind.
    destruct (out_lines all (show_failed str_of_moment) w1) as [Hs Hk].
    { intros x w2. unfold show_failed. run_prog. destruct (String.eqb _ _); quiet. }
    destruct (for_each all _ w1) as [w3 [u|]]; simpl in *; done.
  - intros i all n. unfold cmd_retry. destruct (_ && _); [done|]. apply answers_report.
    intros count w1. run_prog. destruct (count =? 0); [|quiet]. destruct i; quiet.
  - intros i all before. unfold cmd_forget. destruct (_ && _ && _); [done|]. cbn [orb].
    destruct (match before with Some _ => _ | None => _ end); [done|]. apply answers_report.
    intros count w1. quiet.
Qed.
End commands.

(** ** The service *)
Section service.
Context {R : Type} `{HR : Redis R} {H : Type} (env : importer H).
Context (pg_handler : Z → H → Job → world (wstore QueuePg.pgdb) → world (wstore QueuePg.pgdb) * (Job * res ())).
Context (redis_handler : Z → H → Job → world (wstore R) → world (wstore R) * (Job * res ())).
Context (pg_sleep : Z → prog (wstore QueuePg.pgdb) ()) (redis_sleep : Z → prog (wstore R) ()).
Context (type_name traceback : exn → string) (str_of_moment : Z → string) (worker_id : string).
Context (locked : list Z) (others : QueuePg.pgdb → QueuePg.pgdb) (parse_timestamp : string → option Z).
Context (stamp_of : Z → string) (parse_epoch : string → option Z).
Context (realpath : string → string) (calendar : Z → datetime) (template : res string) (written : res ()).
Context (pg_reachable : db_entry → res ()) (redis_reachable : res ()).

Abbreviation body := (queue_body env pg_handler redis_handler pg_sleep redis_sleep type_name traceback str_of_moment
  worker_id locked others parse_timestamp stamp_of parse_epoch realpath calendar template written pg_reachable redis_reachable).
Abbreviation service := (init_service env pg_handler redis_handler pg_sleep redis_sleep type_name traceback str_of_moment
  worker_id locked others parse_timestamp stamp_of parse_epoch realpath calendar template written pg_reachable redis_reachable).

Lemma dispatch_None {Q} {D : QueueDriver Q} run_handler sleep_for fuel args settings (c : queue_config H) w w' :
  @_dispatch Q D H env run_handler sleep_for type_name traceback str_of_moment worker_id fuel args settings c w = (w', Ok None) →
  qa_step args = "work".
Proof.
  unfold _dispatch. destruct (String.eqb_spec (qa_step args) "work") as [|Hw]; [done|].
  assert (Hsome : ∀ m : prog (wstore Q) Z, (code ← m; mret (Some code)) w = (w', Ok None) → False).
  { intros m. unfold mbind, prog_bind. by destruct (m w) as [? [|]]. }
  repeat (destruct (String.eqb _ _); [by intros ?%Hsome|]). run_prog. done.
Qed.

(** The two queues are as they were. *)
Definition same_queues (s s' : service_store R) : Prop := sq_pg s' = sq_pg s ∧ sq_redis s' = sq_redis s.

Lemma install_same args settings c w :
  same_queues (w_st w) (w_st (install realpath calendar template written args settings c w).1).
Proof.
  unfold install, install_at. run_prog. destruct (_migrations_dir _ _ _); [|done]. by destruct (cmd_install _ _ _ _ _ _).
Qed.

Ltac by_driver := split_and!; try done; try (intros; congruence).

(** What the body does, by the configured driver. *)
Lemma queue_body_spec fuel args q c w w' r : body fuel args q c w = (w', r) →
  let driver := qs_driver (_settings q) in
  (r = Ok None → qa_step args = "work") ∧
  (qa_step args = "install" → same_queues (w_st w) (w_st w')) ∧
  (driver ≠ "redis" → sq_redis (w_st w') = sq_redis (w_st w)) ∧
  (driver ≠ "database" → sq_pg (w_st w') = sq_pg (w_st w)) ∧
  (driver ≠ "redis" → driver ≠ "database" → r = Err (system_exit 2)).
Proof.
  unfold queue_body. cbv zeta.
  destruct (String.eqb_spec (qs_driver (_settings q)) "database") as [Hd|Hd],
    (String.eqb_spec (qs_driver (_settings q)) "redis") as [Hr|Hr]; [congruence| | |]; cbn [orb negb].
  - destruct (String.eqb_spec (qa_step args) "install") as [Hi|Hi].
    { pose proof (install_same args (_settings q) c w) as Hs. unfold mbind, prog_bind.
      destruct (install _ _ _ _ args _ c w) as [w1 [code|e]]; intros [= <- <-]; destruct Hs; by_driver. }
    destruct (dict_get _ _) as [e|]; [|run_prog; intros [= <- <-]; by_driver].
    unfold mbind, prog_bind, lift_res. destruct (connect_kwargs e); [|intros [= <- <-]; by_driver].
    destruct (pg_reachable e); [|intros [= <- <-]; by_driver].
    destruct (QueuePg.__init__ _ _); [|intros [= <- <-]; by_driver].
    unfold on_part. destruct (_dispatch _ _ _ _ _ _ _ _ _ _ _ _) as [w1 r1] eqn:Hdis. intros [= <- <-]. simpl.
    by_driver. intros ->. by eapply dispatch_None.
  - destruct (String.eqb_spec (qa_step args) "install") as [Hi|Hi].
    { run_prog. intros [= <- <-]. by_driver. }
    destruct (QueueRedis.__init__ _ _) as [prefix group]. unfold mbind, prog_bind, lift_res.
    destruct redis_reachable; [|intros [= <- <-]; by_driver].
    unfold on_part. destruct (_dispatch _ _ _ _ _ _ _ _ _ _ _ _) as [w1 r1] eqn:Hdis. intros [= <- <-]. simpl.
    by_driver. intros ->. by eapply dispatch_None.
  - run_prog. intros [= <- <-]. by_driver.
Qed.

(** The queue service always exits the process - only a worker whose loop
    was cut off by the bound of the model does not - and it exits with 2 when
    the configured driver is neither of the two. It never touches the store
    of the other driver, [install] never touches a queue, and whatever was
    raised on the way becomes an exit code that is not 0. *)
Theorem queue_service_exits (fuel : nat) (args : queue_args) (q : queue_config H) (c : config) (w : world (service_store R)) :
  let '(w', r) := service fuel args q c w in
  let driver := qs_driver (_settings q) in
  match r with Ok _ => qa_step args = "work" | Err e => exn_cls e = SystemExit end ∧
  (∀ e, (body fuel args q c w).2 = Err e → exn_cls e ≠ SystemExit → r = Err (system_exit 1)) ∧
  (qa_step args = "install" → same_queues (w_st w) (w_st w')) ∧
  (driver ≠ "redis" → sq_redis (w_st w') = sq_redis (w_st w)) ∧
  (driver ≠ "database" → sq_pg (w_st w') = sq_pg (w_st w)) ∧
  (driver ≠ "redis" → driver ≠ "database" → r = Err (system_exit 2)).
Proof.
  unfold init_service, try_except. unfold mbind at 1, prog_bind at 1.
  destruct (body fuel args q c w) as [w1 r1] eqn:Hb. pose proof (queue_body_spec _ _ _ _ _ _ _ Hb) as (H1 & H2 & H3 & H4 & H5).
  cbv zeta in *. simpl. destruct r1 as [[code|]|e].
  - unfold raise. split_and!; try done. intros Hr Hd. discriminate (H5 Hr Hd).
  - unfold mret, prog_ret. split_and!; try done; [by apply H1|]. intros Hr Hd. discriminate (H5 Hr Hd).
  - destruct (is_interrupt e || is_exception e) eqn:He.
    + unfold on_error. run_prog. split_and!; try done. intros Hr Hd. specialize (H5 Hr Hd). by simplify_eq.
    + destruct (exn_cases e) as [?|Hc]; [congruence|]. split_and!; try done; [by intros e' [= <-] Hne|]. intros Hr Hd. by injection (H5 Hr Hd) as ->.
Qed.
End service.

(** ** The installed schema *)

(** Both names are accepted, but the second replacement rewrites the failed
    table's new name as well. *)
Lemma install_renames_twice :
  QueuePg.assert_table_name "jobs" = Ok "jobs" ∧
  QueuePg.assert_table_name "queue_jobs_failed" = Ok "queue_jobs_failed" ∧
  rename_tables "jobs" "queue_jobs_failed" "CREATE TABLE queue_failed_jobs (" = "CREATE TABLE jobs_failed (".
Proof. vm_compute. done. Qed.
