(* ===== verification/Throttle.v ===== *)
(** * Rate limiting

    [throttle/throttle.py]: the script on the keyspace and the methods around
    it. [up] is whether the server answers a call; SHA-256 is a parameter. A
    stored number is one that is written as an integer; times are seconds. *)

From Stdlib Require Import ZArith Lia.
From S2P Require Import Prelude PyStr Json QueueIface Redis.

Definition _DEFAULT_PREFIX : string := "throttle:".

Record Attempt := MkAttempt {
  allowed : bool; limit : Z; hits : Z; remaining : Z; retry_after : Z; reset_at : Z
}.

Definition headers (a : Attempt) : list (string * string) :=
  [("X-RateLimit-Limit", str_of_Z (limit a)); ("X-RateLimit-Remaining", str_of_Z (remaining a));
   ("X-RateLimit-Reset", str_of_Z (reset_at a))]
  ++ (if allowed a then [] else [("Retry-After", str_of_Z (retry_after a))]).

(** The keys of [config["throttle"]]. *)
Record throttle_config := ThrottleConfig { tc_prefix : option string; tc_fail_open : option bool }.

(** The prefix and [fail_open] of [Throttle.from_config]. *)
Definition from_config (c : throttle_config) : string * bool :=
  (match tc_prefix c with Some p => if String.eqb p "" then _DEFAULT_PREFIX else p | None => _DEFAULT_PREFIX end,
   match tc_fail_open c with Some false => false | _ => true end).

Definition _assert_limit (max_attempts window : Z) : res () :=
  if max_attempts <? 1 then
    Err (raise_exn ValueError ("A throttle limit is at least 1 attempt; got " +:+ str_of_Z max_attempts +:+ "."))
  else if window <? 1 then
    Err (raise_exn ValueError ("A throttle window is at least 1 second; got " +:+ str_of_Z window +:+ "."))
  else Ok ().

Definition _attempt (hits reset_at max_attempts now : Z) : Attempt :=
  let allowed := hits <=? max_attempts in
  MkAttempt allowed max_attempts hits (Z.max 0 (max_attempts - hits))
    (if allowed then 0 else Z.max 0 (reset_at - now)) reset_at.

(** [_parse] on the reply of HMGET. *)
Definition _parse (stored : list (option string)) : option Z * option Z :=
  match stored with
  | [Some a; Some b] =>
      match Z_of_str a, Z_of_str b with Some h, Some t => (Some h, Some t) | _, _ => (None, None) end
  | _ => (None, None)
  end.

Section throttle.
Context {R : Type} `{Redis R} (sha256_hex : list ascii → string) (prefix : string) (fail_open : bool).

Definition cache_key (key : string) : string := prefix +:+ sha256_hex (chars key).

Definition _HIT_SCRIPT (key : string) (now window : Z) (r : R) : R * (Z * Z) :=
  let '(hits, reset) :=
    match r_hget key "hits" r ≫= Z_of_str, r_hget key "reset" r ≫= Z_of_str with
    | Some hits, Some reset => if reset <=? now then (0, now + window) else (hits, reset)
    | _, _ => (0, now + window)
    end in
  let hits := hits + 1 in
  let r := r_hset key [("hits", str_of_Z hits); ("reset", str_of_Z reset)] r in
  (r_expire key (Z.max 1 (reset - now)) r, (hits, reset)).

Definition _unavailable (error : exn) (max_attempts now window : Z) : prog R Attempt :=
  if negb fail_open then raise error
  else
    _ ← out ("throttle: " +:+ exn_msg error);
    mret (MkAttempt true max_attempts 0 max_attempts 0 (now + window)).

Definition _run_hit (up : res ()) (key : string) (now window : Z) : prog R (Z * Z) :=
  _ ← lift_res up; stmt (_HIT_SCRIPT (cache_key key) now window).

(** [int(time.time())] *)
Definition now_seconds : prog R Z := t ← now_utc; mret (t / second).

Definition hit (up : res ()) (key : string) (max_attempts window : Z) : prog R Attempt :=
  _ ← lift_res (_assert_limit max_attempts window);
  now ← now_seconds;
  try_except (counted ← _run_hit up key now window; mret (_attempt counted.1 counted.2 max_attempts now))
    is_exception (λ e, _unavailable e max_attempts now window).

Definition read_stored (up : res ()) (key : string) : prog R (list (option string)) :=
  _ ← lift_res up;
  r ← get_st;
  mret [r_hget (cache_key key) "hits" r; r_hget (cache_key key) "reset" r].

Definition check (up : res ()) (key : string) (max_attempts : Z) : prog R Attempt :=
  _ ← lift_res (_assert_limit max_attempts 1);
  now ← now_seconds;
  try_except
    (stored ← read_stored up key;
     match _parse stored with
     | (Some hits, Some reset_at) =>
         if reset_at <=? now then mret (MkAttempt true max_attempts 0 max_attempts 0 now)
         else mret (_attempt hits reset_at max_attempts now)
     | _ => mret (MkAttempt true max_attempts 0 max_attempts 0 now)
     end)
    is_exception (λ e, _unavailable e max_attempts now 0).

Definition clear (up : res ()) (key : string) : prog R () :=
  try_except (_ ← lift_res up; stmt (λ r, (r_del (cache_key key) r, ()))) is_exception
    (λ e, if negb fail_open then raise e else out ("throttle: could not clear a counter: " +:+ exn_msg e)).
End throttle.

(** ** What the limiter promises *)

Section throttle_facts.
Context {R : Type} `{HL : RedisLaws R} (sha256_hex : list ascii → string) (prefix : string) (fail_open : bool).

(** The counter a key holds, when both of its numbers can be read. *)
Definition stored (key : string) (r : R) : option (Z * Z) :=
  h ← r_hget (cache_key sha256_hex prefix key) "hits" r ≫= Z_of_str;
  t ← r_hget (cache_key sha256_hex prefix key) "reset" r ≫= Z_of_str; Some (h, t).

(** The window a hit at [now] counts in, and the hits it has already. *)
Definition window_at (now window : Z) (s : option (Z * Z)) : Z * Z :=
  match s with
  | Some (h, t) => if t <=? now then (0, now + window) else (h, t)
  | None => (0, now + window)
  end.

Lemma hget_counter key hits reset r :
  let r' := r_hset (cache_key sha256_hex prefix key) [("hits", hits); ("reset", reset)] r in
  r_hget (cache_key sha256_hex prefix key) "hits" r' = Some hits
  ∧ r_hget (cache_key sha256_hex prefix key) "reset" r' = Some reset.
Proof. split; simpl; rewrite hget_hset, decide_True by done; done. Qed.

Lemma script_spec key now window r :
  let c := window_at now window (stored key r) in
  ∃ r', _HIT_SCRIPT (cache_key sha256_hex prefix key) now window r = (r', (c.1 + 1, c.2))
    ∧ stored key r' = Some (c.1 + 1, c.2)
    ∧ ∀ other f, cache_key sha256_hex prefix other ≠ cache_key sha256_hex prefix key →
        r_hget (cache_key sha256_hex prefix other) f r' = r_hget (cache_key sha256_hex prefix other) f r.
Proof.
  intros c. unfold _HIT_SCRIPT.
  assert (Hc : match r_hget (cache_key sha256_hex prefix key) "hits" r ≫= Z_of_str,
                     r_hget (cache_key sha256_hex prefix key) "reset" r ≫= Z_of_str with
               | Some h, Some t => if t <=? now then (0, now + window) else (h, t)
               | _, _ => (0, now + window) end = c).
  { unfold c, stored. destruct (r_hget _ "hits" r ≫= Z_of_str); [|done].
    by destruct (r_hget _ "reset" r ≫= Z_of_str). }
  rewrite Hc. destruct c as [h t]. eexists. split; [reflexivity|]. split.
  - unfold stored. rewrite !expire_hashes by lia. destruct (hget_counter key (str_of_Z (h + 1)) (str_of_Z t) r) as [-> ->].
    simpl. by rewrite !Z_of_str_of_Z.
  - intros other f Hne. rewrite expire_hashes by lia. by rewrite hget_hset, decide_False.
Qed.

Lemma assert_limit_ok m window : 1 ≤ m → 1 ≤ window → _assert_limit m window = Ok ().
Proof. intros. unfold _assert_limit. rewrite !(proj2 (Z.ltb_ge _ _)) by lia. done. Qed.

(** A counted hit: the answer and the counter it leaves. *)
Lemma hit_counts key m window w :
  1 ≤ m → 1 ≤ window →
  let now := w_clock w / second in
  let c := window_at now window (stored key (w_st w)) in
  ∃ r', hit sha256_hex prefix fail_open (Ok ()) key m window w
        = (World r' (w_log w) (w_clock w), Ok (_attempt (c.1 + 1) c.2 m now))
    ∧ stored key r' = Some (c.1 + 1, c.2)
    ∧ ∀ other f, cache_key sha256_hex prefix other ≠ cache_key sha256_hex prefix key →
        r_hget (cache_key sha256_hex prefix other) f r' = r_hget (cache_key sha256_hex prefix other) f (w_st w).
Proof.
  intros Hm Hw now c. destruct (script_spec key now window (w_st w)) as (r' & Hs & Hst & Ho).
  exists r'. split; [|done]. unfold hit. rewrite assert_limit_ok by done.
  unfold now_seconds, _run_hit. run_prog. change (w_clock w / second) with now. by rewrite Hs.
Qed.

(** ** Histories of one key

    What can happen to one counter as time passes: a hit at the clock's
    second, or any other command, which leaves the counter alone or, once its
    window is over, lets it expire. The newest attempt comes first. *)
Inductive history (key : string) (m window : Z) : Z → R → list (Z * Attempt) → Prop :=
  | history_start t r : stored key r = None → history key m window t r []
  | history_hit t w w' a l :
      history key m window t (w_st w) l → t ≤ w_clock w / second →
      hit sha256_hex prefix fail_open (Ok ()) key m window w = (w', Ok a) →
      history key m window (w_clock w / second) (w_st w') ((w_clock w / second, a) :: l)
  | history_other t t' r r' l :
      history key m window t r l → t ≤ t' →
      (stored key r' = stored key r
       ∨ stored key r' = None ∧ ∀ h z, stored key r = Some (h, z) → z ≤ t') →
      history key m window t' r' l.

(** The attempts of a history that were let through and satisfy [P]. *)
Definition let_through (P : Z * Attempt → Prop) `{∀ x, Decision (P x)} (l : list (Z * Attempt)) : Z :=
  Z.of_nat (length (filter (λ x, allowed x.2 = true ∧ P x) l)).

Definition counted_in (z : Z) (l : list (Z * Attempt)) : Z :=
  Z.of_nat (length (filter (λ x, reset_at x.2 = z) l)).

(** What holds along a history: an attempt lies in its window, windows that
    differ start at least a window apart, and the stored counter is the number
    of attempts of the last one. *)
Record history_ok (m window t : Z) (s : option (Z * Z)) (l : list (Z * Attempt)) : Prop := {
  ok_inside x : x ∈ l → x.1 ≤ t ∧ x.1 < reset_at x.2 ≤ x.1 + window;
  ok_counted z : let_through (λ x, reset_at x.2 = z) l = Z.min m (counted_in z l);
  ok_apart x y : x ∈ l → y ∈ l → reset_at x.2 < reset_at y.2 → reset_at x.2 + window ≤ reset_at y.2;
  ok_stored h z : s = Some (h, z) → h = counted_in z l ∧ (∀ x, x ∈ l → reset_at x.2 ≤ z)
    ∧ ∃ x, x ∈ l ∧ reset_at x.2 = z;
  ok_absent x : s = None → x ∈ l → reset_at x.2 ≤ t
}.

Lemma counted_cons z x l :
  counted_in z (x :: l) = (if decide (reset_at x.2 = z) then 1 else 0) + counted_in z l.
Proof. unfold counted_in. rewrite filter_cons. case_decide; cbn [length]; lia. Qed.

Lemma let_through_cons P `{∀ x, Decision (P x)} x l :
  let_through P (x :: l) = (if decide (allowed x.2 = true ∧ P x) then 1 else 0) + let_through P l.
Proof. unfold let_through. rewrite filter_cons. case_decide; cbn [length]; lia. Qed.

Lemma counted_none z l : (∀ x, x ∈ l → reset_at x.2 ≠ z) → counted_in z l = 0.
Proof. intros Hz. unfold counted_in. by rewrite filter_none. Qed.

(** One more attempt [h + 1] in a window that has counted [h]. *)
Lemma history_ok_cons m window t t' s l h z :
  0 < m → t ≤ t' → history_ok m window t s l →
  h = counted_in z l → t' < z ≤ t' + window →
  (∀ x, x ∈ l → reset_at x.2 = z ∨ reset_at x.2 + window ≤ z) →
  history_ok m window t' (Some (h + 1, z)) ((t', _attempt (h + 1) z m t') :: l).
Proof.
  intros Hm Ht [Hin Hcount Hap Hst Hab] Hh Hz Hl. split.
  - intros x [->|Hx]%elem_of_cons; simpl; [lia|]. specialize (Hin x Hx). lia.
  - intros z'. rewrite let_through_cons, counted_cons, Hcount. simpl.
    destruct (decide (z = z')) as [->|]; [|rewrite decide_False by tauto; lia].
    destruct (h + 1 <=? m) eqn:E; [rewrite decide_True by done|rewrite decide_False by naive_solver]; lia.
  - intros x y [->|Hx]%elem_of_cons [->|Hy]%elem_of_cons; simpl; intros Hlt; [lia| | |by apply Hap].
    + destruct (Hl y Hy); lia.
    + destruct (Hl x Hx); lia.
  - intros h' z' [= <- <-]. rewrite counted_cons. simpl. rewrite decide_True by done.
    split_and!; [lia| |].
    + intros x [->|Hx]%elem_of_cons; simpl; [lia|]. specialize (Hin x Hx). destruct (Hl x Hx); lia.
    + eexists. split; [left|done].
  - intros x [=].
Qed.

Lemma history_sound key m window t r l :
  1 ≤ m → 1 ≤ window → history key m window t r l → history_ok m window t (stored key r) l.
Proof.
  intros Hm Hw Hh. induction Hh as [t r Hs|t w w' a l Hh IH Ht Hhit|t t' r r' l Hh IH Ht Hs].
  - rewrite Hs. split.
    + intros x []%not_elem_of_nil.
    + intros z. unfold let_through, counted_in. simpl. lia.
    + intros x y []%not_elem_of_nil.
    + intros h z [=].
    + intros x _ []%not_elem_of_nil.
  - destruct (hit_counts key m window w Hm Hw) as (r' & Hr & Hst & _).
    rewrite Hhit in Hr. injection Hr as -> ->. simpl. rewrite Hst.
    pose proof IH as [Hin Hcount Hap Hsto Hab].
    assert (Hfresh : (∀ x, x ∈ l → reset_at x.2 ≤ w_clock w / second) →
      history_ok m window (w_clock w / second) (Some (0 + 1, w_clock w / second + window))
        ((w_clock w / second, _attempt (0 + 1) (w_clock w / second + window) m (w_clock w / second)) :: l)).
    { intros Hold. eapply history_ok_cons; [lia|exact Ht|exact IH| |lia|].
      - rewrite counted_none; [done|]. intros x Hx Heq. specialize (Hold x Hx). lia.
      - intros x Hx. right. specialize (Hold x Hx). lia. }
    destruct (stored key (w_st w)) as [[h z]|] eqn:Hs; simpl in *.
    + destruct (Hsto h z eq_refl) as (Hh' & Hmax & x0 & Hx0 & Hz0).
      destruct (z <=? w_clock w / second) eqn:Hz; simpl.
      * apply Hfresh. intros x Hx. specialize (Hmax x Hx). lia.
      * eapply history_ok_cons; [lia|exact Ht|exact IH|done| |].
        -- specialize (Hin x0 Hx0). lia.
        -- intros x Hx. specialize (Hmax x Hx). destruct (decide (reset_at x.2 = z)); [by left|right].
           rewrite <- Hz0. apply Hap; [done|done|lia].
    + apply Hfresh. intros x Hx. specialize (Hab x eq_refl Hx). lia.
  - destruct IH as [Hin Hcount Hap Hsto Hab]. split; [|done|done| |].
    + intros x Hx. specialize (Hin x Hx). lia.
    + intros h z Heq. destruct Hs as [Hs|[Hs _]]; [apply Hsto; congruence|congruence].
    + intros x Heq Hx. destruct Hs as [Hs|[_ Hs]].
      * rewrite Hs in Heq. specialize (Hab x Heq Hx). lia.
      * destruct (stored key r) as [[h z]|]; [|specialize (Hab x eq_refl Hx); lia].
        destruct (Hsto h z eq_refl) as (_ & Hmax & _). specialize (Hs h z eq_refl). specialize (Hmax x Hx). lia.
Qed.

Lemma let_through_le (P Q : Z * Attempt → Prop) `{∀ x, Decision (P x)} `{∀ x, Decision (Q x)} l :
  (∀ x, x ∈ l → P x → Q x) → let_through P l ≤ let_through Q l.
Proof.
  induction l as [|x l IH]; intros HPQ; [done|]. rewrite !let_through_cons.
  specialize (IH ltac:(intros; apply HPQ; [by right|done])). specialize (HPQ x ltac:(left)).
  repeat case_decide; try lia. tauto.
Qed.

Lemma let_through_or (P Q : Z * Attempt → Prop) `{∀ x, Decision (P x)} `{∀ x, Decision (Q x)} l :
  let_through (λ x, P x ∨ Q x) l ≤ let_through P l + let_through Q l.
Proof.
  induction l as [|x l IH]; [done|]. rewrite !let_through_cons.
  repeat case_decide; try lia; tauto.
Qed.

Lemma denied_counted x z l :
  x ∈ l → reset_at x.2 = z → allowed x.2 = false → let_through (λ y, reset_at y.2 = z) l < counted_in z l.
Proof.
  assert (Hle : ∀ l, let_through (λ y, reset_at y.2 = z) l ≤ counted_in z l).
  { intros l0. induction l0 as [|y l0 IH]; [done|]. rewrite let_through_cons, counted_cons. repeat case_decide; try lia. }
  intros Hx Hz Hd. induction l as [|y l IH]; [by apply not_elem_of_nil in Hx|].
  rewrite let_through_cons, counted_cons. apply elem_of_cons in Hx as [<-|Hx].
  - specialize (Hle l). repeat case_decide; try lia; destruct_and?; congruence.
  - specialize (IH Hx). repeat case_decide; try lia.
Qed.

(** The attempts of a stretch no longer than a window are in at most two windows. *)
Lemma two_windows m window t s l from :
  history_ok m window t s l →
  ∃ z1 z2, ∀ x, x ∈ l → from ≤ x.1 < from + window → reset_at x.2 = z1 ∨ reset_at x.2 = z2.
Proof.
  intros [Hin _ Hap _ _].
  destruct (decide (Exists (λ x, from ≤ x.1 < from + window) l)) as [Hx|Hx].
  2: { exists 0, 0. intros x Hxl Hr. destruct Hx. apply Exists_exists. by exists x. }
  apply Exists_exists in Hx as (x & Hxl & Hxr). exists (reset_at x.2).
  destruct (decide (Exists (λ y, from ≤ y.1 < from + window ∧ reset_at y.2 ≠ reset_at x.2) l)) as [Hy|Hy].
  2: { exists 0. intros y Hyl Hr. left. destruct (decide (reset_at y.2 = reset_at x.2)); [done|].
       destruct Hy. apply Exists_exists. by exists y. }
  apply Exists_exists in Hy as (y & Hyl & Hyr & Hne). exists (reset_at y.2). intros u Hu Hur.
  pose proof (Hin x Hxl). pose proof (Hin y Hyl). pose proof (Hin u Hu).
  pose proof (Hap x y Hxl Hyl). pose proof (Hap y x Hyl Hxl). pose proof (Hap x u Hxl Hu).
  pose proof (Hap u x Hu Hxl). pose proof (Hap y u Hyl Hu). pose proof (Hap u y Hu Hyl). lia.
Qed.
End throttle_facts.

(** C30: Over any history of one key under one limit, no window lets more than
    [m] attempts through, every attempt lies in the window it is counted in,
    an attempt is denied only after [m] others of its window, and any stretch
    of time as long as a window sees at most [2 * m] attempts let through (the
    worst case the module states for a fixed window). *)
Theorem throttle_bound {R} `{HL : RedisLaws R} sha256_hex prefix fail_open key m window t (r : R) l :
  1 ≤ m → 1 ≤ window → history sha256_hex prefix fail_open key m window t r l →
  (∀ z, let_through (λ x, reset_at x.2 = z) l ≤ m)
  ∧ (∀ x, x ∈ l → x.1 < reset_at x.2 ≤ x.1 + window)
  ∧ (∀ x, x ∈ l → allowed x.2 = false → let_through (λ y, reset_at y.2 = reset_at x.2) l = m)
  ∧ (∀ from, let_through (λ x, from ≤ x.1 < from + window) l ≤ 2 * m).
Proof.
  intros Hm Hw Hh. pose proof (history_sound _ _ _ _ _ _ _ _ _ Hm Hw Hh) as Hok.
  pose proof Hok as [Hin Hcount Hap _ _]. split_and!.
  - intros z. rewrite Hcount. lia.
  - intros x Hx. specialize (Hin x Hx). lia.
  - intros x Hx Hd. rewrite Hcount. apply Z.min_l.
    pose proof (denied_counted _ _ _ Hx eq_refl Hd) as Hlt. rewrite Hcount in Hlt. lia.
  - intros from. destruct (two_windows _ _ _ _ _ from Hok) as (z1 & z2 & Hz).
    etrans; [apply (let_through_le _ (λ x, reset_at x.2 = z1 ∨ reset_at x.2 = z2)); exact Hz|].
    etrans; [apply let_through_or|]. rewrite !Hcount. lia.
Qed.

Definition w_hash (l : list ascii) : string := of_chars l.
Definition at_second (n : Z) (r : keyspace) : world keyspace := World r [] (n * second).
Definition do_hit (n : Z) (r : keyspace) : world keyspace * res Attempt :=
  hit w_hash "t:" true (Ok ()) "login" 2 60 (at_second n r).
Definition after_hit (n : Z) (r : keyspace) : keyspace := w_st (do_hit n r).1.
Definition attempt_of (n : Z) (r : keyspace) : Attempt :=
  match (do_hit n r).2 with Ok a => a | Err _ => MkAttempt false 0 0 0 0 0 end.

(** Three hits in one window, then one after its end. *)
Definition throttle_runs : list (Z * Attempt) * keyspace :=
  foldl (λ '(l, r) n, ((n, attempt_of n r) :: l, after_hit n r)) ([], empty_keyspace) [100; 110; 159; 160].

Lemma throttle_bound_witness :
  (λ x, (x.1, allowed x.2, reset_at x.2)) <$> throttle_runs.1
    = [(160, true, 220); (159, false, 160); (110, true, 160); (100, true, 160)]
  ∧ (∀ from, let_through (λ x, from ≤ x.1 < from + 60) throttle_runs.1 ≤ 2 * 2).
Proof.
  assert (Hh : history w_hash "t:" true "login" 2 60 160 throttle_runs.2 throttle_runs.1).
  { assert (Hstep : ∀ n t r l, history w_hash "t:" true "login" 2 60 t r l → t ≤ n →
      (do_hit n r).2 = Ok (attempt_of n r) →
      history w_hash "t:" true "login" 2 60 n (after_hit n r) ((n, attempt_of n r) :: l)).
    { intros n t r l Hl Hn Ha.
      assert (En : w_clock (at_second n r) / second = n) by (simpl; apply Z.div_mul; done).
      rewrite <- En at 1 3. eapply (history_hit _ _ _ _ _ _ t (at_second n r)); [exact Hl|by rewrite En|].
      unfold do_hit in *. rewrite <- Ha. by destruct (hit _ _ _ _ _ _ _ _). }
    assert (H0 : history w_hash "t:" true "login" 2 60 0 empty_keyspace []) by (constructor; reflexivity).
    apply (Hstep 100) in H0; [|lia|vm_compute; reflexivity]. apply (Hstep 110) in H0; [|lia|vm_compute; reflexivity].
    apply (Hstep 159) in H0; [|lia|vm_compute; reflexivity]. apply (Hstep 160) in H0; [|lia|vm_compute; reflexivity].
    exact H0. }
  split; [vm_compute; reflexivity|].
  apply (throttle_bound w_hash "t:" true "login" 2 60 160 throttle_runs.2 throttle_runs.1); [lia|lia|exact Hh].
Defined.

(** What [check] answers for a stored counter: it counts nothing. *)
Definition peek (m now : Z) (s : option (Z * Z)) : Attempt :=
  match s with
  | Some (h, t) => if t <=? now then MkAttempt true m 0 m 0 now else _attempt h t m now
  | None => MkAttempt true m 0 m 0 now
  end.

(** Every branch of the limiter: a limit or a window below 1 is refused
    with nothing touched; with the server up a hit counts in the window the
    stored counter opens and touches no other key, [check] answers from the
    counter without changing anything and [clear] forgets it; with the server
    down the attempt is allowed uncounted and a line is logged when failing
    open, and the error is raised otherwise. *)
Theorem throttle_spec {R} `{HL : RedisLaws R} sha256_hex prefix fail_open key m window (w : world R) :
  let now := w_clock w / second in
  let s := stored sha256_hex prefix key (w_st w) in
  (m < 1 ∨ window < 1 → ∀ up, ∃ e, hit sha256_hex prefix fail_open up key m window w = (w, Err e)
     ∧ exn_cls e = ValueError)
  ∧ (1 ≤ m → 1 ≤ window →
      let c := window_at now window s in
      (∃ r', hit sha256_hex prefix fail_open (Ok ()) key m window w
               = (World r' (w_log w) (w_clock w), Ok (_attempt (c.1 + 1) c.2 m now))
           ∧ stored sha256_hex prefix key r' = Some (c.1 + 1, c.2)
           ∧ ∀ other f, cache_key sha256_hex prefix other ≠ cache_key sha256_hex prefix key →
               r_hget (cache_key sha256_hex prefix other) f r'
               = r_hget (cache_key sha256_hex prefix other) f (w_st w))
      ∧ check sha256_hex prefix fail_open (Ok ()) key m w = (w, Ok (peek m now s))
      ∧ ∀ e, is_exception e = true →
          hit sha256_hex prefix fail_open (Err e) key m window w =
            (if fail_open
             then (World (w_st w) (w_log w ++ ["throttle: " +:+ exn_msg e]) (w_clock w),
                   Ok (MkAttempt true m 0 m 0 (now + window)))
             else (w, Err e)))
  ∧ ∃ r', clear sha256_hex prefix fail_open (Ok ()) key w = (World r' (w_log w) (w_clock w), Ok ())
      ∧ stored sha256_hex prefix key r' = None.
Proof.
  intros now s. split_and!.
  - intros Hbad up. unfold hit, _assert_limit. destruct (m <? 1) eqn:Hm; [by eexists|].
    destruct (window <? 1) eqn:Hw; [by eexists|]. lia.
  - intros Hm Hw c. split_and!; [by apply hit_counts| |].
    + unfold check. rewrite assert_limit_ok by lia. unfold now_seconds, read_stored, s, stored, peek. run_prog.
      unfold _parse, now. destruct w as [st lg ck]. simpl.
      destruct (r_hget _ "hits" st) as [a|]; simpl; [|done]. destruct (r_hget _ "reset" st) as [b|]; simpl; [|by destruct (Z_of_str a)].
      destruct (Z_of_str a), (Z_of_str b) as [t|]; simpl; try done. by destruct (t <=? ck / second).
    + intros e He. unfold hit. rewrite assert_limit_ok by done. unfold now_seconds, _run_hit, _unavailable.
      run_prog. rewrite He. destruct w. by destruct fail_open.
  - unfold clear. run_prog. eexists. split; [done|]. unfold stored. by rewrite !hget_del, !decide_True by done.
Qed.

Lemma throttle_spec_witness :
  let w := at_second 110 (after_hit 100 empty_keyspace) in
  (hit w_hash "t:" true (Err (raise_exn RedisError "down")) "login" 2 60 w).2
    = Ok (MkAttempt true 2 0 2 0 170)
  ∧ check w_hash "t:" true (Ok ()) "login" 2 w = (w, Ok (MkAttempt true 2 1 1 0 160)).
Proof.
  intros w. destruct (throttle_spec w_hash "t:" true "login" 2 60 w) as (_ & Hok & _).
  destruct (Hok ltac:(lia) ltac:(lia)) as (_ & Hc & Hd). split.
  - rewrite (Hd (raise_exn RedisError "down") eq_refl). reflexivity.
  - rewrite Hc. vm_compute. reflexivity.
Defined.
