(* ===== verification/WbcmUsers.v ===== *)
(** * Live connections by user

    [wbcm/factory.py]: the registry of the websocket handlers of this process
    and of the user each belongs to. Both of its dictionaries keep insertion
    order, which is the order of delivery. A handler is a reference; its [uid]
    is what the reference answers when the registry reads it. Debug lines are
    not modelled. *)

From Stdlib Require Import ZArith Lia.
From S2P Require Import Prelude PyStr Json.

(** A reference to a handler object. *)
Definition conn : Type := nat.

(** [l.remove(x)] for an [x] of [l]: the first occurrence goes. *)
Fixpoint remove_first (x : string) (l : list string) : list string :=
  match l with
  | [] => []
  | y :: l => if String.eqb y x then l else y :: remove_first x l
  end.

(** [assert conn.uid, ...] *)
Definition assert_uid (uid : option string) : res string :=
  match uid with
  | Some u => if String.eqb u "" then Err (raise_exn AssertionError "Connection must have a uid") else Ok u
  | None => Err (raise_exn AssertionError "Connection must have a uid")
  end.

Record UserConnections := MkUsers {
  user_connections : list (string * conn);
  user_id_map : list (string * list string)
}.

Definition __init__ : UserConnections := MkUsers [] [].

Definition items (u : UserConnections) : list (string * conn) := user_connections u.

Definition unassign_step (conn_id : string) (keep_user_id : option string)
    (m : list (string * list string)) (item : string * list string) : list (string * list string) :=
  let '(user_id, conn_ids) := item in
  if bool_decide (keep_user_id = Some user_id) then m
  else if bool_decide (conn_id ∈ conn_ids) then
    match remove_first conn_id conn_ids with
    | [] => dict_pop user_id m
    | conn_ids => dict_set user_id conn_ids m
    end
  else m.

Definition unassign_connection (conn_id : string) (keep_user_id : option string) (u : UserConnections) : UserConnections :=
  MkUsers (user_connections u) (foldl (unassign_step conn_id keep_user_id) (user_id_map u) (user_id_map u)).

Definition reset (u : UserConnections) : UserConnections := MkUsers [] [].

Definition assign_user_id (conn_id user_id : string) (u : UserConnections) : UserConnections :=
  let u := unassign_connection conn_id (Some user_id) u in
  let m := user_id_map u in
  let m := if dict_has user_id m then m else dict_set user_id [] m in
  let conn_ids := default [] (dict_get user_id m) in
  MkUsers (user_connections u)
    (if bool_decide (conn_id ∈ conn_ids) then m else dict_set user_id (conn_ids ++ [conn_id]) m).

Definition remove_user_id (user_id : string) (u : UserConnections) : UserConnections :=
  if dict_has user_id (user_id_map u) then MkUsers (user_connections u) (dict_pop user_id (user_id_map u)) else u.

Definition get_connections_by_user_id (user_id : string) (u : UserConnections) : list conn :=
  match dict_get user_id (user_id_map u) with
  | None => []
  | Some conn_ids => omap (λ conn_id, dict_get conn_id (user_connections u)) conn_ids
  end.

Section users.
Context (uid : conn → option string).

Definition add_connection (c : conn) (u : UserConnections) : res UserConnections :=
  conn_id ← assert_uid (uid c);
  Ok (MkUsers (dict_set conn_id c (user_connections u)) (user_id_map u)).

Definition remove_connection (c : conn) (u : UserConnections) : res UserConnections :=
  conn_id ← assert_uid (uid c);
  let conns := if dict_has conn_id (user_connections u) then dict_pop conn_id (user_connections u)
               else user_connections u in
  Ok (unassign_connection conn_id None (MkUsers conns (user_id_map u))).
End users.

(** ** What the registry represents

    [represents m o]: the user a connection is listed under, if any, is the
    one the finite map [o] gives it - so it is listed under at most one. *)
Definition represents (m : list (string * list string)) (o : gmap string string) : Prop :=
  ∀ conn_id user_id, o !! conn_id = Some user_id ↔ ∃ ids, dict_get user_id m = Some ids ∧ conn_id ∈ ids.

(** Every user is listed once, with at least one connection and none twice. *)
Definition fan_out_ok (m : list (string * list string)) : Prop :=
  NoDup m.*1 ∧ ∀ user_id ids, dict_get user_id m = Some ids → ids ≠ [] ∧ NoDup ids.

Lemma elem_of_remove_first x y l : NoDup l → y ∈ remove_first x l ↔ y ∈ l ∧ y ≠ x.
Proof.
  induction 1 as [|z l Hz Hnd IH]; simpl; [set_solver|].
  destruct (String.eqb_spec z x) as [->|Hne]; set_solver.
Qed.

Lemma NoDup_remove_first x l : NoDup l → NoDup (remove_first x l).
Proof.
  induction 1 as [|z l Hz Hnd IH]; simpl; [constructor|].
  destruct (String.eqb_spec z x); [done|]. constructor; [|done]. rewrite elem_of_remove_first by done. tauto.
Qed.

(** What the loop makes of one user's list. *)
Definition unassigned (conn_id : string) (keep : option string) (user_id : string) (ids : list string) : option (list string) :=
  if bool_decide (keep = Some user_id) then Some ids
  else if bool_decide (conn_id ∈ ids) then
    match remove_first conn_id ids with [] => None | ids => Some ids end
  else Some ids.

Lemma unassign_step_self conn_id keep m u ids :
  dict_get u m = Some ids → dict_get u (unassign_step conn_id keep m (u, ids)) = unassigned conn_id keep u ids.
Proof.
  intros Hm. unfold unassign_step, unassigned. repeat case_bool_decide; try done.
  destruct (remove_first conn_id ids).
  - rewrite dict_get_pop. by rewrite decide_True.
  - rewrite dict_get_set. by rewrite decide_True.
Qed.

Lemma unassign_step_other conn_id keep m u ids v :
  v ≠ u → dict_get v (unassign_step conn_id keep m (u, ids)) = dict_get v m.
Proof.
  intros Hne. unfold unassign_step. repeat case_bool_decide; try done. destruct (remove_first conn_id ids).
  - rewrite dict_get_pop. by rewrite decide_False.
  - rewrite dict_get_set. by rewrite decide_False by done.
Qed.

Lemma unassign_step_NoDup conn_id keep m x : NoDup m.*1 → NoDup (unassign_step conn_id keep m x).*1.
Proof.
  destruct x as [u ids]. intros Hm. unfold unassign_step. repeat case_bool_decide; try done.
  destruct (remove_first conn_id ids); [by apply dict_pop_NoDup|by apply dict_set_NoDup].
Qed.

(** The loop over the snapshot acts on each user's list once. *)
Lemma unassign_loop conn_id keep l m v :
  NoDup l.*1 → (∀ u ids, (u, ids) ∈ l → dict_get u m = Some ids) →
  dict_get v (foldl (unassign_step conn_id keep) m l)
    = match dict_get v l with Some ids => unassigned conn_id keep v ids | None => dict_get v m end.
Proof.
  revert m. induction l as [|[u ids] l IH]; intros m Hnd Hl; [done|]. simpl in Hnd.
  apply NoDup_cons in Hnd as [Hu Hnd]. cbn [foldl dict_get]. rewrite IH; [|done|].
  - destruct (decide (u = v)) as [->|Hne].
    + rewrite (proj2 (dict_get_None v l) Hu). apply unassign_step_self, Hl. left.
    + by rewrite unassign_step_other.
  - intros u' ids' Hin. rewrite unassign_step_other; [apply Hl; by right|].
    intros ->. apply Hu. apply list_elem_of_fmap. by exists (u, ids').
Qed.

Lemma unassign_get conn_id keep m v :
  NoDup m.*1 →
  dict_get v (foldl (unassign_step conn_id keep) m m)
    = dict_get v m ≫= unassigned conn_id keep v.
Proof.
  intros Hnd. rewrite unassign_loop; [by destruct (dict_get v m)|done|].
  intros u ids Hin. by apply elem_dict_get.
Qed.

Lemma unassign_NoDup conn_id keep m l : NoDup m.*1 → NoDup (foldl (unassign_step conn_id keep) m l).*1.
Proof.
  revert m. induction l as [|x l IH]; intros m Hm; [done|]. apply IH. by apply unassign_step_NoDup.
Qed.

Lemma unassigned_spec conn_id keep u ids ids' :
  NoDup ids → ids ≠ [] → unassigned conn_id keep u ids = Some ids' →
  ids' ≠ [] ∧ NoDup ids' ∧ ∀ x, x ∈ ids' ↔ x ∈ ids ∧ (keep = Some u ∨ x ≠ conn_id).
Proof.
  intros Hnd Hne. unfold unassigned. repeat case_bool_decide.
  - intros [= <-]. split_and!; [done|done|]. naive_solver.
  - destruct (remove_first conn_id ids) eqn:E; [done|]. intros [= <-]. split_and!; [done| |].
    + rewrite <- E. by apply NoDup_remove_first.
    + intros x. rewrite <- E, elem_of_remove_first by done. naive_solver.
  - intros [= <-]. split_and!; [done|done|]. naive_solver.
Qed.

Lemma unassigned_None conn_id keep u ids x :
  NoDup ids → unassigned conn_id keep u ids = None → x ∈ ids → keep ≠ Some u ∧ x = conn_id.
Proof.
  intros Hnd. unfold unassigned. repeat case_bool_decide; try done.
  destruct (remove_first conn_id ids) eqn:E; [|done]. intros _ Hx. split; [done|].
  destruct (decide (x = conn_id)); [done|].
  assert (Hin : x ∈ remove_first conn_id ids) by (rewrite elem_of_remove_first by done; done).
  rewrite E in Hin. by apply not_elem_of_nil in Hin.
Qed.

(** ** Refinement

    What the registry promises, over finite maps: a connection id has at most
    one live handler and belongs to at most one user. *)
Record roster := Roster { live : gmap string conn; owner : gmap string string }.

(** A call on the registry; a handler comes with what its [uid] answers. *)
Inductive op :=
  | OpAdd (uid : option string) (c : conn)
  | OpRemove (uid : option string) (c : conn)
  | OpUnassign (conn_id : string)
  | OpAssign (conn_id user_id : string)
  | OpRemoveUser (user_id : string)
  | OpReset.

Definition run_op (o : op) (u : UserConnections) : res UserConnections :=
  match o with
  | OpAdd uid c => add_connection (λ _, uid) c u
  | OpRemove uid c => remove_connection (λ _, uid) c u
  | OpUnassign conn_id => Ok (unassign_connection conn_id None u)
  | OpAssign conn_id user_id => Ok (assign_user_id conn_id user_id u)
  | OpRemoveUser user_id => Ok (remove_user_id user_id u)
  | OpReset => Ok (reset u)
  end.

Definition roster_op (o : op) (r : roster) : res roster :=
  match o with
  | OpAdd uid c => conn_id ← assert_uid uid; Ok (Roster (<[conn_id := c]> (live r)) (owner r))
  | OpRemove uid c => conn_id ← assert_uid uid; Ok (Roster (delete conn_id (live r)) (delete conn_id (owner r)))
  | OpUnassign conn_id => Ok (Roster (live r) (delete conn_id (owner r)))
  | OpAssign conn_id user_id => Ok (Roster (live r) (<[conn_id := user_id]> (owner r)))
  | OpRemoveUser user_id => Ok (Roster (live r) (filter (λ kv, kv.2 ≠ user_id) (owner r)))
  | OpReset => Ok (Roster ∅ ∅)
  end.

(** A call that raises leaves the registry as it was. *)
Definition run_ops {S} (step : op → S → res S) (ops : list op) (s : S) : S :=
  foldl (λ s o, match step o s with Ok s' => s' | Err _ => s end) s ops.

Definition implements (u : UserConnections) (r : roster) : Prop :=
  fan_out_ok (user_id_map u) ∧ represents (user_id_map u) (owner r)
  ∧ NoDup (user_connections u).*1 ∧ ∀ conn_id, dict_get conn_id (user_connections u) = live r !! conn_id.

Lemma implements_unassign conn_id keep m o :
  fan_out_ok m → represents m o →
  let m' := foldl (unassign_step conn_id keep) m m in
  fan_out_ok m' ∧ represents m' (if bool_decide (keep = o !! conn_id) then o else delete conn_id o).
Proof.
  intros [Hnd Hids] Hrep m'. assert (Hget : ∀ v, dict_get v m' = dict_get v m ≫= unassigned conn_id keep v).
  { intros v. by apply unassign_get. }
  split; [split; [by apply unassign_NoDup|]|].
  - intros u ids'. rewrite Hget. destruct (dict_get u m) as [ids|] eqn:Hu; [|done]. simpl. intros Hs.
    destruct (Hids _ _ Hu) as [Hne Hndi]. by destruct (unassigned_spec _ _ _ _ _ Hndi Hne Hs) as (? & ? & _).
  - intros x u. rewrite Hget. trans (o !! x = Some u ∧ (keep = Some u ∨ x ≠ conn_id)).
    + case_bool_decide as Hk; [|destruct (decide (x = conn_id)) as [->|]].
      * split; [|tauto]. intros Hx. split; [done|]. destruct (decide (x = conn_id)) as [->|]; [left; congruence|by right].
      * rewrite lookup_delete_eq. naive_solver.
      * rewrite lookup_delete_ne by done. tauto.
    + rewrite (Hrep x u). destruct (dict_get u m) as [ids|] eqn:Hu; simpl; [|naive_solver].
      destruct (Hids _ _ Hu) as [Hne Hndi]. split.
      * intros [(ids0 & [= <-] & Hx) Hor]. destruct (unassigned conn_id keep u ids) as [ids'|] eqn:Hs.
        -- exists ids'. split; [done|]. destruct (unassigned_spec _ _ _ _ _ Hndi Hne Hs) as (_ & _ & ->). done.
        -- destruct (unassigned_None _ _ _ _ _ Hndi Hs Hx). naive_solver.
      * intros (ids' & Hs & Hx). destruct (unassigned_spec _ _ _ _ _ Hndi Hne Hs) as (_ & _ & Hmem).
        apply Hmem in Hx. naive_solver.
Qed.

(** The part of [assign_user_id] after the loop: [conn_id] joins the user's list. *)
Definition enlist (conn_id user_id : string) (m : list (string * list string)) : list (string * list string) :=
  let m := if dict_has user_id m then m else dict_set user_id [] m in
  let conn_ids := default [] (dict_get user_id m) in
  if bool_decide (conn_id ∈ conn_ids) then m else dict_set user_id (conn_ids ++ [conn_id]) m.

Lemma enlist_spec conn_id user_id m :
  fan_out_ok m →
  fan_out_ok (enlist conn_id user_id m)
  ∧ ∀ x v, (∃ l, dict_get v (enlist conn_id user_id m) = Some l ∧ x ∈ l)
      ↔ x = conn_id ∧ v = user_id ∨ ∃ l, dict_get v m = Some l ∧ x ∈ l.
Proof.
  intros [Hnd Hids]. set (ids := default [] (dict_get user_id m)).
  assert (Hids0 : NoDup ids ∧ ∀ x, x ∈ ids ↔ ∃ l, dict_get user_id m = Some l ∧ x ∈ l).
  { unfold ids. destruct (dict_get user_id m) as [l|] eqn:Hg; simpl; [|split; [constructor|set_solver]].
    split; [by eapply Hids|]. intros x. naive_solver. }
  destruct Hids0 as [Hndi Hmem].
  assert (Hget : ∃ ids', NoDup ids' ∧ ids' ≠ [] ∧ (∀ x, x ∈ ids' ↔ x = conn_id ∨ x ∈ ids) ∧ NoDup (enlist conn_id user_id m).*1
            ∧ ∀ v, dict_get v (enlist conn_id user_id m) = if decide (user_id = v) then Some ids' else dict_get v m).
  { unfold enlist, dict_has. unfold ids in *. destruct (dict_get user_id m) as [l|] eqn:Hg.
    - rewrite Hg. simpl in *. case_bool_decide as Hin.
      + exists l. split_and!; [done|set_solver|set_solver|done|]. intros v. by case_decide; [subst|].
      + exists (l ++ [conn_id]). split_and!; [apply NoDup_app; split_and!; [done|intros y Hy ->%list_elem_of_singleton; done|apply NoDup_singleton]|by destruct l|set_solver|by apply dict_set_NoDup|].
        intros v. apply dict_get_set.
    - rewrite dict_get_set, decide_True by done. simpl.
      exists [conn_id]. split_and!; [apply NoDup_singleton|done|set_solver|by do 2 apply dict_set_NoDup|].
      intros v. rewrite !dict_get_set. by case_decide. }
  destruct Hget as (ids' & Hnd' & Hne' & Hmem' & Hndm & Hget). split; [split; [done|]|].
  - intros v l. rewrite Hget. case_decide; [by intros [= <-]|apply Hids].
  - intros x v. rewrite Hget. case_decide as E; [subst v|naive_solver].
    rewrite <- Hmem. trans (x ∈ ids'); [naive_solver|]. rewrite Hmem'. tauto.
Qed.

Lemma implements_assign conn_id user_id u r :
  implements u r → implements (assign_user_id conn_id user_id u) (Roster (live r) (<[conn_id := user_id]> (owner r))).
Proof.
  intros (Hok & Hrep & Hc & Hl).
  destruct (implements_unassign conn_id (Some user_id) _ _ Hok Hrep) as [Hok' Hrep'].
  destruct (enlist_spec conn_id user_id _ Hok') as [Hok'' Hmem].
  split_and!; [exact Hok''| |done|done].
  intros x v. simpl. fold (enlist conn_id user_id (foldl (unassign_step conn_id (Some user_id)) (user_id_map u) (user_id_map u))).
  rewrite Hmem, <- (Hrep' x v). destruct (decide (x = conn_id)) as [->|Hx].
  - rewrite lookup_insert_eq. case_bool_decide as E; [|rewrite lookup_delete_eq]; (split; [intros [= <-]; by left|intros [[_ ->]|?]; congruence]).
  - rewrite lookup_insert_ne by done. case_bool_decide; [naive_solver|]. rewrite lookup_delete_ne by done. naive_solver.
Qed.

Lemma implements_op o u r :
  implements u r →
  match run_op o u, roster_op o r with
  | Ok u', Ok r' => implements u' r'
  | Err e, Err e' => e = e'
  | _, _ => False
  end.
Proof.
  intros Hi. pose proof Hi as ([Hnd Hids] & Hrep & Hc & Hl). destruct o as [uid c|uid c|conn_id|conn_id user_id|user_id|]; simpl.
  - unfold add_connection. destruct (assert_uid uid) as [id|e]; simpl; [|done]. split_and!; [done|done|by apply dict_set_NoDup|].
    intros x. simpl. rewrite dict_get_set, Hl. case_decide; [subst; by rewrite lookup_insert_eq|by rewrite lookup_insert_ne].
  - unfold remove_connection. destruct (assert_uid uid) as [id|e]; simpl; [|done].
    destruct (implements_unassign id None _ _ (conj Hnd Hids) Hrep) as [Hok' Hrep'].
    assert (Hconns : (if dict_has id (user_connections u) then dict_pop id (user_connections u) else user_connections u)
                     = dict_pop id (user_connections u)).
    { unfold dict_has. destruct (dict_get id (user_connections u)) eqn:E; [done|]. by rewrite dict_pop_absent. }
    split_and!; [done| |simpl; rewrite Hconns; by apply dict_pop_NoDup|].
    + intros x v. rewrite <- (Hrep' x v). case_bool_decide as E; [|done]. simpl. by rewrite delete_id.
    + intros x. simpl. rewrite Hconns, dict_get_pop.
      destruct (decide (x = id)) as [->|]; [by rewrite lookup_delete_eq|by rewrite lookup_delete_ne].
  - destruct (implements_unassign conn_id None _ _ (conj Hnd Hids) Hrep) as [Hok' Hrep']. split_and!; [done| |done|done].
    intros x v. simpl. rewrite <- (Hrep' x v). case_bool_decide as E; [|done]. by rewrite delete_id.
  - by apply implements_assign.
  - assert (Hm : user_id_map (remove_user_id user_id u) = dict_pop user_id (user_id_map u)).
    { unfold remove_user_id, dict_has. destruct (dict_get user_id (user_id_map u)) eqn:E; [done|]. by rewrite dict_pop_absent. }
    assert (Hu : user_connections (remove_user_id user_id u) = user_connections u) by (unfold remove_user_id; by case_match).
    split_and!; rewrite ?Hm, ?Hu; try done.
    + split; [by apply dict_pop_NoDup|]. intros v l. rewrite dict_get_pop. case_decide; [done|apply Hids].
    + intros x v. rewrite dict_get_pop. simpl. rewrite map_lookup_filter_Some. simpl. rewrite (Hrep x v).
      case_decide; naive_solver.
  - split_and!; simpl; [split; [constructor|done]| |constructor|done]. intros x v. simpl. rewrite lookup_empty. naive_solver.
Qed.

Lemma implements_ops ops u r :
  implements u r → implements (run_ops run_op ops u) (run_ops roster_op ops r).
Proof.
  revert u r. induction ops as [|o ops IH]; intros u r Hi; [done|]. simpl.
  pose proof (implements_op o u r Hi) as Ho. destruct (run_op o u), (roster_op o r); try done; by apply IH.
Qed.

Lemma implements_init : implements __init__ (Roster ∅ ∅).
Proof.
  split_and!; simpl; [split; [constructor|done]| |constructor|done].
  intros x v. rewrite lookup_empty. naive_solver.
Qed.

Lemma implements_connections u r user_id :
  implements u r →
  ∃ ids, NoDup ids ∧ (∀ conn_id, conn_id ∈ ids ↔ owner r !! conn_id = Some user_id)
    ∧ get_connections_by_user_id user_id u = omap (λ conn_id, live r !! conn_id) ids.
Proof.
  intros ([Hnd Hids] & Hrep & Hc & Hl). unfold get_connections_by_user_id.
  destruct (dict_get user_id (user_id_map u)) as [ids|] eqn:Hg.
  - exists ids. split_and!; [by eapply Hids| |].
    + intros x. rewrite (Hrep x user_id), Hg. naive_solver.
    + clear -Hl. induction ids as [|x ids IH]; [done|]. csimpl. by rewrite Hl, IH.
  - exists []. split_and!; [constructor| |done]. intros x. rewrite (Hrep x user_id), Hg. set_solver.
Qed.

(** C24: The registry implements its specification over finite maps: whatever
    calls are made, with handlers that have a [uid] or not, the handlers it
    answers for a user are the live ones of the connections the user owns,
    each connection once - and since a connection has one owner, none is ever
    answered for two users. *)
Theorem registry_refines ops user_id :
  let u := run_ops run_op ops __init__ in
  let r := run_ops roster_op ops (Roster ∅ ∅) in
  implements u r
  ∧ ∃ ids, NoDup ids ∧ (∀ conn_id, conn_id ∈ ids ↔ owner r !! conn_id = Some user_id)
      ∧ get_connections_by_user_id user_id u = omap (λ conn_id, live r !! conn_id) ids.
Proof.
  intros u r. assert (Hi : implements u r) by (apply implements_ops, implements_init).
  split; [exact Hi|by apply implements_connections].
Qed.
