(* ===== verification/WbcmDevices.v ===== *)
(** * Live connections by device

    [wbcm/device_connections.py], which mirrors the registry by user. *)

From Stdlib Require Import ZArith Lia.
From S2P Require Import Prelude PyStr Json.
From S2P Require WbcmUsers.
Import WbcmUsers (conn, remove_first, assert_uid, op, OpAdd, OpRemove, OpUnassign, OpAssign, OpRemoveUser, OpReset).

Record DeviceConnections := MkDevices {
  device_connections : list (string * conn);
  device_id_map : list (string * list string)
}.

Definition __init__ : DeviceConnections := MkDevices [] [].

Definition items (d : DeviceConnections) : list (string * conn) := device_connections d.

Definition unassign_step (conn_id : string) (keep_device_id : option string)
    (m : list (string * list string)) (item : string * list string) : list (string * list string) :=
  let '(device_id, conn_ids) := item in
  if bool_decide (keep_device_id = Some device_id) then m
  else if bool_decide (conn_id ∈ conn_ids) then
    match remove_first conn_id conn_ids with
    | [] => dict_pop device_id m
    | conn_ids => dict_set device_id conn_ids m
    end
  else m.

Definition unassign_connection (conn_id : string) (keep_device_id : option string) (d : DeviceConnections) : DeviceConnections :=
  MkDevices (device_connections d) (foldl (unassign_step conn_id keep_device_id) (device_id_map d) (device_id_map d)).

Definition reset (d : DeviceConnections) : DeviceConnections := MkDevices [] [].

Definition assign_device_id (conn_id device_id : string) (d : DeviceConnections) : DeviceConnections :=
  let d := unassign_connection conn_id (Some device_id) d in
  let m := device_id_map d in
  let m := if dict_has device_id m then m else dict_set device_id [] m in
  let conn_ids := default [] (dict_get device_id m) in
  MkDevices (device_connections d)
    (if bool_decide (conn_id ∈ conn_ids) then m else dict_set device_id (conn_ids ++ [conn_id]) m).

Definition remove_device_id (device_id : string) (d : DeviceConnections) : DeviceConnections :=
  if dict_has device_id (device_id_map d) then MkDevices (device_connections d) (dict_pop device_id (device_id_map d)) else d.

Definition get_connections_by_device_id (device_id : string) (d : DeviceConnections) : list conn :=
  match dict_get device_id (device_id_map d) with
  | None => []
  | Some conn_ids => omap (λ conn_id, dict_get conn_id (device_connections d)) conn_ids
  end.

Section devices.
Context (uid : conn → option string).

Definition add_connection (c : conn) (d : DeviceConnections) : res DeviceConnections :=
  conn_id ← assert_uid (uid c);
  Ok (MkDevices (dict_set conn_id c (device_connections d)) (device_id_map d)).

Definition remove_connection (c : conn) (d : DeviceConnections) : res DeviceConnections :=
  conn_id ← assert_uid (uid c);
  let conns := if dict_has conn_id (device_connections d) then dict_pop conn_id (device_connections d)
               else device_connections d in
  Ok (unassign_connection conn_id None (MkDevices conns (device_id_map d))).
End devices.

(** ** The two registries agree *)

Definition run_device_op (o : op) (d : DeviceConnections) : res DeviceConnections :=
  match o with
  | OpAdd uid c => add_connection (λ _, uid) c d
  | OpRemove uid c => remove_connection (λ _, uid) c d
  | OpUnassign conn_id => Ok (unassign_connection conn_id None d)
  | OpAssign conn_id device_id => Ok (assign_device_id conn_id device_id d)
  | OpRemoveUser device_id => Ok (remove_device_id device_id d)
  | OpReset => Ok (reset d)
  end.

Definition as_users (d : DeviceConnections) : WbcmUsers.UserConnections :=
  WbcmUsers.MkUsers (device_connections d) (device_id_map d).

Lemma device_op_agrees o d :
  match run_device_op o d, WbcmUsers.run_op o (as_users d) with
  | Ok d', Ok u' => as_users d' = u'
  | Err e, Err e' => e = e'
  | _, _ => False
  end.
Proof.
  destruct o as [uid c|uid c|conn_id|conn_id device_id|device_id|]; simpl; try done.
  - unfold add_connection, WbcmUsers.add_connection. by destruct (assert_uid uid).
  - unfold remove_connection, WbcmUsers.remove_connection. by destruct (assert_uid uid).
  - unfold remove_device_id, WbcmUsers.remove_user_id. simpl. by destruct (dict_has _ _).
Qed.

(** The registry by device is the registry by user: after the same calls
    both hold the same connections and lists and both answer the same handlers
    for an id, so the registry by device implements the same specification. *)
Theorem device_registry_equiv ops device_id :
  let d := WbcmUsers.run_ops run_device_op ops __init__ in
  let u := WbcmUsers.run_ops WbcmUsers.run_op ops WbcmUsers.__init__ in
  as_users d = u
  ∧ get_connections_by_device_id device_id d = WbcmUsers.get_connections_by_user_id device_id u
  ∧ WbcmUsers.implements (as_users d) (WbcmUsers.run_ops WbcmUsers.roster_op ops (WbcmUsers.Roster ∅ ∅)).
Proof.
  intros d u. assert (Heq : as_users d = u).
  { unfold d, u. change WbcmUsers.__init__ with (as_users __init__). generalize __init__.
    induction ops as [|o ops IH]; intros d0; [done|]. simpl. pose proof (device_op_agrees o d0) as Ho.
    destruct (run_device_op o d0), (WbcmUsers.run_op o (as_users d0)); try done; rewrite <- Ho; apply IH. }
  split; [exact Heq|]. split; [by rewrite <- Heq|]. rewrite Heq.
  apply WbcmUsers.implements_ops, WbcmUsers.implements_init.
Qed.
