(* ===== verification/Wbcm.v ===== *)
(** * The websocket connection manager

    [wbcm/wb_connection_manager.py]: what the manager's background thread
    does on a tick. The handlers of the web server are references; their
    attributes are read as the tick finds them ([uid], [sid]), and [accepts]
    is what the handler's loop answers to [call_soon_threadsafe]. A callback
    handed to a loop is kept, in order, in [scheduled]. The Redis connection
    ([open], [close], [xread]) and the JSON decoder are parameters. The log is
    not modelled, nor is a change of the registries by the web server's thread
    in the middle of an operation. *)

From Stdlib Require Import ZArith Lia.
From S2P Require Import Prelude PyStr Json.
From S2P Require WbcmUsers WbcmDevices.
Import WbcmUsers (conn).

(** A stream message: a dictionary of fields. *)
Definition message : Type := list (string * json).

Inductive callback := WriteMessage (m : json) | CloseSocket.

Record manager := Manager {
  users : WbcmUsers.UserConnections;
  devices : WbcmDevices.DeviceConnections;
  stream_last_id : string;
  scheduled : list (conn * callback)
}.

Definition __init__ : manager := Manager WbcmUsers.__init__ WbcmDevices.__init__ "$" [].

Definition with_users (u : WbcmUsers.UserConnections) (s : manager) : manager :=
  Manager u (devices s) (stream_last_id s) (scheduled s).
Definition with_devices (d : WbcmDevices.DeviceConnections) (s : manager) : manager :=
  Manager (users s) d (stream_last_id s) (scheduled s).
Definition with_last_id (i : string) (s : manager) : manager :=
  Manager (users s) (devices s) i (scheduled s).

(** A message field used as a key of a dictionary with text keys: lists and
    dictionaries raise, values of another type are not found. *)
Definition as_key (v : json) : res (option string) :=
  match v with
  | JStr s => Ok (Some s)
  | JList _ => Err (raise_exn TypeError "unhashable type: 'list'")
  | JObj _ => Err (raise_exn TypeError "unhashable type: 'dict'")
  | _ => Ok None
  end.

(** [conn.uid == source_uid], for an attribute that is a text or None. *)
Definition attr_eq (a : option string) (v : json) : bool :=
  match a, v with
  | Some s, JStr t => String.eqb s t
  | None, JNull => true
  | _, _ => false
  end.

Section manager.
Context (uid sid : conn → option string) (accepts : conn → res ()).
Context (json_decode : string → res json).

(** [conn.loop.call_soon_threadsafe(...)] *)
Definition call_soon (c : conn) (cb : callback) : prog manager () :=
  _ ← lift_res (accepts c);
  stmt (λ s, (Manager (users s) (devices s) (stream_last_id s) (scheduled s ++ [(c, cb)]), ())).

Definition lookup_users (user_id : json) : prog manager (list conn) :=
  key ← lift_res (as_key user_id);
  s ← get_st;
  mret (match key with Some k => WbcmUsers.get_connections_by_user_id k (users s) | None => [] end).

Definition lookup_devices (device_id : json) : prog manager (list conn) :=
  key ← lift_res (as_key device_id);
  s ← get_st;
  mret (match key with Some k => WbcmDevices.get_connections_by_device_id k (devices s) | None => [] end).

Definition drop_user_conn (c : conn) : prog manager () :=
  s ← get_st;
  u ← lift_res (WbcmUsers.remove_connection uid c (users s));
  set_st (with_users u s).

Definition drop_device_conn (c : conn) : prog manager () :=
  s ← get_st;
  d ← lift_res (WbcmDevices.remove_connection uid c (devices s));
  set_st (with_devices d s).

(** The body of the delivery loops: the source is skipped, a handler whose
    loop refuses the callback is removed. *)
Definition deliver_to (drop : conn → prog manager ()) (m : json) (source_uid : json) (c : conn) : prog manager () :=
  if attr_eq (uid c) source_uid then mret ()
  else try_except (call_soon c (WriteMessage m)) is_exception (λ _, drop c).

Definition send_message (user_id : json) (m source_uid : json) : prog manager () :=
  connections ← lookup_users user_id;
  for_each connections (deliver_to drop_user_conn m source_uid).

Definition send_message_to_device (device_id : json) (m source_uid : json) : prog manager () :=
  connections ← lookup_devices device_id;
  for_each connections (deliver_to drop_device_conn m source_uid).

Definition send_message_to_all (m source_uid : json) : prog manager () :=
  s ← get_st;
  for_each (WbcmUsers.items (users s)).*2 (deliver_to drop_user_conn m source_uid).

Definition close_one (source_uid : json) (target_sid : option json) (c : conn) : prog manager () :=
  if attr_eq (uid c) source_uid then mret ()
  else
    if match target_sid with Some t => negb (attr_eq (sid c) t) | None => false end then mret ()
    else try_except (call_soon c CloseSocket) is_exception (λ _, mret ()).

Definition close_sessions (user_id source_uid : json) (target_sid : option json) : prog manager () :=
  connections ← lookup_users user_id;
  for_each connections (close_one source_uid target_sid).

(** [message_data.get(k, d)] *)
Definition field (k : string) (d : json) (m : message) : json := default d (dict_get k m).

Definition is_text (t : string) (v : json) : bool := match v with JStr s => String.eqb s t | _ => false end.

(** The message with its [data] decoded, when it is a text; [None] when that
    is not valid JSON. *)
Definition decode_data (m : message) : option message :=
  match field "data" JNull m with
  | JStr data => match json_decode data with Ok v => Some (dict_set "data" v m) | Err _ => None end
  | _ => Some m
  end.

(** [work] once the required fields are there and the data is decoded. *)
Definition route (m : message) : prog manager bool :=
  let source_uid := field "source_uid" (JStr "") m in
  let msg_type := field "type" (JStr "") m in
  if is_text "session_revoked" msg_type then
    match field "user_id" JNull m with
    | JNull => mret false
    | user_id =>
        let target_sid := field "target_sid" JNull m in
        _ ← close_sessions user_id source_uid (if truthy target_sid then Some target_sid else None);
        mret true
    end
  else if is_text "session_relay" msg_type then
    let target_type := field "target_type" (JStr "") m in
    let target_id := field "target_id" (JStr "") m in
    if is_text "device" target_type then _ ← send_message_to_device target_id (JObj m) source_uid; mret true
    else if is_text "user" target_type then _ ← send_message target_id (JObj m) source_uid; mret true
    else mret false
  else
    match dict_get "user_id" m with
    | None => mret false
    | Some JNull => _ ← send_message_to_all (JObj m) source_uid; mret true
    | Some user_id => _ ← send_message user_id (JObj m) source_uid; mret true
    end.

Definition work (m : message) : prog manager bool :=
  if negb (dict_has "service" m) then mret false
  else if negb (dict_has "type" m) then mret false
  else if negb (dict_has "data" m) then mret false
  else if negb (dict_has "source_uid" m) then mret false
  else
    match decode_data m with
    | None => mret false
    | Some m => route m
    end.

(** One entry of the batch; the position moves past it whatever [work] did. *)
Definition process_one (entry : string * message) : prog manager () :=
  let '(message_id, msg_data) := entry in
  _ ← try_except (_ ← work msg_data; mret ()) is_exception (λ _, mret ());
  s ← get_st;
  set_st (with_last_id message_id s).

(** What [xread] answers: per stream, a list whose first element is the batch. *)
Definition reply : Type := list (string * list (list (string * message))).

Definition process_messages (xread : string → res reply) (stream_name : string) : prog manager () :=
  s ← get_st;
  cached_data ← lift_res (xread (stream_last_id s));
  match dict_get stream_name cached_data with
  | None => mret ()
  | Some [] => raise (raise_exn IndexError "list index out of range")
  | Some (message_data :: _) => for_each message_data process_one
  end.

(** [connect_dbs] around the body. *)
Definition connect_dbs {A} (open close : res ()) (body : prog manager A) : prog manager A :=
  try_finally (_ ← lift_res open; body) (lift_res close).

Definition tick (open close : res ()) (xread : string → res reply) (stream_name : string) : prog manager () :=
  try_except (connect_dbs open close (process_messages xread stream_name)) is_exception (λ _, mret ()).

Definition ask_close (c : conn) : prog manager () :=
  try_except (call_soon c CloseSocket) is_exception (λ _, mret ()).

Definition shutdown : prog manager () :=
  s ← get_st;
  _ ← for_each (WbcmUsers.items (users s)).*2 ask_close;
  s ← get_st;
  _ ← for_each (WbcmDevices.items (devices s)).*2 ask_close;
  s ← get_st;
  set_st (Manager (WbcmUsers.reset (users s)) (WbcmDevices.reset (devices s)) (stream_last_id s) (scheduled s)).
End manager.

(** ** What a tick achieves *)

Section manager_facts.
Context (uid sid : conn → option string) (accepts : conn → res ()).
Context (json_decode : string → res json).
(** A loop that refuses a callback raises an [Exception]; a registered handler
    has a [uid]. *)
Context (refusal : ∀ c e, accepts c = Err e → is_exception e = true).

Definition named (c : conn) : Prop := ∃ i, uid c = Some i ∧ i ≠ "".

(** Handlers that are not the source, and of them those whose loop accepts. *)
Definition others (src : json) (conns : list conn) : list conn := filter (λ c, attr_eq (uid c) src = false) conns.
Definition handed (cb : callback) (conns : list conn) : list (conn * callback) :=
  (λ c, (c, cb)) <$> filter (λ c, is_ok (accepts c) = true) conns.
Definition refusing (conns : list conn) : list conn := filter (λ c, is_ok (accepts c) = false) conns.

(** The registry without some handlers. *)
Definition without_users (conns : list conn) (u : WbcmUsers.UserConnections) : WbcmUsers.UserConnections :=
  WbcmUsers.run_ops WbcmUsers.run_op ((λ c, WbcmUsers.OpRemove (uid c) c) <$> conns) u.
Definition without_devices (conns : list conn) (d : WbcmDevices.DeviceConnections) : WbcmDevices.DeviceConnections :=
  WbcmUsers.run_ops WbcmDevices.run_device_op ((λ c, WbcmUsers.OpRemove (uid c) c) <$> conns) d.

Definition scheduling (cbs : list (conn * callback)) (s : manager) : manager :=
  Manager (users s) (devices s) (stream_last_id s) (scheduled s ++ cbs).

Definition on_store (f : manager → manager) (w : world manager) : world manager :=
  World (f (w_st w)) (w_log w) (w_clock w).

Lemma call_soon_ok c cb w : is_ok (accepts c) = true →
  call_soon accepts c cb w = (on_store (scheduling [(c, cb)]) w, Ok ()).
Proof. intros Ha. unfold call_soon. run_prog. by destruct (accepts c) as [[]|]. Qed.

Lemma named_assert c : named c → ∃ i, WbcmUsers.assert_uid (uid c) = Ok i.
Proof. intros (i & -> & Hi). exists i. simpl. by destruct (String.eqb_spec i ""). Qed.

Lemma on_store_id w f : (∀ s, f s = s) → on_store f w = w.
Proof. intros Hf. destruct w as [s l c]. unfold on_store. simpl. by rewrite Hf. Qed.

(** One handler of a delivery loop over a registry [drop] removes it from. *)
Section delivery.
Context {S : Type} (drop : conn → prog manager ()) (get : manager → S) (put : S → manager → manager).
Context (without : list conn → S → S).
Context (put_get : ∀ s, put (get s) s = s) (get_put : ∀ x s, get (put x s) = x) (put_put : ∀ x y s, put x (put y s) = put x s).
Context (put_sched : ∀ x s cbs, put x (scheduling cbs s) = scheduling cbs (put x s)).
Context (get_sched : ∀ s cbs, get (scheduling cbs s) = get s).
Context (without_nil : ∀ x, without [] x = x) (without_cons : ∀ c l x, without (c :: l) x = without l (without [c] x)).
Context (drop_spec : ∀ c w, named c → drop c w = (on_store (λ s, put (without [c] (get s)) s) w, Ok ())).

Lemma scheduling_app a b s : scheduling b (scheduling a s) = scheduling (a ++ b) s.
Proof. unfold scheduling. simpl. by rewrite app_assoc. Qed.

Lemma scheduling_nil s : scheduling [] s = s.
Proof. unfold scheduling. rewrite app_nil_r. by destruct s. Qed.

Lemma deliver_all m src conns w :
  Forall named conns →
  for_each conns (deliver_to uid accepts drop m src) w
  = (on_store (λ s, scheduling (handed (WriteMessage m) (others src conns))
                      (put (without (refusing (others src conns)) (get s)) s)) w, Ok ()).
Proof.
  intros Hn. revert w. induction Hn as [|c conns Hc Hn IH]; intros w; simpl.
  { unfold mret, prog_ret. f_equal. symmetry. apply on_store_id. intros s.
    unfold handed, refusing. simpl. by rewrite without_nil, put_get, scheduling_nil. }
  unfold mbind, prog_bind. unfold deliver_to at 1. unfold others. rewrite filter_cons.
  destruct (attr_eq (uid c) src) eqn:Hs; simpl.
  { unfold mret, prog_ret. rewrite IH. done. }
  unfold handed, refusing. rewrite !filter_cons. unfold try_except.
  destruct (is_ok (accepts c)) eqn:Ha; simpl.
  - rewrite call_soon_ok by done. rewrite IH. f_equal. unfold on_store. simpl. f_equal.
    rewrite get_sched, put_sched, scheduling_app. done.
  - unfold call_soon, lift_res, mbind, prog_bind. destruct (accepts c) as [|e] eqn:He; [done|].
    rewrite (refusal c e He), drop_spec by done. rewrite IH. f_equal. unfold on_store. simpl. f_equal.
    rewrite get_put, put_put. by rewrite <- without_cons.
Qed.
End delivery.

Lemma deliver_users m src conns w :
  Forall named conns →
  for_each conns (deliver_to uid accepts (drop_user_conn uid) m src) w
  = (on_store (λ s, scheduling (handed (WriteMessage m) (others src conns))
                      (with_users (without_users (refusing (others src conns)) (users s)) s)) w, Ok ()).
Proof.
  apply (deliver_all (drop_user_conn uid) users with_users without_users); try done; [by intros []|].
  intros c w' Hc. destruct (named_assert c Hc) as [i Hi].
  unfold drop_user_conn, without_users, WbcmUsers.run_ops. run_prog.
  unfold WbcmUsers.remove_connection. rewrite Hi. done.
Qed.

Lemma deliver_devices m src conns w :
  Forall named conns →
  for_each conns (deliver_to uid accepts (drop_device_conn uid) m src) w
  = (on_store (λ s, scheduling (handed (WriteMessage m) (others src conns))
                      (with_devices (without_devices (refusing (others src conns)) (devices s)) s)) w, Ok ()).
Proof.
  apply (deliver_all (drop_device_conn uid) devices with_devices without_devices); try done; [by intros []|].
  intros c w' Hc. destruct (named_assert c Hc) as [i Hi].
  unfold drop_device_conn, without_devices, WbcmUsers.run_ops. run_prog.
  unfold WbcmDevices.remove_connection. rewrite Hi. done.
Qed.

Definition wanted (sid_wanted : option json) (c : conn) : bool :=
  match sid_wanted with Some t => attr_eq (sid c) t | None => true end.

Lemma close_all src target conns w :
  for_each conns (close_one uid sid accepts src target) w
  = (on_store (scheduling (handed CloseSocket (filter (λ c, wanted target c = true) (others src conns)))) w, Ok ()).
Proof.
  revert w. induction conns as [|c conns IH]; intros w; simpl.
  { unfold mret, prog_ret. f_equal. symmetry. apply on_store_id. intros s. apply scheduling_nil. }
  unfold mbind, prog_bind, close_one at 1. unfold others. rewrite filter_cons.
  destruct (attr_eq (uid c) src) eqn:Hs; simpl; [unfold mret, prog_ret; by rewrite IH|].
  rewrite filter_cons. destruct (wanted target c) eqn:Ht; unfold wanted in Ht.
  - assert (match target with Some t => negb (attr_eq (sid c) t) | None => false end = false) as ->
      by (destruct target; [by rewrite Ht|done]).
    rewrite decide_True by done. unfold handed. rewrite filter_cons. unfold try_except.
    destruct (is_ok (accepts c)) eqn:Ha; simpl.
    + rewrite call_soon_ok by done. rewrite IH. f_equal. unfold on_store. simpl. by rewrite scheduling_app.
    + unfold call_soon, lift_res, mbind, prog_bind. destruct (accepts c) as [|e] eqn:He; [done|].
      rewrite (refusal c e He). unfold mret, prog_ret. by rewrite IH.
  - assert (match target with Some t => negb (attr_eq (sid c) t) | None => false end = true) as ->
      by (destruct target; [by rewrite Ht|done]).
    rewrite decide_False by done. unfold mret, prog_ret. by rewrite IH.
Qed.
End manager_facts.
