(* ===== verification/WbcmProps.v ===== *)
(** * What the connection manager achieves *)

From Stdlib Require Import ZArith Lia.
From S2P Require Import Prelude PyStr Json Wbcm.
From S2P Require WbcmUsers WbcmDevices.
Import WbcmUsers (conn).

Section routing.
Context (uid sid : conn → option string) (accepts : conn → res ()) (json_decode : string → res json).

(** Every handler of the two registries has a [uid]. *)
Definition tracked (s : manager) : Prop :=
  Forall (named uid) (WbcmUsers.items (users s)).*2 ∧ Forall (named uid) (WbcmDevices.items (devices s)).*2.

Lemma looked_up_named (d : list (string * conn)) ids :
  Forall (named uid) d.*2 → Forall (named uid) (omap (λ i, dict_get i d) ids).
Proof.
  rewrite !Forall_forall. intros Hd c. rewrite list_elem_of_omap. intros (i & _ & Hi).
  apply Hd. apply list_elem_of_fmap. exists (i, c). split; [done|by apply dict_get_Some_elem].
Qed.

Lemma users_named k s : tracked s → Forall (named uid) (WbcmUsers.get_connections_by_user_id k (users s)).
Proof.
  intros [Hu _]. unfold WbcmUsers.get_connections_by_user_id. destruct (dict_get k _); [by apply looked_up_named|constructor].
Qed.

Lemma devices_named k s : tracked s → Forall (named uid) (WbcmDevices.get_connections_by_device_id k (devices s)).
Proof.
  intros [_ Hd]. unfold WbcmDevices.get_connections_by_device_id. destruct (dict_get k _); [by apply looked_up_named|constructor].
Qed.

(** A message with every field [work] asks for. *)
Definition complete (m : message) : Prop :=
  dict_has "service" m = true ∧ dict_has "type" m = true ∧ dict_has "data" m = true ∧ dict_has "source_uid" m = true.

Definition of_type (t : string) (m : message) : Prop := dict_get "type" m = Some (JStr t).

(** The effect of handing [m] to the handlers of a user, of a device, to all,
    and of closing a user's sessions. *)
Definition to_users (m : message) (src : json) (conns : list conn) (s : manager) : manager :=
  scheduling (handed accepts (WriteMessage (JObj m)) (others uid src conns))
    (with_users (without_users uid (refusing accepts (others uid src conns)) (users s)) s).
Definition to_devices (m : message) (src : json) (conns : list conn) (s : manager) : manager :=
  scheduling (handed accepts (WriteMessage (JObj m)) (others uid src conns))
    (with_devices (without_devices uid (refusing accepts (others uid src conns)) (devices s)) s).
Definition closing (src : json) (target : option json) (conns : list conn) (s : manager) : manager :=
  scheduling (handed accepts CloseSocket (filter (λ c, wanted sid target c = true) (others uid src conns))) s.

Lemma work_routes m m' w :
  complete m → decode_data json_decode m = Some m' →
  work uid sid accepts json_decode m w = route uid sid accepts m' w.
Proof. intros (H1 & H2 & H3 & H4) Hd. unfold work. by rewrite H1, H2, H3, H4, Hd. Qed.

Lemma field_some k d m v : dict_get k m = Some v → field k d m = v.
Proof. unfold field. by intros ->. Qed.

Lemma field_of_type t m : of_type t m → field "type" (JStr "") m = JStr t.
Proof. unfold of_type, field. by intros ->. Qed.


Context (refusal : ∀ c e, accepts c = Err e → is_exception e = true).

Lemma send_to_user k m src w :
  tracked (w_st w) →
  send_message uid accepts (JStr k) (JObj m) src w
  = (on_store (to_users m src (WbcmUsers.get_connections_by_user_id k (users (w_st w)))) w, Ok ()).
Proof.
  intros Htr. unfold send_message, lookup_users. run_prog. apply (deliver_users _ _ refusal). by apply users_named.
Qed.

Lemma route_plain t k m m' w :
  tracked (w_st w) → complete m → decode_data json_decode m = Some m' →
  of_type t m' → t ≠ "session_revoked" → t ≠ "session_relay" → dict_get "user_id" m' = Some (JStr k) →
  work uid sid accepts json_decode m w
  = (on_store (to_users m' (field "source_uid" (JStr "") m') (WbcmUsers.get_connections_by_user_id k (users (w_st w)))) w, Ok true).
Proof.
  intros Htr Hc Hd Ht H1 H2 Hk. rewrite (work_routes m m') by done. unfold route. rewrite (field_of_type _ _ Ht). simpl.
  destruct (String.eqb_spec t "session_revoked"), (String.eqb_spec t "session_relay"); try done. rewrite Hk.
  unfold mbind, prog_bind. by rewrite send_to_user.
Qed.
End routing.

(** Where a complete message with decodable data goes: a revocation asks
    every socket of the user but the source, or only the ones of the named
    session, to close and changes no registry; a relay goes to the handlers of
    the device or user it names; any other message to the handlers of its
    user, or to all when the user is null. It is handed once to each handler
    but the source whose loop accepts it, in registration order, and exactly
    the handlers whose loop refuses are removed. *)
Theorem routing_spec uid sid accepts json_decode m m' (w : world manager) :
  (∀ c e, accepts c = Err e → is_exception e = true) → tracked uid (w_st w) →
  complete m → decode_data json_decode m = Some m' →
  let src := field "source_uid" (JStr "") m' in
  let of_user k := WbcmUsers.get_connections_by_user_id k (users (w_st w)) in
  let of_device k := WbcmDevices.get_connections_by_device_id k (devices (w_st w)) in
  let run := work uid sid accepts json_decode m w in
  (∀ k, of_type "session_revoked" m' → dict_get "user_id" m' = Some (JStr k) →
     let target := field "target_sid" JNull m' in
     run = (on_store (closing uid sid accepts src (if truthy target then Some target else None) (of_user k)) w, Ok true))
  ∧ (∀ k, of_type "session_relay" m' → dict_get "target_type" m' = Some (JStr "device") →
     dict_get "target_id" m' = Some (JStr k) → run = (on_store (to_devices uid accepts m' src (of_device k)) w, Ok true))
  ∧ (∀ k, of_type "session_relay" m' → dict_get "target_type" m' = Some (JStr "user") →
     dict_get "target_id" m' = Some (JStr k) → run = (on_store (to_users uid accepts m' src (of_user k)) w, Ok true))
  ∧ (∀ t k, of_type t m' → t ≠ "session_revoked" → t ≠ "session_relay" → dict_get "user_id" m' = Some (JStr k) →
     run = (on_store (to_users uid accepts m' src (of_user k)) w, Ok true))
  ∧ (∀ t, of_type t m' → t ≠ "session_revoked" → t ≠ "session_relay" → dict_get "user_id" m' = Some JNull →
     run = (on_store (to_users uid accepts m' src (WbcmUsers.items (users (w_st w))).*2) w, Ok true)).
Proof.
  intros Href Htr Hc Hd src of_user of_device run.
  assert (Hrun : run = route uid sid accepts m' w) by (by apply work_routes).
  rewrite Hrun. unfold route. split_and!.
  - intros k Ht Hk. rewrite (field_of_type _ _ Ht), (field_some _ _ _ _ Hk). simpl.
    unfold close_sessions, lookup_users. run_prog. by rewrite (close_all _ _ _ Href).
  - intros k Ht Hty Hk. rewrite (field_of_type _ _ Ht), (field_some _ _ _ _ Hty), (field_some _ _ _ _ Hk). simpl.
    unfold send_message_to_device, lookup_devices. run_prog. rewrite (deliver_devices _ _ Href); [done|by apply devices_named].
  - intros k Ht Hty Hk. rewrite (field_of_type _ _ Ht), (field_some _ _ _ _ Hty), (field_some _ _ _ _ Hk). simpl.
    unfold mbind, prog_bind. by rewrite send_to_user.
  - intros t k Ht H1 H2 Hk. fold (route uid sid accepts m'). rewrite <- Hrun. by eapply route_plain.
  - intros t Ht H1 H2 Hk. rewrite (field_of_type _ _ Ht). simpl.
    destruct (String.eqb_spec t "session_revoked"), (String.eqb_spec t "session_relay"); try done. rewrite Hk.
    unfold send_message_to_all. run_prog. rewrite (deliver_users _ _ Href); [done|by apply Htr].
Qed.

Definition w_uid (c : conn) : option string := ["a"; "b"; "c"; "d"] !! c.
Definition w_sid (c : conn) : option string := if (c =? 1)%nat then Some "s1" else Some "s0".
Definition w_accepts (c : conn) : res () :=
  if (c =? 2)%nat then Err (raise_exn RuntimeError "Event loop is closed") else Ok ().
Definition w_users : WbcmUsers.UserConnections :=
  WbcmUsers.run_ops WbcmUsers.run_op
    (WbcmUsers.OpAdd (Some "a") 0%nat :: WbcmUsers.OpAdd (Some "b") 1%nat :: WbcmUsers.OpAdd (Some "c") 2%nat
     :: WbcmUsers.OpAdd (Some "d") 3%nat :: WbcmUsers.OpAssign "d" "u7" :: WbcmUsers.OpAssign "a" "u7"
     :: WbcmUsers.OpAssign "b" "u7" :: WbcmUsers.OpAssign "c" "u7" :: [WbcmUsers.OpAssign "d" "u8"]) WbcmUsers.__init__.
Definition w_manager : world manager := World (Manager w_users WbcmDevices.__init__ "$" []) [] 0.
Definition w_message (t user : string) : message :=
  [("type", JStr t); ("service", JStr "s"); ("user_id", JStr user); ("source_uid", JStr "a"); ("data", JStr "{}")].
Definition w_decoded (t user : string) : message :=
  [("type", JStr t); ("service", JStr "s"); ("user_id", JStr user); ("source_uid", JStr "a"); ("data", JObj [])].

Lemma w_refusal c e : w_accepts c = Err e → is_exception e = true.
Proof. unfold w_accepts. case_match; [by intros [= <-]|done]. Qed.

Lemma w_tracked : tracked w_uid (w_st w_manager).
Proof.
  split; [|constructor]. vm_compute. repeat constructor; eexists; split; reflexivity || discriminate.
Qed.

Lemma routing_spec_witness :
  let run := work w_uid w_sid w_accepts loads (w_message "note" "u7") w_manager in
  run.2 = Ok true
  ∧ scheduled (w_st run.1) = [(1%nat, WriteMessage (JObj (w_decoded "note" "u7")))]
  ∧ (WbcmUsers.items (users (w_st run.1))).*1 = ["a"; "b"; "d"].
Proof.
  intros run. assert (Hd : decode_data loads (w_message "note" "u7") = Some (w_decoded "note" "u7")) by (vm_compute; reflexivity).
  assert (Hc : complete (w_message "note" "u7")) by (repeat split; reflexivity).
  destruct (routing_spec w_uid w_sid w_accepts loads (w_message "note" "u7") (w_decoded "note" "u7") w_manager
              w_refusal w_tracked Hc Hd) as (_ & _ & _ & Huser & _).
  assert (Ht : of_type "note" (w_decoded "note" "u7")) by reflexivity.
  unfold run. rewrite (Huser "note" "u7" Ht ltac:(discriminate) ltac:(discriminate) ltac:(reflexivity)).
  split_and!; vm_compute; reflexivity.
Defined.

(** C25: Whatever was registered, assigned, re-assigned and removed before, a
    message for a user is handed to a handler exactly when the handler is the
    live one of a connection that user owns now, is not the source and has a
    loop that accepts it: a socket that signed in as somebody else gets
    nothing of its previous user. Nothing but that one message is handed out. *)
Theorem delivery_follows_owner uid sid accepts json_decode ops m m' t k (w : world manager) :
  (∀ c e, accepts c = Err e → is_exception e = true) → tracked uid (w_st w) →
  users (w_st w) = WbcmUsers.run_ops WbcmUsers.run_op ops WbcmUsers.__init__ →
  complete m → decode_data json_decode m = Some m' →
  of_type t m' → t ≠ "session_revoked" → t ≠ "session_relay" → dict_get "user_id" m' = Some (JStr k) →
  let r := WbcmUsers.run_ops WbcmUsers.roster_op ops (WbcmUsers.Roster ∅ ∅) in
  let '(w', result) := work uid sid accepts json_decode m w in
  result = Ok true ∧
  ∃ new, scheduled (w_st w') = scheduled (w_st w) ++ new ∧
    ∀ c cb, (c, cb) ∈ new ↔
      cb = WriteMessage (JObj m') ∧ (∃ i, WbcmUsers.owner r !! i = Some k ∧ WbcmUsers.live r !! i = Some c)
      ∧ attr_eq (uid c) (field "source_uid" (JStr "") m') = false ∧ accepts c = Ok ().
Proof.
  intros Href Htr Hu Hc Hd Ht H1 H2 Hk r. rewrite (route_plain uid sid accepts json_decode Href t k m m') by done.
  split; [done|]. set (src := field "source_uid" (JStr "") m').
  assert (Hi : WbcmUsers.implements (users (w_st w)) r)
    by (rewrite Hu; apply WbcmUsers.implements_ops, WbcmUsers.implements_init).
  destruct (WbcmUsers.implements_connections _ _ k Hi) as (ids & _ & Hids & Hget).
  exists (handed accepts (WriteMessage (JObj m')) (others uid src (WbcmUsers.get_connections_by_user_id k (users (w_st w))))).
  split; [done|]. intros c cb. unfold handed, others. rewrite list_elem_of_fmap, Hget. split.
  - intros (c' & [= -> ->] & [Ha [Hs Hin]%list_elem_of_filter]%list_elem_of_filter).
    apply list_elem_of_omap in Hin as (i & Hi' & Hl). split_and!; [done| |done|by destruct (accepts c') as [[]|]].
    exists i. split; [by apply Hids|done].
  - intros (-> & (i & Ho & Hl) & Hs & Ha). exists c. split; [done|].
    rewrite !list_elem_of_filter, Ha. split_and!; [done|done|].
    apply list_elem_of_omap. exists i. split; [by apply Hids|done].
Qed.

Lemma delivery_follows_owner_witness :
  let run := work w_uid w_sid w_accepts loads (w_message "note" "u7") w_manager in
  (3%nat, WriteMessage (JObj (w_decoded "note" "u7"))) ∉ scheduled (w_st run.1).
Proof.
  set (ops := WbcmUsers.OpAdd (Some "a") 0%nat :: WbcmUsers.OpAdd (Some "b") 1%nat :: WbcmUsers.OpAdd (Some "c") 2%nat
     :: WbcmUsers.OpAdd (Some "d") 3%nat :: WbcmUsers.OpAssign "d" "u7" :: WbcmUsers.OpAssign "a" "u7"
     :: WbcmUsers.OpAssign "b" "u7" :: WbcmUsers.OpAssign "c" "u7" :: [WbcmUsers.OpAssign "d" "u8"]).
  assert (Hd : decode_data loads (w_message "note" "u7") = Some (w_decoded "note" "u7")) by (vm_compute; reflexivity).
  assert (Hc : complete (w_message "note" "u7")) by (repeat split; reflexivity).
  assert (Ht : of_type "note" (w_decoded "note" "u7")) by reflexivity.
  assert (Hk : dict_get "user_id" (w_decoded "note" "u7") = Some (JStr "u7")) by reflexivity.
  pose proof (delivery_follows_owner w_uid w_sid w_accepts loads ops (w_message "note" "u7") (w_decoded "note" "u7")
    "note" "u7" w_manager w_refusal w_tracked ltac:(reflexivity) Hc Hd Ht ltac:(discriminate) ltac:(discriminate) Hk) as H.
  intros run. change (work w_uid w_sid w_accepts loads (w_message "note" "u7") w_manager) with run in H.
  destruct run as [w' r]. destruct H as (_ & new & Hs & Hnew). simpl. rewrite Hs. simpl.
  intros Hin. apply Hnew in Hin as (_ & (i & Ho & Hl) & _).
  assert (Hi : i = "d").
  { assert (Hall : ∀ x y, WbcmUsers.live (WbcmUsers.run_ops WbcmUsers.roster_op ops (WbcmUsers.Roster ∅ ∅)) !! x = Some y →
             (x, y) ∈ [("a", 0%nat); ("b", 1%nat); ("c", 2%nat); ("d", 3%nat)]).
    { intros x y. simpl. rewrite !lookup_insert_Some, lookup_empty. set_solver. }
    apply Hall in Hl. set_solver. }
  subst i. by vm_compute in Ho.
Defined.

(** ** Ticks *)

Section ticks.
Context (uid sid : conn → option string) (accepts : conn → res ()) (json_decode : string → res json).
Context (refusal : ∀ c e, accepts c = Err e → is_exception e = true).

Definition keeps_position (s s' : manager) : Prop := stream_last_id s' = stream_last_id s.
#[local] Instance keeps_position_preorder : PreOrder keeps_position.
Proof. split; [by intros s|intros a b c H1 H2; unfold keeps_position in *; congruence]. Qed.

Lemma drop_user_keeps c : within keeps_position (drop_user_conn uid c).
Proof. intros w. unfold drop_user_conn. run_prog. by destruct (WbcmUsers.remove_connection _ _ _). Qed.

Lemma drop_device_keeps c : within keeps_position (drop_device_conn uid c).
Proof. intros w. unfold drop_device_conn. run_prog. by destruct (WbcmDevices.remove_connection _ _ _). Qed.
#[local] Hint Resolve drop_user_keeps drop_device_keeps : pyr.

Lemma call_soon_keeps c cb : within keeps_position (call_soon accepts c cb).
Proof. unfold call_soon. within_tac. done. Qed.
#[local] Hint Resolve call_soon_keeps : pyr.

Lemma route_keeps m : within keeps_position (route uid sid accepts m).
Proof.
  unfold route, send_message, send_message_to_device, send_message_to_all, close_sessions, lookup_users, lookup_devices,
    deliver_to, close_one. within_tac.
Qed.

Lemma work_keeps m : within keeps_position (work uid sid accepts json_decode m).
Proof. unfold work. within_tac. apply route_keeps. Qed.

Definition exception (e : exn) : Prop := is_exception e = true.

Lemma as_key_raises v e : as_key v = Err e → exception e.
Proof. destruct v; simpl; by intros [= <-]. Qed.

Lemma remove_user_raises c u e : WbcmUsers.remove_connection uid c u = Err e → exception e.
Proof. unfold WbcmUsers.remove_connection. destruct (uid c) as [x|]; simpl; [destruct (String.eqb x "")|]; by intros [= <-]. Qed.

Lemma remove_device_raises c d e : WbcmDevices.remove_connection uid c d = Err e → exception e.
Proof. unfold WbcmDevices.remove_connection. destruct (uid c) as [x|]; simpl; [destruct (String.eqb x "")|]; by intros [= <-]. Qed.
#[local] Hint Resolve as_key_raises remove_user_raises remove_device_raises : pyr.

Lemma call_soon_raises c cb : only_raises exception (call_soon accepts c cb).
Proof. unfold call_soon. raises_tac. by apply refusal. Qed.

Lemma caught_soon c cb h :
  (∀ e, only_raises exception (h e)) → only_raises exception (try_except (call_soon accepts c cb) is_exception h).
Proof.
  intros Hh. apply raises_try; [|done]. intros w w' e He Hs. pose proof (call_soon_raises c cb w w' e He). unfold exception in *. congruence.
Qed.

Lemma route_raises m : only_raises exception (route uid sid accepts m).
Proof.
  unfold route, send_message, send_message_to_device, send_message_to_all, close_sessions, lookup_users, lookup_devices,
    deliver_to, close_one, drop_user_conn, drop_device_conn.
  repeat ((apply caught_soon; intros ?) || raises_step); eauto with pyr.
Qed.

Lemma work_raises m : only_raises exception (work uid sid accepts json_decode m).
Proof. unfold work. raises_tac. apply route_raises. Qed.

Lemma process_one_spec i m w :
  ∃ w', process_one uid sid accepts json_decode (i, m) w = (w', Ok ()) ∧ stream_last_id (w_st w') = i.
Proof.
  unfold process_one, try_except. unfold mbind at 1, prog_bind at 1. unfold mbind at 1, prog_bind at 1.
  destruct (work uid sid accepts json_decode m w) as [w1 [b|e]] eqn:E.
  - by eexists.
  - rewrite (work_raises m w w1 e E). by eexists.
Qed.

Lemma process_batch l w :
  ∃ w', for_each l (process_one uid sid accepts json_decode) w = (w', Ok ())
    ∧ stream_last_id (w_st w') = default (stream_last_id (w_st w)) (last l.*1).
Proof.
  revert w. induction l as [|[i m] l IH]; intros w; [by exists w|]. cbn [for_each].
  destruct (process_one_spec i m w) as (w1 & Hp & Hi). unfold mbind, prog_bind. rewrite Hp.
  destruct (IH w1) as (w' & Hw & Hl). exists w'. split; [exact Hw|]. rewrite Hl, Hi.
  destruct l as [|[j m2] l]; [done|]. rewrite !fmap_cons, last_cons_cons. cbn [fst].
  by destruct (last (j :: l.*1)) eqn:El; [|apply last_None in El].
Qed.
End ticks.

(** C26: A tick never ends with an error and never stalls: whatever the
    messages of a batch hold and however many of them fail, the position after
    the tick is the id of the last one, so the next tick reads on; when the
    server could not be reached or answered nothing, the position stays. *)
Theorem tick_advances uid sid accepts json_decode open close xread stream (w : world manager) :
  (∀ c e, accepts c = Err e → is_exception e = true) →
  (∀ e, open = Err e ∨ close = Err e ∨ (∃ p, xread p = Err e) → is_exception e = true) →
  let '(w', result) := tick uid sid accepts json_decode open close xread stream w in
  result = Ok ()
  ∧ stream_last_id (w_st w') =
      match open, xread (stream_last_id (w_st w)) with
      | Ok _, Ok cached =>
          match dict_get stream cached with
          | Some (batch :: _) => default (stream_last_id (w_st w)) (last batch.*1)
          | _ => stream_last_id (w_st w)
          end
      | _, _ => stream_last_id (w_st w)
      end.
Proof.
  intros Href Hx. unfold tick, connect_dbs, try_except, try_finally.
  assert (Hclose : ∀ e, close = Err e → is_exception e = true) by (intros; apply Hx; tauto).
  assert (Hfin : ∀ w1 r p, (∀ e, r = Err e → is_exception e = true) → stream_last_id (w_st w1) = p →
    let '(w', result) :=
      match (let '(w', r) := (w1, r) : world manager * res () in
             match lift_res close w' with (w'', Ok _) => (w'', r) | (w'', Err e) => (w'', Err e) end) with
      | (w', Err e) => if is_exception e then (mret () : prog manager ()) w' else (w', Err e)
      | r => r
      end in result = Ok () ∧ stream_last_id (w_st w') = p).
  { intros w1 r p Hr Hp. unfold lift_res. destruct close as [u|e]; [destruct r as [[]|e']|].
    - done.
    - by rewrite (Hr e').
    - by rewrite (Hclose e). }
  unfold mbind at 1, prog_bind at 1. unfold lift_res at 1. destruct open as [u|e].
  2: { apply Hfin; [intros e' [= <-]; apply Hx; by left|done]. }
  unfold process_messages, get_st, lift_res at 1. unfold mbind, prog_bind.
  destruct (xread (stream_last_id (w_st w))) as [cached|e] eqn:E.
  2: { apply Hfin; [intros e' [= <-]; apply Hx; eauto|done]. }
  destruct (dict_get stream cached) as [[|batch rest]|]; [by apply Hfin; [intros e [= <-]|]| |by apply Hfin].
  destruct (process_batch uid sid accepts json_decode Href batch w) as (w1 & Hb & Hl).
  rewrite Hb. apply Hfin; [done|exact Hl].
Qed.

(** A batch whose first message is unreadable and whose second raises. *)
Definition w_batch (p : string) : res reply :=
  Ok [("app", [[("1-0", [("type", JStr "x")]);
                ("2-0", [("type", JStr "note"); ("service", JStr "s"); ("user_id", JList []); ("source_uid", JStr ""); ("data", JNull)]);
                ("3-0", w_message "note" "u7")]])].

Lemma tick_advances_witness :
  stream_last_id (w_st (tick w_uid w_sid w_accepts loads (Ok ()) (Ok ()) w_batch "app" w_manager).1) = "3-0".
Proof.
  assert (Hx : ∀ e, @Ok () () = Err e ∨ @Ok () () = Err e ∨ (∃ p, w_batch p = Err e) → is_exception e = true)
    by (intros e [?|[?|[p ?]]]; discriminate).
  pose proof (tick_advances w_uid w_sid w_accepts loads (Ok ()) (Ok ()) w_batch "app" w_manager w_refusal Hx) as H.
  destruct (tick _ _ _ _ _ _ _ _ _) as [w' r]. destruct H as [_ H]. exact H.
Defined.
