(* ===== verification/IpAddress.v ===== *)
(** * The [ipaddress] module

    What the code uses of Python's standard library: parsing an address or a
    network (CPython 3.12), membership, IPv4-mapped addresses and the text of
    an address. [None] stands for the [ValueError] the module raises. An IPv6
    scope id is kept only for the text. *)

From Stdlib Require Import ZArith Lia.
From S2P Require Import Prelude PyStr Json.

Inductive address :=
  | V4 (ip : Z)
  | V6 (ip : Z) (scope : option string).

Definition guard (b : bool) : option () := if b then Some () else None.

(** ** Reading *)

(** [_parse_octet] *)
Definition parse_octet (s : string) : option Z :=
  guard (isdigit s);;
  guard (py_len s <=? 3);;
  guard (String.eqb s "0" || negb (startswith "0" s));;
  n ← Z_of_str s;
  guard (n <=? 255);;
  Some n.

Definition parse_v4 (s : string) : option Z :=
  match split "."%char s with
  | [a; b; c; d] =>
      a ← parse_octet a; b ← parse_octet b; c ← parse_octet c; d ← parse_octet d;
      Some (((a * 256 + b) * 256 + c) * 256 + d)
  | _ => None
  end.

(** [int(s, 16)] for text of hexadecimal digits *)
Definition hex_int (l : list ascii) : option Z :=
  match l with
  | [] => None
  | _ => foldl (λ acc a, n ← acc; d ← hex_value a; Some (n * 16 + d)) (Some 0) l
  end.

(** [_parse_hextet] *)
Definition parse_hextet (s : string) : option Z :=
  guard (py_len s <=? 4);; hex_int (chars s).

(** ['%x' % n] for a 16-bit [n] *)
Definition hextet_text (n : Z) : string :=
  let ds := [n / 4096 mod 16; n / 256 mod 16; n / 16 mod 16; n mod 16] in
  let fix drop_zeros ds := match ds with
    | [d] => [d]
    | d :: ds' => if d =? 0 then drop_zeros ds' else ds
    | [] => []
    end in
  String.concat "" (hex_digit <$> drop_zeros ds).

Definition hextets_value (l : list string) : option Z :=
  foldl (λ acc s, n ← acc; h ← parse_hextet s; Some (n * 65536 + h)) (Some 0) l.

(** The places of empty parts other than the first and the last: two
    of them are two ['::']. *)
Definition empty_places (parts : list string) : list nat :=
  List.filter (λ i, match parts !! i with Some "" => true | _ => false end) (seq 1 (length parts - 2)).

Definition is_empty (s : string) : bool := String.eqb s "".

(** The dotted tail, when there is one, becomes two hextets. *)
Definition expand_tail (parts : list string) : option (list string) :=
  match last parts with
  | Some t =>
      if existsb (Ascii.eqb "."%char) (chars t) then
        n ← (if existsb (Ascii.eqb "/"%char) (chars t) then None else parse_v4 t);
        Some (removelast parts ++ [hextet_text (n / 65536); hextet_text (n mod 65536)])
      else Some parts
  | None => None
  end.

Definition parse_v6 (s : string) : option Z :=
  let parts := split ":"%char s in
  guard (3 <=? length parts)%nat;;
  parts ← expand_tail parts;
  guard (length parts <=? 9)%nat;;
  let first_empty := match head parts with Some p => is_empty p | None => false end in
  let last_empty := match last parts with Some p => is_empty p | None => false end in
  match empty_places parts with
  | [] =>
      guard (length parts =? 8)%nat;; guard (negb first_empty);; guard (negb last_empty);; hextets_value parts
  | [skip_index] =>
      let parts_hi := (skip_index - (if first_empty then 1 else 0))%nat in
      let parts_lo := (length parts - skip_index - 1 - (if last_empty then 1 else 0))%nat in
      guard (negb first_empty || (parts_hi =? 0)%nat);;
      guard (negb last_empty || (parts_lo =? 0)%nat);;
      guard (parts_hi + parts_lo <? 8)%nat;;
      hi ← hextets_value (take parts_hi parts);
      lo ← hextets_value (drop (length parts - parts_lo) parts);
      Some (hi * 2 ^ (16 * (8 - Z.of_nat parts_hi)) + lo)
  | _ => None
  end.

(** [_split_scope_id] *)
Definition split_scope (s : string) : option (string * option string) :=
  match partition "%"%char s with
  | (a, false, _) => Some (a, None)
  | (a, true, scope) =>
      guard (negb (is_empty scope));; guard (negb (existsb (Ascii.eqb "%"%char) (chars scope)));; Some (a, Some scope)
  end.

Definition has_slash (s : string) : bool := existsb (Ascii.eqb "/"%char) (chars s).

(** [ip_address(s)] *)
Definition ip_address (s : string) : option address :=
  if has_slash s then None
  else
    match parse_v4 s with
    | Some n => Some (V4 n)
    | None => p ← split_scope s; n ← parse_v6 p.1; Some (V6 n p.2)
    end.

(** ** Networks *)

Record network := Network { net_v6 : bool; net_ip : Z; net_prefix : Z }.

Definition width (v6 : bool) : Z := if v6 then 128 else 32.

(** The bits of the netmask: the leading [prefix] ones of the width. *)
Definition netmask (v6 : bool) (prefix : Z) : Z := 2 ^ width v6 - 2 ^ (width v6 - prefix).

(** [_prefix_from_prefix_string] *)
Definition prefix_number (v6 : bool) (s : string) : option Z :=
  guard (isdigit s);; n ← Z_of_str s; guard (n <=? width v6);; Some n.

(** [_prefix_from_ip_string]: a dotted netmask, or a hostmask. *)
Definition prefix_of_mask (s : string) : option Z :=
  n ← parse_v4 s;
  match List.find (λ p, netmask false p =? n) (Z.of_nat <$> seq 0 33) with
  | Some p => Some p
  | None => List.find (λ p, 2 ^ 32 - 1 - netmask false p =? n) (Z.of_nat <$> seq 0 33)
  end.

Definition network_prefix (v6 : bool) (mask : option string) : option Z :=
  match mask with
  | None => Some (width v6)
  | Some s =>
      match prefix_number v6 s with
      | Some p => Some p
      | None => if v6 then None else prefix_of_mask s
      end
  end.

(** The parts of [address/mask]. *)
Definition split_mask (s : string) : option (string * option string) :=
  match split "/"%char s with
  | [a] => Some (a, None)
  | [a; m] => Some (a, Some m)
  | _ => None
  end.

Definition make_network (strict v6 : bool) (ip prefix : Z) : option network :=
  let masked := Z.land ip (netmask v6 prefix) in
  if strict && negb (masked =? ip) then None else Some (Network v6 masked prefix).

(** [ip_network(s, strict)]. What is not an IPv4 network is tried as an IPv6
    one; host bits in an IPv4 network are an error at once. *)
Definition ip_network (s : string) (strict : bool) : option network :=
  parts ← split_mask s;
  match parse_v4 parts.1, network_prefix false parts.2 with
  | Some ip, Some prefix => make_network strict false ip prefix
  | _, _ =>
      p ← split_scope parts.1;
      ip ← parse_v6 p.1;
      prefix ← network_prefix true parts.2;
      make_network strict true ip prefix
  end.

(** [address in network] *)
Definition in_network (a : address) (n : network) : bool :=
  match a with
  | V4 ip => negb (net_v6 n) && (Z.land ip (netmask false (net_prefix n)) =? net_ip n)
  | V6 ip _ => net_v6 n && (Z.land ip (netmask true (net_prefix n)) =? net_ip n)
  end.

(** [address.ipv4_mapped or address] *)
Definition unmap (a : address) : address :=
  match a with
  | V6 ip _ => if ip / 2 ^ 32 =? 65535 then V4 (ip mod 2 ^ 32) else a
  | V4 _ => a
  end.

(** ** Writing *)

Definition v4_text (n : Z) : string :=
  join "." (str_of_Z <$> [n / 16777216; n / 65536 mod 256; n / 256 mod 256; n mod 256]).

(** The longest run of zeros, its start and its length: the first one of
    that length. *)
Fixpoint zero_run (i start len best_start best_len : nat) (hs : list string) : nat * nat :=
  match hs with
  | [] => (best_start, best_len)
  | h :: hs =>
      if String.eqb h "0" then
        let start := if (len =? 0)%nat then i else start in
        let len := S len in
        if (best_len <? len)%nat then zero_run (S i) start len start len hs
        else zero_run (S i) start len best_start best_len hs
      else zero_run (S i) 0 0 best_start best_len hs
  end.

(** [_compress_hextets] *)
Definition compress (hs : list string) : list string :=
  let '(start, len) := zero_run 0 0 0 0 0 hs in
  if (1 <? len)%nat then
    let stop := (start + len)%nat in
    let tail := drop stop hs ++ (if (stop =? length hs)%nat then [""] else []) in
    (if (start =? 0)%nat then [""] else []) ++ take start hs ++ [""] ++ tail
  else hs.

Definition v6_text (n : Z) : string :=
  join ":" (compress ((λ i, hextet_text (n / 2 ^ (16 * i) mod 65536)) <$> [7; 6; 5; 4; 3; 2; 1; 0])).

(** [str(address)] *)
Definition address_text (a : address) : string :=
  match a with
  | V4 n => v4_text n
  | V6 n None => v6_text n
  | V6 n (Some scope) => v6_text n +:+ "%" +:+ scope
  end.

(** [str(network)] *)
Definition network_text (n : network) : string :=
  (if net_v6 n then v6_text (net_ip n) else v4_text (net_ip n)) +:+ "/" +:+ str_of_Z (net_prefix n).

Example ip_v4 : ip_address "10.0.0.255" = Some (V4 167772415) ∧ ip_address "010.0.0.1" = None ∧ ip_address "1.2.3" = None.
Proof. vm_compute. done. Qed.
Example ip_v6 : (address_text <$> ip_address "2001:DB8:0:0:1:0:0:1") = Some "2001:db8::1:0:0:1"
  ∧ (address_text <$> ip_address "::") = Some "::" ∧ (address_text <$> ip_address "fe80::1%eth0") = Some "fe80::1%eth0"
  ∧ ip_address "1::2::3" = None ∧ ip_address ":1:2:3:4:5:6:7" = None ∧ (unmap <$> ip_address "::ffff:10.0.0.1") = Some (V4 167772161).
Proof. vm_compute. done. Qed.
Example ip_net : (network_text <$> ip_network "10.0.0.0/255.0.0.0" true) = Some "10.0.0.0/8"
  ∧ ip_network "10.0.0.5/8" true = None ∧ (network_text <$> ip_network "10.0.0.5/8" false) = Some "10.0.0.0/8"
  ∧ (network_text <$> ip_network "2001:db8::/32" true) = Some "2001:db8::/32"
  ∧ (network_text <$> ip_network "10.0.0.7" true) = Some "10.0.0.7/32".
Proof. vm_compute. done. Qed.
