(* ===== verification/ClientIp.v ===== *)
(** * The client's address

    [request_handler/client_ip.py]: which address a request came from, given
    the socket's peer, the forwarding headers and the trusted proxies. *)

From Stdlib Require Import ZArith Lia.
From S2P Require Import Prelude PyStr Json IpAddress.

(** [config["trusted_proxies"]]: a text or a list, whose items are texts. *)
Inductive proxies_setting := ProxyText (s : string) | ProxyList (l : list string).

(** Entries that are no network are left out (and reported in the log). *)
Definition trusted_proxies (configured : option proxies_setting) (env : option string) : list network :=
  let items :=
    match configured with
    | Some (ProxyText s) => split ","%char s
    | Some (ProxyList l) => l
    | None => split ","%char (default "" env)
    end in
  omap (λ item, let text := strip item in if is_empty text then None else ip_network text true) items.

Definition _parse (raw : option string) : option address :=
  match raw with
  | Some s => if is_empty s then None else unmap <$> ip_address (strip s)
  | None => None
  end.

Arguments _parse : simpl never.

Definition _is_trusted (a : address) (trusted : list network) : bool := existsb (in_network a) trusted.

(** The loop over the hops, the last one first; [hop] is the last address
    looked at. *)
Fixpoint walk_hops (trusted : list network) (hop : option address) (hops : list string) : option string :=
  match hops with
  | [] => address_text <$> hop
  | h :: hops =>
      match _parse (Some h) with
      | None => None
      | Some a => if _is_trusted a trusted then walk_hops trusted (Some a) hops else Some (address_text a)
      end
  end.

Definition truthy_text (s : option string) : bool := match s with Some s => negb (is_empty s) | None => false end.

Definition resolve_client_ip (peer forwarded_for real_ip : option string) (trusted : list network) : option string :=
  match _parse peer with
  | None => None
  | Some peer_address =>
      if negb (_is_trusted peer_address trusted) then Some (address_text peer_address)
      else
        match forwarded_for with
        | Some f => if is_empty f then
                      if truthy_text real_ip then address_text <$> _parse real_ip else Some (address_text peer_address)
                    else walk_hops trusted None (rev (split ","%char f))
        | None => if truthy_text real_ip then address_text <$> _parse real_ip else Some (address_text peer_address)
        end
  end.

(** ** What a forged header can do *)

(** The hops from the right, all trusted up to an untrusted one. *)
Definition trusted_hop (trusted : list network) (h : string) : Prop :=
  ∃ a, _parse (Some h) = Some a ∧ _is_trusted a trusted = true.

Lemma walk_hops_trusted trusted hop hops rest :
  Forall (trusted_hop trusted) hops →
  walk_hops trusted hop (hops ++ rest)
  = match last hops with
    | Some h => walk_hops trusted (_parse (Some h)) rest
    | None => walk_hops trusted hop rest
    end.
Proof.
  intros Hh. revert hop. induction Hh as [|h hops (a & Ha & Ht) Hh IH]; intros hop; [done|].
  cbn [app walk_hops]. rewrite Ha, Ht, IH. destruct hops as [|h' hops]; [cbn [last]; by rewrite Ha|].
  rewrite last_cons_cons. by destruct (last (h' :: hops)) eqn:E; [|apply last_None in E].
Qed.

(** C16: Forwarding headers cannot be forged past the trusted proxies. From a
    peer that is not a trusted proxy they are ignored altogether. From a
    trusted peer the answer is the last hop the trusted proxies did not write
    themselves, whatever the client put to the left of it; an unreadable
    entry there makes the address unknown, never something else. *)
Theorem client_ip_unforgeable peer forwarded_for real_ip trusted a :
  _parse (Some peer) = Some a →
  (_is_trusted a trusted = false →
     resolve_client_ip (Some peer) forwarded_for real_ip trusted = Some (address_text a))
  ∧ (_is_trusted a trusted = true → ∀ forged hop own,
       Forall (trusted_hop trusted) own →
       let header := join "," (forged ++ hop :: own) in
       Forall (free_of ","%char) (forged ++ hop :: own) → header ≠ "" →
       match _parse (Some hop) with
       | None => resolve_client_ip (Some peer) (Some header) real_ip trusted = None
       | Some h => _is_trusted h trusted = false →
           resolve_client_ip (Some peer) (Some header) real_ip trusted = Some (address_text h)
       end).
Proof.
  intros Hp. unfold resolve_client_ip. rewrite Hp. split; [by intros ->|].
  intros Ht forged hop own Hown Hcommas Hne. rewrite Ht. simpl.
  rewrite (split_join ","%char); [|exact Hcommas|by destruct forged].
  destruct (String.eqb_spec (join "," (forged ++ hop :: own)) ""); [done|]. unfold is_empty.
  destruct (String.eqb_spec (join "," (forged ++ hop :: own)) ""); [done|].
  rewrite rev_app_distr. simpl. rewrite <- app_assoc. simpl.
  rewrite (walk_hops_trusted trusted None (rev own) (hop :: rev forged)) by (by apply Forall_rev).
  assert (Hw : ∀ x, walk_hops trusted x (hop :: rev forged)
     = match _parse (Some hop) with None => None | Some h => if _is_trusted h trusted then walk_hops trusted (Some h) (rev forged) else Some (address_text h) end) by done.
  destruct (last (rev own)); rewrite Hw; destruct (_parse (Some hop)); try done; by intros ->.
Qed.

Definition w_proxies : list network := trusted_proxies (Some (ProxyText "10.0.0.0/8, 192.168.1.5,bad")) None.

Lemma client_ip_unforgeable_witness :
  resolve_client_ip (Some "10.0.0.1") (Some "1.1.1.1, 203.0.113.9, 10.2.3.4") None w_proxies = Some "203.0.113.9"
  ∧ resolve_client_ip (Some "::ffff:8.8.8.8") (Some "10.0.0.1") (Some "1.2.3.4") w_proxies = Some "8.8.8.8".
Proof.
  assert (H1 : _parse (Some "10.0.0.1") = Some (V4 167772161)) by (vm_compute; reflexivity).
  assert (H2 : _parse (Some "::ffff:8.8.8.8") = Some (V4 134744072)) by (vm_compute; reflexivity).
  assert (Hown : Forall (trusted_hop w_proxies) [" 10.2.3.4"])
    by (constructor; [exists (V4 167904004); split; vm_compute; reflexivity|constructor]).
  assert (Hc : Forall (free_of ","%char) (["1.1.1.1"] ++ " 203.0.113.9" :: [" 10.2.3.4"])) by (repeat constructor).
  split.
  - destruct (client_ip_unforgeable "10.0.0.1" None None w_proxies (V4 167772161) H1) as [_ Htrusted].
    specialize (Htrusted ltac:(vm_compute; reflexivity) ["1.1.1.1"] " 203.0.113.9" [" 10.2.3.4"] Hown Hc ltac:(discriminate)).
    assert (Hh : _parse (Some " 203.0.113.9") = Some (V4 3405803785)) by (vm_compute; reflexivity).
    rewrite Hh in Htrusted. exact (Htrusted ltac:(vm_compute; reflexivity)).
  - destruct (client_ip_unforgeable "::ffff:8.8.8.8" (Some "10.0.0.1") (Some "1.2.3.4") w_proxies (V4 134744072) H2) as [Hun _].
    exact (Hun ltac:(vm_compute; reflexivity)).
Defined.
