(* ===== verification/ApiKeys.v ===== *)
(** * API keys: abilities and key material

    [api_keys/abilities.py], [api_keys/keys.py] and the record of
    [api_keys/model.py]. SHA-256 and the random generator are parameters. *)

From Stdlib Require Import ZArith Lia.
From S2P Require Import Prelude PyStr Json IpAddress ClientIp.

(** ** Abilities *)

Definition WILDCARD : string := "*".
Definition value_error (msg : string) : exn := raise_exn ValueError msg.

Definition normalize_ability (raw : string) : res string :=
  let ability := strip raw in
  if String.eqb ability WILDCARD then Ok ability
  else
    let '(service, sep, action) := partition ":"%char ability in
    if negb sep || is_empty service || is_empty action || has_char ":"%char action then
      Err (value_error ("ability " +:+ repr raw +:+ " must be 'service:action', 'service:*' or '*'"))
    else if has_char "*"%char service || (has_char "*"%char action && negb (String.eqb action WILDCARD)) then
      Err (value_error ("ability " +:+ repr raw +:+ ": '*' may only stand for a whole action or for everything"))
    else if any_char is_space ability then
      Err (value_error ("ability " +:+ repr raw +:+ " contains whitespace"))
    else Ok (replace_char "-"%char "_" service +:+ ":" +:+ action).

Definition ability_allows (granted : option (list string)) (ability : string) : bool :=
  let '(service, _, action) := partition ":"%char ability in
  let service := replace_char "-"%char "_" service in
  let accepted := [WILDCARD; service +:+ ":" +:+ action; service +:+ ":" +:+ WILDCARD] in
  existsb (λ item, bool_decide (item ∈ accepted)) (default [] granted).

(** ** Keys *)

Definition PREFIX_MARKER : string := "ak".

(** [secrets.token_hex(6)] and [secrets.token_urlsafe(32)] are given. *)
Definition generate_key (token_hex token_urlsafe : string) : string * string :=
  (PREFIX_MARKER +:+ token_hex, token_urlsafe).

Section hashing.
(** [hexdigest] of SHA-256 over the bytes fed to it. *)
Context (sha256_hex : list ascii → string).

Definition hash_secret (secret pepper : string) : string := sha256_hex (chars pepper ++ chars secret).
Definition secret_matches (secret pepper stored_hash : string) : bool :=
  String.eqb (hash_secret secret pepper) stored_hash.
End hashing.

Definition split_key (key : string) : option (string * string) :=
  let '(prefix, sep, secret) := partition "."%char key in
  if negb sep || is_empty prefix || is_empty secret then None else Some (prefix, secret).

Definition parse_network (raw : string) : res string :=
  match ip_network (strip raw) true with
  | Some n => Ok (network_text n)
  | None => Err (value_error ("allowed IP " +:+ repr raw))
  end.

(** An entry of [allowed_ips]: a text, or a network as psycopg returns it. *)
Inductive allowed_entry := IpText (s : string) | IpNetwork (n : network).

Definition entry_text (e : allowed_entry) : string :=
  match e with IpText s => s | IpNetwork n => network_text n end.

Definition ip_allowed (ip : option string) (networks : list allowed_entry) : bool :=
  match ip with
  | None => false
  | Some s =>
      if is_empty s then false
      else
        match ip_address s with
        | None => false
        | Some a =>
            let a := unmap a in
            existsb (λ e, match ip_network (entry_text e) false with Some n => in_network a n | None => false end) networks
        end
  end.

(** [now] is the current time when the caller gives none. *)
Definition expired (expires_at : option Z) (now : Z) : bool :=
  match expires_at with Some e => e <=? now | None => false end.

(** ** The record *)
Record api_key := ApiKey {
  ak_id : Z; ak_name : string; ak_prefix : string; ak_hash : string; ak_abilities : list string;
  ak_allowed_ips : option (list allowed_entry); ak_expires_at : option Z; ak_user_id : option Z;
  ak_last_used_at : option Z; ak_total_uses : Z; ak_updated_at : Z; ak_disabled_at : option Z
}.

(** The table and its sequence. *)
Record key_table := KeyTable { key_rows : list api_key; key_next_id : Z }.

Definition map_rows (p : api_key → bool) (f : api_key → api_key) (t : key_table) : key_table :=
  KeyTable ((λ k, if p k then f k else k) <$> key_rows t) (key_next_id t).

Definition used_at (now : Z) (k : api_key) : api_key :=
  ApiKey (ak_id k) (ak_name k) (ak_prefix k) (ak_hash k) (ak_abilities k) (ak_allowed_ips k) (ak_expires_at k)
    (ak_user_id k) (Some now) (ak_total_uses k + 1) (ak_updated_at k) (ak_disabled_at k).

(** The record and its row are counted alike. *)
Definition use_key (now : Z) (k : api_key) (t : key_table) : api_key * key_table :=
  (used_at now k, map_rows (λ r, ak_id r =? ak_id k) (used_at now) t).

(** ** Facts *)

Definition dash_free (s : string) : string := replace_char "-"%char "_" s.

Lemma dash_free_chars s : chars (dash_free s) = (λ a, if Ascii.eqb a "-"%char then "_"%char else a) <$> chars s.
Proof.
  unfold dash_free, replace_char. rewrite chars_of_chars. change (chars "_") with ["_"%char].
  induction (chars s) as [|a l IH]; [done|]. simpl. rewrite IH. by destruct (Ascii.eqb a "-"%char).
Qed.

Lemma dash_free_idemp s : dash_free (dash_free s) = dash_free s.
Proof.
  assert (Hc : chars (dash_free (dash_free s)) = chars (dash_free s)).
  { rewrite !dash_free_chars. induction (chars s) as [|a l IH]; [done|]. simpl. f_equal; [|done].
    destruct (Ascii.eqb_spec a "-"%char) as [->|]; [done|]. by destruct (Ascii.eqb_spec a "-"%char). }
  by rewrite <- (of_chars_chars (dash_free (dash_free s))), Hc, of_chars_chars.
Qed.

(** Replacing dashes neither adds nor removes a character of another kind. *)
Lemma dash_free_has c s : c ≠ "-"%char → c ≠ "_"%char → has_char c (dash_free s) = has_char c s.
Proof.
  intros H1 H2. unfold has_char. rewrite dash_free_chars. induction (chars s) as [|a l IH]; [done|]. rewrite fmap_cons. cbn [existsb]. rewrite IH.
  destruct (Ascii.eqb_spec a "-"%char) as [->|]; [|done].
  destruct (Ascii.eqb_spec c "_"%char), (Ascii.eqb_spec c "-"%char); done.
Qed.


(** What a normalised ability looks like. *)
Definition scoped (service action : string) : Prop :=
  service ≠ "" ∧ action ≠ "" ∧ has_char ":"%char service = false ∧ has_char ":"%char action = false
  ∧ has_char "*"%char service = false ∧ (has_char "*"%char action = true → action = WILDCARD)
  ∧ dash_free service = service ∧ any_char is_space (service +:+ ":" +:+ action) = false.

Lemma any_char_app p s t : any_char p (s +:+ t) = any_char p s || any_char p t.
Proof. unfold any_char. rewrite chars_app. apply existsb_app. Qed.

Lemma dash_free_space s : any_char is_space (dash_free s) = any_char is_space s.
Proof.
  unfold any_char. rewrite dash_free_chars. induction (chars s) as [|a l IH]; [done|].
  rewrite fmap_cons. cbn [existsb]. rewrite IH. by destruct (Ascii.eqb_spec a "-"%char) as [->|].
Qed.

Lemma dash_free_nonempty s : s ≠ "" → dash_free s ≠ "".
Proof.
  intros Hs Hd. apply Hs. assert (Hc := dash_free_chars s). rewrite Hd in Hc. by destruct s.
Qed.

Lemma normalize_shape raw b :
  normalize_ability raw = Ok b → b = WILDCARD ∨ ∃ s a, b = s +:+ String ":" a ∧ scoped s a.
Proof.
  unfold normalize_ability. destruct (String.eqb_spec (strip raw) WILDCARD) as [->|_]; [intros [= <-]; by left|].
  destruct (partition ":"%char (strip raw)) as [[s sep] a] eqn:E. destruct sep; simpl; [|done].
  apply partition_split in E as [E Hs].
  destruct (is_empty s) eqn:H1; simpl; [done|]. destruct (is_empty a) eqn:H2; simpl; [done|].
  destruct (has_char ":"%char a) eqn:H3; simpl; [done|]. destruct (has_char "*"%char s) eqn:H4; simpl; [done|].
  destruct (has_char "*"%char a && negb (String.eqb a WILDCARD)) eqn:H5; simpl; [done|].
  destruct (any_char is_space (strip raw)) eqn:H6; simpl; [done|]. intros [= <-]. right.
  exists (dash_free s), a. split; [done|].
  apply String.eqb_neq in H1, H2. rewrite E in H6. change (String ":" a) with (":" +:+ a) in H6. rewrite any_char_app in H6.
  split_and!; [by apply dash_free_nonempty|done|by rewrite dash_free_has|done|by rewrite dash_free_has| |apply dash_free_idemp|].
  - intros H. rewrite H in H5. simpl in H5. by destruct (String.eqb_spec a WILDCARD).
  - by rewrite any_char_app, dash_free_space.
Qed.

Lemma drop_while_none p l : existsb p l = false → drop_while p l = l.
Proof. destruct l as [|a l]; [done|]. simpl. by destruct (p a). Qed.

Lemma existsb_rev {A} (p : A → bool) l : existsb p (rev l) = existsb p l.
Proof.
  induction l as [|a l IH]; [done|]. simpl. rewrite existsb_app, IH. simpl. rewrite orb_false_r. apply orb_comm.
Qed.

Lemma strip_none s : any_char is_space s = false → strip s = s.
Proof.
  unfold any_char. intros Hs. unfold strip, strip_by, rstrip_by, lstrip_by.
  rewrite (drop_while_none is_space (chars s)) by done. rewrite of_chars_chars.
  rewrite drop_while_none by (by rewrite existsb_rev). by rewrite rev_involutive, of_chars_chars.
Qed.

Lemma scoped_normal s a : scoped s a → normalize_ability (s +:+ String ":" a) = Ok (s +:+ String ":" a).
Proof.
  intros (H1 & H2 & H3 & H4 & H5 & H6 & H7 & H8). unfold normalize_ability.
  rewrite (strip_none (s +:+ String ":" a)) by done.
  assert (String.eqb (s +:+ String ":" a) WILDCARD = false) as ->.
  { apply String.eqb_neq. intros Heq. destruct s as [|c s]; [done|]. destruct s; simpl in Heq; [by destruct a|done]. }
  rewrite partition_join by done. simpl. unfold is_empty.
  rewrite (proj2 (String.eqb_neq s "") H1), (proj2 (String.eqb_neq a "") H2), H4, H5. simpl.
  destruct (has_char "*"%char a) eqn:E; simpl; [rewrite (H6 eq_refl)|].
  - simpl. rewrite (H6 eq_refl) in H8. change (String ":" WILDCARD) with (":" +:+ WILDCARD). rewrite H8.
    fold (dash_free s). by rewrite H7.
  - change (String ":" a) with (":" +:+ a). rewrite H8. fold (dash_free s). by rewrite H7.
Qed.

Lemma append_colon_inj s a s' a' :
  has_char ":"%char s = false → has_char ":"%char s' = false →
  s +:+ String ":" a = s' +:+ String ":" a' → s = s' ∧ a = a'.
Proof.
  intros Hs Hs' Heq. assert (H := partition_join ":"%char s a Hs). rewrite Heq, partition_join in H by done. by simplify_eq.
Qed.

(** C34: Abilities mean what they are written as. A normalised ability is ['*']
    or [service:action] with dashes of the service folded and ['*'] standing
    only for a whole action; normalising it again changes nothing. A call of
    [action] on [service] is allowed exactly when ['*'], the folded service
    with ['*'] or with that very action is granted, so dashes in the request
    do not matter, an ability never reaches another service, and nothing
    granted allows nothing. *)
Theorem abilities_spec raw b :
  normalize_ability raw = Ok b →
  normalize_ability b = Ok b
  ∧ (b = WILDCARD ∨ ∃ s a, b = s +:+ ":" +:+ a ∧ scoped s a)
  ∧ ∀ service action, has_char ":"%char service = false →
      (ability_allows (Some [b]) (service +:+ ":" +:+ action) = true ↔
         b = WILDCARD ∨ ∃ a, b = dash_free service +:+ ":" +:+ a ∧ (a = action ∨ a = WILDCARD))
      ∧ ability_allows (Some [b]) (service +:+ ":" +:+ action) = ability_allows (Some [b]) (dash_free service +:+ ":" +:+ action)
      ∧ (∀ s a, b = s +:+ ":" +:+ a → scoped s a → dash_free service ≠ s →
           ability_allows (Some [b]) (service +:+ ":" +:+ action) = false)
      ∧ ability_allows None (service +:+ ":" +:+ action) = false.
Proof.
  intros Hn. pose proof (normalize_shape raw b Hn) as Hb. split_and!; [|done|].
  { destruct Hb as [->|(s & a & -> & Hsc)]; [done|by apply scoped_normal]. }
  intros service action Hc.
  assert (Hd : has_char ":"%char (dash_free service) = false) by (by rewrite dash_free_has).
  assert (Hiff : ability_allows (Some [b]) (service +:+ ":" +:+ action) = true ↔
         b = WILDCARD ∨ ∃ a, b = dash_free service +:+ ":" +:+ a ∧ (a = action ∨ a = WILDCARD)).
  { unfold ability_allows. change (":" +:+ action) with (String ":" action). rewrite partition_join by done. simpl.
    rewrite orb_false_r, bool_decide_eq_true. fold (dash_free service). rewrite !elem_of_cons. split.
    - intros [->|[->|[->|[]%not_elem_of_nil]]]; [by left|right; exists action; auto|right; exists WILDCARD; auto].
    - intros [->|(a & -> & [->| ->])]; auto. }
  split; [exact Hiff|]. split_and!.
  - unfold ability_allows. change (":" +:+ action) with (String ":" action). rewrite !partition_join by done.
    fold (dash_free service). fold (dash_free (dash_free service)). by rewrite dash_free_idemp.
  - intros s a -> (_ & _ & Hs & _) Hne. apply not_true_iff_false. rewrite Hiff.
    intros [Hw|(a' & Heq & _)].
    + by destruct s as [|c [|]].
    + apply Hne. by apply append_colon_inj in Heq as [-> _].
  - unfold ability_allows. change (":" +:+ action) with (String ":" action). by rewrite partition_join.
Qed.

Lemma abilities_spec_witness :
  normalize_ability " sudat-reports:report " = Ok "sudat_reports:report"
  ∧ ability_allows (Some ["sudat_reports:report"]) "sudat-reports:report" = true.
Proof.
  assert (Hn : normalize_ability " sudat-reports:report " = Ok "sudat_reports:report") by (vm_compute; reflexivity).
  split; [exact Hn|]. destruct (abilities_spec _ _ Hn) as (_ & _ & Hcall).
  destruct (Hcall "sudat-reports" "report" eq_refl) as [Hiff _]. apply Hiff. right. exists "report".
  split; [vm_compute; reflexivity|by left].
Defined.
