(* ===== verification/ApiKeyCommands.v ===== *)
(** * API keys: the command line

    [api_keys/commands.py] and [api_keys/_service.py]. The store is the table
    of keys; [server] is whether the database answers, [cidr] Postgres's cast
    of a text to a network, [fits] whether a row's values fit their columns.
    The rendering of a moment, the parser of an ISO timestamp, the random
    tokens and SHA-256 are parameters. *)

From Stdlib Require Import ZArith Lia.
From S2P Require Import Prelude PyStr Json IpAddress ClientIp ApiKeys QueueIface MigDiscovery MigService.

Definition usage_error (msg : string) : exn := raise_exn UsageError msg.

(** What [update] changes. *)
Record Update := MkUpdate {
  up_name : option string; up_abilities : option (list string); up_add_abilities : option (list string);
  up_remove_abilities : option (list string); up_allowed_ips : option (list string); up_any_ip : bool;
  up_expires_at : option Z; up_no_expiry : bool; up_user_id : option Z; up_no_user : bool
}.

Definition no_update : Update := MkUpdate None None None None None false None false None false.

#[export] Instance Update_eq_dec : EqDecision Update.
Proof. solve_decision. Defined.

Definition is_empty_update (u : Update) : bool := bool_decide (u = no_update).

(** [except ValueError as e: raise UsageError(str(e))] *)
Definition as_usage {A} (r : res A) : res A :=
  match r with
  | Err e => if is_class ValueError e then Err (usage_error (exn_msg e)) else Err e
  | r => r
  end.

(** Each ability once, in order of first appearance. *)
Fixpoint collect (result : list string) (raw : list string) : res (list string) :=
  match raw with
  | [] => Ok result
  | item :: raw =>
      ability ← as_usage (normalize_ability item);
      collect (if bool_decide (ability ∈ result) then result else result ++ [ability]) raw
  end.
Definition parse_abilities (raw : option (list string)) : res (list string) := collect [] (default [] raw).

Fixpoint map_res {A B} (f : A → res B) (l : list A) : res (list B) :=
  match l with
  | [] => Ok []
  | x :: l => y ← f x; ys ← map_res f l; Ok (y :: ys)
  end.

Definition parse_networks (raw : option (list string)) : res (list string) :=
  as_usage (map_res parse_network (default [] raw)).

(** ** Dates *)

Definition date_shape (s : string) : bool := matches_shape (chars "9999-99-99") (chars s).
Definition _DATE_RE (s : string) : bool := dollar date_shape s.

Definition leap (y : Z) : bool := ((y mod 4 =? 0) && negb (y mod 100 =? 0)) || (y mod 400 =? 0).
Definition month_days (y m : Z) : Z :=
  if m =? 2 then (if leap y then 29 else 28)
  else if (m =? 4) || (m =? 6) || (m =? 9) || (m =? 11) then 30 else 31.

(** Days from 1970-01-01 to the first of a month. *)
Definition days_before_year (y : Z) : Z := 365 * (y - 1970) + (y - 1) / 4 - (y - 1) / 100 + (y - 1) / 400 - 477.
Fixpoint days_before_month (y : Z) (m : nat) : Z :=
  match m with
  | S (S _ as m') => days_before_month y m' + month_days y (Z.of_nat m')
  | _ => 0
  end.

(** [date.fromisoformat(text)], as a day number, for text of the shape above. *)
Definition day_of (text : string) : option Z :=
  match split "-"%char text with
  | [y; m; d] =>
      y ← Z_of_str y; m ← Z_of_str m; d ← Z_of_str d;
      guard (1 <=? y);; guard ((1 <=? m) && (m <=? 12));; guard ((1 <=? d) && (d <=? month_days y m));;
      Some (days_before_year y + days_before_month y (Z.to_nat m) + (d - 1))
  | _ => None
  end.

(** The day number of 9999-12-31, the last date there is. *)
Definition max_day : Z := 2932896.

Definition day_start (day : Z) : Z := day * 86400 * second.

Section commands.
Context (fromisoformat : string → option Z) (str_when : Z → string).

(** [fromisoformat] answers the moment of an ISO timestamp, in UTC unless it
    carries an offset. *)
Definition parse_expires (raw : string) (now : Z) : res Z :=
  let text := strip raw in
  let bad := usage_error ("--expires=" +:+ repr raw +:+ " must be YYYY-MM-DD or an ISO timestamp") in
  value ← (if _DATE_RE text then
             match day_of text with
             | None => Err bad
             | Some day => if max_day <=? day then Err (raise_exn OverflowError "date value out of range")
                           else Ok (day_start (day + 1))
             end
           else match fromisoformat text with Some t => Ok t | None => Err bad end);
  if value <=? now then Err (usage_error ("--expires=" +:+ repr raw +:+ " is already in the past"))
  else Ok value.

(** The condition [id = n] or [key_prefix = ref]. *)
Definition _where_ref (ref : string) : api_key → bool :=
  let ref := (partition "."%char (strip ref)).1.1 in
  if isdigit ref then λ k, bool_decide (Some (ak_id k) = Z_of_str ref) else λ k, String.eqb (ak_prefix k) ref.

Definition _when (value : option Z) (d : string) : string := match value with Some t => str_when t | None => d end.

(** [x or d] for a text *)
Definition text_or (x d : string) : string := if is_empty x then d else x.

Definition show_ips (sep none : string) (ips : option (list allowed_entry)) : string :=
  match ips with None => "any" | Some ips => text_or (join sep (entry_text <$> ips)) none end.

Definition _describe (row : api_key) : prog key_table () :=
  _ ← out ("  abilities:   " +:+ text_or (join ", " (ak_abilities row)) "(none - this key can call nothing)");
  _ ← out ("  allowed IPs: " +:+ show_ips ", " "(none)" (ak_allowed_ips row));
  _ ← out ("  expires:     " +:+ _when (ak_expires_at row) "never");
  out ("  acts as:     " +:+ match ak_user_id row with Some u => "user " +:+ str_of_Z u | None => "-" end).

Definition cmd_install (template : res string) (written : res ()) (table : string) (now : datetime) : prog directory Z :=
  d ← get_st;
  match dir_files d with
  | None => _ ← out ("error: no migrations directory at " +:+ dir_path d); mret 2
  | Some files =>
      match template with
      | Err e => _ ← out ("error: could not read the template: " +:+ exn_msg e); mret 1
      | Ok schema =>
          let schema := if String.eqb table "api_keys" then schema else replace_str "api_keys" table schema in
          match new_filename ("create " +:+ table) now with
          | Err e => _ ← out ("error: " +:+ exn_msg e); mret 2
          | Ok filename =>
              let path := dir_path d +:+ "/" +:+ filename in
              if dict_has filename files then _ ← out ("error: " +:+ path +:+ " already exists"); mret 1
              else
                match written with
                | Err e => _ ← out ("error: could not write " +:+ path +:+ ": " +:+ exn_msg e); mret 1
                | Ok _ =>
                    _ ← set_st (Directory (dir_path d) (Some (dict_set filename (chars schema) files)));
                    _ ← out ("Wrote " +:+ path);
                    _ ← out "Review it, then: python3 src/app.py migrations apply";
                    mret 0
                end
          end
      end
  end.

Context (sha256_hex : list ascii → string) (cidr : string → option network) (fits : api_key → bool) (server : res ()).

Definition db_error (msg : string) : exn := raise_exn PsycopgError msg.

(** [%s::cidr[]] *)
Definition cast_cidrs (l : list string) : res (list allowed_entry) :=
  map_res (λ s, match cidr s with Some n => Ok (IpNetwork n) | None => Err (db_error ("invalid input syntax for type cidr: " +:+ s)) end) l.

Definition cast_opt (l : option (list string)) : res (option (list allowed_entry)) :=
  match l with None => Ok None | Some l => ips ← cast_cidrs l; Ok (Some ips) end.

(** The INSERT: the sequence advances, the prefix is unique. *)
Definition insert_key (name prefix hash : string) (abilities : list string) (allowed_ips : option (list string))
    (expires_at user_id : option Z) : prog key_table api_key :=
  _ ← lift_res server;
  ips ← lift_res (cast_opt allowed_ips);
  now ← now_utc;
  t ← get_st;
  let row := ApiKey (key_next_id t) name prefix hash abilities ips expires_at user_id None 0 now None in
  if negb (fits row) then raise (db_error "value out of range")
  else
    _ ← set_st (KeyTable (key_rows t) (key_next_id t + 1));
    if existsb (λ k, String.eqb (ak_prefix k) prefix) (key_rows t) then
      raise (raise_exn UniqueViolation "duplicate key value violates unique constraint")
    else _ ← set_st (KeyTable (key_rows t ++ [row]) (key_next_id t + 1)); mret row.

(** [except psycopg.Error as e: out(...); return 1] *)
Definition or_fail (text : string) (m : prog key_table Z) : prog key_table Z :=
  try_except m is_psycopg_error (λ e, _ ← out (text +:+ exn_msg e); mret 1).

(** The insert, or [None] when it failed and was reported. *)
Definition try_insert (prefix secret pepper name : string) (abilities : list string) (allowed_ips : option (list string))
    (expires_at user_id : option Z) : prog key_table (option api_key) :=
  try_except
    (row ← transaction (insert_key name prefix (hash_secret sha256_hex secret pepper) abilities allowed_ips expires_at user_id);
     mret (Some row))
    is_psycopg_error (λ e, _ ← out ("error: cannot create the key: " +:+ exn_msg e); mret None).

(** [tokens] is what the random generator answers. *)
Definition cmd_create (tokens : string * string) (pepper name : string) (abilities : list string)
    (allowed_ips : option (list string)) (expires_at user_id : option Z) : prog key_table Z :=
  let '(prefix, secret) := generate_key tokens.1 tokens.2 in
  row ← try_insert prefix secret pepper name abilities allowed_ips expires_at user_id;
  match row with
  | None => mret 1
  | Some row =>
      _ ← out ("Created API key " +:+ str_of_Z (ak_id row) +:+ " " +:+ DQ +:+ name +:+ DQ +:+ " (prefix " +:+ prefix +:+ ")");
      _ ← _describe row;
      _ ← out "";
      _ ← out "The key is shown once and cannot be recovered. Store it now:";
      _ ← out (prefix +:+ "." +:+ secret);
      mret 0
  end.

Definition key_status (row : api_key) (now : Z) : string :=
  match ak_disabled_at row with
  | Some _ => "revoked"
  | None => if expired (ak_expires_at row) now then "expired" else "active"
  end.

Definition list_line (now : Z) (row : api_key) : list string :=
  [str_of_Z (ak_id row); ak_name row; ak_prefix row; key_status row now; text_or (join "," (ak_abilities row)) "-";
   show_ips "," "none" (ak_allowed_ips row);
   match ak_user_id row with Some u => str_of_Z u | None => "-" end;
   _when (ak_expires_at row) "never"; _when (ak_last_used_at row) "never"; str_of_Z (ak_total_uses row)].

Definition list_header : list string :=
  ["ID"; "NAME"; "PREFIX"; "STATUS"; "ABILITIES"; "IPS"; "USER"; "EXPIRES"; "LAST USED"; "USES"].

(** Every column as wide as its widest cell. *)
Definition column_widths (lines : list (list string)) : list Z :=
  (λ i, foldr (λ line w, Z.max (py_len (nth i line "")) w) 0 lines) <$> seq 0 (length list_header).

Definition laid_out (widths : list Z) (line : list string) : string :=
  rstrip_by is_space (join "  " (zip_with ljust widths line)).

Definition id_le (a b : api_key) : Prop := ak_id a ≤ ak_id b.
#[local] Instance id_le_dec a b : Decision (id_le a b).
Proof. unfold id_le. apply _. Defined.

Definition ordered_rows (t : key_table) : list api_key := merge_sort id_le (key_rows t).

Definition cmd_list : prog key_table Z :=
  match server with
  | Err e =>
      if is_psycopg_error e then _ ← out ("error: cannot read the table: " +:+ exn_msg e); mret 1 else raise e
  | Ok _ =>
      t ← get_st;
      now ← now_utc;
      match ordered_rows t with
      | [] => _ ← out "No API keys."; mret 0
      | rows =>
          let lines := list_header :: (list_line now <$> rows) in
          _ ← for_each lines (λ line, out (laid_out (column_widths lines) line));
          mret 0
      end
  end.

Definition quoted_row (row : api_key) : string := str_of_Z (ak_id row) +:+ " " +:+ DQ +:+ ak_name row +:+ DQ.

Definition disable (now : Z) (k : api_key) : api_key :=
  ApiKey (ak_id k) (ak_name k) (ak_prefix k) (ak_hash k) (ak_abilities k) (ak_allowed_ips k) (ak_expires_at k)
    (ak_user_id k) (ak_last_used_at k) (ak_total_uses k) now (Some now).

(** [SELECT ... WHERE ... FOR UPDATE]: the first row that matches. *)
Definition select_ref (ref : string) : prog key_table (option api_key) :=
  _ ← lift_res server; t ← get_st; mret (List.find (_where_ref ref) (key_rows t)).

(** The exit code, and the line to print after the transaction. *)
Definition revoke_row (ref : string) : prog key_table (Z * option string) :=
  row ← select_ref ref;
  match row with
  | None => _ ← out ("error: no API key " +:+ repr ref); mret (1, None)
  | Some row =>
      match ak_disabled_at row with
      | Some t => _ ← out ("API key " +:+ quoted_row row +:+ " was already revoked at " +:+ str_when t +:+ "."); mret (0, None)
      | None =>
          now ← now_utc;
          _ ← stmt (λ t, (map_rows (λ k, ak_id k =? ak_id row) (disable now) t, ()));
          mret (0, Some ("Revoked API key " +:+ quoted_row row +:+ "."))
      end
  end.

Definition cmd_revoke (ref : string) : prog key_table Z :=
  done ← try_except (transaction (revoke_row ref)) is_psycopg_error
           (λ e, _ ← out ("error: cannot revoke " +:+ repr ref +:+ ": " +:+ exn_msg e); mret (1, None));
  match done with
  | (code, None) => mret code
  | (code, Some line) => _ ← out line; mret code
  end.

(** The abilities after an update, when it names any. *)
Definition updated_abilities (current : list string) (change : Update) : list string :=
  let added := default [] (up_add_abilities change) in
  let removed := default [] (up_remove_abilities change) in
  let abilities := default current (up_abilities change) in
  let abilities := abilities ++ filter (λ a, a ∉ abilities) added in
  filter (λ a, a ∉ removed) abilities.

Definition nonempty {A} (l : option (list A)) : bool := match l with Some (_ :: _) => true | _ => false end.

(** The SET clause: [ips] is the new list, cast. *)
Definition assign_all (change : Update) (ips : option (list allowed_entry)) (now : Z) (k : api_key) : api_key :=
  ApiKey (ak_id k) (default (ak_name k) (up_name change)) (ak_prefix k) (ak_hash k)
    (if bool_decide (up_abilities change ≠ None) || nonempty (up_add_abilities change) || nonempty (up_remove_abilities change)
     then updated_abilities (ak_abilities k) change else ak_abilities k)
    (if up_any_ip change then None else match up_allowed_ips change with Some _ => ips | None => ak_allowed_ips k end)
    (if up_no_expiry change then None else match up_expires_at change with Some e => Some e | None => ak_expires_at k end)
    (if up_no_user change then None else match up_user_id change with Some u => Some u | None => ak_user_id k end)
    (ak_last_used_at k) (ak_total_uses k) now (ak_disabled_at k).

Definition update_row (ref : string) (change : Update) : prog key_table (option api_key) :=
  current ← select_ref ref;
  match current with
  | None => _ ← out ("error: no API key " +:+ repr ref); mret None
  | Some current =>
      ips ← lift_res (if up_any_ip change then Ok None else cast_opt (up_allowed_ips change));
      now ← now_utc;
      let row := assign_all change ips now current in
      if negb (fits row) then raise (db_error "value out of range")
      else _ ← stmt (λ t, (map_rows (λ k, ak_id k =? ak_id current) (assign_all change ips now) t, ())); mret (Some row)
  end.

Definition cmd_update (ref : string) (change : Update) : prog key_table Z :=
  row ← try_except (transaction (update_row ref change)) is_psycopg_error
          (λ e, _ ← out ("error: cannot update " +:+ repr ref +:+ ": " +:+ exn_msg e); mret None);
  match row with
  | None => mret 1
  | Some row =>
      _ ← out ("Updated API key " +:+ quoted_row row);
      _ ← _describe row;
      mret 0
  end.
End commands.

(** ** The service *)

(** The command line. *)
Record key_args := KeyArgs {
  ka_step : string; ka_dir : option string; ka_name : option string; ka_ability : option (list string);
  ka_add_ability : option (list string); ka_remove_ability : option (list string); ka_allowed_ip : option (list string);
  ka_any_ip : bool; ka_expires : option string; ka_no_expiry : bool; ka_user_id : option Z; ka_no_user : bool; ka_ref : string
}.

(** [audit/_service.py]: where [install] writes. *)
Definition _migrations_dir (realpath : string → string) (dir : option string) (c : config) : res string :=
  let raw := or_default dir "" in
  if negb (is_empty raw) then
    Ok (if is_absolute raw then raw else or_default (cf_current_path c) "." +:+ "/" +:+ raw)
  else
    targets ← resolve_targets realpath c;
    match targets with
    | t :: _ => Ok (t_directory t.2)
    | [] => Err (raise_exn RuntimeError "StopIteration")
    end.

(** What the service reaches. *)
Record key_store := KeyStore { ks_table : key_table; ks_directories : list (string * directory) }.

Definition on_table {A} (m : prog key_table A) : prog key_store A := λ w,
  let '(w', r) := m (World (ks_table (w_st w)) (w_log w) (w_clock w)) in
  (World (KeyStore (w_st w') (ks_directories (w_st w))) (w_log w') (w_clock w'), r).

Definition on_directory {A} (path : string) (m : prog directory A) : prog key_store A := λ w,
  let '(w', r) := m (World (default (Directory path None) (dict_get path (ks_directories (w_st w)))) (w_log w) (w_clock w)) in
  (World (KeyStore (ks_table (w_st w)) (dict_set path (w_st w') (ks_directories (w_st w)))) (w_log w') (w_clock w'), r).

(** A list given on the command line: no option and no value alike. *)
Definition given (l : option (list string)) : option (list string) :=
  match l with Some (_ :: _) => l | _ => None end.

Definition given_text (s : option string) : option string :=
  match s with Some s => if is_empty s then None else Some s | None => None end.

Section service.
Context (fromisoformat : string → option Z) (str_when : Z → string) (realpath : string → string).
Context (sha256_hex : list ascii → string) (cidr : string → option network) (fits : api_key → bool).
Context (connected : db_entry → res ()) (tokens : string * string) (calendar : Z → datetime).
Context (template : res string) (written : res ()) (table : string).

(** [parse_expires(args.expires, now) if args.expires else None] *)
Definition expires_of (args : key_args) (now : Z) : res (option Z) :=
  match given_text (ka_expires args) with
  | Some raw => t ← parse_expires fromisoformat raw now; Ok (Some t)
  | None => Ok None
  end.

Definition networks_of (args : key_args) : res (option (list string)) :=
  match given (ka_allowed_ip args) with
  | Some l => ips ← parse_networks (Some l); Ok (Some ips)
  | None => Ok None
  end.

(** [parse_abilities(raw) or None] *)
Definition abilities_or_none (raw : option (list string)) : res (option (list string)) :=
  l ← parse_abilities raw; Ok (match l with [] => None | l => Some l end).

(** The [Update] of the command line. *)
Definition change_of (args : key_args) (now : Z) : res Update :=
  abilities ← match given (ka_ability args) with
              | Some l => a ← parse_abilities (Some l); Ok (Some a)
              | None => Ok None
              end;
  added ← abilities_or_none (ka_add_ability args);
  removed ← abilities_or_none (ka_remove_ability args);
  ips ← networks_of args;
  expires ← expires_of args now;
  Ok (MkUpdate (ka_name args) abilities added removed ips (ka_any_ip args) expires (ka_no_expiry args)
        (ka_user_id args) (ka_no_user args)).

(** A command once its options were read, on an open connection. *)
Definition run_create (args : key_args) (pepper : string) (e : db_entry) (now : Z) : prog key_store Z :=
  abilities ← lift_res (parse_abilities (ka_ability args));
  allowed_ips ← lift_res (networks_of args);
  expires_at ← lift_res (expires_of args now);
  _ ← lift_res (connect_kwargs e);
  _ ← lift_res (connected e);
  on_table (cmd_create str_when sha256_hex cidr fits (Ok ()) tokens pepper (default "" (ka_name args)) abilities
              allowed_ips expires_at (ka_user_id args)).

Definition run_update (args : key_args) (e : db_entry) (now : Z) : prog key_store Z :=
  change ← lift_res (change_of args now);
  if is_empty_update change then _ ← out "error: nothing to update; see --help"; mret 2
  else
    _ ← lift_res (connect_kwargs e);
    _ ← lift_res (connected e);
    on_table (cmd_update str_when cidr fits (Ok ()) (ka_ref args) change).

Definition _run (args : key_args) (c : config) (api_key_pepper : option string) : prog key_store Z :=
  now ← now_utc;
  if String.eqb (ka_step args) "install" then
    path ← lift_res (_migrations_dir realpath (ka_dir args) c);
    on_directory path (cmd_install template written table (calendar now))
  else
    match dict_get "main" (cf_db c) with
    | None => _ ← out ("error: no database " +:+ DQ +:+ "main" +:+ DQ +:+ " in config[" +:+ DQ +:+ "db" +:+ DQ +:+ "]"); mret 2
    | Some e =>
        if String.eqb (ka_step args) "create" then
          match given_text api_key_pepper with
          | None =>
              _ ← out ("error: config[" +:+ DQ +:+ "api_key_pepper" +:+ DQ +:+ "] is not set; keys cannot be hashed"); mret 2
          | Some pepper => run_create args pepper e now
          end
        else if String.eqb (ka_step args) "update" then run_update args e now
        else if String.eqb (ka_step args) "list" then
          _ ← lift_res (connect_kwargs e); _ ← lift_res (connected e); on_table (cmd_list str_when (Ok ()))
        else if String.eqb (ka_step args) "revoke" then
          _ ← lift_res (connect_kwargs e); _ ← lift_res (connected e); on_table (cmd_revoke str_when (Ok ()) (ka_ref args))
        else _ ← out ("error: unknown api_keys command " +:+ repr (ka_step args)); mret 2
    end.

(** Always ends the process. *)
Definition init_service (args : key_args) (c : config) (api_key_pepper : option string) : prog key_store () :=
  code ← try_except (_run args c api_key_pepper) (λ e, is_interrupt e || is_exception e)
    (λ e, if is_class UsageError e then _ ← out ("error: " +:+ exn_msg e); raise (system_exit 2)
          else if is_interrupt e then raise (system_exit 1)
          else _ ← out "api_keys: unhandled failure"; raise (system_exit 1));
  raise (system_exit code).
End service.
