(* ===== verification/Auth.v ===== *)
(** * Tokens

    [request_handler/auth_service.py]. PyJWT is a parameter: [jwt_encode] and
    [jwt_decode] at a moment, whose answer is the payload or the class of the
    error. Moments are microseconds, claims are seconds. *)

From Stdlib Require Import ZArith Lia.
From S2P Require Import Prelude PyStr Json IpAddress QueueIface.

(** ** [uuid.UUID(text)] *)

(** [int(text, 16)]: sign, [0x], single underscores between digits. *)
Fixpoint hex_digits_ok (after_digit : bool) (l : list ascii) : bool :=
  match l with
  | [] => after_digit
  | a :: l =>
      if Ascii.eqb a "_"%char then after_digit && hex_digits_ok false l
      else match hex_value a with Some _ => hex_digits_ok true l | None => false end
  end.

Definition drop_sign (l : list ascii) : list ascii :=
  match l with a :: l' => if Ascii.eqb a "+"%char || Ascii.eqb a "-"%char then l' else l | [] => [] end.

Definition base16_ok (s : string) : bool :=
  let l := drop_sign (chars (strip s)) in
  match l with
  | "0"%char :: x :: l' =>
      if Ascii.eqb x "x"%char || Ascii.eqb x "X"%char
      then match l' with
           | a :: l'' => hex_digits_ok false (if Ascii.eqb a "_"%char then l'' else l')
           | [] => false
           end
      else hex_digits_ok false l
  | _ => hex_digits_ok false l
  end.

Definition is_uuid (s : string) : bool :=
  let hex := replace_str "uuid:" "" (replace_str "urn:" "" s) in
  let hex := replace_char "-"%char "" (strip_by (λ a, Ascii.eqb a "{"%char || Ascii.eqb a "}"%char) hex) in
  (py_len hex =? 32) && base16_ok hex.

Arguments is_uuid : simpl never.

(** ** Claims *)

Inductive jwt_type := UserToken | DeviceToken | ImpersonationToken.

Definition type_text (t : jwt_type) : string :=
  match t with UserToken => "user" | DeviceToken => "device" | ImpersonationToken => "impersonation" end.

(** The payload as PyJWT hands it over: [exp] and [iat] were checked to be
    integers, [sub] to be a text. *)
Record payload := Payload {
  p_sub : string; p_typ : json; p_iat : Z; p_exp : Z; p_jti : option json; p_imp : option json
}.

Inductive jwt_answer := JwtExpired | JwtInvalid | JwtPayload (p : payload).

Definition uuid_claim (v : option json) : bool :=
  match v with Some (JStr s) => is_uuid s | _ => false end.

Section auth.
Context (jwt_encode : payload → string → string) (jwt_decode : Z → string → string → jwt_answer).
Context (secret : string).

(** [uuid4] is the text of the new token id. *)
Definition create_access_jwt (now : Z) (uuid4 subject_public_id : string) (token_type : jwt_type) (ttl_seconds : Z) : string :=
  jwt_encode (Payload subject_public_id (JStr (type_text token_type)) (now / second) ((now + ttl_seconds * second) / second)
                (Some (JStr uuid4)) None) secret.

Definition create_impersonation_jwt (now : Z) (uuid4 target_public_id impersonator_public_id : string) (ttl_seconds : Z) : string :=
  jwt_encode (Payload target_public_id (JStr "impersonation") (now / second) ((now + ttl_seconds * second) / second)
                (Some (JStr uuid4)) (Some (JStr impersonator_public_id))) secret.

Definition is_type (t : jwt_type) (v : json) : bool := match v with JStr s => String.eqb s (type_text t) | _ => false end.

Definition verify_access_jwt (now : Z) (token : string) (expected_type : jwt_type) : option payload :=
  match jwt_decode now token secret with
  | JwtExpired => None
  | JwtInvalid => None
  | JwtPayload p =>
      if negb (is_type expected_type (p_typ p)) then None
      else if negb (is_uuid (p_sub p) && uuid_claim (p_jti p)) then None
      else
        if is_type ImpersonationToken (p_typ p) then (if uuid_claim (p_imp p) then Some p else None) else Some p
  end.
End auth.

(** What the code relies on of PyJWT: a token decodes to its payload under its
    secret until [exp] is more than the leeway ago, and a payload is only
    handed out before that. *)
Definition jwt_leeway : Z := 10.

(** The payloads the code encodes: every claim is a text or a number. *)
Definition own_payload (p : payload) : Prop :=
  (∃ s, p_typ p = JStr s) ∧ (∃ s, p_jti p = Some (JStr s)) ∧ (p_imp p = None ∨ ∃ s, p_imp p = Some (JStr s)).

Record jwt_laws (jwt_encode : payload → string → string) (jwt_decode : Z → string → string → jwt_answer) : Prop := {
  jwt_valid p secret now : own_payload p → now < (p_exp p + jwt_leeway) * second → p_iat p * second ≤ now →
    jwt_decode now (jwt_encode p secret) secret = JwtPayload p;
  jwt_expires token secret now p : jwt_decode now token secret = JwtPayload p → now < (p_exp p + jwt_leeway) * second
}.

Definition access_token (t : jwt_type) : Prop := t = UserToken ∨ t = DeviceToken.

Lemma floor_second n : n / second * second ≤ n < (n / second + 1) * second.
Proof. unfold second. pose proof (Z.div_mod n 1000000). pose proof (Z.mod_pos_bound n 1000000). lia. Qed.

Lemma verify_own (decode : Z → string → string → jwt_answer) secret now token t p :
  decode now token secret = JwtPayload p → p_typ p = JStr (type_text t) →
  (t = ImpersonationToken → uuid_claim (p_imp p) = true) →
  is_uuid (p_sub p) = true → uuid_claim (p_jti p) = true →
  verify_access_jwt decode secret now token t = Some p ∧ ∀ t', t' ≠ t → verify_access_jwt decode secret now token t' = None.
Proof.
  intros Hd Ht Ha Hs Hj. unfold verify_access_jwt. rewrite Hd, Ht, Hs, Hj. split.
  - destruct t; try done. simpl. by rewrite Ha.
  - intros t' Hne. by destruct t, t'.
Qed.

(** A token of the code's own, decoded within its lifetime. *)
Lemma own_decodes encode decode secret created now ttl p :
  jwt_laws encode decode → own_payload p → p_iat p = created / second → p_exp p = (created + ttl * second) / second →
  created ≤ now → now < created + ttl * second →
  decode now (encode p secret) secret = JwtPayload p ∧ p_exp p * second ≤ created + ttl * second.
Proof.
  intros HJ Hown Hi He Hc Hnow. pose proof (floor_second created). pose proof (floor_second (created + ttl * second)).
  split; [|lia]. apply (jwt_valid _ _ HJ); [done|unfold jwt_leeway; lia|lia].
Qed.

(** C15: A token verifies as the type it was created with and as no other,
    from its creation until its lifetime is over, and gives back the
    identities it was created for - an impersonation token both of them.
    Whatever token verifies is of the type asked for, carries identities that
    are UUIDs, and is not past its expiry by more than the leeway of ten
    seconds. *)
Theorem token_roundtrip jwt_encode jwt_decode secret created uuid4 subject imp t ttl now :
  jwt_laws jwt_encode jwt_decode → access_token t → is_uuid subject = true → is_uuid uuid4 = true → is_uuid imp = true →
  created ≤ now → now < created + ttl * second →
  let verify := verify_access_jwt jwt_decode secret now in
  let token := create_access_jwt jwt_encode secret created uuid4 subject t ttl in
  let imp_token := create_impersonation_jwt jwt_encode secret created uuid4 subject imp ttl in
  (∃ p, verify token t = Some p ∧ p_sub p = subject ∧ p_exp p * second ≤ created + ttl * second
     ∧ ∀ t', t' ≠ t → verify token t' = None)
  ∧ (∃ p, verify imp_token ImpersonationToken = Some p ∧ p_sub p = subject ∧ p_imp p = Some (JStr imp)
     ∧ ∀ t', t' ≠ ImpersonationToken → verify imp_token t' = None)
  ∧ ∀ other t' p, verify other t' = Some p →
      now < (p_exp p + jwt_leeway) * second ∧ p_typ p = JStr (type_text t')
      ∧ is_uuid (p_sub p) = true ∧ (t' = ImpersonationToken → uuid_claim (p_imp p) = true).
Proof.
  intros HJ Ht Hs Hu Hi Hc Hnow verify token imp_token. split_and!.
  - set (p := Payload subject (JStr (type_text t)) (created / second) ((created + ttl * second) / second) (Some (JStr uuid4)) None).
    destruct (own_decodes jwt_encode jwt_decode secret created now ttl p HJ) as [Hd He]; try done; [split_and!; simpl; eauto|].
    destruct (verify_own _ _ _ _ t p Hd) as [Hv Ho]; try done; [intros ->; by destruct Ht|]. by exists p.
  - set (p := Payload subject (JStr "impersonation") (created / second) ((created + ttl * second) / second) (Some (JStr uuid4)) (Some (JStr imp))).
    destruct (own_decodes jwt_encode jwt_decode secret created now ttl p HJ) as [Hd He]; try done; [split_and!; simpl; eauto|].
    destruct (verify_own _ _ _ _ ImpersonationToken p Hd) as [Hv Ho]; try done. by exists p.
  - intros other t' p. unfold verify, verify_access_jwt. destruct (jwt_decode now other secret) as [| |q] eqn:E; try done.
    destruct (is_type t' (p_typ q)) eqn:Hty; [|done]. destruct (is_uuid (p_sub q) && uuid_claim (p_jti q)) eqn:Hid; [|done].
    simpl. intros Hq. apply andb_true_iff in Hid as [Hid _].
    destruct (p_typ q) as [| | | |s| | |] eqn:Hs'; try done. apply String.eqb_eq in Hty. subst s.
    assert (q = p ∧ (t' = ImpersonationToken → uuid_claim (p_imp q) = true)) as [-> Himp].
    { destruct t'; simpl in Hq; try (split; [congruence|done]). destruct (uuid_claim (p_imp q)); [|done].
      split; [congruence|done]. }
    split_and!; [by eapply (jwt_expires _ _ HJ)|done|done|done].
Qed.

(** ** A codec that satisfies the laws

    A token is the secret and the claims, each character marked and each
    field closed. *)
Definition text_of_json (v : json) : string := match v with JStr s => s | _ => "" end.

Fixpoint write_field (s : string) : string :=
  match s with EmptyString => "|" | String c rest => String "." (String c (write_field rest)) end.

Fixpoint read_field (s : string) : option (string * string) :=
  match s with
  | String "|" rest => Some ("", rest)
  | String "." (String c rest) => '(f, tail) ← read_field rest; Some (String c f, tail)
  | _ => None
  end.

Fixpoint read_fields (n : nat) (s : string) : option (list string * string) :=
  match n with
  | O => Some ([], s)
  | S n => '(f, rest) ← read_field s; '(fs, tail) ← read_fields n rest; Some (f :: fs, tail)
  end.

Definition toy_encode (p : payload) (secret : string) : string :=
  write_field secret +:+ (write_field (p_sub p) +:+ (write_field (text_of_json (p_typ p))
  +:+ (write_field (str_of_Z (p_iat p)) +:+ (write_field (str_of_Z (p_exp p))
  +:+ (write_field (text_of_json (default JNull (p_jti p)))
  +:+ match p_imp p with Some v => write_field (text_of_json v) | None => "" end))))).

Definition toy_decode (now : Z) (token secret : string) : jwt_answer :=
  match read_fields 6 token with
  | Some ([key; sub; typ; iat; exp; jti], tail) =>
      match Z_of_str iat, Z_of_str exp with
      | Some iat, Some exp =>
          if negb (String.eqb key secret) then JwtInvalid
          else if (exp + jwt_leeway) * second <=? now then JwtExpired
          else if now <? iat * second then JwtInvalid
          else JwtPayload (Payload sub (JStr typ) iat exp (Some (JStr jti)) ((JStr ∘ fst) <$> read_field tail))
      | _, _ => JwtInvalid
      end
  | _ => JwtInvalid
  end.

Lemma read_write_field s rest : read_field (write_field s +:+ rest) = Some (s, rest).
Proof. induction s as [|c s IH]; [done|]. simpl. by rewrite IH. Qed.

Lemma toy_laws : jwt_laws toy_encode toy_decode.
Proof.
  split.
  - intros [sub typ iat exp jti imp] secret now ([t Ht] & [j Hj] & Hi) Hexp Hiat. simpl in *. subst.
    unfold toy_decode, toy_encode. cbn [read_fields p_sub p_typ p_iat p_exp p_jti p_imp].
    rewrite read_write_field. cbn [mbind option_bind].
    do 5 (rewrite read_write_field; cbn [mbind option_bind]).
    rewrite !Z_of_str_of_Z, String.eqb_refl. cbn [negb].
    rewrite (proj2 (Z.leb_gt _ _)) by lia. rewrite (proj2 (Z.ltb_ge _ _)) by lia.
    destruct Hi as [->|[s ->]]; [done|]. 
    pose proof (read_write_field s "") as E. rewrite string_app_empty_r in E. cbn [text_of_json]. by rewrite E.
  - intros token secret now p. unfold toy_decode.
    destruct (read_fields 6 token) as [[[|key [|sub [|typ [|iat [|exp [|jti [|? ?]]]]]]] tail]|]; try done.
    destruct (Z_of_str iat) as [i|], (Z_of_str exp) as [e|]; try done.
    destruct (negb _); [done|]. destruct (_ <=? now) eqn:E; [done|]. destruct (now <? _); [done|].
    intros [= <-]. simpl. apply Z.leb_gt in E. lia.
Qed.

Definition w_id (c : string) : string := "00000000-0000-4000-8000-00000000000" +:+ c.

Lemma token_roundtrip_witness :
  let token := create_access_jwt toy_encode "s3cret" (100 * second) (w_id "a") (w_id "1") UserToken 900 in
  (p_sub <$> verify_access_jwt toy_decode "s3cret" (500 * second) token UserToken) = Some (w_id "1")
  ∧ verify_access_jwt toy_decode "s3cret" (500 * second) token DeviceToken = None.
Proof.
  assert (Ht : access_token UserToken) by (by left).
  assert (H1 : is_uuid (w_id "1") = true) by (vm_compute; reflexivity).
  assert (H2 : is_uuid (w_id "a") = true) by (vm_compute; reflexivity).
  destruct (token_roundtrip toy_encode toy_decode "s3cret" (100 * second) (w_id "a") (w_id "1") (w_id "2") UserToken 900 (500 * second)
              toy_laws Ht H1 H2 ltac:(vm_compute; reflexivity) ltac:(unfold second; lia) ltac:(unfold second; lia))
    as [(p & Hp & Hsub & _ & Hother) _]. split.
  - rewrite Hp. simpl. by rewrite Hsub.
  - by apply Hother.
Defined.

Lemma is_uuid_example : is_uuid "{00000000-0000-4000-8000-00000000000A}" = true ∧ is_uuid "0000" = false ∧ is_uuid "zz" = false.
Proof. vm_compute. done. Qed.
