(* ===== verification/Redact.v ===== *)
(** * Redaction and shortening of what is logged

    The part of [utils.py] that makes a request loggable. Decoding and
    encoding JSON is [msgspec]'s and a parameter. Texts are the bytes of
    their UTF-8, as everywhere in this development. *)

From Stdlib Require Import ZArith Lia.
From S2P Require Import Prelude PyStr Json.

(** ** Texts *)

(** [s[i:]] *)
Definition drop_chars (n : nat) (l : list ascii) : list ascii := drop (length (take_chars n l)) l.

Definition py_from (i : Z) (s : string) : string :=
  let i := if i <? 0 then Z.max 0 (py_len s + i) else i in of_chars (drop_chars (Z.to_nat i) (chars s)).

(** [s[:i]] *)
Definition py_upto (i : Z) (s : string) : string :=
  let i := if i <? 0 then Z.max 0 (py_len s + i) else i in py_take (Z.to_nat i) s.

Definition ELLIPSIS : string := of_chars [byte 226; byte 128; byte 166].

(** How many bytes of an invalid sequence one replacement character stands
    for: the longest beginning of a character. *)
Definition starts_char (l : list ascii) : bool :=
  match l with
  | [a; b] =>
      (in_range 224 224 a && in_range 160 191 b) || (in_range 237 237 a && in_range 128 159 b)
      || ((in_range 225 236 a || in_range 238 239 a) && is_continuation b)
      || (in_range 240 240 a && in_range 144 191 b) || (in_range 244 244 a && in_range 128 143 b)
      || (in_range 241 243 a && is_continuation b)
  | [a; b; c] =>
      ((in_range 240 240 a && in_range 144 191 b) || (in_range 244 244 a && in_range 128 143 b)
       || (in_range 241 243 a && is_continuation b)) && is_continuation c
  | _ => false
  end.

Definition REPLACEMENT : list ascii := [byte 239; byte 191; byte 189].

(** [raw.decode("utf-8", errors="replace")]; [fuel] is the number of bytes. *)
Fixpoint decode_replace (fuel : nat) (l : list ascii) : list ascii :=
  match fuel, l with
  | O, _ | _, [] => []
  | S fuel, _ =>
      match List.find (λ n, utf8_char (take n l) && (n <=? length l)%nat) [1; 2; 3; 4]%nat with
      | Some n => take n l ++ decode_replace fuel (drop n l)
      | None =>
          let n := match List.find (λ n, starts_char (take n l)) [3; 2]%nat with Some n => n | None => 1%nat end in
          REPLACEMENT ++ decode_replace fuel (drop n l)
      end
  end.

(** A body: bytes, a text, or another object with its [repr]. *)
Inductive body := BBytes (raw : list ascii) | BText (s : string) | BOther (repr : string).

Definition safe_decode (raw : body) : string :=
  match raw with
  | BBytes raw => of_chars (decode_replace (length raw) raw)
  | BText s | BOther s => s
  end.

(** ** Shortening *)
Definition truncate_middle (s : string) (max_len : Z) : string :=
  if py_len s <=? max_len then s
  else
    let head := max_len / 2 in
    let tail := max_len - head - 1 in
    py_upto head s +:+ ELLIPSIS +:+ py_from (- tail) s.

(** ["".join(s.split())]: white space outside ASCII too *)
Fixpoint without_space (l : list ascii) : list ascii :=
  match l with
  | [] => []
  | a :: l' =>
      if is_space a then without_space l'
      else
        match l' with
        | b :: l2 =>
            if (code a =? 194) && ((code b =? 133) || (code b =? 160)) then without_space l2
            else
              match l2 with
              | c :: l3 =>
                  if ((code a =? 225) && (code b =? 154) && (code c =? 128))
                     || ((code a =? 226) && (code b =? 128) && (in_range 128 138 c || in_range 168 169 c || (code c =? 175)))
                     || ((code a =? 226) && (code b =? 129) && (code c =? 159))
                     || ((code a =? 227) && (code b =? 128) && (code c =? 128))
                  then without_space l3
                  else a :: without_space l'
              | [] => a :: without_space l'
              end
        | [] => [a]
        end
  end.

Definition base64_char (a : ascii) : bool := is_alnum a || existsb (Ascii.eqb a) (chars "+/=").

(** [BASE64_RX.match] of a text without white space *)
Definition BASE64_RX (s : string) : bool := negb (String.eqb s "") && all_chars base64_char s.

Definition summarize_maybe_base64 (s : string) (preview hard_cap : Z) : string :=
  let compact := of_chars (without_space (chars s)) in
  let n := py_len compact in
  if negb (String.eqb compact "") && (n mod 4 =? 0) && BASE64_RX compact then
    let approx := (n * 3) / 4 - Z.of_nat (length (List.filter (Ascii.eqb "="%char) (chars compact))) in
    let head := py_upto preview compact in
    let tail := if 2 * preview <? n then py_from (- preview) compact else "" in
    "<base64 " +:+ str_of_Z n +:+ " chars (~" +:+ str_of_Z approx +:+ " bytes) " +:+ head +:+ ELLIPSIS +:+ tail +:+ ">"
  else truncate_middle s hard_cap.

Definition maybe_truncate (msg : string) (max_len : Z) : string * string :=
  (py_upto max_len msg, if max_len <? py_len msg then NL +:+ "...truncated..." else "").

(** ** What is sensitive *)
Definition SENSITIVE_KEY_MARKERS : list string :=
  ["authorization"; "cookie"; "pass"; "pwd"; "secret"; "token"; "api-key"; "api_key"; "apikey"; "private_key"; "private-key";
   "privatekey"; "account_key"; "accountkey"; "access_key"; "access-key"; "accesskey"; "encryption_key"; "signing_key"; "hmac";
   "jwt"; "bearer"; "totp"; "otp_code"; "otp-code"; "one_time_code"; "mfa_code"; "pin_code"; "pincode"; "credential";
   "connection_string"; "connectionstring"; "conn_str"; "dsn"; "salt"; "signature"; "session"; "username"; "user_name"; "login"].

(** [lower()], as far as letters that become ASCII ones go: those of ASCII,
    the Kelvin sign, and the dotted capital I. The markers hold no others. *)
Fixpoint fold_case (l : list ascii) : list ascii :=
  match l with
  | a :: ((b :: ((c :: l3) as l2)) as l1) =>
      if (code a =? 226) && (code b =? 132) && (code c =? 170) then "k"%char :: fold_case l3
      else if (code a =? 196) && (code b =? 176) then "i"%char :: byte 204 :: byte 135 :: fold_case l2
      else lower_char a :: fold_case l1
  | [a; b] => if (code a =? 196) && (code b =? 176) then ["i"%char; byte 204; byte 135] else [lower_char a; lower_char b]
  | [a] => [lower_char a]
  | [] => []
  end.

(** [marker in s] *)
Fixpoint contains (p l : list ascii) : bool :=
  bool_decide (take (length p) l = p) || match l with [] => false | _ :: l' => contains p l' end.

Definition is_sensitive_key (name : string) : bool :=
  let lowered := fold_case (chars name) in existsb (λ marker, contains (chars marker) lowered) SENSITIVE_KEY_MARKERS.

Definition REDACTED : string := "<redacted>".

Definition redact_headers (headers : list (string * json)) : list (string * json) :=
  map (λ kv, (kv.1, if is_sensitive_key kv.1 then JStr REDACTED else kv.2)) headers.

(** ** Forms *)

(** The bytes of [%XX] escapes. *)
Fixpoint percent_decode (l : list ascii) : list ascii :=
  match l with
  | "%"%char :: ((x :: ((y :: l2) as l1)) as l0) =>
      match hex_value x, hex_value y with
      | Some h, Some d => byte (16 * h + d) :: percent_decode l2
      | _, _ => "%"%char :: percent_decode l0
      end
  | a :: l => a :: percent_decode l
  | [] => []
  end.

(** [unquote_plus(s)] *)
Definition unquote_plus (s : string) : string :=
  let raw := percent_decode (map (λ a, if Ascii.eqb a "+"%char then " "%char else a) (chars s)) in
  of_chars (decode_replace (length raw) raw).

(** One [FORM_FIELD_RX] match: a field between ampersands with an equals
    sign. *)
Definition redact_field (field : string) : string :=
  let '(key, equals, _) := partition "="%char field in
  if equals && is_sensitive_key (unquote_plus key) then key +:+ "=" +:+ REDACTED else field.

Definition redact_form_fields (text : string) : string := join "&" (map redact_field (split "&"%char text)).

(** ** JSON *)

(** [l[:n]] *)
Definition list_upto {A} (n : Z) (l : list A) : list A :=
  take (Z.to_nat (if n <? 0 then Z.max 0 (Z.of_nat (length l) + n) else n)) l.

Section shrink.
Context (max_string max_items : Z).

Definition more_items (n : Z) : json := JStr ("<" +:+ ELLIPSIS +:+ " " +:+ str_of_Z (n - max_items) +:+ " more items>").

Fixpoint shrink_json (v : json) : json :=
  match v with
  | JObj d => JObj (map (λ kv, (kv.1, if is_sensitive_key kv.1 then JStr REDACTED else shrink_json kv.2)) d)
  | JList l =>
      let n := Z.of_nat (length l) in
      JList (list_upto max_items (map shrink_json l) ++ if max_items <? n then [more_items n] else [])
  | JStr s => JStr (summarize_maybe_base64 s 32 max_string)
  | _ => v
  end.
End shrink.

Section format.
Context (json_decode : string → option json) (json_encode_pretty : json → option string).

Definition format_body_for_log (raw_body : body) (max_chars shrink_strings_to cap_list_items : Z) : string :=
  let text := safe_decode raw_body in
  match (js ← json_decode text; json_encode_pretty (shrink_json shrink_strings_to cap_list_items js)) with
  | Some encoded => truncate_middle encoded max_chars
  | None => truncate_middle (summarize_maybe_base64 (redact_form_fields text) 32 shrink_strings_to) max_chars
  end.

(** A response: a dict, a list, or anything else. *)
Inductive response := RDict (d : list (string * json)) | RList (l : list json) | RBody (b : body).

Definition response_json (r : response) : option json :=
  match r with RDict d => Some (JObj d) | RList l => Some (JList l) | RBody _ => None end.

(** [None] when [json_encode] raises. *)
Definition format_response_for_log (r : response) (max_chars shrink_strings_to cap_list_items : Z) : option string :=
  match r with
  | RBody b => Some (truncate_middle (safe_decode b) max_chars)
  | _ =>
      js ← response_json r;
      encoded ← json_encode_pretty (shrink_json shrink_strings_to cap_list_items js);
      Some (truncate_middle encoded max_chars)
  end.
End format.

(** ** Names *)

(** [re.sub("[^a-zA-Z0-9-]+", "", ...)] after the separators became hyphens *)
Definition create_valid_hostname (input_string : string) : string :=
  let hyphened := map (λ a, if existsb (Ascii.eqb a) (chars " _.") then "-"%char else a) (chars input_string) in
  strip_by (Ascii.eqb "-"%char) (of_chars (List.filter (λ a, is_alnum a || Ascii.eqb a "-"%char) hyphened)).
