(* ===== verification/RedactProps.v ===== *)
(** * What a log line can show *)

From Stdlib Require Import ZArith Lia.
From S2P Require Import Prelude PyStr Json Redact.

(** ** Secrets *)

(** Equal but for what lies below a sensitive key. *)
Inductive conceals : json → json → Prop :=
  | conceals_same v : conceals v v
  | conceals_list l1 l2 : Forall2 conceals l1 l2 → conceals (JList l1) (JList l2)
  | conceals_obj d1 d2 :
      Forall2 (λ x y : string * json, x.1 = y.1 ∧ (is_sensitive_key x.1 = true ∨ conceals x.2 y.2)) d1 d2 →
      conceals (JObj d1) (JObj d2).

Lemma shrink_conceals max_string max_items v1 : ∀ v2,
  conceals v1 v2 → shrink_json max_string max_items v1 = shrink_json max_string max_items v2.
Proof.
  induction v1 as [|b|n|t|s|t|l IH|d IH] using json_nested_ind; intros v2 H; inversion H as [|l1 l2 Hl|d1 d2 Hd]; subst; try done.
  - clear H. assert (Hm : map (shrink_json max_string max_items) l = map (shrink_json max_string max_items) l2).
    { revert l2 Hl. induction IH as [|x l Hx _ IHl]; intros l2 Hl; inversion Hl as [|? y ? l2' Hy Hl']; subst; [done|]. simpl.
      by rewrite (Hx _ Hy), (IHl _ Hl'). }
    cbn [shrink_json]. by rewrite Hm, (Forall2_length _ _ _ Hl).
  - clear H. cbn [shrink_json]. f_equal.
    revert d2 Hd. induction IH as [|x d Hx _ IHd]; intros d2 Hd; inversion Hd as [|? y ? d2' [Hk Hy] Hd']; subst; [done|]. simpl.
    rewrite (IHd _ Hd'), <- Hk. destruct (is_sensitive_key x.1) eqn:E; [done|]. destruct Hy as [?|Hy]; [congruence|]. by rewrite (Hx _ Hy).
Qed.

(** Two fields of a form: the same, or a sensitive name with two values. *)
Definition same_field (f1 f2 : string) : Prop :=
  f1 = f2 ∨ ∃ key v1 v2, f1 = key +:+ "=" +:+ v1 ∧ f2 = key +:+ "=" +:+ v2 ∧ has_char "="%char key = false
                         ∧ is_sensitive_key (unquote_plus key) = true.

Definition same_form (t1 t2 : string) : Prop := Forall2 same_field (split "&"%char t1) (split "&"%char t2).

Lemma redact_same_field f1 f2 : same_field f1 f2 → redact_field f1 = redact_field f2.
Proof.
  intros [->|(key & v1 & v2 & -> & -> & Hk & Hs)]; [done|]. unfold redact_field.
  change ("=" +:+ v1) with (String "="%char v1). change ("=" +:+ v2) with (String "="%char v2).
  rewrite !partition_join by done. by rewrite Hs.
Qed.

Lemma redact_same_form t1 t2 : same_form t1 t2 → redact_form_fields t1 = redact_form_fields t2.
Proof.
  intros H. unfold redact_form_fields. f_equal. induction H as [|f1 f2 l1 l2 Hf _ IH]; [done|]. simpl.
  by rewrite (redact_same_field _ _ Hf), IH.
Qed.

(** Two texts of a body: JSON that differs below sensitive keys, or forms
    that differ in sensitive fields. *)
Definition same_body (json_decode : string → option json) (t1 t2 : string) : Prop :=
  match json_decode t1, json_decode t2 with
  | Some j1, Some j2 => conceals j1 j2
  | None, None => same_form t1 t2
  | _, _ => False
  end.

(** ** Lengths *)
Definition len (l : list ascii) : nat := length (List.filter (λ a, negb (is_continuation a)) l).

Lemma len_app l1 l2 : len (l1 ++ l2) = (len l1 + len l2)%nat.
Proof. unfold len. by rewrite List.filter_app, length_app. Qed.

Lemma take_chars_len n l : len (take_chars n l) = Nat.min n (len l).
Proof.
  revert n. induction l as [|a l IH]; intros n; [by rewrite Nat.min_0_r|]. unfold len in *. cbn [take_chars List.filter].
  destruct (is_continuation a) eqn:Ha; cbn [negb].
  - cbn [List.filter]. rewrite Ha. cbn [negb]. apply IH.
  - destruct n as [|n]; [done|]. cbn [List.filter length]. rewrite Ha. cbn [negb length]. by rewrite IH.
Qed.

Lemma take_chars_prefix n l : take_chars n l = take (length (take_chars n l)) l.
Proof.
  revert n. induction l as [|a l IH]; intros n; [done|]. cbn [take_chars]. destruct (is_continuation a).
  - cbn [length take]. f_equal. apply IH.
  - destruct n as [|n]; [done|]. cbn [length take]. f_equal. apply IH.
Qed.

Lemma drop_chars_len n l : len (drop_chars n l) = (len l - n)%nat.
Proof.
  unfold drop_chars. pose proof (take_drop (length (take_chars n l)) l) as H. apply (f_equal len) in H. rewrite len_app in H.
  rewrite <- take_chars_prefix, take_chars_len in H. lia.
Qed.

Lemma py_len_app s1 s2 : py_len (s1 +:+ s2) = py_len s1 + py_len s2.
Proof. unfold py_len. rewrite chars_app, List.filter_app, length_app. lia. Qed.

Lemma py_upto_len i s : 0 <= i → py_len (py_upto i s) = Z.min i (py_len s).
Proof.
  intros Hi. unfold py_upto, py_take, py_len. destruct (Z.ltb_spec i 0); [lia|]. rewrite chars_of_chars.
  pose proof (take_chars_len (Z.to_nat i) (chars s)) as Hl. unfold len in Hl. rewrite Hl. lia.
Qed.

Lemma py_from_len i s : i < 0 → py_len (py_from i s) = Z.min (- i) (py_len s).
Proof.
  intros Hi. unfold py_from. destruct (Z.ltb_spec i 0); [|lia]. unfold py_len at 1. rewrite chars_of_chars.
  set (n := Z.to_nat _). pose proof (drop_chars_len n (chars s)) as H0. unfold len in H0. rewrite H0. fold (len (chars s)).
  assert (Hl : py_len s = Z.of_nat (len (chars s))) by done. lia.
Qed.

(** A text that is too long is cut to exactly the length allowed. *)
Lemma truncate_len s max_len : 3 <= max_len → py_len (truncate_middle s max_len) = Z.min max_len (py_len s).
Proof.
  intros Hm. unfold truncate_middle. destruct (Z.leb_spec (py_len s) max_len); [lia|].
  assert (Hd := Z.div_mod max_len 2 ltac:(lia)). assert (Hr := Z.mod_pos_bound max_len 2 ltac:(lia)).
  rewrite !py_len_app, py_upto_len, py_from_len by lia. change (py_len ELLIPSIS) with 1. lia.
Qed.

(** A logged body shows no secret and is as short as asked. Two JSON
    bodies that differ only in what lies below sensitive keys, or two form
    bodies that differ only in the values of sensitive fields, however the
    names are escaped, give the same line; and the line has at most the
    given number of characters. The responses are treated alike. *)
Theorem body_log_redacts json_decode json_encode_pretty b1 b2 max_chars max_string max_items :
  (∀ t j, json_decode t = Some j → is_Some (json_encode_pretty (shrink_json max_string max_items j))) →
  same_body json_decode (safe_decode b1) (safe_decode b2) → 3 <= max_chars →
  let format b := format_body_for_log json_decode json_encode_pretty b max_chars max_string max_items in
  format b1 = format b2 ∧ py_len (format b1) <= max_chars
  ∧ ∀ r1 r2 j1 j2, response_json r1 = Some j1 → response_json r2 = Some j2 → conceals j1 j2 →
      format_response_for_log json_encode_pretty r1 max_chars max_string max_items
      = format_response_for_log json_encode_pretty r2 max_chars max_string max_items.
Proof.
  intros Henc Hs Hm format. split_and!.
  - unfold format, format_body_for_log. unfold same_body in Hs.
    destruct (json_decode (safe_decode b1)) as [j1|] eqn:E1, (json_decode (safe_decode b2)) as [j2|] eqn:E2; try done; simpl.
    + rewrite (shrink_conceals max_string max_items _ _ Hs). by destruct (Henc _ _ E2) as [text ->].
    + by rewrite (redact_same_form _ _ Hs).
  - unfold format, format_body_for_log. cbv zeta. destruct (_ ≫= _); rewrite truncate_len by done; lia.
  - intros r1 r2 j1 j2 H1 H2 Hc. unfold format_response_for_log. destruct r1, r2; try done; rewrite H1, H2; simpl;
      by rewrite (shrink_conceals max_string max_items _ _ Hc).
Qed.

(** A limit of one or two characters makes a long text longer. *)
Example truncate_short_limits :
  truncate_middle "abcdef" 2 = "a" +:+ ELLIPSIS +:+ "abcdef" ∧ truncate_middle "abcdef" 1 = ELLIPSIS +:+ "abcdef"
  ∧ truncate_middle "abcdef" 3 = "a" +:+ ELLIPSIS +:+ "f".
Proof. vm_compute. done. Qed.

(** A form whose name is escaped, and one that only looks like JSON. *)
Lemma body_log_redacts_witness :
  let format t := format_body_for_log (λ _, None) (λ _, Some "") (BText t) 4000 256 50 in
  format "user=anna&pass%77ord=swordfish" = format "user=anna&pass%77ord=hunter2"
  ∧ format "user=anna&pass%77ord=hunter2" = "user=anna&pass%77ord=<redacted>" ∧ py_len (format "user=anna&pass%77ord=swordfish") <= 4000.
Proof.
  intros format.
  assert (Henc : ∀ t j, (λ _ : string, @None json) t = Some j → is_Some ((λ _ : json, Some "") (shrink_json 256 50 j))) by discriminate.
  assert (Hsens : is_sensitive_key (unquote_plus "pass%77ord") = true) by (vm_compute; reflexivity).
  assert (Hs : same_body (λ _, None) (safe_decode (BText "user=anna&pass%77ord=swordfish")) (safe_decode (BText "user=anna&pass%77ord=hunter2"))).
  { change (same_form "user=anna&pass%77ord=swordfish" "user=anna&pass%77ord=hunter2"). unfold same_form.
    assert (H1 : split "&"%char "user=anna&pass%77ord=swordfish" = ["user=anna"; "pass%77ord=swordfish"]) by (vm_compute; reflexivity).
    assert (H2 : split "&"%char "user=anna&pass%77ord=hunter2" = ["user=anna"; "pass%77ord=hunter2"]) by (vm_compute; reflexivity).
    rewrite H1, H2. constructor; [left; reflexivity|]. constructor; [|constructor]. right.
    exists "pass%77ord", "swordfish", "hunter2". split; [reflexivity|]. split; [reflexivity|]. split; [reflexivity|exact Hsens]. }
  destruct (body_log_redacts (λ _, None) (λ _, Some "") (BText "user=anna&pass%77ord=swordfish") (BText "user=anna&pass%77ord=hunter2")
    4000 256 50 Henc Hs ltac:(lia)) as (He & Hl & _).
  split; [exact He|]. split; [vm_compute; reflexivity|exact Hl].
Defined.
