(* ===== verification/RequestLog.v ===== *)
(** * Reading and logging a request

    [request_handler/handlers.py]: what [prepare] makes of the content type,
    and the lines [log_request] writes. A line is its level and its text; the
    text of a dictionary ([py_repr]), JSON and the hash prefix of a body are
    parameters. *)

From Stdlib Require Import ZArith Lia.
From S2P Require Import Prelude PyStr Json Redact RedactProps.

Record http_request := HttpRequest {
  hr_method : string; hr_path : string; hr_headers : list (string * json); hr_arguments : option (list (string * json)); hr_body : body
}.

Section request_log.
Context {S : Type} (py_repr : json → string) (sha1_prefix : list ascii → string).
Context (json_decode : string → option json) (json_encode_pretty : json → option string).

Definition log_line (level text : string) : prog S () := out (level +:+ ": " +:+ text).

(** [getattr(logger, level, logger.info)] *)
Definition known_level (level : string) : string :=
  if String.eqb level "warn" then "warning"
  else if String.eqb level "fatal" then "critical"
  else if existsb (String.eqb level) ["debug"; "info"; "warning"; "error"; "critical"; "exception"] then level
  else "info".

(** A dictionary or a list is shown as such, anything else by its text. *)
Definition as_response (v : json) : response :=
  match v with JObj d => RDict d | JList l => RList l | JStr s => RBody (BText s) | v => RBody (BOther (py_repr v)) end.

Record log_limits := LogLimits { max_field_chars : Z; shrink_strings_to : Z; cap_list_items : Z }.
Definition default_limits : log_limits := LogLimits 4000 256 50.

Definition encode_error : exn := raise_exn TypeError "Encoding objects is unsupported".

Definition _body_for_log (lim : log_limits) (json_args : option json) (raw : body) : prog S string :=
  match json_args with
  | Some v =>
      match format_response_for_log json_encode_pretty (as_response v) (max_field_chars lim) (shrink_strings_to lim) (cap_list_items lim) with
      | Some text => mret text
      | None => raise encode_error
      end
  | None => mret (format_body_for_log json_decode json_encode_pretty raw (max_field_chars lim) (shrink_strings_to lim) (cap_list_items lim))
  end.

Definition body_length (b : body) : Z :=
  match b with BBytes raw => Z.of_nat (length raw) | b => py_len (safe_decode b) end.

Definition body_short (b : body) : string :=
  match b with
  | BBytes raw => "<" +:+ str_of_Z (body_length b) +:+ " bytes sha1=" +:+ sha1_prefix raw +:+ ">"
  | b => "<" +:+ str_of_Z (body_length b) +:+ " chars>"
  end.

Definition log_request (rq : http_request) (json_args : option json) (response : option response) (error : option string)
    (level : string) (include_body : bool) (lim : log_limits) : prog S () :=
  let level := lower level in
  let level := match error with Some _ => if String.eqb level "info" then "warning" else level | None => level end in
  let log := known_level level in
  _ ← (match error with Some e => log_line log ("Got error while processing request: " +:+ e) | None => mret () end);
  _ ← log_line log ("Request " +:+ hr_method rq +:+ " " +:+ hr_path rq +:+ " | len(body)=" +:+ str_of_Z (body_length (hr_body rq)) +:+ " | args="
                    +:+ match hr_arguments rq with Some d => py_repr (JObj (redact_headers d)) | None => "<n/a>" end);
  let detail := if existsb (String.eqb level) ["info"; "debug"] then "debug" else log in
  _ ← log_line detail ("Headers: " +:+ py_repr (JObj (redact_headers (hr_headers rq))));
  text ← (if include_body then _body_for_log lim json_args (hr_body rq) else mret (body_short (hr_body rq)));
  _ ← log_line detail ("Body: " +:+ text);
  match response with
  | None => mret ()
  | Some r =>
      match format_response_for_log json_encode_pretty r (max_field_chars lim) (shrink_strings_to lim) (cap_list_items lim) with
      | Some text => log_line detail ("Response: " +:+ text)
      | None => raise encode_error
      end
  end.

(** The lines themselves never fail; a body or an answer that cannot be
    written as JSON does. *)
Definition body_loggable (lim : log_limits) (json_args : option json) : bool :=
  match json_args with
  | Some v => match format_response_for_log json_encode_pretty (as_response v) (max_field_chars lim) (shrink_strings_to lim) (cap_list_items lim)
              with Some _ => true | None => false end
  | None => true
  end.
Definition response_loggable (lim : log_limits) (response : option response) : bool :=
  match response with
  | Some r => match format_response_for_log json_encode_pretty r (max_field_chars lim) (shrink_strings_to lim) (cap_list_items lim)
              with Some _ => true | None => false end
  | None => true
  end.

Lemma log_request_run rq json_args response error level lim w : ∃ lines,
  log_request rq json_args response error level true lim w
  = (World (w_st w) (w_log w ++ lines) (w_clock w),
     if body_loggable lim json_args && response_loggable lim response then Ok () else Err encode_error).
Proof.
  unfold log_request. cbv zeta.
  set (level2 := match error with Some _ => _ | None => _ end). generalize (known_level level2). intros log.
  assert (Hout : ∀ l t (k : () → prog S ()) v, (log_line l t ≫= k) v = k () (World (w_st v) (w_log v ++ [l +:+ ": " +:+ t]) (w_clock v))) by done.
  assert (Herr : ∃ lines, (match error with Some e => log_line log ("Got error while processing request: " +:+ e) | None => mret () end) w
                          = (World (w_st w) (w_log w ++ lines) (w_clock w), Ok ())).
  { destruct error; [by eexists|]. exists []. rewrite app_nil_r. by destruct w. }
  destruct Herr as [lines0 Herr]. rewrite (bind_ok _ _ _ _ _ Herr), !Hout. cbn [w_st w_log w_clock]. rewrite <- !app_assoc.
  unfold _body_for_log, body_loggable, response_loggable. destruct json_args as [v|].
  1: destruct (format_response_for_log _ _ _ _ _) as [text|]; [|by eexists].
  all: erewrite bind_ok by done; rewrite Hout; cbn [w_st w_log w_clock andb].
  all: destruct response as [r|]; [destruct (format_response_for_log _ r _ _ _)|]; eexists; unfold log_line, out, raise, mret, prog_ret; cbn [w_st w_log w_clock];
    rewrite <- ?app_assoc; reflexivity.
Qed.

(** ** The content type *)

(** What [_ensure_content_type] leaves: the parsed body, whether the answer
    has to be JSON, the content type of the answer, and whether the request
    was answered with an error already. *)
Record prepared := Prepared { pr_json_args : option json; pr_require_json : bool; pr_content_type : option string; pr_finished : bool }.

Definition is_json_type (content_type : string) : bool := startswith "application/json" content_type || startswith "application/x-json" content_type.

Definition header_text (name fallback : string) (headers : list (string * json)) : string :=
  match dict_get name headers with Some (JStr s) => s | _ => fallback end.

(** [decode] reads the body, or says what is wrong with it. *)
Definition _ensure_content_type (decode : body → string + json) (rq : http_request) : prog S prepared :=
  let content_type := header_text "Content-Type" "" (hr_headers rq) in
  parsed ← (if is_json_type content_type && (0 <? body_length (hr_body rq)) then
              match decode (hr_body rq) with
              | inr JNull => mret (Some None)
              | inr v => mret (Some (Some v))
              | inl e => _ ← log_request rq None None (Some e) "info" true default_limits; mret None
              end
            else mret (Some None));
  match (parsed : option (option json)) with
  | None => mret (Prepared None false None true)
  | Some args =>
      let accepts := String.eqb (header_text "Accept" "application/json" (hr_headers rq)) "application/json" in
      mret (Prepared args accepts (Some (if accepts then "application/json; charset=UTF-8" else "text/html; charset=UTF-8")) false)
  end.

(** ** What a line can show *)

(** Two dictionaries that differ only under sensitive names. *)
Definition same_headers (d1 d2 : list (string * json)) : Prop :=
  Forall2 (λ x y : string * json, x.1 = y.1 ∧ (is_sensitive_key x.1 = true ∨ x.2 = y.2)) d1 d2.

Lemma redact_headers_same d1 d2 : same_headers d1 d2 → redact_headers d1 = redact_headers d2.
Proof.
  induction 1 as [|[k1 v1] [k2 v2] d1 d2 [Hk Hv] Hd IH]; [done|]. cbn [redact_headers map fst snd] in *. subst k2. unfold redact_headers in IH.
  rewrite IH. destruct (is_sensitive_key k1) eqn:E; [done|]. by destruct Hv as [| ->].
Qed.

Definition same_arguments (a1 a2 : option (list (string * json))) : Prop :=
  match a1, a2 with Some d1, Some d2 => same_headers d1 d2 | None, None => True | _, _ => False end.

Definition same_response (r1 r2 : option response) : Prop :=
  match r1, r2 with
  | None, None => True
  | Some r1, Some r2 => r1 = r2 ∨ ∃ j1 j2, response_json r1 = Some j1 ∧ response_json r2 = Some j2 ∧ conceals j1 j2
  | _, _ => False
  end.

Lemma format_same r1 r2 a b c : same_response (Some r1) (Some r2) →
  format_response_for_log json_encode_pretty r1 a b c = format_response_for_log json_encode_pretty r2 a b c.
Proof.
  intros [->|(j1 & j2 & H1 & H2 & Hc)]; [done|]. unfold format_response_for_log. destruct r1, r2; try done; rewrite H1, H2; simpl;
    by rewrite (shrink_conceals _ _ _ _ Hc).
Qed.

Definition same_args (a1 a2 : option json) : Prop :=
  match a1, a2 with Some v1, Some v2 => conceals v1 v2 | None, None => True | _, _ => False end.

Lemma conceals_response v1 v2 : conceals v1 v2 → same_response (Some (as_response v1)) (Some (as_response v2)).
Proof.
  intros H. inversion H as [|l1 l2 Hl|d1 d2 Hd]; subst; [by left| |]; right; by eexists _, _.
Qed.

(** Two bodies, read the same way, of the same length. *)
Definition same_request_body (a1 a2 : option json) (b1 b2 : body) : Prop :=
  body_length b1 = body_length b2 ∧ same_args a1 a2 ∧ (a1 = None → same_body json_decode (safe_decode b1) (safe_decode b2)).

Lemma body_for_log_same lim a1 a2 b1 b2 w :
  (∀ t j, json_decode t = Some j → is_Some (json_encode_pretty (shrink_json (shrink_strings_to lim) (cap_list_items lim) j))) →
  same_request_body a1 a2 b1 b2 → _body_for_log lim a1 b1 w = _body_for_log lim a2 b2 w.
Proof.
  intros Henc (_ & Ha & Hb). unfold _body_for_log. destruct a1 as [v1|], a2 as [v2|]; try done.
  - by rewrite (format_same (as_response v1) (as_response v2)) by by apply conceals_response.
  - specialize (Hb eq_refl). unfold format_body_for_log. unfold same_body in Hb.
    destruct (json_decode (safe_decode b1)) as [j1|] eqn:E1, (json_decode (safe_decode b2)) as [j2|] eqn:E2; try done; simpl.
    + rewrite (shrink_conceals _ _ _ _ Hb). by destruct (Henc _ _ E2) as [text ->].
    + by rewrite (redact_same_form _ _ Hb).
Qed.

(** C38: No line written about a request depends on what is sensitive in it:
    two requests that differ only in the values of sensitive headers and
    arguments, in what lies below sensitive keys of a JSON body or in the
    values of sensitive fields of a form, with answers that differ only below
    sensitive keys, write the same lines, as long as the bodies are equally
    long. *)
Theorem request_log_redacts rq1 rq2 a1 a2 r1 r2 error level lim w :
  (∀ t j, json_decode t = Some j → is_Some (json_encode_pretty (shrink_json (shrink_strings_to lim) (cap_list_items lim) j))) →
  hr_method rq1 = hr_method rq2 → hr_path rq1 = hr_path rq2 → same_headers (hr_headers rq1) (hr_headers rq2) →
  same_arguments (hr_arguments rq1) (hr_arguments rq2) → same_request_body a1 a2 (hr_body rq1) (hr_body rq2) → same_response r1 r2 →
  log_request rq1 a1 r1 error level true lim w = log_request rq2 a2 r2 error level true lim w.
Proof.
  intros Henc Hm Hp Hh Ha Hb Hr. unfold log_request. rewrite Hm, Hp, (proj1 Hb), (redact_headers_same _ _ Hh).
  assert (Hargs : match hr_arguments rq1 with Some d => py_repr (JObj (redact_headers d)) | None => "<n/a>" end
                = match hr_arguments rq2 with Some d => py_repr (JObj (redact_headers d)) | None => "<n/a>" end).
  { destruct (hr_arguments rq1), (hr_arguments rq2); try done. by rewrite (redact_headers_same _ _ Ha). }
  rewrite Hargs. cbv zeta.
  apply bind_ext. intros _ w1. apply bind_ext. intros _ w2. apply bind_ext. intros _ w3. cbn match.
  rewrite (bind_start _ (_body_for_log lim a2 (hr_body rq2))) by by apply body_for_log_same.
  apply bind_ext. intros text w4. apply bind_ext. intros _ w5. destruct r1 as [r1|], r2 as [r2|]; try done.
  by rewrite (format_same r1 r2).
Qed.
End request_log.

(** ** What a handler logs *)

(** The request of a handler and what its lines are made with. *)
Record request_logger := RequestLogger {
  lg_request : http_request; lg_repr : json → string; lg_sha1 : list ascii → string;
  lg_decode : string → option json; lg_encode : json → option string
}.

Section logger.
Context {S : Type} (lg : request_logger) (json_args : option json).

(** [log_request(error=e)] *)
Definition log_error (e : exn) : prog S () :=
  log_request (lg_repr lg) (lg_sha1 lg) (lg_decode lg) (lg_encode lg) (lg_request lg) json_args None (Some (exn_msg e)) "info" true default_limits.

(** [log_request(response=..., level="debug")] *)
Definition log_answer (answer : option json) : prog S () :=
  log_request (lg_repr lg) (lg_sha1 lg) (lg_decode lg) (lg_encode lg) (lg_request lg) json_args
    (as_response (lg_repr lg) <$> answer) None "debug" true default_limits.

Definition error_loggable : bool := body_loggable (lg_repr lg) (lg_encode lg) default_limits json_args.
Definition answer_loggable (answer : option json) : bool :=
  error_loggable && response_loggable (lg_encode lg) default_limits (as_response (lg_repr lg) <$> answer).

Lemma log_error_run e w : ∃ lines,
  log_error e w = (World (w_st w) (w_log w ++ lines) (w_clock w), if error_loggable then Ok () else Err encode_error).
Proof.
  unfold log_error, error_loggable. rewrite <- (andb_true_r (body_loggable _ _ _ _)). apply log_request_run.
Qed.

Lemma log_answer_run answer w : ∃ lines,
  log_answer answer w = (World (w_st w) (w_log w ++ lines) (w_clock w), if answer_loggable answer then Ok () else Err encode_error).
Proof. apply log_request_run. Qed.
End logger.

(** Two logins by form and a refused one, at the level of a warning. *)
Lemma request_log_redacts_witness :
  let rq password := HttpRequest "POST" "/login" [("Accept", JStr "*/*"); ("Cookie", JStr password)] (Some []) (BText ("user=anna&password=" +:+ password)) in
  let log rq := log_request (S := ()) (λ _, "{}") (λ _, "") (λ _, None) (λ _, Some "") rq None None (Some "refused") "info" true default_limits (World () [] 0) in
  log (rq "swordfish") = log (rq "knightrid")
  ∧ w_log (log (rq "swordfish")).1 = ["warning: Got error while processing request: refused";
      "warning: Request POST /login | len(body)=28 | args={}"; "warning: Headers: {}"; "warning: Body: user=anna&password=<redacted>"].
Proof.
  intros rq log.
  assert (Hs : is_sensitive_key (unquote_plus "password") = true) by (vm_compute; reflexivity).
  assert (Hc : is_sensitive_key "Cookie" = true) by (vm_compute; reflexivity).
  assert (H1 : split "&"%char "user=anna&password=swordfish" = ["user=anna"; "password=swordfish"]) by (vm_compute; reflexivity).
  assert (H2 : split "&"%char "user=anna&password=knightrid" = ["user=anna"; "password=knightrid"]) by (vm_compute; reflexivity).
  split.
  - apply (request_log_redacts (S := ()) (λ _, "{}") (λ _, "") (λ _, None) (λ _, Some "") (rq "swordfish") (rq "knightrid") None None None None
      (Some "refused") "info" default_limits (World () [] 0)); [discriminate|reflexivity|reflexivity| |constructor| |exact I].
    + constructor; [split; [reflexivity|right; reflexivity]|]. constructor; [split; [reflexivity|left; exact Hc]|constructor].
    + split; [vm_compute; reflexivity|]. split; [exact I|]. intros _.
      change (same_form "user=anna&password=swordfish" "user=anna&password=knightrid"). unfold same_form. rewrite H1, H2.
      constructor; [left; reflexivity|]. constructor; [right|constructor]. exists "password", "swordfish", "knightrid".
      split; [reflexivity|]. split; [reflexivity|]. split; [reflexivity|exact Hs].
  - vm_compute. reflexivity.
Defined.
