(* ===== verification/Handlers.v ===== *)
(** * Request handlers: identity and API keys

    [request_handler/handlers.py]: who a request or a websocket message acts
    as, and whether its API key may be used. The store holds the handler
    object's attributes, the tables of keys and users, and the registry of
    live connections. The lookup of a user by its public id belongs to the
    project's model and is a parameter; [pool] is whether the database pool
    hands out a connection. Timers and log lines are not modelled. *)

From Stdlib Require Import ZArith Lia.
From S2P Require Import Prelude PyStr Json IpAddress ClientIp ApiKeys QueueIface Auth.
From S2P Require WbcmUsers.

Record user := User { u_id : Z; u_public_id : string; u_disabled_at : option Z; u_deleted_at : option Z }.

(** What of the HTTP request the handler reads. *)
Record request := Request {
  rq_authorization : option string; rq_api_key : option string; rq_forwarded_for : option string;
  rq_real_ip : option string; rq_peer : option string
}.

(** The attributes of a handler. [h_cached_user] is Tornado's cache behind
    [current_user]: [None] while the attribute is not set. *)
Record handler := Handler {
  h_auth_token : option string; h_user : option user; h_impersonator : option user; h_token_expires_at : option Z;
  h_cached_user : option (option user); h_uid : option string;
  h_key_verified : bool; h_key : option api_key; h_key_user_applied : bool
}.

Definition new_handler : handler := Handler None None None None None None false None false.

Record site := Site {
  s_handler : handler; s_keys : key_table; s_users : list user; s_conns : WbcmUsers.UserConnections
}.

(** The configuration the handlers read. [ac_scoped] is whether the project's
    model of a key declares [abilities]: [hasattr(record, "abilities")]. *)
Record app_config := AppConfig {
  ac_use_db : bool; ac_keys : list string; ac_pepper : string; ac_jwt_secret : string; ac_trusted : list network;
  ac_scoped : bool
}.

Definition is_some {A} (x : option A) : bool := match x with Some _ => true | None => false end.

(** [x] for a text that may be absent or empty *)
Definition nonempty_text (s : option string) : option string :=
  match s with Some s => if is_empty s then None else Some s | None => None end.

(** [HTTPException(msg, code, http_status=status)], without a description. *)
Definition http_error (msg : string) (code status : Z) : exn := Exn HTTPException msg code status None.
Definition http_code (e : exn) : Z := exn_code e.
Definition http_status (e : exn) : Z := exn_status e.

Definition no_database : exn := http_error "Database is not initialized" 500 500.

Definition update_handler (f : handler → handler) : prog site () :=
  stmt (λ s, (Site (f (s_handler s)) (s_keys s) (s_users s) (s_conns s), ())).
Definition update_conns (f : WbcmUsers.UserConnections → WbcmUsers.UserConnections) : prog site () :=
  stmt (λ s, (Site (s_handler s) (s_keys s) (s_users s) (f (s_conns s)), ())).
Definition get_handler : prog site handler := s ← get_st; mret (s_handler s).

Definition with_user (u : option user) (h : handler) : handler :=
  Handler (h_auth_token h) u (h_impersonator h) (h_token_expires_at h) (h_cached_user h) (h_uid h)
    (h_key_verified h) (h_key h) (h_key_user_applied h).
Definition with_token (t : option string) (h : handler) : handler :=
  Handler t (h_user h) (h_impersonator h) (h_token_expires_at h) (h_cached_user h) (h_uid h)
    (h_key_verified h) (h_key h) (h_key_user_applied h).
Definition with_key (verified : bool) (k : option api_key) (h : handler) : handler :=
  Handler (h_auth_token h) (h_user h) (h_impersonator h) (h_token_expires_at h) (h_cached_user h) (h_uid h)
    verified k (h_key_user_applied h).
(** A fresh identity: the impersonator, the expiry and the cache are dropped. *)
Definition unidentified (h : handler) : handler :=
  Handler (h_auth_token h) (h_user h) None None None (h_uid h) (h_key_verified h) (h_key h) (h_key_user_applied h).
Definition identified (u : user) (imp : option user) (exp : Z) (h : handler) : handler :=
  Handler (h_auth_token h) (Some u) imp (Some exp) (h_cached_user h) (h_uid h) (h_key_verified h) (h_key h)
    (h_key_user_applied h).
(** The key's user: the cache is dropped. *)
Definition acting_as (u : user) (h : handler) : handler :=
  Handler (h_auth_token h) (Some u) (h_impersonator h) (h_token_expires_at h) None (h_uid h) (h_key_verified h)
    (h_key h) true.

(** [current_user], as Tornado evaluates it, and what it then is. *)
Definition current_user : prog site (option user) :=
  h ← get_handler;
  match h_cached_user h with
  | Some u => mret u
  | None =>
      _ ← update_handler (λ h, Handler (h_auth_token h) (h_user h) (h_impersonator h) (h_token_expires_at h)
                                 (Some (h_user h)) (h_uid h) (h_key_verified h) (h_key h) (h_key_user_applied h));
      mret (h_user h)
  end.

Definition active (u : user) : bool := negb (is_some (u_disabled_at u)) && negb (is_some (u_deleted_at u)).

Section handlers.
Context (sha256_hex : list ascii → string) (jwt_decode : Z → string → string → jwt_answer).
Context (get_by_public_id : string → list user → option user).
Context (pool : res ()) (cfg : app_config) (rq : request).

Definition client_ip : option string :=
  resolve_client_ip (rq_peer rq) (rq_forwarded_for rq) (rq_real_ip rq) (ac_trusted cfg).

Definition _clear_current_user : prog site () :=
  _ ← update_handler (with_user None);
  h ← get_handler;
  match nonempty_text (h_uid h) with
  | Some uid => update_conns (WbcmUsers.unassign_connection uid None)
  | None => mret ()
  end.

(** The token: the handler's own, or the one of the Authorization header. *)
Definition bearer_token (h : handler) : option string :=
  match nonempty_text (h_auth_token h) with
  | Some t => Some t
  | None =>
      let header := default "" (rq_authorization rq) in
      if startswith "Bearer " header
      then nonempty_text (Some (strip (of_chars (drop 7 (chars header)))))
      else None
  end.

(** The payload and whether it is an impersonation. *)
Definition verify_token (now : Z) (token : string) : option (payload * bool) :=
  match verify_access_jwt jwt_decode (ac_jwt_secret cfg) now token UserToken with
  | Some p => Some (p, false)
  | None =>
      match verify_access_jwt jwt_decode (ac_jwt_secret cfg) now token ImpersonationToken with
      | Some p => Some (p, true)
      | None => None
      end
  end.

Definition bind_connection (u : user) : prog site () :=
  h ← get_handler;
  match nonempty_text (h_uid h) with
  | Some uid => update_conns (WbcmUsers.assign_user_id uid (str_of_Z (u_id u)))
  | None => mret ()
  end.

(** The users a payload names, [None] when one of them may not be used. *)
Definition resolve_identity (users : list user) (p : payload) (is_impersonation : bool) : option (user * option user) :=
  let found := get_by_public_id (p_sub p) users in
  match (if is_impersonation then
           match p_imp p with
           | Some (JStr imp) =>
               match get_by_public_id imp users with
               | Some i => if active i then Some (Some i) else None
               | None => None
               end
           | _ => None
           end
         else Some None) with
  | None => None
  | Some imp =>
      match found with
      | Some u => if active u then Some (u, imp) else None
      | None => None
      end
  end.

Definition _ensure_current_user : prog site () :=
  _ ← update_handler unidentified;
  h ← get_handler;
  match bearer_token h with
  | None => _clear_current_user
  | Some token =>
      _ ← update_handler (with_token (Some token));
      now ← now_utc;
      match verify_token now token with
      | None => _clear_current_user
      | Some (p, is_impersonation) =>
          if negb (is_uuid (p_sub p)) then _clear_current_user
          else
            _ ← lift_res pool;
            s ← get_st;
            match resolve_identity (s_users s) p is_impersonation with
            | None => _clear_current_user
            | Some (u, imp) =>
                _ ← update_handler (identified u imp (p_exp p));
                bind_connection u
            end
      end
  end.

(** ** API keys *)

(** The abilities of a record, [None] when its model declares none. *)
Definition abilities_of (record : api_key) : option (list string) :=
  if ac_scoped cfg then Some (ak_abilities record) else None.

Definition key_can (h : handler) (ability : string) : bool :=
  if negb (h_key_verified h) then false
  else
    match h_key h with
    | None => true
    | Some record => match abilities_of record with None => true | Some granted => ability_allows (Some granted) ability end
    end.

Definition verify_api_key (api_key_secret stored_hash : string) : bool :=
  secret_matches sha256_hex api_key_secret (ac_pepper cfg) stored_hash.

Definition api_key_refusal (record : api_key) (now : Z) : option string :=
  if is_some (ak_disabled_at record) then Some "API key is disabled"
  else if expired (ak_expires_at record) now then Some "API key has expired"
  else
    match ak_allowed_ips record with
    | Some ips => if ip_allowed client_ip ips then None else Some "API key is not allowed from this address"
    | None => None
    end.

(** A refusal's reason, the record of an accepted key, or [True]. *)
Inductive key_result := Refused (reason : string) | Accepted (record : option api_key).

Definition has_valid_key_db (key : string) : prog site key_result :=
  match split_key key with
  | None => mret (Refused "Invalid API key")
  | Some (prefix, secret) =>
      s ← get_st;
      now ← now_utc;
      match List.find (λ k, String.eqb (ak_prefix k) prefix) (key_rows (s_keys s)) with
      | None => mret (Refused "Invalid API key")
      | Some record =>
          if negb (verify_api_key secret (ak_hash record)) then mret (Refused "Invalid API key")
          else
            match api_key_refusal record now with
            | Some refusal => mret (Refused refusal)
            | None =>
                let used := use_key now record (s_keys s) in
                _ ← set_st (Site (s_handler s) used.2 (s_users s) (s_conns s));
                mret (Accepted (Some used.1))
            end
      end
  end.

(** The static keys of the configuration. *)
Definition has_valid_key (key : string) : key_result :=
  match ac_keys cfg with
  | [] => Refused "API key not configured"
  | candidates => if existsb (String.eqb key) candidates then Accepted None else Refused "Invalid API key"
  end.

Definition has_valid_api_key (custom_api_key : option string) : prog site (option string) :=
  let supplied := match nonempty_text custom_api_key with Some k => Some k | None => rq_api_key rq end in
  match supplied with
  | None => mret (Some "API key is missing")
  | Some key =>
      result ← (if ac_use_db cfg then _ ← lift_res pool; transaction (has_valid_key_db key) else mret (has_valid_key key));
      match result with
      | Refused reason => mret (Some reason)
      | Accepted record => _ ← update_handler (with_key true record); mret None
      end
  end.

Definition load_user_by_id (user_id : Z) : prog site (option user) :=
  _ ← lift_res pool;
  s ← get_st;
  mret (match List.find (λ u, u_id u =? user_id) (s_users s) with
        | Some u => if active u then Some u else None
        | None => None
        end).

Definition key_user_id (h : handler) : option Z :=
  match h_key h with
  | Some record => match ak_user_id record with Some u => if u =? 0 then None else Some u | None => None end
  | None => None
  end.

(** [_api_key_user] is a method a subclass overrides with one that keeps
    state of its own: [on] runs a step of the handler in the subclass's
    store. *)
Section acting_user.
Context {S : Type} (on : ∀ A, prog site A → prog S A) (_api_key_user : Z → prog S (option user)).

Definition _apply_api_key_user : prog S () :=
  h ← on _ get_handler;
  match key_user_id h, nonempty_text (h_auth_token h) with
  | Some user_id, None =>
      u ← _api_key_user user_id;
      match u with
      | None =>
          _ ← on _ _clear_current_user;
          raise (http_error "Application is not authenticated: API key user is not active" 1401 401)
      | Some u => on _ (_ ← update_handler (acting_as u); bind_connection u)
      end
  | _, _ => mret ()
  end.

Definition enforce_api_key (service_name action : string) : prog S () :=
  h ← on _ get_handler;
  let ability := replace_char "-"%char "_" service_name +:+ ":" +:+ action in
  match record ← h_key h; abilities_of record with
  | Some granted =>
      if ability_allows (Some granted) ability then _apply_api_key_user
      else raise (http_error ("API key may not call " +:+ ability) 1403 403)
  | None => _apply_api_key_user
  end.
End acting_user.

(** ** Services *)

(** A service as the bridge sees it: whether it takes requests, and its
    [requires_api_key]. *)
Record service := Service { sv_bridge : bool; sv_requires_api_key : option bool }.

(** [find_service]: the service's name and its flag, or [None]. *)
Definition find_service (services : list (string * service)) (service_name : option string) : option (string * option bool) :=
  match service_name with
  | None => None
  | Some name =>
      let name := replace_char "-"%char "_" name in
      match dict_get name services with
      | Some sv => if sv_bridge sv then Some (name, sv_requires_api_key sv) else None
      | None => None
      end
  end.

(** [requires_api_key is not False] *)
Definition needs_key (flag : option bool) : bool := match flag with Some false => false | _ => true end.
End handlers.
