(* ===== verification/HandlersProps.v ===== *)
(** * What identities and API keys promise *)

From Stdlib Require Import ZArith Lia.
From S2P Require Import Prelude PyStr Json IpAddress ClientIp ApiKeys ApiKeyCommands QueueIface Auth Handlers.
From S2P Require WbcmUsers.

Section identity.
Context (jwt_decode : Z → string → string → jwt_answer) (get_by_public_id : string → list user → option user).
Context (cfg : app_config) (rq : request).

(** Who a handler's token names at a moment: the user, the impersonator and
    the expiry. *)
Definition identity (h : handler) (now : Z) (users : list user) : option (user * option user * Z) :=
  match bearer_token rq h with
  | None => None
  | Some token =>
      match verify_token jwt_decode cfg now token with
      | None => None
      | Some (p, imp) =>
          if is_uuid (p_sub p)
          then match resolve_identity get_by_public_id users p imp with
               | Some (u, i) => Some (u, i, p_exp p)
               | None => None
               end
          else None
      end
  end.

(** The connection of a websocket handler follows its user. *)
Definition rebound (h : handler) (u : option user) (c : WbcmUsers.UserConnections) : WbcmUsers.UserConnections :=
  match nonempty_text (h_uid h), u with
  | None, _ => c
  | Some uid, Some u => WbcmUsers.assign_user_id uid (str_of_Z (u_id u)) c
  | Some uid, None => WbcmUsers.unassign_connection uid None c
  end.

Lemma clear_spec w :
  _clear_current_user w
  = (World (Site (with_user None (s_handler (w_st w))) (s_keys (w_st w)) (s_users (w_st w))
              (rebound (s_handler (w_st w)) None (s_conns (w_st w)))) (w_log w) (w_clock w), Ok ()).
Proof.
  unfold _clear_current_user, update_handler, update_conns, get_handler, rebound. run_prog.
  by destruct (nonempty_text (h_uid (s_handler (w_st w)))).
Qed.

Lemma bind_spec u w :
  bind_connection u w
  = (World (Site (s_handler (w_st w)) (s_keys (w_st w)) (s_users (w_st w))
              (rebound (s_handler (w_st w)) (Some u) (s_conns (w_st w)))) (w_log w) (w_clock w), Ok ()).
Proof.
  unfold bind_connection, update_conns, get_handler, rebound. run_prog.
  destruct w as [[h k us c] l t]. simpl. by destruct (nonempty_text (h_uid h)).
Qed.

Lemma resolve_active users p imp u i :
  resolve_identity get_by_public_id users p imp = Some (u, i) → active u = true ∧ ∀ x, i = Some x → active x = true.
Proof.
  unfold resolve_identity. destruct imp.
  - destruct (p_imp p) as [[]|]; try done. destruct (get_by_public_id s users) as [j|]; [|done].
    destruct (active j) eqn:Hj; [|done]. destruct (get_by_public_id (p_sub p) users) as [v|]; [|done].
    destruct (active v) eqn:Hv; [|done]. intros [= <- <-]. split; [done|by intros x [= <-]].
  - destruct (get_by_public_id (p_sub p) users) as [v|]; [|done]. destruct (active v) eqn:Hv; [|done].
    intros [= <- <-]. by split.
Qed.
End identity.

(** C33: After a token was evaluated the handler acts as exactly the user an
    acceptable token names and as nobody otherwise, with nothing left of the
    previous identity: the cached user, the impersonator and the expiry are
    those of this evaluation, and a websocket's fan-out binding is moved to
    that user or removed. The user - and the impersonator - are neither
    disabled nor deleted and the token is not past its expiry and leeway. When
    the lookup itself fails the error is raised. *)
Theorem ensure_current_user_spec jwt_encode jwt_decode get_by_public_id pool cfg rq (w : world site) :
  jwt_laws jwt_encode jwt_decode →
  let h0 := s_handler (w_st w) in
  let id := identity jwt_decode get_by_public_id cfg rq h0 (w_clock w) (s_users (w_st w)) in
  let '(w', r) := _ensure_current_user jwt_decode get_by_public_id pool cfg rq w in
  let h := s_handler (w_st w') in
  (r = Ok () →
     h_user h = (x ← id; Some x.1.1) ∧ h_impersonator h = (x ← id; x.1.2) ∧ h_token_expires_at h = (x ← id; Some x.2)
     ∧ h_cached_user h = None ∧ s_conns (w_st w') = rebound h0 (h_user h) (s_conns (w_st w))
     ∧ (∀ u, h_user h = Some u → active u = true ∧ (∀ i, h_impersonator h = Some i → active i = true)
          ∧ ∃ exp, h_token_expires_at h = Some exp ∧ w_clock w < (exp + jwt_leeway) * second))
  ∧ (∀ e, r = Err e → pool = Err e)
  ∧ s_keys (w_st w') = s_keys (w_st w) ∧ s_users (w_st w') = s_users (w_st w).
Proof.
  intros HJ h0 id. unfold _ensure_current_user, update_handler, get_handler. run_prog. subst h0 id. unfold identity.
  destruct w as [[h k us c] l t]. simpl. destruct (bearer_token rq h) as [token|] eqn:Hb.
  2: { assert (bearer_token rq (unidentified h) = None) as -> by done. rewrite clear_spec. simpl. split_and!; done. }
  assert (bearer_token rq (unidentified h) = Some token) as -> by done. simpl.
  destruct (verify_token jwt_decode cfg t token) as [[p imp]|] eqn:Hv; [|rewrite clear_spec; simpl; split_and!; done].
  destruct (is_uuid (p_sub p)); [|rewrite clear_spec; simpl; split_and!; done]. simpl.
  destruct pool as [[]|e]; [|simpl; split_and!; [done|by intros e' [= <-]|done|done]].
  destruct (resolve_identity get_by_public_id us p imp) as [[u i]|] eqn:Hr; [|rewrite clear_spec; simpl; split_and!; done].
  rewrite bind_spec. simpl. split_and!; try done. intros _. split_and!; try done.
  intros u' [= <-]. destruct (resolve_active _ _ _ _ _ _ Hr) as [Hu Hi]. split_and!; [done|by intros x ->; apply Hi|].
  exists (p_exp p). split; [done|]. unfold verify_token, verify_access_jwt in Hv.
  destruct (jwt_decode t token (ac_jwt_secret cfg)) as [| |q] eqn:Hd; [done|done|].
  assert (q = p) as -> by (repeat (case_match; simplify_eq); done).
  by eapply (jwt_expires _ _ HJ).
Qed.

Definition w_find (p : string) (us : list user) : option user := List.find (λ u, String.eqb (u_public_id u) p) us.
Definition w_hash (l : list ascii) : string := of_chars (rev l).
Definition w_cfg : app_config := AppConfig true [] "pepper" "s3cret" [] true.
Definition w_users : list user := [User 7 (w_id "1") None None; User 8 (w_id "2") (Some 5) None].
Definition w_token (c : string) : string :=
  create_access_jwt toy_encode "s3cret" (100 * second) (w_id "a") (w_id c) UserToken 900.
Definition w_rq (auth key : option string) : request := Request auth key None None (Some "10.0.0.1").
Definition w_site : world site :=
  World (Site (Handler None (Some (User 9 "x" None None)) None None (Some None) (Some "conn") false None false)
           (KeyTable [] 1) w_users (WbcmUsers.assign_user_id "conn" "9" WbcmUsers.__init__)) [] (500 * second).

Lemma ensure_current_user_spec_witness :
  let run c := _ensure_current_user toy_decode w_find (Ok ()) w_cfg (w_rq (Some ("Bearer " +:+ w_token c)) None) w_site in
  (u_id <$> h_user (s_handler (w_st (run "1").1))) = Some 7
  ∧ h_user (s_handler (w_st (run "2").1)) = None
  ∧ WbcmUsers.user_id_map (s_conns (w_st (run "1").1)) = [("7", ["conn"])]
  ∧ WbcmUsers.user_id_map (s_conns (w_st (run "2").1)) = [].
Proof.
  intros run.
  assert (Hrun : ∀ c, let '(w', r) := run c in (r = Ok () →
     h_user (s_handler (w_st w')) = (x ← identity toy_decode w_find w_cfg (w_rq (Some ("Bearer " +:+ w_token c)) None) (s_handler (w_st w_site)) (w_clock w_site) w_users; Some x.1.1))).
  { intros c. pose proof (ensure_current_user_spec toy_encode toy_decode w_find (Ok ()) w_cfg
      (w_rq (Some ("Bearer " +:+ w_token c)) None) w_site toy_laws) as H. unfold run.
    destruct (_ensure_current_user _ _ _ _ _ _) as [w' r]. destruct H as [H _]. intros Hr. by destruct (H Hr). }
  split_and!.
  - specialize (Hrun "1"). destruct (run "1") as [w1 r1] eqn:E. cbn [fst].
    assert (r1 = Ok ()) as -> by (replace r1 with (run "1").2 by (by rewrite E); vm_compute; reflexivity).
    rewrite (Hrun eq_refl). vm_compute. reflexivity.
  - specialize (Hrun "2"). destruct (run "2") as [w1 r1] eqn:E. cbn [fst].
    assert (r1 = Ok ()) as -> by (replace r1 with (run "2").2 by (by rewrite E); vm_compute; reflexivity).
    rewrite (Hrun eq_refl). vm_compute. reflexivity.
  - vm_compute. reflexivity.
  - vm_compute. reflexivity.
Defined.

(** ** API keys *)

Section keys.
Context (sha256_hex : list ascii → string) (cfg : app_config) (rq : request).

(** The key of a text in the table, when its secret is the right one. *)
Definition matching (key : string) (t : key_table) : option api_key :=
  match split_key key with
  | None => None
  | Some (prefix, secret) =>
      match List.find (λ k, String.eqb (ak_prefix k) prefix) (key_rows t) with
      | Some k => if verify_api_key sha256_hex cfg secret (ak_hash k) then Some k else None
      | None => None
      end
  end.

Definition supplied (custom : option string) : option string :=
  match nonempty_text custom with Some k => Some k | None => rq_api_key rq end.

Lemma valid_key_db key w :
  has_valid_key_db sha256_hex cfg rq key w =
    match matching key (s_keys (w_st w)) with
    | None => (w, Ok (Refused "Invalid API key"))
    | Some k =>
        match api_key_refusal cfg rq k (w_clock w) with
        | Some reason => (w, Ok (Refused reason))
        | None =>
            let used := use_key (w_clock w) k (s_keys (w_st w)) in
            (World (Site (s_handler (w_st w)) used.2 (s_users (w_st w)) (s_conns (w_st w))) (w_log w) (w_clock w),
             Ok (Accepted (Some used.1)))
        end
    end.
Proof.
  unfold has_valid_key_db, matching. destruct (split_key key) as [[prefix secret]|]; [|done]. run_prog.
  destruct (List.find _ _) as [k|]; [|done]. destruct (verify_api_key _ _ _ _); [|done]. simpl.
  by destruct (api_key_refusal _ _ _ _).
Qed.

Lemma valid_api_key_db custom w :
  ac_use_db cfg = true →
  has_valid_api_key sha256_hex (Ok ()) cfg rq custom w =
    match supplied custom with
    | None => (w, Ok (Some "API key is missing"))
    | Some key =>
        match matching key (s_keys (w_st w)) with
        | None => (w, Ok (Some "Invalid API key"))
        | Some k =>
            match api_key_refusal cfg rq k (w_clock w) with
            | Some reason => (w, Ok (Some reason))
            | None =>
                (World (Site (with_key true (Some (used_at (w_clock w) k)) (s_handler (w_st w)))
                          (map_rows (λ r, ak_id r =? ak_id k) (used_at (w_clock w)) (s_keys (w_st w)))
                          (s_users (w_st w)) (s_conns (w_st w))) (w_log w) (w_clock w), Ok None)
            end
        end
    end.
Proof.
  intros Hdb. unfold has_valid_api_key, supplied. rewrite Hdb.
  destruct (nonempty_text custom) as [key|]; [|destruct (rq_api_key rq) as [key|]; [|done]];
    unfold mbind, prog_bind, lift_res, transaction; rewrite valid_key_db;
    (destruct (matching key _) as [k|]; [|done]); by destruct (api_key_refusal _ _ _ _).
Qed.

Lemma refusal_spec k now :
  api_key_refusal cfg rq k now = None ↔
    ak_disabled_at k = None ∧ (∀ e, ak_expires_at k = Some e → now < e)
    ∧ (∀ ips, ak_allowed_ips k = Some ips → ip_allowed (client_ip cfg rq) ips = true).
Proof.
  unfold api_key_refusal. destruct (ak_disabled_at k); simpl; [split; [done|by intros [? _]]|].
  unfold expired. destruct (ak_expires_at k) as [e|].
  - destruct (Z.leb_spec e now) as [Hle|Hlt]; [split; [done|]; intros (_ & He & _); specialize (He e eq_refl); lia|].
    destruct (ak_allowed_ips k) as [ips|]; [|split; [intros _; split_and!; [done|by intros e' [= <-]|done]|done]].
    destruct (ip_allowed _ ips) eqn:Hip; split; try done.
    + intros _. split_and!; [done|by intros e' [= <-]|by intros ips' [= <-]].
    + intros (_ & _ & Hall). specialize (Hall ips eq_refl). congruence.
  - destruct (ak_allowed_ips k) as [ips|]; [|split; [intros _; split_and!; done|done]].
    destruct (ip_allowed _ ips) eqn:Hip; split; try done.
    + intros _. split_and!; [done|done|by intros ips' [= <-]].
    + intros (_ & _ & Hall). specialize (Hall ips eq_refl). congruence.
Qed.
End keys.

(** C10: With keys in the database, a key is accepted exactly when its prefix
    finds a record whose stored hash is that of the peppered secret and the
    record is enabled, not expired and open to the client's address; it is
    then counted as used once and becomes the handler's key. A key whose
    secret is wrong gets the same answer whether its prefix exists or not and
    whatever state that record is in, and nothing changes on any refusal. *)
Theorem api_key_accepted sha256_hex cfg rq custom key (w : world site) :
  ac_use_db cfg = true → supplied rq custom = Some key →
  let '(w', r) := has_valid_api_key sha256_hex (Ok ()) cfg rq custom w in
  (r = Ok None ↔ ∃ k, matching sha256_hex cfg key (s_keys (w_st w)) = Some k ∧ ak_disabled_at k = None
      ∧ (∀ e, ak_expires_at k = Some e → w_clock w < e)
      ∧ (∀ ips, ak_allowed_ips k = Some ips → ip_allowed (client_ip cfg rq) ips = true))
  ∧ (matching sha256_hex cfg key (s_keys (w_st w)) = None → r = Ok (Some "Invalid API key"))
  ∧ (r ≠ Ok None → w' = w)
  ∧ (r = Ok None → ∃ k, matching sha256_hex cfg key (s_keys (w_st w)) = Some k
      ∧ h_key (s_handler (w_st w')) = Some (used_at (w_clock w) k) ∧ h_key_verified (s_handler (w_st w')) = true
      ∧ s_keys (w_st w') = map_rows (λ r, ak_id r =? ak_id k) (used_at (w_clock w)) (s_keys (w_st w))).
Proof.
  intros Hdb Hs. rewrite valid_api_key_db by done. rewrite Hs.
  destruct (matching sha256_hex cfg key (s_keys (w_st w))) as [k|] eqn:Hm.
  2: { split_and!; try done. split; [done|]. by intros (k & ? & _). }
  destruct (api_key_refusal cfg rq k (w_clock w)) as [reason|] eqn:Hr.
  - split_and!; try done. split; [done|]. intros (k' & [= <-] & Hk). apply refusal_spec in Hk. congruence.
  - split_and!; try done.
    + split; [|done]. intros _. exists k. split; [done|]. by apply refusal_spec.
    + intros _. by exists k.
Qed.

(** ** From the command line to the bridge *)

Section created.
Context (str_when : Z → string) (sha256_hex : list ascii → string) (cidr : string → option network) (fits : api_key → bool).

Definition new_row (t : key_table) (now : Z) (prefix secret pepper name : string) (abilities : list string)
    (ips : option (list allowed_entry)) (expires_at user_id : option Z) : api_key :=
  ApiKey (key_next_id t) name prefix (hash_secret sha256_hex secret pepper) abilities ips expires_at user_id None 0 now None.

Definition prefix_free (prefix : string) (t : key_table) : Prop :=
  Forall (λ k, String.eqb (ak_prefix k) prefix = false) (key_rows t).

Lemma prefix_free_existsb prefix t : prefix_free prefix t → existsb (λ k, String.eqb (ak_prefix k) prefix) (key_rows t) = false.
Proof. unfold prefix_free. induction 1 as [|k l Hk Hl IH]; simpl; [done|]. by rewrite Hk. Qed.

Lemma bind_out {S A} line (k : () → prog S A) w :
  (out line ≫= k) w = k () (World (w_st w) (w_log w ++ [line]) (w_clock w)).
Proof. done. Qed.

Lemma describe_spec w row :
  ∃ lines, _describe str_when row w = (World (w_st w) (w_log w ++ lines) (w_clock w), Ok ()).
Proof.
  unfold _describe. rewrite !bind_out. unfold out. cbn [w_st w_log w_clock]. eexists. rewrite <- !app_assoc. reflexivity.
Qed.

Lemma create_spec tokens pepper name abilities allowed_ips ips expires_at user_id w :
  let prefix := PREFIX_MARKER +:+ tokens.1 in
  let row := new_row (w_st w) (w_clock w) prefix tokens.2 pepper name abilities ips expires_at user_id in
  cast_opt cidr allowed_ips = Ok ips → prefix_free prefix (w_st w) → fits row = true →
  ∃ lines, cmd_create str_when sha256_hex cidr fits (Ok ()) tokens pepper name abilities allowed_ips expires_at user_id w
    = (World (KeyTable (key_rows (w_st w) ++ [row]) (key_next_id (w_st w) + 1))
         (w_log w ++ lines ++ [prefix +:+ "." +:+ tokens.2]) (w_clock w), Ok 0).
Proof.
  intros prefix row Hips Hfree Hfits.
  assert (Hins : try_insert sha256_hex cidr fits (Ok ()) prefix tokens.2 pepper name abilities allowed_ips expires_at user_id w
    = (World (KeyTable (key_rows (w_st w) ++ [row]) (key_next_id (w_st w) + 1)) (w_log w) (w_clock w), Ok (Some row))).
  { unfold try_insert, insert_key. run_prog. rewrite Hips. fold (new_row (w_st w) (w_clock w) prefix tokens.2 pepper name abilities ips expires_at user_id).
    fold row. rewrite Hfits. simpl. by rewrite prefix_free_existsb. }
  unfold cmd_create, generate_key. fold prefix. erewrite bind_ok by exact Hins.
  destruct (describe_spec (World (KeyTable (key_rows (w_st w) ++ [row]) (key_next_id (w_st w) + 1))
    (w_log w ++ ["Created API key " +:+ str_of_Z (ak_id row) +:+ " " +:+ DQ +:+ name +:+ DQ +:+ " (prefix " +:+ prefix +:+ ")"])
    (w_clock w)) row) as [lines Hlines].
  rewrite bind_out. erewrite bind_ok by exact Hlines. rewrite !bind_out. unfold out, mret, prog_ret. cbn [w_st w_log w_clock].
  exists (["Created API key " +:+ str_of_Z (ak_id row) +:+ " " +:+ DQ +:+ name +:+ DQ +:+ " (prefix " +:+ prefix +:+ ")"]
          ++ lines ++ [""; "The key is shown once and cannot be recovered. Store it now:"]).
  rewrite <- !app_assoc. done.
Qed.

Lemma find_app {A} (f : A → bool) l1 l2 : existsb f l1 = false → List.find f (l1 ++ l2) = List.find f l2.
Proof. induction l1 as [|a l1 IH]; simpl; [done|]. destruct (f a); [done|]. apply IH. Qed.

Lemma created_matches cfg tokens t now name abilities ips expires_at user_id :
  let prefix := PREFIX_MARKER +:+ tokens.1 in
  let row := new_row t now prefix tokens.2 (ac_pepper cfg) name abilities ips expires_at user_id in
  has_char "."%char tokens.1 = false → tokens.2 ≠ "" → prefix_free prefix t →
  matching sha256_hex cfg (prefix +:+ "." +:+ tokens.2) (KeyTable (key_rows t ++ [row]) (key_next_id t + 1)) = Some row.
Proof.
  intros prefix row Hdot Hne Hfree.
  assert (Hsplit : split_key (prefix +:+ "." +:+ tokens.2) = Some (prefix, tokens.2)).
  { unfold split_key. assert (Hp : has_char "."%char prefix = false) by exact Hdot.
    pose proof (partition_join "."%char prefix tokens.2 Hp) as Hj. change (String "." tokens.2) with ("." +:+ tokens.2) in Hj.
    rewrite Hj. cbn [negb orb]. unfold is_empty. rewrite (proj2 (String.eqb_neq tokens.2 "") Hne). done. }
  unfold matching. rewrite Hsplit. cbn [key_rows]. rewrite find_app by (by apply prefix_free_existsb).
  cbn [List.find]. change (ak_prefix row) with prefix. rewrite String.eqb_refl.
  unfold verify_api_key, secret_matches. change (ak_hash row) with (hash_secret sha256_hex tokens.2 (ac_pepper cfg)).
  by rewrite String.eqb_refl.
Qed.

Lemma find_map_rows prefix p f t :
  (∀ k, ak_prefix (f k) = ak_prefix k) →
  List.find (λ k, String.eqb (ak_prefix k) prefix) (key_rows (map_rows p f t))
  = (λ k, if p k then f k else k) <$> List.find (λ k, String.eqb (ak_prefix k) prefix) (key_rows t).
Proof.
  intros Hf. unfold map_rows. cbn [key_rows]. induction (key_rows t) as [|k l IH]; [done|].
  rewrite fmap_cons. cbn [List.find]. assert (ak_prefix (if p k then f k else k) = ak_prefix k) as -> by (destruct (p k); auto).
  destruct (String.eqb (ak_prefix k) prefix); [done|exact IH].
Qed.

(** A reference that is a prefix. *)
Lemma where_prefix tok k :
  any_char is_space tok = false → has_char "."%char tok = false →
  _where_ref (PREFIX_MARKER +:+ tok) k = String.eqb (ak_prefix k) (PREFIX_MARKER +:+ tok).
Proof.
  intros Hs Hd. unfold _where_ref. rewrite strip_none by exact Hs.
  assert (Hp : partition "."%char (PREFIX_MARKER +:+ tok) = (PREFIX_MARKER +:+ tok, false, "")).
  { unfold partition. destruct (partition_chars "."%char (chars (PREFIX_MARKER +:+ tok))) as [[p q]|] eqn:E; [|done].
    apply partition_some in E as [E _]. assert (H : has_char "."%char (PREFIX_MARKER +:+ tok) = false) by exact Hd.
    unfold has_char in H. rewrite E, existsb_app in H. simpl in H. by rewrite orb_true_r in H. }
  by rewrite Hp.
Qed.

Lemma revoke_spec tok row w :
  any_char is_space tok = false → has_char "."%char tok = false →
  List.find (λ k, String.eqb (ak_prefix k) (PREFIX_MARKER +:+ tok)) (key_rows (w_st w)) = Some row → ak_disabled_at row = None →
  ∃ line, cmd_revoke str_when (Ok ()) (PREFIX_MARKER +:+ tok) w
    = (World (map_rows (λ k, ak_id k =? ak_id row) (disable (w_clock w)) (w_st w)) (w_log w ++ [line]) (w_clock w), Ok 0).
Proof.
  intros Hs Hd Hf Hen. assert (Hsel : List.find (_where_ref (PREFIX_MARKER +:+ tok)) (key_rows (w_st w)) = Some row).
  { rewrite <- Hf. clear -Hs Hd. induction (key_rows (w_st w)) as [|k l IH]; [done|]. cbn [List.find].
    rewrite where_prefix by done. by rewrite IH. }
  eexists. unfold cmd_revoke, revoke_row, select_ref, transaction, try_except, mbind, prog_bind, lift_res, get_st, mret, prog_ret.
  rewrite Hsel, Hen. unfold now_utc, stmt, out. reflexivity.
Qed.
End created.

(** A key printed by [create] opens the bridge: over the table it left,
    the printed text is accepted - with the abilities and the user it was
    created with - exactly while its expiry has not come and the address is
    one it was limited to. Revoking it by its prefix makes the same text be
    refused as disabled from then on, at any time and from anywhere. *)
Theorem created_key_unlocks str_when sha256_hex cidr fits tokens name abilities allowed_ips ips expires_at user_id
    (w : world key_table) cfg rq custom :
  let prefix := PREFIX_MARKER +:+ tokens.1 in
  let key := prefix +:+ "." +:+ tokens.2 in
  cast_opt cidr allowed_ips = Ok ips → prefix_free prefix (w_st w) →
  fits (new_row sha256_hex (w_st w) (w_clock w) prefix tokens.2 (ac_pepper cfg) name abilities ips expires_at user_id) = true →
  has_char "."%char tokens.1 = false → any_char is_space tokens.1 = false → tokens.2 ≠ "" →
  ac_use_db cfg = true → supplied rq custom = Some key →
  let '(w1, code) := cmd_create str_when sha256_hex cidr fits (Ok ()) tokens (ac_pepper cfg) name abilities allowed_ips
                       expires_at user_id w in
  code = Ok 0 ∧ last (w_log w1) = Some key
  ∧ (∀ ws, s_keys (w_st ws) = w_st w1 →
      let '(ws', r) := has_valid_api_key sha256_hex (Ok ()) cfg rq custom ws in
      (r = Ok None ↔ (∀ e, expires_at = Some e → w_clock ws < e)
                     ∧ (∀ l, ips = Some l → ip_allowed (client_ip cfg rq) l = true))
      ∧ (r = Ok None → ∃ k, h_key (s_handler (w_st ws')) = Some k ∧ ak_abilities k = abilities ∧ ak_user_id k = user_id))
  ∧ (∀ w2 ws, w_st w2 = w_st w1 →
      let '(w3, code) := cmd_revoke str_when (Ok ()) prefix w2 in
      code = Ok 0 ∧ (s_keys (w_st ws) = w_st w3 →
        has_valid_api_key sha256_hex (Ok ()) cfg rq custom ws = (ws, Ok (Some "API key is disabled")))).
Proof.
  intros prefix key Hips Hfree Hfits Hdot Hsp Hne Hdb Hsup.
  destruct (create_spec str_when sha256_hex cidr fits tokens (ac_pepper cfg) name abilities allowed_ips ips expires_at user_id w
              Hips Hfree Hfits) as [lines Hc]. rewrite Hc.
  pose proof (created_matches sha256_hex cfg tokens (w_st w) (w_clock w) name abilities ips expires_at user_id Hdot Hne Hfree) as Hm.
  cbv zeta in Hm. fold prefix in Hm. fold key in Hm. cbn [w_st w_log w_clock]. fold prefix. fold key.
  set (row := new_row sha256_hex (w_st w) (w_clock w) prefix tokens.2 (ac_pepper cfg) name abilities ips expires_at user_id) in *.
  set (t1 := KeyTable (key_rows (w_st w) ++ [row]) (key_next_id (w_st w) + 1)) in *. split_and!.
  - done.
  - by rewrite app_assoc, last_snoc.
  - intros ws Hws. rewrite valid_api_key_db, Hsup, Hws, Hm by done. pose proof (refusal_spec cfg rq row (w_clock ws)) as Href.
    destruct (api_key_refusal cfg rq row (w_clock ws)) as [reason|].
    + split; [|done]. split; [done|]. intros Hok. assert (H : Some reason = None) by (by apply Href). done.
    + split; [split; [intros _; by apply Href|done]|]. intros _. by eexists.
  - intros w2 ws Hw2.
    assert (Hfind : List.find (λ k, String.eqb (ak_prefix k) prefix) (key_rows t1) = Some row).
    { unfold t1. cbn [key_rows]. rewrite find_app by (by apply prefix_free_existsb). cbn [List.find].
      change (ak_prefix row) with prefix. by rewrite String.eqb_refl. }
    rewrite <- Hw2 in Hfind.
    destruct (revoke_spec str_when tokens.1 row w2 Hsp Hdot Hfind eq_refl) as [line Hr]. fold prefix in Hr. rewrite Hr.
    split; [done|]. cbn [w_st]. intros Hws. rewrite valid_api_key_db, Hsup by done.
    assert (Hm2 : matching sha256_hex cfg key (s_keys (w_st ws)) = Some (disable (w_clock w2) row)).
    { revert Hm. unfold matching. destruct (split_key key) as [[p s]|] eqn:Hsk; [|done]. rewrite Hws, Hw2.
      rewrite find_map_rows by done. destruct (List.find _ (key_rows t1)) as [k|]; [|done].
      destruct (verify_api_key sha256_hex cfg s (ak_hash k)) eqn:Hv; [|done]. intros [= ->].
      cbn [fmap option_fmap option_map]. rewrite Z.eqb_refl.
      change (ak_hash (disable (w_clock w2) row)) with (ak_hash row). by rewrite Hv. }
    rewrite Hm2. done.
Qed.

Definition w_keys : world key_table := World (KeyTable [] 1) [] (100 * second).
Definition w_cidr (s : string) : option network := ip_network s true.
Definition w_ips : list allowed_entry := [IpNetwork (Network false 167772160 8)].
Definition w_create : world key_table * res Z :=
  cmd_create str_of_Z w_hash w_cidr (λ _, true) (Ok ()) ("00ff", "S3CR3T") "pepper" "robot" ["reports:*"] (Some ["10.0.0.0/8"])
    (Some (900 * second)) (Some 7) w_keys.
Definition w_revoked : key_table := w_st (cmd_revoke str_of_Z (Ok ()) "ak00ff" w_create.1).1.
Definition w_bridge (t : key_table) : world site := World (Site new_handler t w_users WbcmUsers.__init__) [] (500 * second).

Lemma created_key_unlocks_witness :
  (has_valid_api_key w_hash (Ok ()) w_cfg (w_rq None (Some "ak00ff.S3CR3T")) None (w_bridge (w_st w_create.1))).2 = Ok None
  ∧ (has_valid_api_key w_hash (Ok ()) w_cfg (w_rq None (Some "ak00ff.S3CR3T")) None (w_bridge w_revoked)).2
    = Ok (Some "API key is disabled").
Proof.
  assert (Hcast : cast_opt w_cidr (Some ["10.0.0.0/8"]) = Ok (Some w_ips)) by (vm_compute; reflexivity).
  assert (Hfree : prefix_free (PREFIX_MARKER +:+ "00ff") (w_st w_keys)) by constructor.
  pose proof (created_key_unlocks str_of_Z w_hash w_cidr (λ _, true) ("00ff", "S3CR3T") "robot" ["reports:*"] (Some ["10.0.0.0/8"])
    (Some w_ips) (Some (900 * second)) (Some 7) w_keys w_cfg (w_rq None (Some "ak00ff.S3CR3T")) None Hcast Hfree eq_refl eq_refl
    eq_refl ltac:(discriminate) eq_refl eq_refl) as H.
  change (ac_pepper w_cfg) with "pepper" in H. fold w_create in H. split.
  - destruct w_create as [w1 code]. destruct H as (_ & _ & Hopen & _). cbn [fst].
    specialize (Hopen (w_bridge (w_st w1)) eq_refl).
    destruct (has_valid_api_key _ _ _ _ _ _) as [ws r]. destruct Hopen as [Hiff _]. apply Hiff. split.
    + intros e [= <-]. vm_compute. reflexivity.
    + intros l [= <-]. vm_compute. reflexivity.
  - unfold w_revoked. destruct w_create as [w1 code]. destruct H as (_ & _ & _ & Hrev). cbn [fst].
    specialize (Hrev w1 (w_bridge (w_st (cmd_revoke str_of_Z (Ok ()) "ak00ff" w1).1)) eq_refl).
    change (PREFIX_MARKER +:+ ("00ff", "S3CR3T").1) with "ak00ff" in Hrev.
    destruct (cmd_revoke str_of_Z (Ok ()) "ak00ff" w1) as [w3 c]. destruct Hrev as [_ Hrev]. by rewrite Hrev.
Defined.

Lemma api_key_accepted_witness :
  (has_valid_api_key w_hash (Ok ()) w_cfg (w_rq None (Some "ak00ff.S3CR3T")) None (w_bridge (w_st w_create.1))).2 = Ok None
  ∧ (has_valid_api_key w_hash (Ok ()) w_cfg (w_rq None (Some "ak00ff.wrong")) None (w_bridge w_revoked)).2
    = Ok (Some "Invalid API key").
Proof.
  split.
  - pose proof (api_key_accepted w_hash w_cfg (w_rq None (Some "ak00ff.S3CR3T")) None "ak00ff.S3CR3T"
      (w_bridge (w_st w_create.1)) eq_refl eq_refl) as H.
    destruct (has_valid_api_key _ _ _ _ _ _) as [ws r]. destruct H as (Hiff & _). apply Hiff.
    assert (Hm : ∃ k, matching w_hash w_cfg "ak00ff.S3CR3T" (s_keys (w_st (w_bridge (w_st w_create.1)))) = Some k
              ∧ ak_disabled_at k = None ∧ ak_expires_at k = Some (900 * second) ∧ ak_allowed_ips k = Some w_ips)
      by (eexists; vm_compute; repeat split; reflexivity).
    destruct Hm as (k & Hk & Hd & He & Hl). exists k. rewrite Hd, He, Hl. split_and!; [exact Hk|done| |].
    + intros e [= <-]. vm_compute. reflexivity.
    + intros l [= <-]. vm_compute. reflexivity.
  - pose proof (api_key_accepted w_hash w_cfg (w_rq None (Some "ak00ff.wrong")) None "ak00ff.wrong" (w_bridge w_revoked) eq_refl eq_refl) as H.
    destruct (has_valid_api_key _ _ _ _ _ _) as [ws r]. destruct H as (_ & Hinv & _). apply Hinv. vm_compute. reflexivity.
Defined.
