(* ===== verification/Bridge.v ===== *)
(** * The HTTP bridge

    [bridge/api.py] with the response writing of [request_handler/handlers.py]:
    one request from the service's name to the response and the lines logged
    about it. The service's own code ([bridge_request]), the text of a value
    that is not one ([py_str]), the JSON body's reader and [encode], the JSON
    writer of responses, are parameters. *)

From Stdlib Require Import ZArith Lia.
From S2P Require Import Prelude PyStr Json IpAddress ClientIp ApiKeys QueueIface Auth Redact RequestLog Handlers.

(** The response under construction: its status and the values whose JSON
    texts were written to its body. *)
Record response := Response { rs_status : Z; rs_written : list json }.

Record exchange := Exchange { ex_site : site; ex_response : response }.

Definition on_site {A} (m : prog site A) : prog exchange A := λ w,
  let '(w', r) := m (World (ex_site (w_st w)) (w_log w) (w_clock w)) in
  (World (Exchange (w_st w') (ex_response (w_st w))) (w_log w') (w_clock w'), r).

Definition set_status (n : Z) : prog exchange () :=
  stmt (λ s, (Exchange (ex_site s) (Response n (rs_written (ex_response s))), ())).

Definition put_chunk (v : json) : prog exchange () :=
  stmt (λ s, (Exchange (ex_site s) (Response (rs_status (ex_response s)) (rs_written (ex_response s) ++ [v])), ())).

(** [HTTPException.to_dict] *)
Definition error_dict (e : exn) : json :=
  JObj ([("msg", JStr (exn_msg e)); ("code", JInt (http_code e))]
        ++ match exn_description e with Some d => if is_empty d then [] else [("description", JStr d)] | None => [] end).

Section writing.
Context (encode : json → res string).

(** [write] of a value, wrapped in [data]. *)
Definition write (chunk : json) : prog exchange () :=
  _ ← lift_res (encode (JObj [("data", chunk)])); put_chunk (JObj [("data", chunk)]).

(** [error(e)] for an [HTTPException] and [error(msg, http_status=...)]. *)
Definition error_http (e : exn) : prog exchange () :=
  _ ← set_status (http_status e); write (JObj [("error", error_dict e)]).
Definition error_text (msg : string) (status : Z) : prog exchange () :=
  _ ← (if status =? 0 then mret () else set_status status);
  write (JObj [("error", JObj [("code", JInt (-1)); ("msg", JStr msg)])]).
End writing.

Definition find_key {A} (k : string) (d : list (string * A)) : option A := dict_get k d.

(** The two values an element of a list gives [dict(...)], if it is a pair;
    a text of two characters is one whose key is never looked up. *)
Definition pair_of (v : json) : option (list (string * json)) :=
  match v with
  | JList [JStr k; x] => Some [(k, x)]
  | JList [JList _; _] | JList [JObj _; _] => None
  | JList [_; _] => Some []
  | JObj [(k1, _); (k2, _)] => Some [(k1, JStr k2)]
  | JStr s => if py_len s =? 2 then Some [] else None
  | _ => None
  end.

(** [dict(json_args or {})], as far as its text keys go. *)
Definition dict_from (v : option json) : res (list (string * json)) :=
  match v with
  | None => Ok []
  | Some v =>
      if negb (truthy v) then Ok []
      else
        match v with
        | JObj d => Ok d
        | JList l =>
            match mapM pair_of l with
            | Some pairs => Ok (dict_of (concat pairs))
            | None => Err (raise_exn TypeError "cannot convert dictionary update sequence element")
            end
        | _ => Err (raise_exn TypeError "object is not iterable")
        end
  end.

(** [get_request_data]: a named action beats the body's and the query's. *)
Definition get_request_data (json_args : option json) (query_action force_action : option string) : res (list (string * json)) :=
  d ← dict_from json_args;
  let action :=
    match nonempty_text force_action with
    | Some a => Some (JStr a)
    | None =>
        match dict_get "action" d with
        | Some a => if truthy a then Some a else JStr <$> nonempty_text query_action
        | None => JStr <$> nonempty_text query_action
        end
    end in
  Ok (match action with Some a => dict_set "action" a d | None => d end).

Definition internal_error : string :=
  "Found an error while processing your request. Please try again later. Send us a message if the problem persists.".

Section api.
Context (sha256_hex : list ascii → string) (pool : res ()) (cfg : app_config) (rq : request).
Context (services : list (string * service)) (py_str : json → string) (encode : json → res string) (lg : request_logger).
Context (bridge_request : string → json → json → prog exchange (option json)).
Context (json_args : option json) (query_action : option string).

Definition text_of (v : json) : string := match v with JStr s => s | v => py_str v end.

Definition check_key : prog exchange () :=
  status ← on_site (has_valid_api_key sha256_hex pool cfg rq None);
  match status with
  | Some reason => raise (http_error ("Application is not authenticated: " +:+ reason) 1401 401)
  | None => mret ()
  end.

Definition run_action (name service_name : string) (flag : option bool) (force_action : option string) : prog exchange () :=
  request_data ← lift_res (get_request_data json_args query_action force_action);
  match dict_get "action" request_data with
  | Some action =>
      if negb (truthy action) then raise (http_error "Missing action" 1005 400)
      else
        _ ← (if needs_key flag then enforce_api_key cfg (@on_site) (λ id, on_site (load_user_by_id pool id)) service_name (text_of action) else mret ());
        return_data ← bridge_request name action (default (JObj []) (dict_get "data" request_data));
        match return_data with
        | Some v => _ ← write encode v; log_answer lg json_args (Some v)
        | None => _ ← set_status 204; log_answer lg json_args None
        end
  | None => raise (http_error "Missing action" 1005 400)
  end.

Definition get_v1 (service_name action : option string) : prog exchange () :=
  match find_service services service_name with
  | None =>
      raise (http_error ("Could not find service by provided name: " +:+ py_take 100 (default "None" service_name)) 1002 400)
  | Some (name, flag) =>
      _ ← (if needs_key flag then check_key else mret ());
      run_action name (default "None" service_name) flag action
  end.

Definition get (service_name action : option string) : prog exchange () :=
  try_finally
    (try_except (get_v1 service_name action) is_exception
       (λ e, _ ← log_error lg json_args e;
             if is_class HTTPException e then error_http encode e else error_text encode internal_error 500))
    (on_site (update_handler (with_token None))).

Definition post (service_name action : option string) : prog exchange () := get service_name action.

Definition options : prog exchange () := set_status 204.
End api.
