(* ===== verification/BridgeProps.v ===== *)
(** * What the HTTP bridge promises *)

From Stdlib Require Import ZArith Lia.
From S2P Require Import Prelude PyStr Json IpAddress ClientIp ApiKeys QueueIface Auth Redact RedactProps RequestLog Handlers HandlersProps Bridge.
From S2P Require WbcmUsers.

Section bridge.
Context (sha256_hex : list ascii → string) (pool : res ()) (cfg : app_config) (rq : request).
Context (services : list (string * service)) (py_str : json → string) (encode : json → res string) (lg : request_logger).
Context (json_args : option json) (query_action : option string).

(** The action of the request, when it names one. *)
Definition request_action (force_action : option string) : option json :=
  match get_request_data json_args query_action force_action with
  | Ok d => match dict_get "action" d with Some a => if truthy a then Some a else None | None => None end
  | Err _ => None
  end.

(** The key of this handler may call [action] on [service_name]: a record of
    a model that declares abilities grants it. *)
Definition key_covers (h : handler) (service_name : string) (action : json) : Prop :=
  ∀ k granted, h_key h = Some k → abilities_of cfg k = Some granted →
    ability_allows (Some granted) (dash_free service_name +:+ ":" +:+ text_of py_str action) = true.

Lemma on_site_ok {A} (m : prog site A) (w w' : world exchange) a :
  on_site m w = (w', Ok a) → ∃ ws, m (World (ex_site (w_st w)) (w_log w) (w_clock w)) = (ws, Ok a) ∧ w_st ws = ex_site (w_st w').
Proof.
  unfold on_site. destruct (m _) as [ws r] eqn:E. intros [= <- ->]. by exists ws.
Qed.

Lemma enforce_ok load service_name action (w w' : world exchange) :
  enforce_api_key cfg (@on_site) load service_name (text_of py_str action) w = (w', Ok ()) →
  key_covers (s_handler (ex_site (w_st w))) service_name action.
Proof.
  unfold enforce_api_key, get_handler. rewrite (bind_ok _ _ w w (s_handler (ex_site (w_st w)))) by (by destruct w as [[] ? ?]). intros He k granted Hk Hg.
  assert (Hr : (record ← h_key (s_handler (ex_site (w_st w))); abilities_of cfg record) = Some granted) by (by rewrite Hk).
  rewrite Hr in He. unfold dash_free. destruct (ability_allows _ _); [done|]. by simpl in He.
Qed.

Lemma run_action_cases name service_name flag force_action (br1 br2 : string → json → json → prog exchange (option json)) w :
  run_action pool cfg py_str encode lg br1 json_args query_action name service_name flag force_action w
  ≠ run_action pool cfg py_str encode lg br2 json_args query_action name service_name flag force_action w →
  ∃ action, request_action force_action = Some action
    ∧ (needs_key flag = true → key_covers (s_handler (ex_site (w_st w))) service_name action).
Proof.
  unfold run_action, request_action. destruct (get_request_data _ _ _) as [d|e].
  2: { run_prog. done. }
  assert (Hd : lift_res (Ok d) w = (w, Ok d)) by done. rewrite !(bind_ok _ _ _ _ _ Hd).
  destruct (dict_get "action" d) as [a|]; [|done]. destruct (truthy a); [|done]. simpl. intros Hne. exists a. split; [done|]. intros Hk. rewrite Hk in Hne.
  destruct (enforce_api_key cfg (@on_site) (λ id, on_site (load_user_by_id pool id)) service_name (text_of py_str a) w) as [w1 [[]|e]] eqn:E.
  - by apply enforce_ok in E.
  - exfalso. apply Hne. by rewrite !(bind_err _ _ _ _ _ E).
Qed.
End bridge.

(** C11: A service's code can only have an influence on the exchange when the
    service exists, the request names an action and - unless the service
    opted out of keys - the request's API key was accepted and, if its model
    declares abilities, those of its record cover exactly that action of that
    service. A static key and a record whose model declares none are unscoped:
    for them acceptance is all that is asked. In every other case the exchange
    is the same whatever the service would do. *)
Theorem service_guarded sha256_hex pool cfg rq services py_str encode lg json_args query_action service_name action
    (br1 br2 : string → json → json → prog exchange (option json)) (w : world exchange) :
  let run br := get sha256_hex pool cfg rq services py_str encode lg br json_args query_action service_name action w in
  run br1 ≠ run br2 →
  ∃ name flag act, find_service services service_name = Some (name, flag)
    ∧ request_action json_args query_action action = Some act
    ∧ (needs_key flag = true →
        ∃ ws, has_valid_api_key sha256_hex pool cfg rq None (World (ex_site (w_st w)) (w_log w) (w_clock w)) = (ws, Ok None)
          ∧ key_covers cfg py_str (s_handler (w_st ws)) (default "None" service_name) act).
Proof.
  intros run Hne.
  assert (Hv1 : get_v1 sha256_hex pool cfg rq services py_str encode lg br1 json_args query_action service_name action w
                ≠ get_v1 sha256_hex pool cfg rq services py_str encode lg br2 json_args query_action service_name action w).
  { intros Heq. apply Hne. unfold run, get, try_finally, try_except. by rewrite Heq. }
  unfold get_v1 in Hv1. destruct (find_service services service_name) as [[name flag]|]; [|done].
  destruct (needs_key flag) eqn:Hk.
  - destruct (on_site (has_valid_api_key sha256_hex pool cfg rq None) w) as [w1 [[reason|]|e]] eqn:E.
    + exfalso. apply Hv1. unfold check_key.
      by rewrite !(bind_err _ _ w w1 _ (bind_ok _ _ _ _ _ E)).
    + pose proof (on_site_ok _ _ _ _ E) as (ws & Hs & Hst).
      assert (Hc : check_key sha256_hex pool cfg rq w = (w1, Ok ())) by (unfold check_key; by rewrite (bind_ok _ _ _ _ _ E)).
      rewrite !(bind_ok _ _ _ _ _ Hc) in Hv1.
      destruct (run_action_cases _ _ _ _ _ _ _ _ _ _ _ _ _ _ Hv1) as (act & Ha & Hcov).
      exists name, flag, act. split_and!; [done|done|]. intros _. exists ws. split; [done|]. rewrite Hst. by apply Hcov.
    + exfalso. apply Hv1. unfold check_key. by rewrite !(bind_err _ _ w w1 e (bind_err _ _ _ _ _ E)).
  - destruct (run_action_cases pool cfg py_str encode lg json_args query_action name (default "None" service_name) flag action br1 br2 w Hv1)
      as (act & Ha & _).
    exists name, flag, act. split_and!; [done|done|]. by rewrite Hk.
Qed.

Definition w_services : list (string * service) :=
  [("reports", Service true None); ("open", Service true (Some false)); ("mute", Service false None)].
Definition w_bridge_request (n : Z) (name : string) (action data : json) : prog exchange (option json) := mret (Some (JInt n)).
Definition w_exchange (t : key_table) : world exchange :=
  World (Exchange (w_st (w_bridge t)) (Response 200 [])) [] (500 * second).
Definition w_encode (v : json) : res string := dumps v.
Definition w_logger : request_logger :=
  RequestLogger (HttpRequest "POST" "/v1/reports" [] None (BText "")) (λ _, "{}") (λ _, "") (λ _, None)
    (λ v, match dumps v with Ok text => Some text | Err _ => None end).
Abbreviation w_get n key service_name t := (
  get w_hash (Ok ()) w_cfg (w_rq None key) w_services (λ _, "?") w_encode w_logger (w_bridge_request n)
    (Some (JObj [("action", JStr "daily")])) None (Some service_name) None (w_exchange t)).

(** The body and the status of a response. *)
Definition seen (r : world exchange * res ()) : Z * list json :=
  (rs_status (ex_response (w_st r.1)), rs_written (ex_response (w_st r.1))).

Lemma service_guarded_witness :
  seen (w_get 1 (Some "ak00ff.S3CR3T") "reports" (w_st w_create.1)) = (200, [JObj [("data", JInt 1)]])
  ∧ ∃ flag, find_service w_services (Some "reports") = Some ("reports", flag).
Proof.
  split; [vm_compute; reflexivity|].
  assert (Hne : w_get 1 (Some "ak00ff.S3CR3T") "reports" (w_st w_create.1)
                ≠ w_get 2 (Some "ak00ff.S3CR3T") "reports" (w_st w_create.1)).
  { assert (H1 : seen (w_get 1 (Some "ak00ff.S3CR3T") "reports" (w_st w_create.1)) = (200, [JObj [("data", JInt 1)]])) by (vm_compute; reflexivity).
    assert (H2 : seen (w_get 2 (Some "ak00ff.S3CR3T") "reports" (w_st w_create.1)) = (200, [JObj [("data", JInt 2)]])) by (vm_compute; reflexivity).
    intros Heq. pose proof (eq_trans (eq_sym H1) (eq_trans (f_equal seen Heq) H2)). discriminate. }
  destruct (service_guarded w_hash (Ok ()) w_cfg (w_rq None (Some "ak00ff.S3CR3T")) w_services (λ _, "?") w_encode w_logger
    (Some (JObj [("action", JStr "daily")])) None (Some "reports") None (w_bridge_request 1) (w_bridge_request 2)
    (w_exchange (w_st w_create.1)) Hne) as (name & flag & act & Hf & _).
  exists flag. rewrite Hf. vm_compute in Hf. by injection Hf as <- <-.
Defined.

(** ** Answers *)


Definition data (v : json) : json := JObj [("data", v)].


Definition same_response (s s' : exchange) : Prop := ex_response s' = ex_response s.

#[export] Instance same_response_preorder : PreOrder same_response.
Proof. unfold same_response. split; [done|]. intros x y z ??. congruence. Qed.

Section answers.
Context (sha256_hex : list ascii → string) (pool : res ()) (cfg : app_config) (rq : request).
Context (services : list (string * service)) (py_str : json → string) (encode : json → res string) (lg : request_logger).
Context (br : string → json → json → prog exchange (option json)) (Hbr : ∀ name act input, within same_response (br name act input)).
Context (json_args : option json) (query_action service_name action : option string).

Abbreviation get_v1 := (get_v1 sha256_hex pool cfg rq services py_str encode lg br json_args query_action service_name action).
Abbreviation get := (get sha256_hex pool cfg rq services py_str encode lg br json_args query_action service_name action).
Abbreviation run_action := (run_action pool cfg py_str encode lg br json_args query_action).
Abbreviation enforce := (enforce_api_key cfg (@on_site) (λ id, on_site (load_user_by_id pool id))).
Abbreviation request_action := (request_action json_args query_action action).
Abbreviation valid_key w := (has_valid_api_key sha256_hex pool cfg rq None (World (ex_site (w_st w)) (w_log w) (w_clock w))).




Lemma log_answer_same v : within same_response (log_answer lg json_args v).
Proof. intros w. destruct (log_answer_run lg json_args v w) as [lines ->]. done. Qed.





(** *** The refusals *)




End answers.


