(* ===== verification/BridgeSocket.v ===== *)
(** * The websocket bridge

    [bridge/websocket.py]: one socket from the upgrade to its end - the
    checks of a message, the key and the token that are read again while the
    socket stays open, and the frames it writes. The store is the handler's
    object with the tables it reads. [k_monotonic] is what
    [time.monotonic()] answers; it moves between messages, not within one.

    The encoder, the code of a service, the authentication of a device, the
    text of a value that is not one and the rounding of a float are
    parameters, as is what a log line is made of. An encoder that decodes to
    other types than JSON has is not modelled, nor are the log lines other
    than [log_request]'s. A token that is not a text is taken as its text:
    neither decodes. *)

From Stdlib Require Import ZArith Lia.
From S2P Require Import Prelude PyStr Json IpAddress ClientIp ApiKeys QueueIface Auth Redact RequestLog Handlers.
From S2P Require WbcmUsers WbcmDevices.

(** What the socket remembers of its API key. [kc_user] is [None] while it is
    [_UNSET]. *)
Record key_cache := KeyCache {
  kc_valid : option bool; kc_rejected : option json; kc_checked_at : Z; kc_user : option (option user)
}.

(** What it remembers of its token. *)
Record token_cache := TokenCache { tc_failed : bool; tc_checked_at : Z }.

(** The connection under it, with the frames written and the code it was
    closed with. *)
Record wire := Wire { wr_open : bool; wr_sent : list string; wr_closed : option (Z * string) }.

Record socket := Socket {
  k_site : site; k_devices : WbcmDevices.DeviceConnections;
  k_msg_id : option Z; k_service : option json; k_sid : option string; k_device_id : option string;
  k_keys : key_cache; k_token : token_cache; k_wire : wire; k_monotonic : Z
}.

Definition on_site {A} : prog site A → prog socket A :=
  zoom k_site (λ s k, Socket s (k_devices k) (k_msg_id k) (k_service k) (k_sid k) (k_device_id k) (k_keys k)
                        (k_token k) (k_wire k) (k_monotonic k)).

Definition update (f : socket → socket) : prog socket () := stmt (λ k, (f k, ())).

Definition with_request (msg_id : option Z) (service : option json) (k : socket) : socket :=
  Socket (k_site k) (k_devices k) msg_id service (k_sid k) (k_device_id k) (k_keys k) (k_token k) (k_wire k) (k_monotonic k).
Definition with_keys (f : key_cache → key_cache) (k : socket) : socket :=
  Socket (k_site k) (k_devices k) (k_msg_id k) (k_service k) (k_sid k) (k_device_id k) (f (k_keys k)) (k_token k)
    (k_wire k) (k_monotonic k).
Definition with_token_cache (f : token_cache → token_cache) (k : socket) : socket :=
  Socket (k_site k) (k_devices k) (k_msg_id k) (k_service k) (k_sid k) (k_device_id k) (k_keys k) (f (k_token k))
    (k_wire k) (k_monotonic k).
Definition with_wire (f : wire → wire) (k : socket) : socket :=
  Socket (k_site k) (k_devices k) (k_msg_id k) (k_service k) (k_sid k) (k_device_id k) (k_keys k) (k_token k)
    (f (k_wire k)) (k_monotonic k).
Definition with_devices (d : WbcmDevices.DeviceConnections) (device_id : option string) (k : socket) : socket :=
  Socket (k_site k) d (k_msg_id k) (k_service k) (k_sid k) device_id (k_keys k) (k_token k) (k_wire k) (k_monotonic k).
Definition with_sid (sid : option string) (k : socket) : socket :=
  Socket (k_site k) (k_devices k) (k_msg_id k) (k_service k) sid (k_device_id k) (k_keys k) (k_token k) (k_wire k)
    (k_monotonic k).

Definition with_uid (uid : option string) (h : handler) : handler :=
  Handler (h_auth_token h) (h_user h) (h_impersonator h) (h_token_expires_at h) (h_cached_user h) uid
    (h_key_verified h) (h_key h) (h_key_user_applied h).
Definition with_cached_user (u : option (option user)) (h : handler) : handler :=
  Handler (h_auth_token h) (h_user h) (h_impersonator h) (h_token_expires_at h) u (h_uid h)
    (h_key_verified h) (h_key h) (h_key_user_applied h).
Definition without_key_user (h : handler) : handler :=
  Handler (h_auth_token h) None (h_impersonator h) (h_token_expires_at h) None (h_uid h)
    (h_key_verified h) (h_key h) false.

(** [api_key_recheck_seconds], on the clock's scale. *)
Definition api_key_recheck_seconds : Z := 30 * second.

(** A new socket's attributes. *)
Definition new_keys : key_cache := KeyCache None None 0 None.
Definition new_token : token_cache := TokenCache false 0.

Section socket.
Context (sha256_hex : list ascii → string) (jwt_decode : Z → string → string → jwt_answer).
Context (get_by_public_id : string → list user → option user).
Context (pool : res ()) (cfg : app_config) (rq : request).
Context (services : list (string * service)) (lg : request_logger) (upgrade_args : option json).
Context (encode : json → res string) (decode : string → res json) (py_str : json → string).
Context (py_eq : json → json → bool) (int_of_float : string → res Z).
Context (authenticate_device : json → prog socket ()).
Context (bridge_request : string → json → json → prog socket (option json)).

Definition text_of (v : json) : string := match v with JStr s => s | v => py_str v end.

(** ** Writing *)

(** The dictionary of a message after the socket put its service and its
    message id into it. *)
Definition stamped (k : socket) (kwargs : list (string * json)) (message : list (string * json)) : list (string * json) :=
  let message :=
    match k_service k with
    | Some service =>
        if truthy service && negb (dict_has "service" message) then dict_set "service" service message else message
    | None => message
    end in
  let message :=
    match k_msg_id k with
    | Some id => if dict_has "msg_id" message then message else dict_set "msg_id" (JInt id) message
    | None => message
    end in
  foldl (λ m kv, dict_set kv.1 kv.2 m) message kwargs.

(** A frame for a connection that is gone is dropped. *)
Definition put_frame (text : string) (wr : wire) : wire :=
  if wr_open wr then Wire true (wr_sent wr ++ [text]) (wr_closed wr) else wr.
Definition send (text : string) : prog socket () := update (with_wire (put_frame text)).

Definition write_custom_message (message : json) (wrap_in_data : bool) (kwargs : list (string * json)) : prog socket () :=
  let message := if wrap_in_data then JObj [("data", message)] else message in
  k ← get_st;
  match message with
  | JObj d => text ← lift_res (encode (JObj (stamped k kwargs d))); send text
  | JStr text => send text
  | other => text ← lift_res (encode other); send text
  end.

(** The caller's own object once [write_custom_message] is over: a
    dictionary that is not wrapped is changed in place. *)
Definition after_write (k : socket) (message : json) (wrap_in_data : bool) (kwargs : list (string * json)) : json :=
  if wrap_in_data then message
  else match message with JObj d => JObj (stamped k kwargs d) | other => other end.

Definition error_message (msg : string) (code : Z) (kwargs : list (string * json)) : prog socket () :=
  write_custom_message
    (JObj (foldl (λ m kv, dict_set kv.1 kv.2 m) [("error", JObj [("code", JInt code); ("msg", JStr msg)])] kwargs))
    true [].

(** ** API keys *)

Definition has_valid_api_key (custom_api_key : option string) : prog socket (option string) :=
  status ← on_site (Handlers.has_valid_api_key sha256_hex pool cfg rq custom_api_key);
  match status with
  | None =>
      _ ← update (λ k, with_keys (λ c, KeyCache (kc_valid c) (kc_rejected c) (k_monotonic k) None) k);
      mret None
  | Some reason => mret (Some reason)
  end.

Definition _api_key_user (user_id : Z) : prog socket (option user) :=
  k ← get_st;
  match kc_user (k_keys k) with
  | Some u => mret u
  | None =>
      u ← on_site (load_user_by_id pool user_id);
      _ ← update (with_keys (λ c, KeyCache (kc_valid c) (kc_rejected c) (kc_checked_at c) (Some u)));
      mret u
  end.

Definition _drop_api_key_user : prog socket () :=
  k ← get_st;
  if h_key_user_applied (s_handler (k_site k)) then on_site (update_handler without_key_user) else mret ().

(** The record read again, and why it may not be used. *)
Definition refresh_key (record : api_key) : prog socket (option string) :=
  _ ← lift_res pool;
  k ← get_st;
  now ← now_utc;
  let fresh := List.find (λ r, ak_id r =? ak_id record) (key_rows (s_keys (k_site k))) in
  _ ← update (λ k, with_keys (λ c, KeyCache (kc_valid c) (kc_rejected c) (k_monotonic k) None) k);
  match fresh with
  | None => mret (Some "API key no longer exists")
  | Some fresh =>
      _ ← on_site (update_handler (λ h, with_key (h_key_verified h) (Some fresh) h));
      mret (api_key_refusal cfg rq fresh now)
  end.

Definition _recheck_api_key : prog socket (option string) :=
  k ← get_st;
  now ← now_utc;
  match h_key (s_handler (k_site k)) with
  | None => mret None
  | Some record =>
      if ak_id record =? 0 then mret None
      else
        refusal ← (if api_key_recheck_seconds <=? k_monotonic k - kc_checked_at (k_keys k) then refresh_key record
                   else mret (if expired (ak_expires_at record) now then Some "API key has expired" else None));
        match refusal with
        | None => mret None
        | Some reason =>
            _ ← update (with_keys (λ c, KeyCache (Some false) (kc_rejected c) (kc_checked_at c) (kc_user c)));
            _ ← on_site (update_handler (with_key false None));
            h ← on_site get_handler;
            _ ← (match nonempty_text (h_auth_token h) with
                 | None => on_site _clear_current_user
                 | Some _ => mret ()
                 end);
            mret (Some reason)
        end
  end.

(** ** The token *)

Definition _ensure_current_user : prog socket () :=
  _ ← on_site (Handlers._ensure_current_user jwt_decode get_by_public_id pool cfg rq);
  update (λ k, with_token_cache (λ c, TokenCache (tc_failed c) (k_monotonic k)) k).

Definition _auth_stale (k : socket) (now : Z) : bool :=
  tc_failed (k_token k)
  || match h_token_expires_at (s_handler (k_site k)) with Some exp => exp * second <=? now | None => false end
  || (api_key_recheck_seconds <=? k_monotonic k - tc_checked_at (k_token k)).

Definition set_failed (b : bool) : prog socket () := update (with_token_cache (λ c, TokenCache b (tc_checked_at c))).

Definition reload_token (new_auth_token : string) : prog socket () :=
  k ← get_st;
  now ← now_utc;
  if bool_decide (h_auth_token (s_handler (k_site k)) = Some new_auth_token) && negb (_auth_stale k now) then mret ()
  else
    _ ← on_site (update_handler (with_token (Some new_auth_token)));
    _ ← try_except _ensure_current_user (λ _, true)
          (λ e, _ ← on_site _clear_current_user; _ ← set_failed true; raise e);
    set_failed false.

(** ** One message *)

(** [message_data.get(k)], when it is there and true *)
Definition given (k : string) (d : list (string * json)) : option json :=
  match dict_get k d with Some v => if truthy v then Some v else None | None => None end.

Definition is_missing (d : list (string * json)) (name : string) : bool :=
  match dict_get name d with None | Some JNull | Some (JStr EmptyString) => true | _ => false end.

(** The key of the handshake, or else the one of the message. *)
Definition try_message_key (d : list (string * json)) : prog socket () :=
  k ← get_st;
  match kc_valid (k_keys k), given "api_key" d with
  | None, Some key =>
      if match kc_rejected (k_keys k) with Some r => py_eq key r | None => false end then mret ()
      else
        status ← has_valid_api_key (Some (text_of key));
        update (with_keys (λ c, match status with
                                | None => KeyCache (Some true) (kc_rejected c) (kc_checked_at c) (kc_user c)
                                | Some _ => KeyCache (kc_valid c) (Some key) (kc_checked_at c) (kc_user c)
                                end))
  | _, _ => mret ()
  end.

Definition check_key (d : list (string * json)) (key_refusal : option string) : prog socket () :=
  match key_refusal with
  | Some reason => raise (http_error ("Application is not authenticated: " +:+ reason) 1401 401)
  | None =>
      _ ← try_message_key d;
      k ← get_st;
      if bool_decide (kc_valid (k_keys k) = Some true) then mret ()
      else raise (http_error "Application is not authenticated: API key is missing or invalid" 1401 401)
  end.

Definition check_token (d : list (string * json)) : prog socket () :=
  h ← on_site get_handler;
  match given "auth_token" d, nonempty_text (h_auth_token h) with
  | Some token, _ => reload_token (text_of token)
  | None, Some token => reload_token token
  | None, None => mret ()
  end.

Definition check_device (d : list (string * json)) : prog socket () :=
  k ← get_st;
  match given "device_session_token" d, nonempty_text (k_device_id k) with
  | Some token, None => authenticate_device token
  | _, _ => mret ()
  end.

(** [v.get(key, default)] of a value that has to be a dictionary *)
Definition get_of (v : json) (key : string) (dflt : json) : res json :=
  match v with
  | JObj d => Ok (default dflt (dict_get key d))
  | _ => Err (raise_exn AttributeError "object has no attribute 'get'")
  end.

Definition run_action (name : string) (service : json) (flag : option bool) (d : list (string * json)) : prog socket () :=
  let req_data := default (JObj []) (dict_get "data" d) in
  action ← lift_res (get_of req_data "action" JNull);
  input_data ← lift_res (get_of req_data "data" (JObj []));
  if negb (truthy action) then raise (http_error "Missing action" 1005 400)
  else
    _ ← (if needs_key flag then enforce_api_key cfg (@on_site) _api_key_user (text_of service) (text_of action) else mret ());
    return_data ← bridge_request name action input_data;
    match return_data with
    | Some v => write_custom_message v true []
    | None => mret ()
    end.

(** [find_service] with the service of a message, which may be any value. *)
Definition service_of (service : json) : res (option (string * option bool)) :=
  match service with
  | JStr name => Ok (find_service services (Some name))
  | _ => Err (raise_exn AttributeError "object has no attribute 'replace'")
  end.

(** Up to the service's code: the checks a message passes. *)
Definition admit_message (d : list (string * json)) (name : string) (flag : option bool) : prog socket () :=
  key_refusal ← _recheck_api_key;
  _ ← (if needs_key flag then check_key d key_refusal else mret ());
  _ ← check_token d;
  check_device d.

Definition handle_message (d : list (string * json)) : prog socket () :=
  _ ← _drop_api_key_user;
  match List.filter (is_missing d) ["msg_id"; "service"] with
  | (_ :: _) as missing => raise (http_error ("Missing input data: " +:+ String.concat ", " missing) 1001 400)
  | [] =>
      let service := default JNull (dict_get "service" d) in
      msg_id ← lift_res (py_int int_of_float (default JNull (dict_get "msg_id" d)));
      _ ← update (with_request (Some msg_id) (Some service));
      found ← lift_res (service_of service);
      match found with
      | None => raise (http_error ("Could not find service by provided name: " +:+ py_take 100 (text_of service)) 1002 400)
      | Some (name, flag) =>
          _ ← admit_message d name flag;
          run_action name service flag d
      end
  end.

Definition internal_error : string :=
  "Found an error while processing your request. Please try again later. Send us a message if the problem persists.".

(** The [except] clauses: the line about the error is made of the request of
    the upgrade. *)
Definition report (e : exn) : prog socket () :=
  _ ← log_error lg upgrade_args e;
  if is_class HTTPException e then error_message (exn_msg e) (if http_code e =? 0 then -1 else http_code e) []
  else error_message internal_error (-1) [].

Definition unparseable : prog socket () := error_message "It was impossible to parse the given data" 1000 [].

Definition on_message (message : string) : prog socket () :=
  match decode message with
  | Ok (JObj d) =>
      try_finally (try_except (handle_message d) is_exception report) (update (with_request None None))
  | Ok _ => unparseable
  | Err e => if is_exception e then unparseable else raise e
  end.

(** ** The socket's life *)

(** [prepare], before the upgrade. *)
Definition prepare : prog socket () := _ensure_current_user.

Definition close (code : Z) (reason : string) : prog socket () :=
  update (with_wire (λ wr, if wr_open wr then Wire false (wr_sent wr) (Some (code, reason)) else wr)).

Definition open (self : WbcmUsers.conn) (uuid4 : string) : prog socket () :=
  _ ← on_site (update_handler (with_uid (Some uuid4)));
  k ← get_st;
  conns ← lift_res (WbcmUsers.add_connection (λ _, Some uuid4) self (s_conns (k_site k)));
  _ ← on_site (update_conns (λ _, conns));
  status ← has_valid_api_key None;
  let remember b := update (with_keys (λ c, KeyCache b (kc_rejected c) (kc_checked_at c) (kc_user c))) in
  match status with
  | None => remember (Some true)
  | Some reason =>
      if String.eqb reason "API key is missing" then remember None
      else _ ← remember (Some false); close 4401 ("API key validation failed: " +:+ reason)
  end.

Definition leave_registries (self : WbcmUsers.conn) (uid : string) : prog socket () :=
  k ← get_st;
  conns ← lift_res (WbcmUsers.remove_connection (λ _, Some uid) self (s_conns (k_site k)));
  _ ← on_site (update_conns (λ _, conns));
  _ ← (match nonempty_text (k_device_id k) with
       | Some _ =>
           devices ← lift_res (WbcmDevices.remove_connection (λ _, Some uid) self (k_devices k));
           update (with_devices devices None)
       | None => mret ()
       end);
  on_site (update_handler (with_uid None)).

Definition on_close (self : WbcmUsers.conn) : prog socket () :=
  k ← get_st;
  _ ← (match nonempty_text (h_uid (s_handler (k_site k))) with
       | Some uid => leave_registries self uid
       | None => mret ()
       end);
  _ ← on_site (update_handler (with_token None));
  _ ← on_site (update_handler (with_cached_user (Some None)));
  update (with_sid None).

(** ** A broadcast

    The manager hands one dictionary to every connection it schedules
    ([Wbcm.WriteMessage]); the loop runs the writes one after the other. *)
Fixpoint broadcast (message : json) (sockets : list (world socket)) : list (world socket) :=
  match sockets with
  | [] => []
  | w :: rest =>
      (write_custom_message message false [] w).1 :: broadcast (after_write (w_st w) message false []) rest
  end.
End socket.
