(* ===== verification/BridgeSocketProps.v ===== *)
(** * What an open socket promises *)

From Stdlib Require Import ZArith Lia.
From S2P Require Import Prelude PyStr Json IpAddress ClientIp ApiKeys QueueIface Auth Redact RedactProps RequestLog Handlers HandlersProps BridgeSocket.
From S2P Require WbcmUsers WbcmDevices.

(** ** Programs that leave the exchange alone

    [calm m]: [m] writes no frame, does not change which request is being
    answered, and takes no time. *)
Definition quiet (w w' : world socket) : Prop :=
  w_clock w' = w_clock w ∧ k_monotonic (w_st w') = k_monotonic (w_st w) ∧ k_wire (w_st w') = k_wire (w_st w)
  ∧ k_msg_id (w_st w') = k_msg_id (w_st w) ∧ k_service (w_st w') = k_service (w_st w).

#[export] Instance quiet_preorder : PreOrder quiet.
Proof. split; [done|]. intros x y z (?&?&?&?&?) (?&?&?&?&?). split_and!; congruence. Qed.

Definition calm {A} (m : prog socket A) : Prop := ∀ w, quiet w (m w).1.

Section calm.
Lemma calm_ret {A} (a : A) : calm (mret a). Proof. by intros w. Qed.
Lemma calm_raise {A} e : calm (raise (A := A) e). Proof. by intros w. Qed.
Lemma calm_get : calm get_st. Proof. by intros w. Qed.
Lemma calm_now : calm now_utc. Proof. by intros w. Qed.
Lemma calm_lift {A} (r : res A) : calm (lift_res r). Proof. by intros w. Qed.

Lemma calm_bind {A B} (m : prog socket A) (k : A → prog socket B) : calm m → (∀ a, calm (k a)) → calm (m ≫= k).
Proof.
  intros Hm Hk w. unfold mbind, prog_bind. specialize (Hm w). destruct (m w) as [w' [a|e]]; [|done].
  etrans; [exact Hm|apply Hk].
Qed.

Lemma calm_try {A} (m : prog socket A) sel h : calm m → (∀ e, calm (h e)) → calm (try_except m sel h).
Proof.
  intros Hm Hh w. unfold try_except. specialize (Hm w). destruct (m w) as [w' [a|e]]; [done|].
  destruct (sel e); [|done]. etrans; [exact Hm|apply Hh].
Qed.

Lemma calm_update f : (∀ w, quiet w (World (f (w_st w)) (w_log w) (w_clock w))) → calm (update f).
Proof. intros Hf w. apply Hf. Qed.

End calm.

(** The clock of the handler's own programs. *)
Definition timeless {S A} (m : prog S A) : Prop := ∀ w, w_clock (m w).1 = w_clock w.

(** A step of the handler is calm when it takes no time. *)
Lemma calm_site {A} (m : prog site A) : timeless m → calm (on_site m).
Proof.
  intros Hm w. unfold on_site, zoom. specialize (Hm (World (k_site (w_st w)) (w_log w) (w_clock w))).
  destruct (m _) as [w' r]. by split_and!.
Qed.
Lemma timeless_bind {S A B} (m : prog S A) (k : A → prog S B) : timeless m → (∀ a, timeless (k a)) → timeless (m ≫= k).
Proof.
  intros Hm Hk w. unfold mbind, prog_bind. specialize (Hm w). destruct (m w) as [w' [a|e]]; [|done].
  etrans; [apply Hk|exact Hm].
Qed.

Lemma timeless_stmt {S A} (f : S → S * A) : timeless (stmt f).
Proof. intros w. unfold stmt. by destruct (f (w_st w)). Qed.

Lemma timeless_transaction {S A} (m : prog S A) : timeless m → timeless (transaction m).
Proof. intros Hm w. unfold transaction. specialize (Hm w). by destruct (m w) as [? []]. Qed.

Ltac timeless_tac :=
  repeat match goal with
  | |- timeless (_ ≫= _) => apply timeless_bind; [|intros ?]
  | |- timeless (stmt _) => apply timeless_stmt
  | |- timeless (transaction _) => apply timeless_transaction
  | |- timeless (update_handler _) => apply timeless_stmt
  | |- timeless (update_conns _) => apply timeless_stmt
  | |- timeless (match ?x with _ => _ end) => destruct x
  | |- timeless _ => first [by intros ?|progress cbv zeta]
  end.

Lemma clear_timeless : timeless _clear_current_user.
Proof. unfold _clear_current_user, get_handler. timeless_tac. Qed.

Lemma ensure_timeless jwt_decode find pool cfg rq : timeless (Handlers._ensure_current_user jwt_decode find pool cfg rq).
Proof.
  unfold Handlers._ensure_current_user, get_handler, bind_connection, get_handler. timeless_tac; apply clear_timeless.
Qed.

Lemma valid_timeless sha256_hex pool cfg rq custom :
  timeless (Handlers.has_valid_api_key sha256_hex pool cfg rq custom).
Proof. unfold Handlers.has_valid_api_key, has_valid_key_db. timeless_tac. Qed.

Lemma load_timeless pool id : timeless (load_user_by_id pool id).
Proof. unfold load_user_by_id. timeless_tac. Qed.

Lemma bind_timeless u : timeless (bind_connection u).
Proof. unfold bind_connection, get_handler. timeless_tac. Qed.

Create HintDb calm.
#[export] Hint Resolve calm_ret calm_raise calm_get calm_now calm_lift calm_site clear_timeless ensure_timeless
  valid_timeless load_timeless bind_timeless : calm.

Ltac calm_tac :=
  repeat match goal with
  | |- calm (_ ≫= _) => apply calm_bind; [|intros ?]
  | |- calm (try_except _ _ _) => apply calm_try; [|intros ?]
  | |- calm (update _) => apply calm_update; intros ?; by split_and!
  | |- calm (match ?x with _ => _ end) => destruct x
  | |- calm (on_site _) => apply calm_site; timeless_tac; auto with calm; fail
  | |- calm _ => first [apply calm_ret|apply calm_raise|apply calm_get|apply calm_now|apply calm_lift|progress cbv zeta]
  end; auto with calm.

(** ** Freshness *)

(** The key's record was accepted less than [api_key_recheck_seconds] ago, and
    has not run out meanwhile. *)
Definition key_fresh (w : world socket) : Prop :=
  ∀ r, h_key (s_handler (k_site (w_st w))) = Some r → ak_id r ≠ 0 →
    expired (ak_expires_at r) (w_clock w) = false
    ∧ k_monotonic (w_st w) - kc_checked_at (k_keys (w_st w)) < api_key_recheck_seconds.

(** The token was evaluated less than that ago, and for this very message if
    it has run out. *)
Definition token_fresh (w : world socket) : Prop :=
  ∀ t, nonempty_text (h_auth_token (s_handler (k_site (w_st w)))) = Some t →
    tc_failed (k_token (w_st w)) = false
    ∧ k_monotonic (w_st w) - tc_checked_at (k_token (w_st w)) < api_key_recheck_seconds
    ∧ ∀ e, h_token_expires_at (s_handler (k_site (w_st w))) = Some e → e * second <= w_clock w →
        tc_checked_at (k_token (w_st w)) = k_monotonic (w_st w).

(** What a handler's step leaves alone. *)
Definition same_key (h h' : handler) : Prop := h_key h' = h_key h ∧ h_key_verified h' = h_key_verified h.
Definition same_token (h h' : handler) : Prop :=
  h_auth_token h' = h_auth_token h ∧ h_token_expires_at h' = h_token_expires_at h.

#[export] Instance same_key_preorder : PreOrder same_key.
Proof. split; [done|]. intros x y z [??] [??]. split; congruence. Qed.
#[export] Instance same_token_preorder : PreOrder same_token.
Proof. split; [done|]. intros x y z [??] [??]. split; congruence. Qed.

Definition on_handler (R : handler → handler → Prop) (s s' : site) : Prop := R (s_handler s) (s_handler s').

#[export] Instance on_handler_preorder R `{!PreOrder R} : PreOrder (on_handler R).
Proof. unfold on_handler. split; [intros x; reflexivity|intros x y z ??; by etrans]. Qed.

Lemma within_handler R f : (∀ h, R h (f h)) → within (on_handler R) (update_handler f).
Proof. intros Hf. apply within_stmt. intros s. apply Hf. Qed.

Lemma within_conns R `{!PreOrder R} f : within (on_handler R) (update_conns f).
Proof. apply within_stmt. intros s. unfold on_handler. simpl. reflexivity. Qed.

Lemma clear_keeps R `{!PreOrder R} : (∀ h, R h (with_user None h)) → within (on_handler R) _clear_current_user.
Proof.
  intros Hf. unfold _clear_current_user, get_handler. within_tac; [by apply within_handler|apply within_conns, _].
Qed.

Lemma bind_keeps R `{!PreOrder R} u : within (on_handler R) (bind_connection u).
Proof. unfold bind_connection, get_handler. within_tac. apply within_conns, _. Qed.

Lemma ensure_same_key jwt_decode find pool cfg rq :
  within (on_handler same_key) (Handlers._ensure_current_user jwt_decode find pool cfg rq).
Proof.
  unfold Handlers._ensure_current_user, get_handler.
  within_tac; try (by apply within_handler); try apply bind_keeps, _; by apply (clear_keeps _).
Qed.

Lemma on_site_within {A} R (m : prog site A) w : within R m → R (k_site (w_st w)) (k_site (w_st (on_site m w).1)).
Proof.
  intros Hm. unfold on_site, zoom. specialize (Hm (World (k_site (w_st w)) (w_log w) (w_clock w))).
  by destruct (m _) as [w' r].
Qed.

Lemma on_site_rest {A} (m : prog site A) w :
  let k := w_st w in let k' := w_st (on_site m w).1 in
  k_keys k' = k_keys k ∧ k_token k' = k_token k ∧ k_devices k' = k_devices k ∧ k_device_id k' = k_device_id k.
Proof. unfold on_site, zoom. by destruct (m _) as [w' r]. Qed.

Lemma on_site_update f w :
  on_site (update_handler f) w
  = (World (Socket (Site (f (s_handler (k_site (w_st w)))) (s_keys (k_site (w_st w))) (s_users (k_site (w_st w)))
              (s_conns (k_site (w_st w)))) (k_devices (w_st w)) (k_msg_id (w_st w)) (k_service (w_st w)) (k_sid (w_st w))
              (k_device_id (w_st w)) (k_keys (w_st w)) (k_token (w_st w)) (k_wire (w_st w)) (k_monotonic (w_st w)))
       (w_log w) (w_clock w), Ok ()).
Proof. done. Qed.

(** What keeps a key accepted and fresh, and a token. *)
Definition key_kept (k k' : socket) : Prop :=
  on_handler same_key (k_site k) (k_site k') ∧ kc_checked_at (k_keys k') = kc_checked_at (k_keys k)
  ∧ kc_valid (k_keys k') = kc_valid (k_keys k).
Definition token_kept (k k' : socket) : Prop :=
  on_handler same_token (k_site k) (k_site k') ∧ k_token k' = k_token k.

#[export] Instance key_kept_preorder : PreOrder key_kept.
Proof. split; [by intros k; split_and!|]. intros x y z (?&?&?) (?&?&?). split_and!; [by etrans|congruence..]. Qed.
#[export] Instance token_kept_preorder : PreOrder token_kept.
Proof. split; [by intros k; split|]. intros x y z (?&?) (?&?). split; [by etrans|congruence]. Qed.

Lemma key_kept_site {A} (m : prog site A) : within (on_handler same_key) m → within key_kept (on_site m).
Proof.
  intros Hm w. pose proof (on_site_within _ m w Hm). destruct (on_site_rest m w) as (Hk & _).
  unfold key_kept. rewrite Hk. by split_and!.
Qed.

Lemma token_kept_site {A} (m : prog site A) : within (on_handler same_token) m → within token_kept (on_site m).
Proof.
  intros Hm w. pose proof (on_site_within _ m w Hm). destruct (on_site_rest m w) as (_ & Ht & _). by split.
Qed.

Lemma key_fresh_kept w w' : quiet w w' → key_kept (w_st w) (w_st w') → key_fresh w → key_fresh w'.
Proof.
  intros (Hc & Hm & _) ((Hk & _) & Ht & _) Hf r Hr Hne. destruct (Hf r) as [He Hlt]; [congruence|done|].
  rewrite Hc, Hm, Ht. by split.
Qed.

Lemma token_fresh_kept w w' : quiet w w' → token_kept (w_st w) (w_st w') → token_fresh w → token_fresh w'.
Proof.
  intros (Hc & Hm & _) ((Ht & He) & Hk) Hf t. rewrite Ht, Hk, Hm, Hc, He. apply Hf.
Qed.

Lemma update_run f w : update f w = (World (f (w_st w)) (w_log w) (w_clock w), Ok ()).
Proof. done. Qed.

Section guarded.
Context (sha256_hex : list ascii → string) (jwt_decode : Z → string → string → jwt_answer).
Context (get_by_public_id : string → list user → option user).
Context (pool : res ()) (cfg : app_config) (rq : request).
Context (encode : json → res string) (py_str : json → string).
Context (py_eq : json → json → bool) (int_of_float : string → res Z).
Context (authenticate_device : json → prog socket ()).

Abbreviation refresh_key := (refresh_key pool cfg rq).
Abbreviation _recheck_api_key := (_recheck_api_key pool cfg rq).
Abbreviation check_key := (check_key sha256_hex pool cfg rq py_str py_eq).
Abbreviation check_token := (check_token jwt_decode get_by_public_id pool cfg rq py_str).

(** The device's authentication touches nothing but the device. *)
Definition device_only : Prop :=
  ∀ token w, let w' := (authenticate_device token w).1 in
    w_clock w' = w_clock w ∧ w_st w' = with_devices (k_devices (w_st w')) (k_device_id (w_st w')) (w_st w).

Lemma refusal_unexpired k now : api_key_refusal cfg rq k now = None → expired (ak_expires_at k) now = false.
Proof.
  intros H. apply refusal_spec in H as (_ & He & _). unfold expired.
  destruct (ak_expires_at k) as [e|]; [|done]. specialize (He e eq_refl). lia.
Qed.

Lemma refresh_calm record : calm (refresh_key record).
Proof. unfold BridgeSocket.refresh_key. calm_tac. Qed.

Lemma recheck_calm : calm _recheck_api_key.
Proof. unfold BridgeSocket._recheck_api_key, get_handler. calm_tac. apply refresh_calm. Qed.

Lemma refresh_fresh record w w' : refresh_key record w = (w', Ok None) → key_fresh w'.
Proof.
  unfold BridgeSocket.refresh_key. destruct pool as [[]|e]; [|by run_prog].
  unfold lift_res, get_st, now_utc, mbind, prog_bind.
  rewrite update_run. destruct (List.find _ _) as [fresh|]; [|done]. rewrite on_site_update. simpl. intros [= <- Hr] r [= <-] _. simpl.
  split; [by apply refusal_unexpired|]. unfold api_key_recheck_seconds, second. lia.
Qed.

Lemma recheck_fresh w w' : _recheck_api_key w = (w', Ok None) → key_fresh w'.
Proof.
  unfold BridgeSocket._recheck_api_key. erewrite bind_ok by done. erewrite bind_ok by done.
  destruct (h_key _) as [record|] eqn:Hk; [|intros [= <-] r Hr; congruence].
  destruct (ak_id record =? 0) eqn:Hid; [intros [= <-] r Hr Hne; simplify_eq; lia|].
  match goal with |- context[@mbind _ _ _ _ _ ?m] => destruct (m w) as [w1 [[reason|]|e]] eqn:E end.
  - rewrite (bind_ok _ _ _ _ _ E). intros H. exfalso. revert H. unfold mbind, prog_bind.
    repeat match goal with |- context[let '(_, _) := ?m in _] => destruct m as [? [?|?]]; try done
           | |- context[match ?m with (_, _) => _ end] => destruct m as [? [?|?]]; try done end.
  - rewrite (bind_ok _ _ _ _ _ E). intros [= <-]. destruct (_ <=? _) eqn:Hle; [by eapply refresh_fresh|].
    injection E as <- He. intros r Hr Hne. rewrite Hk in Hr. injection Hr as <-.
    destruct (expired _ _) eqn:Hx; [done|]. split; [done|lia].
  - rewrite (bind_err _ _ _ _ _ E). done.
Qed.

(** The key of a handshake or of a message *)

Lemma valid_unexpired custom ws ws' :
  Handlers.has_valid_api_key sha256_hex pool cfg rq custom ws = (ws', Ok None) →
  ∀ r, h_key (s_handler (w_st ws')) = Some r → expired (ak_expires_at r) (w_clock ws') = false.
Proof.
  destruct (ac_use_db cfg) eqn:Hdb.
  - destruct pool as [[]|e] eqn:Hp.
    2: { unfold Handlers.has_valid_api_key. rewrite Hdb.
         destruct (nonempty_text custom); [by run_prog|]. by destruct (rq_api_key rq); run_prog. }
    rewrite valid_api_key_db by done. destruct (supplied rq custom) as [key|]; [|done].
    destruct (matching _ _ _ _) as [k|]; [|done]. destruct (api_key_refusal _ _ _ _) eqn:Hr; [done|].
    intros [= <-] r [= <-]. by apply refusal_unexpired.
  - unfold Handlers.has_valid_api_key. rewrite Hdb.
    destruct (match nonempty_text custom with Some k => Some k | None => rq_api_key rq end) as [key|]; [|done].
    unfold has_valid_key. destruct (ac_keys cfg); [done|]. destruct (existsb _ _); [|done].
    by intros [= <-].
Qed.

Abbreviation has_valid_api_key := (has_valid_api_key sha256_hex pool cfg rq).

Lemma valid_calm custom : calm (has_valid_api_key custom).
Proof. unfold BridgeSocket.has_valid_api_key. calm_tac. Qed.

Lemma valid_fresh custom w w' : has_valid_api_key custom w = (w', Ok None) → key_fresh w'.
Proof.
  unfold BridgeSocket.has_valid_api_key.
  destruct (on_site (Handlers.has_valid_api_key sha256_hex pool cfg rq custom) w) as [w1 [[reason|]|e]] eqn:E;
    [by rewrite (bind_ok _ _ _ _ _ E)| |by rewrite (bind_err _ _ _ _ _ E)].
  rewrite (bind_ok _ _ _ _ _ E). erewrite bind_ok by apply update_run. intros [= <-] r Hr _. simpl in *.
  split; [|unfold api_key_recheck_seconds, second; lia]. unfold on_site, zoom in E.
  destruct (Handlers.has_valid_api_key _ _ _ _ _ _) as [ws' res] eqn:Ev. injection E as <- ->.
  by apply (valid_unexpired _ _ _ Ev).
Qed.

(** A refused key leaves the verdict of the handshake. *)
Lemma valid_keeps_verdict custom w w' r :
  has_valid_api_key custom w = (w', r) → kc_valid (k_keys (w_st w')) = kc_valid (k_keys (w_st w)).
Proof.
  unfold BridgeSocket.has_valid_api_key. intros H.
  destruct (on_site_rest (Handlers.has_valid_api_key sha256_hex pool cfg rq custom) w) as (Hk & _).
  destruct (on_site (Handlers.has_valid_api_key sha256_hex pool cfg rq custom) w) as [w1 [[reason|]|e]] eqn:E; simpl in Hk;
    [rewrite (bind_ok _ _ _ _ _ E) in H|rewrite (bind_ok _ _ _ _ _ E) in H|rewrite (bind_err _ _ _ _ _ E) in H].
  - injection H as <- _. by rewrite Hk.
  - erewrite bind_ok in H by apply update_run. injection H as <- _. simpl. by rewrite Hk.
  - injection H as <- _. by rewrite Hk.
Qed.

Lemma check_key_calm d refusal : calm (check_key d refusal).
Proof. unfold BridgeSocket.check_key, try_message_key. calm_tac. apply valid_calm. Qed.

Lemma check_key_fresh d refusal w w' :
  key_fresh w → check_key d refusal w = (w', Ok ()) → key_fresh w' ∧ kc_valid (k_keys (w_st w')) = Some true.
Proof.
  intros Hf. unfold BridgeSocket.check_key. destruct refusal; [done|].
  destruct (try_message_key sha256_hex pool cfg rq py_str py_eq d w) as [w1 [[]|e]] eqn:E; [|by rewrite (bind_err _ _ _ _ _ E)].
  rewrite (bind_ok _ _ _ _ _ E). erewrite bind_ok by done.
  destruct (bool_decide _) eqn:Hv; [|done]. apply bool_decide_eq_true in Hv. intros [= <-]. split; [|done].
  revert E. unfold try_message_key. erewrite bind_ok by done.
  destruct (kc_valid (k_keys (w_st w))) eqn:Hv0; [by intros [= <-]|].
  destruct (given "api_key" d) as [key|]; [|by intros [= <-]].
  destruct (match kc_rejected _ with Some r => _ | None => _ end); [by intros [= <-]|].
  destruct (has_valid_api_key (Some (text_of py_str key)) w) as [w2 [status|e]] eqn:E;
    [|by rewrite (bind_err _ _ _ _ _ E)].
  rewrite (bind_ok _ _ _ _ _ E), update_run. intros [= <-]. destruct status as [reason|]; [|by apply valid_fresh in E].
  simpl in Hv. pose proof (valid_keeps_verdict _ _ _ _ E). congruence.
Qed.

(** The token *)

Abbreviation _ensure_current_user := (_ensure_current_user jwt_decode get_by_public_id pool cfg rq).
Abbreviation reload_token := (reload_token jwt_decode get_by_public_id pool cfg rq).

Lemma ensure_calm : calm _ensure_current_user.
Proof. unfold BridgeSocket._ensure_current_user. calm_tac. Qed.

Lemma within_update R f : (∀ k, R k (f k)) → within R (update f).
Proof. intros Hf. apply within_stmt. intros k. apply Hf. Qed.

Lemma reload_calm token : calm (reload_token token).
Proof. unfold BridgeSocket.reload_token, set_failed. calm_tac. apply ensure_calm. Qed.

Lemma reload_keeps token : within key_kept (reload_token token).
Proof.
  unfold BridgeSocket.reload_token, BridgeSocket._ensure_current_user, set_failed. within_tac.
  all: first [apply within_update; intros k; by split_and!|apply key_kept_site].
  - by apply within_handler.
  - apply ensure_same_key.
  - by apply (clear_keeps _).
Qed.

Lemma check_token_calm d : calm (check_token d).
Proof. unfold BridgeSocket.check_token, get_handler. calm_tac; apply reload_calm. Qed.

Lemma check_token_keeps d : within key_kept (check_token d).
Proof.
  unfold BridgeSocket.check_token, get_handler. within_tac; try apply reload_keeps.
  all: apply key_kept_site; within_tac.
Qed.

Lemma reload_fresh token w w' : reload_token token w = (w', Ok ()) → token_fresh w'.
Proof.
  unfold BridgeSocket.reload_token. erewrite bind_ok by done. erewrite bind_ok by done.
  destruct (bool_decide _ && negb _) eqn:Hst.
  - intros [= <-] t Ht. apply andb_true_iff in Hst as [_ Hst]. apply negb_true_iff in Hst.
    unfold _auth_stale in Hst. apply orb_false_iff in Hst as [Hst Hold]. apply orb_false_iff in Hst as [Hfail Hexp].
    split_and!; [done|lia|]. intros e He Hle. rewrite He in Hexp. lia.
  - erewrite bind_ok by apply on_site_update.
    match goal with |- context[(try_except ?m ?sel ?h ≫= _) ?x] => destruct (try_except m sel h x) as [w1 [[]|e]] eqn:E end;
      [|by rewrite (bind_err _ _ _ _ _ E)].
    rewrite (bind_ok _ _ _ _ _ E). unfold set_failed. rewrite update_run. intros [= <-] t _. simpl.
    assert (Hc : tc_checked_at (k_token (w_st w1)) = k_monotonic (w_st w1)).
    { revert E. unfold try_except, BridgeSocket._ensure_current_user.
      match goal with |- context[(on_site ?m ≫= ?f) ?x] => destruct (on_site m x) as [w2 [[]|e]] eqn:E2 end.
      - rewrite (bind_ok _ _ _ _ _ E2), update_run. by intros [= <-].
      - rewrite (bind_err _ _ _ _ _ E2). unfold mbind, prog_bind.
        destruct (on_site _clear_current_user w2) as [w3 [[]|e3]]; done. }
    split_and!; [done| |done]. rewrite Hc. unfold api_key_recheck_seconds, second. lia.
Qed.

Lemma check_token_fresh d w w' : check_token d w = (w', Ok ()) → token_fresh w'.
Proof.
  unfold BridgeSocket.check_token. rewrite (bind_ok _ _ w w (s_handler (k_site (w_st w)))) by (by destruct w as [[] ? ?]).
  destruct (given "auth_token" d); [apply reload_fresh|].
  destruct (nonempty_text _) eqn:Ht; [apply reload_fresh|]. intros [= <-] t. congruence.
Qed.

(** The key's user *)

Abbreviation _api_key_user := (_api_key_user pool).

Lemma within_load_user R `{!PreOrder R} id : within (on_handler R) (load_user_by_id pool id).
Proof. unfold load_user_by_id. within_tac. Qed.

Section enforce.
Context (R : socket → socket → Prop) `{!PreOrder R} (T : handler → handler → Prop) `{!PreOrder T}.
Context (Hsite : ∀ A (m : prog site A), within (on_handler T) m → within R (on_site m)).
Context (Huser : ∀ u h, T h (with_user u h)) (Hact : ∀ u h, T h (acting_as u h)).
Context (Hcache : ∀ u k, R k (with_keys (λ c, KeyCache (kc_valid c) (kc_rejected c) (kc_checked_at c) u) k)).

Lemma enforce_within name action : within R (enforce_api_key cfg (@on_site) _api_key_user name action).
Proof.
  assert (Hk : ∀ id, within R (_api_key_user id)).
  { intros id. unfold BridgeSocket._api_key_user. within_tac; [apply Hsite, within_load_user, _|].
    apply within_update. intros k. apply Hcache. }
  assert (Ha : within R (_apply_api_key_user (@on_site) _api_key_user)).
  { unfold _apply_api_key_user, get_handler. within_tac; try apply Hk; apply Hsite; within_tac.
    - by apply within_handler.
    - apply bind_keeps, _.
    - by apply (clear_keeps _). }
  unfold enforce_api_key, get_handler. within_tac; try done. apply Hsite. within_tac.
Qed.
End enforce.

Lemma enforce_keeps_key name action : within key_kept (enforce_api_key cfg (@on_site) _api_key_user name action).
Proof. apply (enforce_within _ same_key); try done. intros A m. apply key_kept_site. Qed.

Lemma enforce_keeps_token name action : within token_kept (enforce_api_key cfg (@on_site) _api_key_user name action).
Proof. apply (enforce_within _ same_token); try done. intros A m. apply token_kept_site. Qed.

Lemma enforce_calm name action : calm (enforce_api_key cfg (@on_site) _api_key_user name action).
Proof.
  assert (Hk : ∀ id, calm (_api_key_user id)).
  { intros id. unfold BridgeSocket._api_key_user, load_user_by_id. calm_tac. }
  unfold enforce_api_key, _apply_api_key_user, get_handler. calm_tac; apply Hk.
Qed.

(** The key of this handler may call [action] on [service_name]: a record of
    a model that declares abilities grants it. *)
Definition key_covers (h : handler) (service_name : string) (action : json) : Prop :=
  ∀ k granted, h_key h = Some k → abilities_of cfg k = Some granted →
    ability_allows (Some granted) (dash_free service_name +:+ ":" +:+ text_of py_str action) = true.

Lemma enforce_covers service_name action w w' :
  enforce_api_key cfg (@on_site) _api_key_user service_name (text_of py_str action) w = (w', Ok ()) →
  key_covers (s_handler (k_site (w_st w))) service_name action.
Proof.
  unfold enforce_api_key. rewrite (bind_ok _ _ w w (s_handler (k_site (w_st w)))) by (by destruct w as [[] ? ?]).
  intros He k granted Hk Hg.
  assert (Hr : (record ← h_key (s_handler (k_site (w_st w))); abilities_of cfg record) = Some granted) by (by rewrite Hk).
  rewrite Hr in He. unfold dash_free. destruct (ability_allows _ _); [done|]. by simpl in He.
Qed.

(** ** The way to a service *)

Abbreviation admit_message := (admit_message sha256_hex jwt_decode get_by_public_id pool cfg rq py_str py_eq authenticate_device).

Lemma device_calm : device_only → ∀ d, calm (check_device authenticate_device d).
Proof.
  intros Hd d. unfold check_device. calm_tac. intros w. destruct (Hd j w) as [Hc Hs]. unfold quiet. by rewrite Hs, Hc.
Qed.

Lemma admit_calm d name flag : device_only → calm (admit_message d name flag).
Proof.
  intros Hd. unfold BridgeSocket.admit_message. apply calm_bind; [apply recheck_calm|intros refusal].
  apply calm_bind; [destruct (needs_key flag); [apply check_key_calm|apply calm_ret]|intros []].
  apply calm_bind; [apply check_token_calm|intros []]. by apply device_calm.
Qed.

(** What an admitted message may rely on. *)
Definition admitted (flag : option bool) (w : world socket) : Prop :=
  token_fresh w ∧ (needs_key flag = true → kc_valid (k_keys (w_st w)) = Some true ∧ key_fresh w).

Lemma device_admitted flag d w w' :
  device_only → check_device authenticate_device d w = (w', Ok ()) → admitted flag w → admitted flag w'.
Proof.
  intros Hd E. pose proof (device_calm Hd d w) as Hq. rewrite E in Hq. simpl in Hq.
  assert (Hk : k_site (w_st w') = k_site (w_st w) ∧ k_keys (w_st w') = k_keys (w_st w) ∧ k_token (w_st w') = k_token (w_st w)).
  { revert E. unfold check_device. erewrite bind_ok by done.
    destruct (given _ d) as [t|]; [|by intros [= <-]]. destruct (nonempty_text _); [by intros [= <-]|].
    intros E. destruct (Hd t w) as [_ Hs]. rewrite E in Hs. simpl in Hs. clear E. by rewrite Hs. }
  destruct Hk as (Hs & Hk & Ht). intros [Hf Hn]. split.
  - eapply token_fresh_kept; [exact Hq| |exact Hf]. unfold token_kept, on_handler. by rewrite Hs, Ht.
  - intros Hb. destruct (Hn Hb) as [Hv Hkf]. split; [by rewrite Hk|].
    eapply key_fresh_kept; [exact Hq| |exact Hkf]. unfold key_kept, on_handler. by rewrite Hs, Hk.
Qed.

Lemma admit_spec d name flag w w' :
  device_only → admit_message d name flag w = (w', Ok ()) → admitted flag w'.
Proof.
  intros Hd H. apply bind_inv in H as (w1 & refusal & E1 & H). apply bind_inv in H as (w2 & [] & E2 & H).
  apply bind_inv in H as (w3 & [] & E3 & E4). apply (device_admitted flag _ _ _ Hd E4). split; [by eapply check_token_fresh|].
  intros Hb. rewrite Hb in E2.
  assert (refusal = None) as -> by (destruct refusal; [done|done]).
  apply recheck_fresh in E1. apply check_key_fresh in E2 as [Hk Hv]; [|done].
  pose proof (check_token_calm d w2) as Hq. pose proof (check_token_keeps d w2) as Hkept.
  rewrite E3 in Hq, Hkept. simpl in Hq, Hkept. split; [by destruct Hkept as (_ & _ & ->)|by eapply key_fresh_kept].
Qed.

(** The last step before the service's code. *)
Lemma enforced_admitted flag service action w w' :
  (if needs_key flag then enforce_api_key cfg (@on_site) _api_key_user service (text_of py_str action) else mret ()) w = (w', Ok ()) →
  admitted flag w →
  quiet w w' ∧ admitted flag w' ∧ (needs_key flag = true → key_covers (s_handler (k_site (w_st w'))) service action).
Proof.
  intros H [Ht Hk]. destruct (needs_key flag) eqn:Hb.
  2: { injection H as <-. split_and!; [reflexivity|split; [done|congruence]|done]. }
  pose proof (enforce_calm service (text_of py_str action) w) as Hq.
  pose proof (enforce_keeps_key service (text_of py_str action) w) as Hkk.
  pose proof (enforce_keeps_token service (text_of py_str action) w) as Htk.
  pose proof (enforce_covers _ _ _ _ H) as Hc. rewrite H in Hq, Hkk, Htk. simpl in *.
  destruct (Hk eq_refl) as [Hv Hf]. split_and!; [done|split|].
  - by eapply token_fresh_kept.
  - intros _. split; [by destruct Hkk as (_ & _ & ->)|by eapply key_fresh_kept].
  - intros _ k granted Hr. apply Hc. destruct Hkk as ([E _] & _). congruence.
Qed.
End guarded.

(** ** Where two runs part *)
Lemma caught_differ {S A} (m1 m2 : prog S A) sel h f w :
  try_finally (try_except m1 sel h) f w ≠ try_finally (try_except m2 sel h) f w → m1 w ≠ m2 w.
Proof. unfold try_finally, try_except. intros H Hm. by rewrite Hm in H. Qed.

(** The store when the service of a message is looked up. *)
Definition entered (id : Z) (service : json) (w : world socket) : world socket :=
  let w1 := (_drop_api_key_user w).1 in World (with_request (Some id) (Some service) (w_st w1)) (w_log w1) (w_clock w1).

Lemma drop_run w : _drop_api_key_user w = ((_drop_api_key_user w).1, Ok ()).
Proof. unfold _drop_api_key_user. erewrite bind_ok by done. by destruct (h_key_user_applied _). Qed.

Lemma drop_calm : calm _drop_api_key_user.
Proof. unfold _drop_api_key_user. calm_tac. Qed.

Section served.
Context (sha256_hex : list ascii → string) (jwt_decode : Z → string → string → jwt_answer).
Context (get_by_public_id : string → list user → option user).
Context (pool : res ()) (cfg : app_config) (rq : request) (services : list (string * service)).
Context (lg : request_logger) (upgrade_args : option json).
Context (encode : json → res string) (decode : string → res json) (py_str : json → string).
Context (py_eq : json → json → bool) (int_of_float : string → res Z).
Context (authenticate_device : json → prog socket ()).

Abbreviation let_in := (admit_message sha256_hex jwt_decode get_by_public_id pool cfg rq py_str py_eq authenticate_device).
Abbreviation handle br := (handle_message sha256_hex jwt_decode get_by_public_id pool cfg rq services encode py_str
  py_eq int_of_float authenticate_device br).
Abbreviation message_run br := (on_message sha256_hex jwt_decode get_by_public_id pool cfg rq services lg upgrade_args encode decode py_str
  py_eq int_of_float authenticate_device br).

Lemma run_action_differ br1 br2 name service flag d w :
  run_action pool cfg encode py_str br1 name service flag d w ≠ run_action pool cfg encode py_str br2 name service flag d w →
  ∃ action input w1, truthy action = true
    ∧ (if needs_key flag then enforce_api_key cfg (@on_site) (_api_key_user pool) (text_of py_str service) (text_of py_str action)
       else mret ()) w = (w1, Ok ())
    ∧ br1 name action input w1 ≠ br2 name action input w1.
Proof.
  unfold run_action. intros H. apply bind_differ in H as (w1 & action & Ea & H). injection Ea as <- _.
  apply bind_differ in H as (w1 & input & Ei & H). injection Ei as <- _.
  destruct (truthy action) eqn:Ht; [|done]. simpl in H.
  apply bind_differ in H as (w1 & [] & E & H). apply left_differ in H. by exists action, input, w1.
Qed.

Lemma on_message_differ br1 br2 message w :
  message_run br1 message w ≠ message_run br2 message w →
  ∃ d id service name flag action input w3 w1,
    decode message = Ok (JObj d) ∧ find_service services (Some service) = Some (name, flag) ∧ truthy action = true
    ∧ let_in d name flag (entered id (JStr service) w) = (w3, Ok ())
    ∧ (if needs_key flag then enforce_api_key cfg (@on_site) (_api_key_user pool) service (text_of py_str action)
       else mret ()) w3 = (w1, Ok ())
    ∧ br1 name action input w1 ≠ br2 name action input w1.
Proof.
  unfold on_message. destruct (decode message) as [[| | | | | |d|]|e]; try done. intros H.
  apply caught_differ in H. unfold handle_message in H.
  apply bind_differ in H as (w1 & [] & E & H). rewrite drop_run in E. injection E as <-.
  destruct (List.filter _ _); [|done]. cbv zeta in H.
  apply bind_differ in H as (w1 & id & E & H). injection E as <- _.
  rewrite !(bind_ok _ _ _ _ _ (update_run _ _)) in H.
  apply bind_differ in H as (w1 & found & E & H). injection E as <- Hs.
  unfold service_of in Hs. destruct (default JNull (dict_get "service" d)) as [| | | |service| | |] eqn:Hsv; try done.
  destruct found as [[name flag]|]; [|done]. injection Hs as Hs.
  apply bind_differ in H as (w3 & [] & Ea & H). apply run_action_differ in H as (action & input & w1 & Ht & He & Hbr).
  by exists d, id, service, name, flag, action, input, w3, w1.
Qed.
End served.

(** C12: What a service is called with. The code of a service can only have an
    influence when the frame is an object that names an existing service and
    an action; it is then called in a store that still answers that request,
    with nothing written before. Unless the service opted out of keys, the
    socket's key was accepted, its record was read again within
    [api_key_recheck_seconds] and has not run out, and, if its model declares
    abilities, those of the record cover that very action; a static key and a
    record whose model declares none are unscoped. A token the socket holds
    was evaluated within that time too, and for this very message if it has
    run out meanwhile. The authentication of a device is taken to touch the
    device alone. *)
Theorem socket_service_guarded sha256_hex jwt_decode get_by_public_id pool cfg rq services lg upgrade_args encode decode py_str py_eq
    int_of_float authenticate_device (br1 br2 : string → json → json → prog socket (option json)) message (w : world socket) :
  let run br := on_message sha256_hex jwt_decode get_by_public_id pool cfg rq services lg upgrade_args encode decode py_str py_eq
                  int_of_float authenticate_device br message w in
  device_only authenticate_device →
  run br1 ≠ run br2 →
  ∃ id service name flag action input w1,
    find_service services (Some service) = Some (name, flag) ∧ truthy action = true
    ∧ br1 name action input w1 ≠ br2 name action input w1
    ∧ k_msg_id (w_st w1) = Some id ∧ k_service (w_st w1) = Some (JStr service) ∧ k_wire (w_st w1) = k_wire (w_st w)
    ∧ (needs_key flag = true →
        kc_valid (k_keys (w_st w1)) = Some true ∧ key_fresh w1
        ∧ key_covers cfg py_str (s_handler (k_site (w_st w1))) service action)
    ∧ token_fresh w1.
Proof.
  intros run Hd Hne.
  destruct (on_message_differ sha256_hex jwt_decode get_by_public_id pool cfg rq services lg upgrade_args encode decode py_str py_eq
    int_of_float authenticate_device br1 br2 message w Hne) as (d & id & service & name & flag & action & input & w3 & w1 & Hdec & Hf & Ht & Ha & He & Hbr).
  pose proof (admit_calm sha256_hex jwt_decode get_by_public_id pool cfg rq py_str py_eq authenticate_device d name flag Hd
    (entered id (JStr service) w)) as Hq. rewrite Ha in Hq.
  apply admit_spec in Ha; [|done]. destruct (enforced_admitted _ _ _ _ _ _ _ _ He Ha) as (Hq1 & [Htok Hkey] & Hcov).
  destruct Hq as (_ & _ & Hw & Hi & Hs). destruct Hq1 as (_ & _ & Hw1 & Hi1 & Hs1). simpl in *.
  exists id, service, name, flag, action, input, w1. split_and!; try done; try congruence.
  - rewrite Hw1, Hw. by destruct (drop_calm w) as (_ & _ & <- & _).
  - intros Hb. destruct (Hkey Hb). split_and!; auto.
Qed.
