(* ===== verification/BridgeSocketClaims.v ===== *)
(** * Revoked keys, answers and broadcasts of a socket *)

From Stdlib Require Import ZArith Lia.
From S2P Require Import WbcmUsers WbcmDevices Prelude PyStr Json IpAddress ClientIp ApiKeys QueueIface Auth Redact RedactProps RequestLog Handlers HandlersProps BridgeSocket BridgeSocketProps.

(** ** Revocation *)


(** The socket has no key and will not take one from a message. *)
Definition cut_off (k : socket) : Prop := h_key (s_handler (k_site k)) = None ∧ kc_valid (k_keys k) = Some false.

Definition stays_cut_off (k k' : socket) : Prop := cut_off k → cut_off k'.

#[export] Instance stays_preorder : PreOrder stays_cut_off.
Proof. unfold stays_cut_off. split; [by intros k|]. intros x y z H1 H2 H. auto. Qed.



Section revocation.
Context (sha256_hex : list ascii → string) (jwt_decode : Z → string → string → jwt_answer).
Context (get_by_public_id : string → list user → option user).
Context (cfg : app_config) (rq : request) (services : list (string * service)).
Context (lg : request_logger) (upgrade_args : option json).
Context (encode : json → res string) (decode : string → res json) (py_str : json → string).
Context (py_eq : json → json → bool) (int_of_float : string → res Z).
Context (authenticate_device : json → prog socket ()).
Context (Hdev : device_only authenticate_device).

Abbreviation recheck := (_recheck_api_key (Ok ()) cfg rq).
Abbreviation let_in := (admit_message sha256_hex jwt_decode get_by_public_id (Ok ()) cfg rq py_str py_eq authenticate_device).








Context (br : string → json → json → prog socket (option json)).
Context (Hbr : ∀ name action input, within stays_cut_off (br name action input)).

Abbreviation handle := (handle_message sha256_hex jwt_decode get_by_public_id (Ok ()) cfg rq services encode py_str
  py_eq int_of_float authenticate_device br).








End revocation.


(** ** Answers *)

(** The service leaves the wire and the request being answered alone. *)
Definition same_exchange (k k' : socket) : Prop :=
  k_wire k' = k_wire k ∧ k_msg_id k' = k_msg_id k ∧ k_service k' = k_service k.

#[export] Instance same_exchange_preorder : PreOrder same_exchange.
Proof. split; [done|]. intros x y z (?&?&?) (?&?&?). split_and!; congruence. Qed.







Section answers.
Context (sha256_hex : list ascii → string) (jwt_decode : Z → string → string → jwt_answer).
Context (get_by_public_id : string → list user → option user).
Context (pool : res ()) (cfg : app_config) (rq : request) (services : list (string * service)).
Context (lg : request_logger) (upgrade_args : option json).
Context (encode : json → res string) (decode : string → res json) (py_str : json → string).
Context (py_eq : json → json → bool) (int_of_float : string → res Z).
Context (authenticate_device : json → prog socket ()).
Context (br : string → json → json → prog socket (option json)).

Abbreviation handle := (handle_message sha256_hex jwt_decode get_by_public_id pool cfg rq services encode py_str
  py_eq int_of_float authenticate_device br).
Abbreviation message_run := (on_message sha256_hex jwt_decode get_by_public_id pool cfg rq services lg upgrade_args encode decode py_str
  py_eq int_of_float authenticate_device br).










Context (Hdev : device_only authenticate_device).
Context (Hbr : ∀ name action input, within same_exchange (br name action input)).












End answers.


(** What an encoder makes of a frame, when it never fails. *)
Lemma write_frame encode v (wrap : bool) kwargs w w1 d :
  (if wrap then JObj [("data", v)] else v) = JObj d → wr_open (k_wire (w_st w)) = true →
  write_custom_message encode v wrap kwargs w = (w1, Ok ()) →
  ∃ text, encode (JObj (stamped (w_st w) kwargs d)) = Ok text
    ∧ wr_sent (k_wire (w_st w1)) = wr_sent (k_wire (w_st w)) ++ [text].
Proof.
  intros Hd Ho. unfold write_custom_message. erewrite bind_ok by done. rewrite Hd. cbv zeta.
  destruct (encode _) as [text|e]; [|by rewrite (bind_err _ _ _ _ _ eq_refl)].
  erewrite bind_ok by done. unfold send. rewrite update_run. intros [= <-]. exists text. split; [done|]. simpl.
  unfold put_frame. by rewrite Ho.
Qed.

Lemma write_ok encode v (wrap : bool) kwargs w :
  (∀ x, ∃ text, encode x = Ok text) →
  write_custom_message encode v wrap kwargs w = ((write_custom_message encode v wrap kwargs w).1, Ok ()).
Proof.
  intros He. unfold write_custom_message. erewrite bind_ok by done. cbv zeta.
  destruct (if wrap then _ else v); try (by unfold send; rewrite update_run);
    match goal with |- context[encode ?x] => destruct (He x) as [text ->] end; erewrite bind_ok by done; unfold send; by rewrite update_run.
Qed.

(** ** Broadcasts *)

(** What a socket puts into a message it writes. *)
Definition own_service (w : world socket) : option json :=
  s ← k_service (w_st w); if truthy s then Some s else None.
Definition own_id (w : world socket) : option json := JInt <$> k_msg_id (w_st w).

Definition or_else {A} (x y : option A) : option A := match x with Some _ => x | None => y end.

Lemma stamped_get w d k :
  dict_get k (stamped (w_st w) [] d)
  = if decide (k = "msg_id") then or_else (dict_get k d) (own_id w)
    else if decide (k = "service") then or_else (dict_get k d) (own_service w) else dict_get k d.
Proof.
  unfold stamped, own_id, own_service, dict_has. cbn [foldl].
  assert (Hs : ∀ m, dict_get k (match k_service (w_st w) with
      | Some service => if truthy service && negb (match dict_get "service" m with Some _ => true | None => false end)
                        then dict_set "service" service m else m
      | None => m end) = if decide (k = "service") then or_else (dict_get k m) (s ← k_service (w_st w); if truthy s then Some s else None)
                         else dict_get k m).
  { intros m. destruct (k_service (w_st w)) as [s|]; simpl.
    - destruct (truthy s); simpl; [|destruct (decide _); [by destruct (dict_get k m)|done]].
      destruct (dict_get "service" m) eqn:Hm; simpl.
      + destruct (decide (k = "service")) as [->|]; [by rewrite Hm|done].
      + rewrite dict_get_set. destruct (decide ("service" = k)) as [<-|]; [by rewrite decide_True, Hm|by rewrite decide_False].
    - destruct (decide _); [by destruct (dict_get k m)|done]. }
  set (m := match k_service _ with Some _ => _ | None => _ end). specialize (Hs d). fold m in Hs. clearbody m.
  destruct (k_msg_id (w_st w)) as [id|]; simpl.
  - destruct (dict_get "msg_id" m) eqn:Hm.
    + destruct (decide (k = "msg_id")) as [->|]; [|done]. rewrite Hm in Hs. rewrite decide_False in Hs by done. by rewrite Hm, <- Hs.
    + rewrite dict_get_set. destruct (decide ("msg_id" = k)) as [<-|].
      * rewrite decide_True by done. rewrite decide_False in Hs by done. by rewrite <- Hs, Hm.
      * by rewrite decide_False.
  - destruct (decide (k = "msg_id")) as [->|]; [|done]. rewrite decide_False in Hs by done. rewrite Hs. by destruct (dict_get _ d).
Qed.

(** One dictionary for everybody. A broadcast writes to every open socket
    once, in order, and what the message itself says arrives unchanged; but
    the message id and the service of a frame are those of the first socket
    so far that was answering a request: a socket further down the list gets
    the message id of a request it never made. *)
Theorem broadcast_shares encode d sockets i (w : world socket) :
  (∀ v, ∃ text, encode v = Ok text) → Forall (λ w, wr_open (k_wire (w_st w)) = true) sockets →
  sockets !! i = Some w →
  ∃ w' o text, broadcast encode (JObj d) sockets !! i = Some w'
    ∧ wr_sent (k_wire (w_st w')) = wr_sent (k_wire (w_st w)) ++ [text] ∧ encode (JObj o) = Ok text
    ∧ dict_get "msg_id" o = or_else (dict_get "msg_id" d) (head (omap own_id (take (S i) sockets)))
    ∧ dict_get "service" o = or_else (dict_get "service" d) (head (omap own_service (take (S i) sockets)))
    ∧ ∀ k, k ≠ "msg_id" → k ≠ "service" → dict_get k o = dict_get k d.
Proof.
  intros He Hopen. revert d i. induction Hopen as [|w0 sockets Ho Hopen IH]; intros d [|i] Hi; [done..| |].
  - injection Hi as <-. pose proof (write_ok encode (JObj d) false [] w0 He) as Hok.
    destruct (write_frame encode (JObj d) false [] w0 _ d eq_refl Ho Hok) as (text & Ht & Hs).
    exists (write_custom_message encode (JObj d) false [] w0).1, (stamped (w_st w0) [] d), text. cbn [broadcast take omap list_omap].
    split_and!; [done|done|done| | |].
    + rewrite stamped_get, decide_True by done. simpl. by destruct (own_id w0).
    + rewrite stamped_get, decide_False, decide_True by done. simpl. by destruct (own_service w0).
    + intros k H1 H2. by rewrite stamped_get, !decide_False.
  - destruct (IH (stamped (w_st w0) [] d) i Hi) as (w' & o & text & Hb & Hs & Ht & Hm & Hsv & Hr).
    exists w', o, text. split_and!; [exact Hb|done|done| | |].
    + rewrite Hm, stamped_get, decide_True by done. simpl. destruct (dict_get "msg_id" d), (own_id w0); done.
    + rewrite Hsv, stamped_get, decide_False, decide_True by done. simpl. destruct (dict_get "service" d), (own_service w0); done.
    + intros k H1 H2. rewrite Hr by done. by rewrite stamped_get, !decide_False.
Qed.

(** ** A concrete socket *)
Definition w_encode (v : json) : res string := match dumps v with Ok t => Ok t | Err _ => Ok "null" end.
Definition w_device (token : json) : prog socket () := mret ().
Definition w_service (n : Z) (name : string) (action data : json) : prog socket (option json) := mret (Some (JInt n)).
Definition w_row (disabled : option Z) : api_key :=
  ApiKey 1 "robot" "ak00ff" "" ["reports:*"] None None None None 0 0 disabled.
(** A socket whose key was read [age] ago. *)
Definition w_socket (age : Z) (disabled msg_id : option Z) : world socket :=
  World (Socket (Site (with_key true (Some (w_row None)) new_handler) (KeyTable [w_row disabled] 2) [] WbcmUsers.__init__)
           WbcmDevices.__init__ msg_id None None None (KeyCache (Some true) None 0 None) new_token (Wire true [] None) age) [] 0.
Definition w_services : list (string * service) := [("reports", Service true None)].
Definition w_logger : request_logger :=
  RequestLogger (HttpRequest "GET" "/v1/socket" [] None (BText "")) (λ _, "{}") (λ _, "") (λ _, None) (λ _, Some "{}").
Definition w_frame : string := sq "{'msg_id': 7, 'service': 'reports', 'data': {'action': 'daily'}}".
Abbreviation w_message n := (on_message of_chars (λ _ _ _, JwtInvalid) (λ _ _, None) (Ok ()) w_cfg (w_rq None None) w_services
  w_logger None w_encode loads (λ _, "?") (λ _ _, false) (λ _, Ok 0) w_device (w_service n) w_frame).

Lemma w_device_only : device_only w_device.
Proof. intros token [[] log clock]. done. Defined.

Lemma w_encode_total v : ∃ text, w_encode v = Ok text.
Proof. unfold w_encode. destruct (dumps v); by eexists. Defined.

Definition sent_by (r : world socket * res ()) : list string := wr_sent (k_wire (w_st r.1)).

Lemma socket_service_guarded_witness :
  sent_by (w_message 1 (w_socket 5 None None)) = [sq "{'data': 1, 'service': 'reports', 'msg_id': 7}"]
  ∧ ∃ service name flag action w1, find_service w_services (Some service) = Some (name, flag)
      ∧ key_covers w_cfg (λ _, "?") (s_handler (k_site (w_st w1))) service action ∧ needs_key flag = true.
Proof.
  split; [vm_compute; reflexivity|].
  assert (Hne : w_message 1 (w_socket 5 None None) ≠ w_message 2 (w_socket 5 None None)).
  { assert (H1 : sent_by (w_message 1 (w_socket 5 None None)) = [sq "{'data': 1, 'service': 'reports', 'msg_id': 7}"]) by (vm_compute; reflexivity).
    assert (H2 : sent_by (w_message 2 (w_socket 5 None None)) = [sq "{'data': 2, 'service': 'reports', 'msg_id': 7}"]) by (vm_compute; reflexivity).
    intros Heq. pose proof (eq_trans (eq_sym H1) (eq_trans (f_equal sent_by Heq) H2)). discriminate. }
  destruct (socket_service_guarded of_chars (λ _ _ _, JwtInvalid) (λ _ _, None) (Ok ()) w_cfg (w_rq None None) w_services
    w_logger None w_encode loads (λ _, "?") (λ _ _, false) (λ _, Ok 0) w_device (w_service 1) (w_service 2) w_frame (w_socket 5 None None)
    w_device_only Hne) as (id & service & name & flag & action & input & w1 & Hf & _ & _ & _ & _ & _ & Hk & _).
  assert (Hn : needs_key flag = true).
  { revert Hf. unfold find_service. destruct (dict_get _ w_services) as [sv|] eqn:E; [|discriminate].
    unfold w_services in E. simpl in E. destruct (decide _); [|discriminate]. injection E as <-. simpl. intros H. by injection H as _ <-. }
  exists service, name, flag, action, w1. split; [exact Hf|]. split; [apply (Hk Hn)|exact Hn].
Defined.



Lemma broadcast_shares_witness :
  let sockets := [w_socket 0 None None; w_socket 0 None (Some 7); w_socket 0 None None] in
  sent_by <$> ((λ w, (w, Ok ())) <$> broadcast w_encode (JObj [("news", JInt 1)]) sockets)
  = [[sq "{'news': 1}"]; [sq "{'news': 1, 'msg_id': 7}"]; [sq "{'news': 1, 'msg_id': 7}"]]
  ∧ ∃ o, dict_get "msg_id" o = Some (JInt 7) ∧ dict_get "news" o = Some (JInt 1)
      ∧ w_encode (JObj o) = Ok (sq "{'news': 1, 'msg_id': 7}").
Proof.
  intros sockets. split; [vm_compute; reflexivity|].
  destruct (broadcast_shares w_encode [("news", JInt 1)] sockets 2 (w_socket 0 None None) w_encode_total)
    as (w' & o & text & Hb & Hs & Ht & Hm & _ & Hr); [by repeat constructor|reflexivity|].
  assert (Hsent : sent_by <$> ((λ w, (w, Ok ())) <$> broadcast w_encode (JObj [("news", JInt 1)]) sockets !! 2%nat)
                  = Some [sq "{'news': 1, 'msg_id': 7}"]) by (vm_compute; reflexivity).
  rewrite Hb in Hsent. injection Hsent as Hsent. unfold sent_by in Hsent. simpl in Hsent. rewrite Hs in Hsent. injection Hsent as Htext.
  exists o. split; [exact Hm|]. split; [by apply Hr|]. by rewrite Ht, Htext.
Defined.
