(* ===== verification/Base64.v ===== *)
(** * Base64, as the crypto modules use it

    [base64.b64encode], [base64.b64decode(..., validate=True)] and their
    URL-safe forms over bytes. The decoder is CPython's [a2b_base64]: a
    machine over the position in the group of four, the padding seen and the
    bits left over; only the strict form refuses foreign characters and data
    after the padding. *)

From Stdlib Require Import ZArith Lia.
From S2P Require Import Prelude PyStr Json.

Definition bytes : Type := list ascii.

Definition PAD : ascii := "="%char.

Definition b64_value (a : ascii) : option Z :=
  if is_upper a then Some (code a - 65)
  else if is_lower a then Some (code a - 71)
  else if is_digit a then Some (code a + 4)
  else if Ascii.eqb a "+"%char then Some 62
  else if Ascii.eqb a "/"%char then Some 63
  else None.

Definition b64_char (n : Z) : ascii :=
  if n <? 26 then byte (n + 65)
  else if n <? 52 then byte (n + 71)
  else if n <? 62 then byte (n - 4)
  else if n =? 62 then "+"%char else "/"%char.

Fixpoint b64_groups (l : bytes) : list ascii :=
  match l with
  | [] => []
  | [a] => [b64_char (code a / 4); b64_char (code a mod 4 * 16); PAD; PAD]
  | [a; b] => [b64_char (code a / 4); b64_char (code a mod 4 * 16 + code b / 16); b64_char (code b mod 16 * 4); PAD]
  | a :: b :: c :: rest =>
      b64_char (code a / 4) :: b64_char (code a mod 4 * 16 + code b / 16)
      :: b64_char (code b mod 16 * 4 + code c / 64) :: b64_char (code c mod 64) :: b64_groups rest
  end.

Definition b64encode (l : bytes) : string := of_chars (b64_groups l).

(** [quad]: the position in the group; [pads]: the padding seen in it;
    [bits]: what is not yet written; [padded]: whether padding was seen. *)
Fixpoint a2b (strict : bool) (quad pads bits : Z) (padded : bool) (l : list ascii) : option bytes :=
  match l with
  | [] => if quad =? 0 then Some [] else None
  | a :: l =>
      if Ascii.eqb a PAD then
        if (2 <=? quad) && (4 <=? quad + (pads + 1)) then
          if strict && match l with [] => false | _ => true end then None else Some []
        else a2b strict quad (if 2 <=? quad then pads + 1 else pads) bits true l
      else
        match b64_value a with
        | None => if strict then None else a2b strict quad pads bits padded l
        | Some v =>
            if strict && padded then None
            else if quad =? 0 then a2b strict 1 0 v padded l
            else
              let '(out, bits) :=
                if quad =? 1 then (bits * 4 + v / 16, v mod 16)
                else if quad =? 2 then (bits * 16 + v / 4, v mod 4)
                else (bits * 64 + v, 0) in
              rest ← a2b strict ((quad + 1) mod 4) 0 bits padded l; Some (byte out :: rest)
        end
  end.

Definition is_ascii (s : string) : bool := all_chars (λ a, code a <? 128) s.

(** [base64.b64decode(s, validate=True)]; [None] for a [ValueError]. *)
Definition b64decode (s : string) : option bytes :=
  let l := chars s in
  if negb (is_ascii s) then None
  else match l with
       | a :: _ => if Ascii.eqb a PAD then None else a2b true 0 0 0 false l
       | [] => Some []
       end.

Definition to_urlsafe (a : ascii) : ascii :=
  if Ascii.eqb a "+"%char then "-"%char else if Ascii.eqb a "/"%char then "_"%char else a.
Definition from_urlsafe (a : ascii) : ascii :=
  if Ascii.eqb a "-"%char then "+"%char else if Ascii.eqb a "_"%char then "/"%char else a.

Definition urlsafe_b64encode (l : bytes) : string := of_chars (map to_urlsafe (b64_groups l)).

(** [base64.urlsafe_b64decode(s)]: not strict. *)
Definition urlsafe_b64decode (s : string) : option bytes :=
  if negb (is_ascii s) then None else a2b false 0 0 0 false (map from_urlsafe (chars s)).

(** ** Decoding what was encoded *)
Lemma code_range a : 0 <= code a < 256.
Proof. unfold code. pose proof (N_ascii_bounded a). lia. Qed.

Lemma code_byte n : 0 <= n < 256 → code (byte n) = n.
Proof. intros H. unfold code, byte. rewrite N_ascii_embedding by lia. lia. Qed.

Lemma byte_code a : byte (code a) = a.
Proof. unfold code, byte. rewrite N2Z.id. apply ascii_N_embedding. Qed.

(** A character of the alphabet: its value, and what it is not. *)
Lemma b64_char_ok n : 0 <= n < 64 →
  b64_value (b64_char n) = Some n ∧ Ascii.eqb (b64_char n) PAD = false ∧ code (b64_char n) < 128
  ∧ from_urlsafe (to_urlsafe (b64_char n)) = b64_char n ∧ Ascii.eqb (to_urlsafe (b64_char n)) PAD = false
  ∧ code (to_urlsafe (b64_char n)) < 128.
Proof.
  intros Hn.
  assert (H : forallb (λ k, let a := b64_char (Z.of_nat k) in
      bool_decide (b64_value a = Some (Z.of_nat k)) && negb (Ascii.eqb a PAD) && (code a <? 128)
      && Ascii.eqb (from_urlsafe (to_urlsafe a)) a && negb (Ascii.eqb (to_urlsafe a) PAD) && (code (to_urlsafe a) <? 128)) (seq 0 64) = true)
    by (vm_compute; reflexivity).
  rewrite forallb_forall in H. specialize (H (Z.to_nat n)). rewrite Z2Nat.id in H by lia.
  assert (Hin : In (Z.to_nat n) (seq 0 64)) by (apply in_seq; lia). specialize (H Hin). cbv zeta in H.
  rewrite !andb_true_iff, !negb_true_iff, bool_decide_eq_true, Ascii.eqb_eq, !Z.ltb_lt in H. naive_solver.
Qed.

(** The text of [n] bytes: characters of the alphabet and the padding that
    fills the last group. *)
Definition in_alphabet (a : ascii) : Prop := ∃ n, 0 <= n < 64 ∧ a = b64_char n.

Lemma alphabet n : 0 <= n < 64 → in_alphabet (b64_char n).
Proof. by exists n. Qed.

Lemma three_ind (P : bytes → Prop) :
  P [] → (∀ a, P [a]) → (∀ a b, P [a; b]) → (∀ a b c l, P l → P (a :: b :: c :: l)) → ∀ l, P l.
Proof.
  intros H0 H1 H2 H3. refine (fix go l := match l with [] => H0 | [a] => H1 a | [a; b] => H2 a b
    | a :: b :: c :: l => H3 a b c l (go l) end).
Qed.

Ltac b64_bounds :=
  repeat match goal with |- context[code ?a] => lazymatch goal with H : 0 <= code a < 256 |- _ => fail | _ => pose proof (code_range a) end end;
  Z.to_euclidean_division_equations; lia.

Lemma groups_shape l :
  ∃ body k, b64_groups l = body ++ replicate k PAD ∧ Forall in_alphabet body
    ∧ Z.of_nat k = (- Z.of_nat (length body)) mod 4 ∧ (k <= 2)%nat.
Proof.
  induction l as [|a|a b|a b c l (body & k & He & Hb & Hk & Hle)] using three_ind.
  - exists [], 0%nat. split_and!; [done|constructor|done|lia].
  - exists [b64_char (code a / 4); b64_char (code a mod 4 * 16)], 2%nat. split_and!; [done| |done|lia].
    repeat (apply Forall_cons_2; [apply alphabet; b64_bounds|]). constructor.
  - exists [b64_char (code a / 4); b64_char (code a mod 4 * 16 + code b / 16); b64_char (code b mod 16 * 4)], 1%nat.
    split_and!; [done| |done|lia].
    repeat (apply Forall_cons_2; [apply alphabet; b64_bounds|]). constructor.
  - exists (b64_char (code a / 4) :: b64_char (code a mod 4 * 16 + code b / 16)
      :: b64_char (code b mod 16 * 4 + code c / 64) :: b64_char (code c mod 64) :: body), k.
    split_and!; [by cbn [b64_groups]; rewrite He| | |done].
    + repeat (apply Forall_cons_2; [apply alphabet; b64_bounds|]). done.
    + rewrite Hk. cbn [length]. rewrite !Nat2Z.inj_succ. Z.to_euclidean_division_equations; lia.
Qed.

Lemma a2b_first strict n l : 0 <= n < 64 → a2b strict 0 0 0 false (b64_char n :: l) = a2b strict 1 0 n false l.
Proof. intros Hn. destruct (b64_char_ok n Hn) as (Hv & Hp & _). cbn [a2b]. rewrite Hp, Hv. by destruct strict. Qed.

(** The three later positions of a group: the byte that is complete and the
    bits that stay. *)
Lemma a2b_later strict q bits n bits' a l :
  0 <= n < 64 →
  (q = 1 ∧ code a = bits * 4 + n / 16 ∧ bits' = n mod 16) ∨ (q = 2 ∧ code a = bits * 16 + n / 4 ∧ bits' = n mod 4)
  ∨ (q = 3 ∧ code a = bits * 64 + n ∧ bits' = 0) →
  a2b strict q 0 bits false (b64_char n :: l) = (rest ← a2b strict ((q + 1) mod 4) 0 bits' false l; Some (a :: rest)).
Proof.
  intros Hn Hin. destruct (b64_char_ok n Hn) as (Hv & Hp & _). cbn [a2b]. rewrite Hp, Hv, andb_false_r.
  destruct Hin as [(-> & Ha & ->)|[(-> & Ha & ->)|(-> & Ha & ->)]]; simpl; by rewrite <- Ha, byte_code.
Qed.

Lemma a2b_groups strict l : a2b strict 0 0 0 false (b64_groups l) = Some l.
Proof.
  induction l as [|a|a b|a b c l IH] using three_ind; [done|..]; cbn [b64_groups].
  - rewrite a2b_first by b64_bounds.
    rewrite (a2b_later strict 1 _ _ 0 a); [by destruct strict|b64_bounds|].
    left. split_and!; b64_bounds.
  - rewrite a2b_first by b64_bounds.
    rewrite (a2b_later strict 1 _ _ (code b / 16) a); [|b64_bounds|].
    2: { left. split_and!; b64_bounds. }
    rewrite (a2b_later strict ((1 + 1) mod 4) _ _ 0 b); [by destruct strict|b64_bounds|].
    right; left. split_and!; b64_bounds.
  - rewrite a2b_first by b64_bounds.
    rewrite (a2b_later strict 1 _ _ (code b / 16) a); [|b64_bounds|].
    2: { left. split_and!; b64_bounds. }
    rewrite (a2b_later strict ((1 + 1) mod 4) _ _ (code c / 64) b); [|b64_bounds|].
    2: { right; left. split_and!; b64_bounds. }
    rewrite (a2b_later strict (((1 + 1) mod 4 + 1) mod 4) _ _ 0 c); [|b64_bounds|].
    2: { right; right. split_and!; b64_bounds. }
    change (((((1 + 1) mod 4 + 1) mod 4) + 1) mod 4) with 0. by rewrite IH.
Qed.

Lemma groups_ascii l : forallb (λ a, code a <? 128) (b64_groups l) = true.
Proof.
  destruct (groups_shape l) as (body & k & -> & Hb & _). rewrite forallb_app. apply andb_true_iff. split.
  - apply forallb_forall. intros a Ha. rewrite Forall_forall in Hb. apply list_elem_of_In, Hb in Ha as (n & Hn & ->).
    apply Z.ltb_lt. by destruct (b64_char_ok n Hn) as (_ & _ & ? & _).
  - apply forallb_forall. intros a Ha. apply list_elem_of_In, elem_of_replicate in Ha as [-> _]. done.
Qed.

Lemma b64decode_encode l : b64decode (b64encode l) = Some l.
Proof.
  unfold b64decode, b64encode, is_ascii, all_chars. rewrite chars_of_chars, groups_ascii. cbn [negb].
  destruct (b64_groups l) as [|a t] eqn:Hg.
  { destruct l as [|a [|b [|c l]]]; done. }
  assert (Ha : Ascii.eqb a PAD = false).
  { destruct l as [|x [|y [|z l]]]; cbn [b64_groups] in Hg; [done|..]; injection Hg as <- _;
      apply b64_char_ok; b64_bounds. }
  rewrite Ha, <- Hg. apply a2b_groups.
Qed.

(** ** URL-safe, with the padding dropped *)

Lemma drop_while_pad k l : Forall (λ a, Ascii.eqb PAD a = false) l → drop_while (Ascii.eqb PAD) (replicate k PAD ++ l) = l.
Proof. intros Hl. induction k as [|k IH]; [|done]. destruct Hl as [|a l Ha Hl]; [done|]. cbn [replicate app drop_while]. by rewrite Ha. Qed.

Lemma pad_sym a : Ascii.eqb PAD a = Ascii.eqb a PAD.
Proof. apply Ascii.eqb_sym. Qed.

Lemma urlsafe_shape l : ∃ body k, map to_urlsafe (b64_groups l) = body ++ replicate k PAD
  ∧ Forall (λ a, Ascii.eqb PAD a = false ∧ code a < 128) body ∧ Z.of_nat k = (- Z.of_nat (length body)) mod 4
  ∧ map from_urlsafe (body ++ replicate k PAD) = b64_groups l.
Proof.
  destruct (groups_shape l) as (body & k & -> & Hb & Hk & _). exists (map to_urlsafe body), k. split_and!.
  - rewrite map_app. f_equal. clear. induction k; [done|]. simpl. by f_equal.
  - clear Hk. induction Hb as [|a body (n & Hn & ->) Hb IH]; [constructor|]. apply Forall_cons_2; [|exact IH]. rewrite pad_sym.
    destruct (b64_char_ok n Hn) as (_ & _ & _ & _ & ? & ?). done.
  - by rewrite length_map.
  - rewrite map_app. f_equal.
    + clear Hk. induction Hb as [|a body (n & Hn & ->) Hb IH]; [done|]. simpl. f_equal; [|done]. by apply b64_char_ok.
    + clear. induction k; [done|]. simpl. by f_equal.
Qed.

Lemma rstrip_pad body k :
  Forall (λ a, Ascii.eqb PAD a = false) body → rstrip_by (Ascii.eqb PAD) (of_chars (body ++ replicate k PAD)) = of_chars body.
Proof.
  intros Hb. unfold rstrip_by. rewrite chars_of_chars, rev_app_distr.
  replace (rev (replicate k PAD)) with (replicate k PAD).
  2: { clear. induction k as [|k IH]; [done|]. cbn [replicate rev]. rewrite <- IH. apply replicate_cons_app. }
  rewrite drop_while_pad, rev_involutive; [done|]. by apply Forall_rev.
Qed.

Lemma ascii_len l : Forall (λ a, code a < 128) l → py_len (of_chars l) = Z.of_nat (length l).
Proof.
  intros Hl. unfold py_len. rewrite chars_of_chars. f_equal. f_equal.
  induction Hl as [|a l Ha Hl IH]; [done|]. cbn [List.filter].
  replace (is_continuation a) with false; [exact (f_equal (cons a) IH)|].
  unfold is_continuation. by rewrite (proj2 (Z.leb_gt _ _)).
Qed.
