(* ===== verification/CryptoEnvelope.v ===== *)
(** * The binary envelope

    [crypto/envelope.py]: magic(3) | version(1) | nonce(12) | ciphertext and
    tag. AES-GCM is a parameter; [aead_laws] is what its documentation
    promises. *)

From Stdlib Require Import ZArith Lia.
From S2P Require Import Prelude PyStr Json Base64.

Definition MAGIC_BYTES : nat := 3.
Definition NONCE_BYTES : nat := 12.
Definition TAG_BYTES : nat := 16.
Definition MIN_ENVELOPE_BYTES : nat := MAGIC_BYTES + 1 + NONCE_BYTES + TAG_BYTES.

Definition crypto_error (msg : string) : exn := raise_exn CryptoError msg.

Definition str_of_nat (n : nat) : string := str_of_Z (Z.of_nat n).

(** [repr] of bytes: printable ASCII as it is, the rest escaped. *)
Definition repr_byte (quote a : ascii) : string :=
  if Ascii.eqb a quote || Ascii.eqb a "092"%char then BS +:+ String a ""
  else if code a =? 9 then BS +:+ "t" else if code a =? 10 then BS +:+ "n" else if code a =? 13 then BS +:+ "r"
  else if (32 <=? code a) && (code a <? 127) then String a ""
  else BS +:+ "x" +:+ hex2 a.
Definition repr_bytes (l : bytes) : string :=
  let quote := if existsb (Ascii.eqb "039"%char) l && negb (existsb (Ascii.eqb "034"%char) l) then "034"%char else "039"%char in
  "b" +:+ String quote (String.concat "" (map (repr_byte quote) l) +:+ String quote "").

Record Envelope := MkEnvelope { env_magic : bytes; env_version : Z; env_nonce : bytes; env_body : bytes }.

Definition b64url_decode (value : string) : res bytes :=
  let padded := value +:+ of_chars (replicate (Z.to_nat ((- py_len value) mod 4)) PAD) in
  match urlsafe_b64decode padded with
  | Some raw => Ok raw
  | None => Err (crypto_error "Value is not valid base64url")
  end.

Definition b64url_encode (raw : bytes) : string := rstrip_by (Ascii.eqb PAD) (urlsafe_b64encode raw).

Definition parse (blob magic : bytes) (version : Z) : res Envelope :=
  if Nat.ltb (length blob) MIN_ENVELOPE_BYTES then
    Err (crypto_error ("Envelope is " +:+ str_of_nat (length blob) +:+ " bytes, and the header alone needs "
                       +:+ str_of_nat MIN_ENVELOPE_BYTES +:+ "."))
  else if negb (Nat.eqb (length magic) MAGIC_BYTES) then
    Err (crypto_error ("An envelope magic is " +:+ str_of_nat MAGIC_BYTES +:+ " bytes; " +:+ repr_bytes magic
                       +:+ " is " +:+ str_of_nat (length magic) +:+ "."))
  else
    let found_magic := take MAGIC_BYTES blob in
    if negb (bool_decide (found_magic = magic)) then
      Err (crypto_error ("Envelope starts with " +:+ repr_bytes found_magic +:+ ", not " +:+ repr_bytes magic +:+ "."))
    else
      let found_version := code (nth MAGIC_BYTES blob "000"%char) in
      if negb (found_version =? version) then
        Err (crypto_error ("Envelope is version " +:+ str_of_Z found_version +:+ ", and this build reads version "
                           +:+ str_of_Z version +:+ ". It was written by a newer client."))
      else
        Ok (MkEnvelope found_magic found_version
              (take NONCE_BYTES (drop (MAGIC_BYTES + 1) blob)) (drop (MAGIC_BYTES + 1 + NONCE_BYTES) blob)).

Definition validate (blob magic : bytes) (version : Z) : res () := _ ← parse blob magic version; Ok ().

Definition pack (nonce body magic : bytes) (version : Z) : res bytes :=
  if negb (Nat.eqb (length nonce) NONCE_BYTES) then
    Err (crypto_error ("An envelope nonce is " +:+ str_of_nat NONCE_BYTES +:+ " bytes; got " +:+ str_of_nat (length nonce) +:+ "."))
  else if negb (Nat.eqb (length magic) MAGIC_BYTES) then
    Err (crypto_error ("An envelope magic is " +:+ str_of_nat MAGIC_BYTES +:+ " bytes; " +:+ repr_bytes magic
                       +:+ " is " +:+ str_of_nat (length magic) +:+ "."))
  else if negb ((0 <=? version) && (version <=? 255)) then
    Err (crypto_error ("An envelope version is a single byte; got " +:+ str_of_Z version +:+ "."))
  else Ok (magic ++ [byte version] ++ nonce ++ body).

(** ** AES-GCM

    [seal key nonce plaintext aad] is the ciphertext with its tag, [open]
    the plaintext or [None] for [InvalidTag]. *)
Section aead.
Context (seal : bytes → bytes → bytes → bytes → bytes) (unseal : bytes → bytes → bytes → bytes → option bytes).

Record aead_laws : Prop := {
  open_seal k n p a : unseal k n (seal k n p a) a = Some p;
  seal_length k n p a : length (seal k n p a) = (length p + TAG_BYTES)%nat;
  (* an authenticated text is the one the plaintext gives *)
  open_sound k n b a p : unseal k n b a = Some p → b = seal k n p a
}.

Definition key_error (key : bytes) : exn :=
  crypto_error ("An envelope key is 32 bytes (AES-256); got " +:+ str_of_nat (length key) +:+ ".").

(** [urandom] is what [os.urandom(12)] gives. *)
Definition encrypt (urandom key plaintext magic : bytes) (version : Z) : res bytes :=
  if negb (Nat.eqb (length key) 32) then Err (key_error key)
  else pack urandom (seal key urandom plaintext []) magic version.

Definition decrypt (key blob magic : bytes) (version : Z) : res bytes :=
  if negb (Nat.eqb (length key) 32) then Err (key_error key)
  else
    parsed ← parse blob magic version;
    match unseal key (env_nonce parsed) (env_body parsed) [] with
    | Some plaintext => Ok plaintext
    | None => Err (crypto_error "Could not decrypt an envelope: wrong key, or the value has been altered.")
    end.
End aead.

(** ** What the format promises *)
Lemma b64url_roundtrip raw : b64url_decode (b64url_encode raw) = Ok raw.
Proof.
  unfold b64url_decode, b64url_encode, urlsafe_b64encode.
  destruct (urlsafe_shape raw) as (body & k & He & Hb & Hk & Hfrom).
  assert (Hp : Forall (λ a, Ascii.eqb PAD a = false) body) by (eapply Forall_impl; [exact Hb|naive_solver]).
  rewrite He, rstrip_pad by done.
  rewrite ascii_len by (eapply Forall_impl; [exact Hb|naive_solver]). rewrite <- Hk, Nat2Z.id.
  unfold urlsafe_b64decode, is_ascii, all_chars. rewrite chars_app, !chars_of_chars.
  replace (forallb _ _) with true.
  { cbn [negb]. by rewrite Hfrom, a2b_groups. }
  symmetry. rewrite forallb_app. apply andb_true_iff. split; apply forallb_forall; intros a Ha.
  - rewrite Forall_forall in Hb. apply list_elem_of_In, Hb in Ha as [_ ?]. by apply Z.ltb_lt.
  - apply list_elem_of_In, elem_of_replicate in Ha as [-> _]. done.
Qed.

Lemma pack_ok nonce body magic version blob :
  pack nonce body magic version = Ok blob ↔
    length nonce = NONCE_BYTES ∧ length magic = MAGIC_BYTES ∧ 0 <= version <= 255
    ∧ blob = magic ++ [byte version] ++ nonce ++ body.
Proof.
  unfold pack. destruct (Nat.eqb_spec (length nonce) NONCE_BYTES) as [Hn|]; simpl; [|naive_solver].
  destruct (Nat.eqb_spec (length magic) MAGIC_BYTES) as [Hm|]; simpl; [|naive_solver].
  destruct ((0 <=? version) && (version <=? 255)) eqn:Hv; simpl; [|split; [done|lia]].
  split; [intros [= <-]; split_and!; [done..|lia|lia|done]|intros (_ & _ & _ & ->); done].
Qed.

Lemma parse_ok blob magic version e :
  parse blob magic version = Ok e ↔
    env_magic e = magic ∧ env_version e = version ∧ (TAG_BYTES <= length (env_body e))%nat
    ∧ pack (env_nonce e) (env_body e) magic version = Ok blob.
Proof.
  rewrite pack_ok. unfold parse. split.
  - destruct (Nat.ltb_spec (length blob) MIN_ENVELOPE_BYTES) as [|Hlen]; [done|].
    destruct (Nat.eqb_spec (length magic) MAGIC_BYTES) as [Hm|]; [|done]. cbn [negb].
    destruct (bool_decide _) eqn:Hmagic; [|done]. apply bool_decide_eq_true in Hmagic. cbn [negb].
    destruct (_ =? version) eqn:Hv; [|done]. apply Z.eqb_eq in Hv. intros [= <-].
    unfold MIN_ENVELOPE_BYTES, MAGIC_BYTES, NONCE_BYTES, TAG_BYTES in *. cbn [negb env_magic env_version env_nonce env_body].
    destruct blob as [|m1 [|m2 [|m3 [|v rest]]]]; simpl in Hlen; try lia. simpl in *.
    pose proof (code_range v). split_and!; try done; try lia.
    + rewrite length_drop. lia.
    + rewrite length_take, drop_0. lia.
    + rewrite drop_0. by rewrite <- Hmagic, <- Hv, byte_code, take_drop.
  - unfold MIN_ENVELOPE_BYTES, MAGIC_BYTES, NONCE_BYTES, TAG_BYTES.
    destruct e as [em ev en eb]; cbn [env_magic env_version env_nonce env_body].
    intros (-> & -> & Hb & Hn & Hm & Hv & ->). rewrite !length_app. cbn [length].
    rewrite (proj2 (Nat.ltb_ge _ _)) by lia. rewrite (proj2 (Nat.eqb_eq _ _)) by done. cbn [negb].
    destruct magic as [|m1 [|m2 [|m3 [|? ?]]]]; try done.
    set (blob := [m1; m2; m3] ++ [byte version] ++ en ++ eb).
    assert (E1 : take 12 (drop (3 + 1) blob) = en) by (change (take 12 (en ++ eb) = en); by apply take_app_length').
    assert (E2 : drop (3 + 1 + 12) blob = eb) by (change (drop 12 (en ++ eb) = eb); by apply drop_app_length').
    rewrite E1, E2. change (take 3 blob) with [m1; m2; m3]. change (nth 3 blob "000"%char) with (byte version).
    rewrite bool_decide_true by done. rewrite code_byte by lia. by rewrite Z.eqb_refl.
Qed.

(** The envelope is exact. A blob parses precisely when it is the packing
    of its parts with room for the tag, and the parts come back; under a key
    of the right size it decrypts to a text precisely when encrypting that
    text with some nonce gives it, so nothing but a whole, unaltered envelope
    of that magic and version opens. The text of a key or blob in the
    URL-safe alphabet decodes to itself without its padding. *)
Theorem envelope_exact seal unseal key blob magic version :
  aead_laws seal unseal →
  (∀ e, parse blob magic version = Ok e ↔
     env_magic e = magic ∧ env_version e = version ∧ (TAG_BYTES <= length (env_body e))%nat
     ∧ pack (env_nonce e) (env_body e) magic version = Ok blob)
  ∧ (validate blob magic version = Ok () ↔ ∃ nonce body, (TAG_BYTES <= length body)%nat ∧ pack nonce body magic version = Ok blob)
  ∧ (∀ plaintext, decrypt unseal key blob magic version = Ok plaintext ↔
       ∃ nonce, encrypt seal nonce key plaintext magic version = Ok blob)
  ∧ b64url_decode (b64url_encode blob) = Ok blob.
Proof.
  intros Hl. split_and!.
  - intros e. apply parse_ok.
  - unfold validate. split.
    + destruct (parse blob magic version) as [e|] eqn:E; [|done]. intros _. apply parse_ok in E as (_ & _ & Hb & Hp). by eauto.
    + intros (nonce & body & Hb & Hp).
      assert (E : parse blob magic version = Ok (MkEnvelope magic version nonce body)) by (by apply parse_ok). by rewrite E.
  - intros plaintext. unfold decrypt, encrypt. destruct (Nat.eqb_spec (length key) 32) as [Hk|Hk]; cbn [negb]; [|naive_solver]. split.
    + destruct (parse blob magic version) as [e|] eqn:E; [|done]. simpl.
      destruct (unseal _ _ _ _) as [p|] eqn:Ho; [|done]. intros [= ->]. apply parse_ok in E as (_ & _ & _ & Hp).
      apply (open_sound _ _ Hl) in Ho. exists (env_nonce e). by rewrite <- Ho.
    + intros (nonce & Hp).
      assert (E : parse blob magic version = Ok (MkEnvelope magic version nonce (seal key nonce plaintext []))).
      { apply parse_ok. split_and!; [done|done| |done]. simpl. rewrite (seal_length _ _ Hl). lia. }
      rewrite E. simpl. by rewrite (open_seal _ _ Hl).
  - apply b64url_roundtrip.
Qed.

(** ** A toy cipher with the laws *)
Definition toy_tag (k n p a : bytes) : bytes := take TAG_BYTES (k ++ n ++ a ++ replicate TAG_BYTES "000"%char).
Definition toy_seal (k n p a : bytes) : bytes := p ++ toy_tag k n p a.
Definition toy_open (k n b a : bytes) : option bytes :=
  let p := take (length b - TAG_BYTES) b in if bool_decide (b = toy_seal k n p a) then Some p else None.

Lemma toy_tag_length k n p a : length (toy_tag k n p a) = TAG_BYTES.
Proof. unfold toy_tag. rewrite length_take, !length_app, length_replicate. lia. Qed.

Lemma toy_aead : aead_laws toy_seal toy_open.
Proof.
  split.
  - intros k n p a. unfold toy_open. replace (take _ (toy_seal k n p a)) with p; [by rewrite bool_decide_true|].
    unfold toy_seal. rewrite length_app, toy_tag_length, Nat.add_sub. by rewrite take_app_length.
  - intros k n p a. unfold toy_seal. by rewrite length_app, toy_tag_length.
  - intros k n b a p. unfold toy_open. destruct (bool_decide _) eqn:Hb; [|done]. apply bool_decide_eq_true in Hb.
    by intros [= <-].
Qed.

Definition w_nonce : bytes := replicate 12 "n"%char.

Lemma envelope_exact_witness :
  let key := chars "0123456789abcdef0123456789abcdef" in
  let blob := chars "CPE" ++ [byte 1] ++ w_nonce ++ chars "Anna0123456789abcdef" in
  decrypt toy_open key blob (chars "CPE") 1 = Ok (chars "Anna") ∧ validate blob (chars "CPE") 1 = Ok ().
Proof.
  intros key blob. destruct (envelope_exact toy_seal toy_open key blob (chars "CPE") 1 toy_aead) as (_ & Hv & Hd & _).
  split.
  - apply Hd. exists w_nonce. vm_compute. reflexivity.
  - apply Hv. exists w_nonce, (chars "Anna0123456789abcdef"). split; [vm_compute; lia|vm_compute; reflexivity].
Defined.
