(* ===== verification/CryptoFields.v ===== *)
(** * Field encryption

    [crypto/fields.py]: a stored value is [pa1:<key id>:<base64 of nonce,
    ciphertext and tag>]. The store is the [FieldCrypto] object with its
    cache of decoded keys. AES-GCM, HMAC-SHA-256, the environment
    ([resolver]) and the nonce are parameters. A configured key id or
    variable that is not a text is refused when the object is built; the
    code refuses it when it is used. *)

From Stdlib Require Import ZArith Lia.
From S2P Require Import Prelude PyStr Json Base64 CryptoEnvelope.

Definition VERSION : string := "pa1".
Definition _FOREIGN_VERSION : string := "sp1".
Definition KEY_BYTES : nat := 32.

Definition key_id_char (a : ascii) : bool := is_lower a || is_digit a || Ascii.eqb a "_"%char.

(** [^[a-z0-9_]{1,16}$] *)
Definition _KEY_ID_RE (s : string) : bool :=
  dollar (λ s, let l := chars s in Nat.leb 1 (length l) && Nat.leb (length l) 16 && forallb key_id_char l) s.

Definition _INDEX_CACHE_ID : string := "@index".

Record FieldCrypto := MkCrypto {
  fc_key_id : string; fc_keys : list (string * string); fc_index_key_var : string; fc_cache : list (string * bytes)
}.

Definition __init__ (key_id : string) (keys : list (string * string)) (index_key_var : string) : FieldCrypto :=
  MkCrypto key_id keys index_key_var [].

Definition cached (id : string) (material : bytes) (c : FieldCrypto) : FieldCrypto :=
  MkCrypto (fc_key_id c) (fc_keys c) (fc_index_key_var c) (dict_set id material (fc_cache c)).

(** [settings.get(k) or ""] *)
Definition text_setting (k : string) (settings : list (string * json)) : res string :=
  match dict_get k settings with
  | Some (JStr s) => Ok s
  | Some v => if truthy v then Err (raise_exn TypeError "expected string") else Ok ""
  | None => Ok ""
  end.

Definition from_config (py_str : json → string) (config : list (string * json)) : res FieldCrypto :=
  settings ← match dict_get "crypto" config with
             | Some v =>
                 if truthy v then match v with JObj d => Ok d | _ => Err (raise_exn AttributeError "object has no attribute 'get'") end
                 else Ok []
             | None => Ok []
             end;
  raw_keys ← match dict_get "keys" settings with
             | Some v =>
                 if truthy v then
                   match v with
                   | JObj d => Ok d
                   | _ => Err (crypto_error (sq "config['crypto']['keys'] must be a mapping of key id -> env var name."))
                   end
                 else Ok []
             | None => Ok []
             end;
  key_id ← text_setting "key" settings;
  index_key ← text_setting "index_key" settings;
  Ok (__init__ key_id (map (λ kv, (kv.1, match kv.2 with JStr s => s | v => py_str v end)) raw_keys) index_key).

(** ** The format *)

Definition malformed : exn :=
  crypto_error ("Malformed " +:+ repr VERSION +:+ " value: expected " +:+ VERSION +:+ ":<key_id>:<base64 payload>").

(** [split]: the key id and the payload, [None] when the value does not claim
    the format. *)
Definition split (value : string) : res (option (string * string)) :=
  if negb (startswith (VERSION +:+ ":") value) then Ok None
  else
    let '(key_id, found, payload) := partition ":"%char (of_chars (drop 4 (chars value))) in
    if negb found || String.eqb payload "" || negb (_KEY_ID_RE key_id) then Err malformed
    else Ok (Some (key_id, payload)).

Definition is_encrypted (value : option string) : bool :=
  match value with Some v => startswith (VERSION +:+ ":") v | None => false end.

Definition key_id_of (value : option string) : res (option string) :=
  match value with
  | None | Some EmptyString => Ok None
  | Some v => parts ← split v; Ok (option_map fst parts)
  end.

Definition _aad (key_id : string) : bytes := chars (VERSION +:+ ":" +:+ key_id).

(** [raw.decode("utf-8")] succeeds *)
Definition valid_utf8 (raw : bytes) : bool := bool_decide (decode_ignore (length raw) raw = raw).

Definition stored (key_id : string) (raw : bytes) : string := VERSION +:+ ":" +:+ key_id +:+ ":" +:+ b64encode raw.

Section fields.
Context (seal : bytes → bytes → bytes → bytes → bytes) (unseal : bytes → bytes → bytes → bytes → option bytes).
Context (hmac_sha256_hex : bytes → bytes → string) (resolver : string → option string).

Definition hint : string := "Generate one with: python3 src/app.py crypto key".

(** ** Key material *)

Definition _assert_key_id (key_id : string) : res string :=
  if _KEY_ID_RE key_id then Ok key_id
  else Err (crypto_error (repr key_id +:+ " is not a usable key id. Use up to 16 of a-z, 0-9 and underscore.")).

Definition current_key_id : prog FieldCrypto string :=
  c ← get_st;
  if String.eqb (fc_key_id c) "" then
    raise (crypto_error (sq "config['crypto']['key'] does not name a key to encrypt with. " +:+ hint))
  else lift_res (_assert_key_id (fc_key_id c)).

Definition _material (variable label : string) : res bytes :=
  match resolver variable with
  | None | Some EmptyString =>
      Err (crypto_error ("The environment variable " +:+ variable +:+ ", holding " +:+ label +:+ ", is not set. " +:+ hint))
  | Some value =>
      match b64decode value with
      | None =>
          Err (crypto_error (variable +:+ ", holding " +:+ label +:+ ", must be 32 bytes of base64. " +:+ hint))
      | Some raw =>
          if Nat.eqb (length raw) KEY_BYTES then Ok raw
          else Err (crypto_error (variable +:+ ", holding " +:+ label +:+ ", must be 32 bytes of base64, and decoded to "
                                  +:+ str_of_nat (length raw) +:+ ". " +:+ hint))
      end
  end.

Definition _key (key_id : string) : prog FieldCrypto bytes :=
  _ ← lift_res (_assert_key_id key_id);
  c ← get_st;
  match dict_get key_id (fc_cache c) with
  | Some m => mret m
  | None =>
      match dict_get key_id (fc_keys c) with
      | None | Some EmptyString =>
          raise (crypto_error ("No key " +:+ repr key_id +:+ sq " in config['crypto']['keys']. A value encrypted under a key id can only be read while that id is still listed, so removing one is permanent."))
      | Some variable =>
          material ← lift_res (_material variable ("key " +:+ repr key_id));
          _ ← stmt (λ c, (cached key_id material c, ()));
          mret material
      end
  end.

Definition _index_key : prog FieldCrypto bytes :=
  c ← get_st;
  match dict_get _INDEX_CACHE_ID (fc_cache c) with
  | Some m => mret m
  | None =>
      if String.eqb (fc_index_key_var c) "" then
        raise (crypto_error (sq "config['crypto']['index_key'] is not set, so blind_index() has no key. " +:+ hint))
      else
        material ← lift_res (_material (fc_index_key_var c) "the blind index key");
        _ ← stmt (λ c, (cached _INDEX_CACHE_ID material c, ()));
        mret material
  end.

(** ** Encrypting and decrypting. [urandom] is what [os.urandom(12)] gives. *)

Definition encrypt (urandom : bytes) (plaintext : string) (key_id : option string) : prog FieldCrypto string :=
  chosen ← match key_id with
           | Some (String _ _ as id) => mret id
           | _ => current_key_id
           end;
  key ← _key chosen;
  mret (stored chosen (urandom ++ seal key urandom (chars plaintext) (_aad chosen))).

Definition decrypt (value : option string) : prog FieldCrypto (option string) :=
  match value with
  | None | Some EmptyString => mret value
  | Some v =>
      parts ← lift_res (split v);
      match parts with
      | None =>
          if startswith (_FOREIGN_VERSION +:+ ":") v then
            raise (crypto_error ("This value is in the " +:+ repr _FOREIGN_VERSION +:+ " field-encryption format, which uses a different cipher and nonce length. This module reads "
                                 +:+ repr VERSION +:+ " (AES-256-GCM) and cannot open it."))
          else mret value
      | Some (key_id, payload) =>
          match b64decode payload with
          | None => raise (crypto_error ("Encrypted value under key " +:+ repr key_id +:+ " is not base64"))
          | Some raw =>
              if Nat.ltb (length raw) (NONCE_BYTES + TAG_BYTES) then
                raise (crypto_error ("Encrypted value under key " +:+ repr key_id +:+ " is truncated: "
                                     +:+ str_of_nat (length raw) +:+ " bytes, and the nonce and tag alone need "
                                     +:+ str_of_nat (NONCE_BYTES + TAG_BYTES) +:+ "."))
              else
                key ← _key key_id;
                match unseal key (take NONCE_BYTES raw) (drop NONCE_BYTES raw) (_aad key_id) with
                | None => raise (crypto_error ("Could not decrypt a value under key " +:+ repr key_id +:+ ": wrong key, or the value has been altered"))
                | Some plaintext =>
                    if valid_utf8 plaintext then mret (Some (of_chars plaintext))
                    else raise (raise_exn UnicodeError "'utf-8' codec can't decode")
                end
          end
      end
  end.

Definition blind_index (value : string) : prog FieldCrypto string :=
  key ← _index_key; mret (hmac_sha256_hex key (chars value)).
End fields.

(** [generate_key], of 32 random bytes *)
Definition generate_key (urandom : bytes) : string := b64encode urandom.
