(* ===== verification/CryptoFieldsProps.v ===== *)
(** * What a stored value promises *)

From Stdlib Require Import ZArith Lia.
From S2P Require Import Prelude PyStr Json Base64 CryptoEnvelope CryptoFields.

(** A key id has no colon and is not empty. *)
Lemma key_id_plain kid : _KEY_ID_RE kid = true → has_char ":"%char kid = false ∧ kid ≠ "".
Proof.
  assert (Hp : ∀ l : list ascii, forallb key_id_char l = true → existsb (Ascii.eqb ":"%char) l = false).
  { intros l. induction l as [|a l IH]; [done|]. cbn [forallb existsb]. rewrite andb_true_iff. intros [Ha Hl].
    rewrite IH by done. destruct (Ascii.eqb_spec ":"%char a) as [<-|]; [discriminate Ha|done]. }
  unfold _KEY_ID_RE, dollar, has_char. rewrite orb_true_iff. intros [H|H].
  - rewrite !andb_true_iff in H. destruct H as [[H1 _] H]. split; [by apply Hp|]. by intros ->.
  - destruct (rev (chars kid)) as [|a r] eqn:Hr; [done|].
    destruct (Ascii.eqb_spec a "010"%char) as [->|]; [|done]. rewrite !andb_true_iff, chars_of_chars in H.
    destruct H as [_ H]. assert (Hk : chars kid = rev r ++ ["010"%char]) by (by rewrite <- (rev_involutive (chars kid)), Hr).
    split; [|by intros ->]. rewrite Hk, existsb_app. by rewrite Hp.
Qed.

Lemma b64encode_nonempty raw : raw ≠ [] → b64encode raw ≠ "".
Proof. destruct raw as [|a [|b [|c l]]]; done. Qed.

Lemma startswith_app p s : startswith p (p +:+ s) = true.
Proof.
  unfold startswith. induction p as [|a p IH]; [by destruct s|].
  change (String a p +:+ s) with (String a (p +:+ s)). cbn [String.prefix]. destruct (ascii_dec a a); done.
Qed.

Lemma claims_format kid raw : startswith (VERSION +:+ ":") (stored kid raw) = true.
Proof. apply (startswith_app "pa1:"). Qed.

Lemma split_stored kid raw : _KEY_ID_RE kid = true → raw ≠ [] → split (stored kid raw) = Ok (Some (kid, b64encode raw)).
Proof.
  intros Hk Hr. destruct (key_id_plain kid Hk) as [Hc _]. unfold split.
  rewrite claims_format. cbn [negb].
  change (drop 4 (chars (stored kid raw))) with (chars (kid +:+ String ":" (b64encode raw))).
  rewrite of_chars_chars, partition_join by done. cbn [negb orb].
  rewrite (proj2 (String.eqb_neq _ _)) by (by apply b64encode_nonempty). by rewrite Hk.
Qed.

Lemma split_some v kid payload :
  split v = Ok (Some (kid, payload)) → startswith "pa1:" v = true ∧ _KEY_ID_RE kid = true ∧ payload ≠ "".
Proof.
  unfold split. change (VERSION +:+ ":") with "pa1:". destruct (startswith "pa1:" v); [|done]. cbn [negb].
  destruct (partition _ _) as [[k found] p]. destruct found; cbn [negb orb]; [|done].
  destruct (String.eqb_spec p ""); [done|]. destruct (_KEY_ID_RE k) eqn:Hk; [|done]. by intros [= <- <-].
Qed.

Lemma split_none v : split v = Ok None ↔ startswith "pa1:" v = false.
Proof.
  unfold split. change (VERSION +:+ ":") with "pa1:". destruct (startswith "pa1:" v); [|done]. cbn [negb].
  destruct (partition _ _) as [[k found] p]. by destruct (_ || _).
Qed.

(** Every key in the cache is one AES-256 takes. *)
Definition cache_ok (c : FieldCrypto) : Prop := ∀ id m, dict_get id (fc_cache c) = Some m → length m = KEY_BYTES.

Section fields.
Context (seal : bytes → bytes → bytes → bytes → bytes) (unseal : bytes → bytes → bytes → bytes → option bytes).
Context (resolver : string → option string).

Abbreviation _key := (_key resolver).

(** A key that was given out is given out again. *)
Lemma key_spec kid w w' m :
  _key kid w = (w', Ok m) →
  _KEY_ID_RE kid = true ∧ _key kid w' = (w', Ok m) ∧ (cache_ok (w_st w) → length m = KEY_BYTES ∧ cache_ok (w_st w')).
Proof.
  unfold CryptoFields._key, _assert_key_id. destruct (_KEY_ID_RE kid) eqn:Hk; [|done].
  erewrite bind_ok by done. erewrite bind_ok by done.
  destruct (dict_get kid (fc_cache (w_st w))) as [m0|] eqn:Hc.
  { intros [= <- <-]. split_and!; [done| |intros Hok; split; [by eapply Hok|done]].
    erewrite bind_ok by done. erewrite bind_ok by done. by rewrite Hc. }
  destruct (dict_get kid (fc_keys (w_st w))) as [[|a v]|]; [done| |done].
  destruct (_material resolver (String a v) _) as [material|e] eqn:Hm; [|done].
  erewrite bind_ok by done. erewrite bind_ok by done. intros [= <- <-].
  assert (Hl : length material = KEY_BYTES).
  { revert Hm. unfold _material. destruct (resolver _) as [[|b s]|]; try done.
    destruct (b64decode _) as [raw|]; [|done]. destruct (Nat.eqb_spec (length raw) KEY_BYTES); [|done]. by intros [= <-]. }
  split_and!; [done| |].
  - erewrite bind_ok by done. erewrite bind_ok by done. simpl. rewrite dict_get_set. by rewrite decide_True.
  - intros Hok. split; [done|]. intros id x. simpl. rewrite dict_get_set. destruct (decide _); [by intros [= <-]|apply Hok].
Qed.

Lemma key_raises kid w w' e : _key kid w = (w', Err e) → exn_cls e = CryptoError.
Proof.
  unfold CryptoFields._key, _assert_key_id. destruct (_KEY_ID_RE kid); [|by intros [= _ <-]].
  erewrite bind_ok by done. erewrite bind_ok by done. destruct (dict_get kid (fc_cache _)); [done|].
  destruct (dict_get kid (fc_keys _)) as [[|a v]|]; try by intros [= _ <-].
  unfold _material. destruct (resolver _) as [[|b s]|]; try by intros [= _ <-].
  destruct (b64decode _) as [raw|]; [|by intros [= _ <-]]. destruct (Nat.eqb _ _); [done|by intros [= _ <-]].
Qed.

Definition chosen_id (key_id : option string) (c : FieldCrypto) : string :=
  match key_id with Some (String _ _ as id) => id | _ => fc_key_id c end.

(** What encrypting comes down to. *)
Lemma encrypt_spec nonce plaintext key_id w w' v :
  encrypt seal resolver nonce plaintext key_id w = (w', Ok v) ↔
  (chosen_id key_id (w_st w) ≠ "" ∧ ∃ m, _key (chosen_id key_id (w_st w)) w = (w', Ok m)
    ∧ v = stored (chosen_id key_id (w_st w)) (nonce ++ seal m nonce (chars plaintext) (_aad (chosen_id key_id (w_st w))))).
Proof.
  unfold encrypt. set (kid := chosen_id key_id (w_st w)).
  assert (Hc : (match key_id with Some (String _ _ as id) => mret id | _ => current_key_id end) w
               = if String.eqb kid "" then (w, Err (crypto_error (sq "config['crypto']['key'] does not name a key to encrypt with. " +:+ hint)))
                 else if match key_id with Some (String _ _) => true | _ => _KEY_ID_RE kid end then (w, Ok kid)
                 else (w, Err (crypto_error (repr kid +:+ " is not a usable key id. Use up to 16 of a-z, 0-9 and underscore.")))).
  { unfold kid, chosen_id, current_key_id, _assert_key_id.
    destruct key_id as [[|a s]|]; try done; (erewrite bind_ok by done; destruct (String.eqb _ ""); [done|]; by destruct (_KEY_ID_RE _)). }
  unfold mbind at 1, prog_bind at 1. rewrite Hc. destruct (String.eqb_spec kid "") as [He|Hne]; [naive_solver|].
  destruct (match key_id with Some (String _ _) => true | _ => _KEY_ID_RE kid end) eqn:Hre.
  - unfold mbind, prog_bind. destruct (_key kid w) as [w1 [m|e]] eqn:E; [|naive_solver].
    split; [intros [= <- <-]; split; [done|]; by exists m|]. intros (_ & m' & [= <- <-] & ->). done.
  - split; [done|]. intros (_ & m & Hk & _). apply key_spec in Hk as (Hk & _). destruct key_id as [[|]|]; congruence.
Qed.

(** The value a key opens. *)
Lemma decrypt_stored kid m raw w w' :
  _KEY_ID_RE kid = true → (NONCE_BYTES + TAG_BYTES <= length raw)%nat → _key kid w = (w', Ok m) →
  decrypt unseal resolver (Some (stored kid raw)) w =
    match unseal m (take NONCE_BYTES raw) (drop NONCE_BYTES raw) (_aad kid) with
    | None => (w', Err (crypto_error ("Could not decrypt a value under key " +:+ repr kid +:+ ": wrong key, or the value has been altered")))
    | Some p => if valid_utf8 p then (w', Ok (Some (of_chars p))) else (w', Err (raise_exn UnicodeError "'utf-8' codec can't decode"))
    end.
Proof.
  intros Hk Hlen Hkey. unfold decrypt. destruct (stored kid raw) as [|a s] eqn:Hs; [done|]. rewrite <- Hs.
  rewrite split_stored by (done || (intros ->; simpl in Hlen; lia)). erewrite bind_ok by done. cbn match.
  rewrite b64decode_encode. rewrite (proj2 (Nat.ltb_ge _ _)) by done. rewrite (bind_ok _ _ _ _ _ Hkey).
  destruct (unseal _ _ _ _) as [p|]; [|done]. by destruct (valid_utf8 p).
Qed.
End fields.

(** C20: What was encrypted can be read. The value names the key it is under
    without needing that key, and as long as that key's material can be had -
    from this object or another one, whatever the current key then is - it
    decrypts to the text it was made from. Keys handed to the cipher always
    have 32 bytes. *)
Theorem field_roundtrip seal unseal resolver nonce plaintext key_id w w1 v :
  aead_laws seal unseal → length nonce = NONCE_BYTES → valid_utf8 (chars plaintext) = true →
  encrypt seal resolver nonce plaintext key_id w = (w1, Ok v) →
  let kid := chosen_id key_id (w_st w) in
  is_encrypted (Some v) = true ∧ key_id_of (Some v) = Ok (Some kid)
  ∧ decrypt unseal resolver (Some v) w1 = (w1, Ok (Some plaintext))
  ∧ ∃ m, _key resolver kid w = (w1, Ok m)
      ∧ (cache_ok (w_st w) → length m = KEY_BYTES ∧ cache_ok (w_st w1))
      ∧ ∀ resolver' w2 w3, _key resolver' kid w2 = (w3, Ok m) →
          decrypt unseal resolver' (Some v) w2 = (w3, Ok (Some plaintext)).
Proof.
  intros Hl Hn Hu He kid. apply (encrypt_spec seal unseal) in He as (_ & m & Hk & ->). fold kid in Hk |- *.
  destruct (key_spec _ _ _ _ _ Hk) as (Hre & Hk1 & Hok).
  set (raw := nonce ++ seal m nonce (chars plaintext) (_aad kid)).
  assert (Hlen : (NONCE_BYTES + TAG_BYTES <= length raw)%nat).
  { unfold raw. rewrite length_app, Hn, (seal_length _ _ Hl). lia. }
  assert (Hdec : ∀ resolver' w2 w3, _key resolver' kid w2 = (w3, Ok m) →
            decrypt unseal resolver' (Some (stored kid raw)) w2 = (w3, Ok (Some plaintext))).
  { intros resolver' w2 w3 Hk2. rewrite (decrypt_stored unseal resolver' kid m raw w2 w3) by done.
    unfold raw. rewrite take_app_length', drop_app_length' by done. rewrite (open_seal _ _ Hl), Hu. by rewrite of_chars_chars. }
  split_and!.
  - apply claims_format.
  - unfold key_id_of. destruct (stored kid raw) as [|a s] eqn:Hs; [done|]. rewrite <- Hs, split_stored; [done|done|].
    intros ->. simpl in Hlen. lia.
  - by apply Hdec.
  - by exists m.
Qed.

(** C19: Ciphertext is never passed off as text. A value decrypts to itself
    only when it carries neither this format nor the foreign one; otherwise
    it is an error, or what its named key authenticates, label included: the
    stored bytes are the very ones that encrypting the result gives. *)
Theorem decrypt_sound seal unseal resolver v w w' r :
  aead_laws seal unseal → v ≠ "" →
  decrypt unseal resolver (Some v) w = (w', r) →
  match r with
  | Err e => exn_cls e = CryptoError
             ∨ (exn_cls e = UnicodeError ∧ ∃ kid payload raw m p, split v = Ok (Some (kid, payload)) ∧ b64decode payload = Some raw
                  ∧ drop NONCE_BYTES raw = seal m (take NONCE_BYTES raw) p (_aad kid) ∧ valid_utf8 p = false)
  | Ok result =>
      (startswith "pa1:" v = false ∧ startswith "sp1:" v = false ∧ result = Some v ∧ w' = w)
      ∨ (∃ kid payload raw m text, split v = Ok (Some (kid, payload)) ∧ b64decode payload = Some raw
           ∧ _key resolver kid w = (w', Ok m) ∧ result = Some text
           ∧ drop NONCE_BYTES raw = seal m (take NONCE_BYTES raw) (chars text) (_aad kid))
  end.
Proof.
  intros Hl Hne. unfold decrypt. destruct v as [|a s]; [done|]. set (v := String a s) in *.
  destruct (split v) as [[[kid payload]|]|e] eqn:Hs.
  - erewrite bind_ok by done. cbn match. destruct (b64decode payload) as [raw|] eqn:Hb; [|intros [= <- <-]; by left].
    destruct (Nat.ltb _ _); [intros [= <- <-]; by left|].
    destruct (_key resolver kid w) as [w1 [m|e]] eqn:Hk.
    + rewrite (bind_ok _ _ _ _ _ Hk). destruct (unseal _ _ _ _) as [p|] eqn:Ho; [|intros [= <- <-]; by left].
      apply (open_sound _ _ Hl) in Ho. destruct (valid_utf8 p) eqn:Hu; intros [= <- <-].
      * right. exists kid, payload, raw, m, (of_chars p). rewrite chars_of_chars. by split_and!.
      * right. split; [done|]. by exists kid, payload, raw, m, p.
    + rewrite (bind_err _ _ _ _ _ Hk). intros [= <- <-]. left. eapply key_raises; exact Hk.
  - erewrite bind_ok by done. cbn match. apply split_none in Hs. change (_FOREIGN_VERSION +:+ ":") with "sp1:".
    destruct (startswith "sp1:" v) eqn:Hf; intros [= <- <-]; [by left|left; by split_and!].
  - erewrite bind_err by done. intros [= <- <-]. left. revert Hs. unfold split. destruct (negb _); [done|]. destruct (partition _ _) as [[k f] p].
    destruct (_ || _); [|done]. by intros [= <-].
Qed.

(** ** A concrete value *)
Definition w_resolver (v : string) : option string :=
  if String.eqb v "K1" then Some "MDEyMzQ1Njc4OWFiY2RlZjAxMjM0NTY3ODlhYmNkZWY=" else None.
Definition w_crypto : world FieldCrypto := World (__init__ "k1" [("k1", "K1")] "") [] 0.
Definition w_value : string := "pa1:k1:bm5ubm5ubm5ubm5uQW5uYTAxMjM0NTY3ODlhYmNkZWY=".

Lemma field_roundtrip_witness :
  let w1 := (encrypt toy_seal w_resolver w_nonce "Anna" None w_crypto).1 in
  (encrypt toy_seal w_resolver w_nonce "Anna" None w_crypto).2 = Ok w_value
  ∧ (decrypt toy_open w_resolver (Some w_value) w1).2 = Ok (Some "Anna").
Proof.
  intros w1.
  assert (Hr : (encrypt toy_seal w_resolver w_nonce "Anna" None w_crypto).2 = Ok w_value) by (vm_compute; reflexivity).
  split; [exact Hr|]. unfold w1. clear w1.
  destruct (encrypt toy_seal w_resolver w_nonce "Anna" None w_crypto) as [w1 r] eqn:He. cbn [fst snd] in *. subst r.
  assert (Hu : valid_utf8 (chars "Anna") = true) by (vm_compute; reflexivity).
  destruct (field_roundtrip toy_seal toy_open w_resolver w_nonce "Anna" None w_crypto w1 w_value toy_aead eq_refl Hu He)
    as (_ & _ & Hd & _). by rewrite Hd.
Defined.

Lemma decrypt_sound_witness :
  (decrypt toy_open w_resolver (Some w_value) w_crypto).2 = Ok (Some "Anna")
  ∧ ∃ kid m raw text, split w_value = Ok (Some (kid, raw)) ∧ (_key w_resolver kid w_crypto).2 = Ok m ∧ text = "Anna"
      ∧ ∃ bytes, b64decode raw = Some bytes ∧ drop NONCE_BYTES bytes = toy_seal m (take NONCE_BYTES bytes) (chars text) (_aad kid).
Proof.
  assert (Hr : (decrypt toy_open w_resolver (Some w_value) w_crypto).2 = Ok (Some "Anna")) by (vm_compute; reflexivity).
  split; [exact Hr|]. destruct (decrypt toy_open w_resolver (Some w_value) w_crypto) as [w1 r] eqn:He. cbn [snd] in Hr. subst r.
  assert (Hne : w_value ≠ "") by discriminate.
  destruct (decrypt_sound toy_seal toy_open w_resolver w_value w_crypto w1 _ toy_aead Hne He)
    as [(Hf & _)|(kid & payload & raw & m & text & Hs & Hb & Hk & Ht & Hseal)]; [discriminate Hf|].
  exists kid, m, payload, text. injection Ht as <-. split; [exact Hs|]. split; [by rewrite Hk|]. split; [reflexivity|]. by exists raw.
Defined.
