(* ===== verification/CryptoCommands.v ===== *)
(** * Key generation and rotation

    [crypto/commands.py] and [crypto/_service.py]. A table is its rows of an
    id and a value, and the ids are integers. [rs_events] is what the rest of
    the world does before each statement of the run: a change of the table,
    and perhaps a failure of the statement. [rs_nonce] counts the nonces
    drawn. The connection is a parameter; a table with no such columns fails
    its statements. *)

From Stdlib Require Import ZArith Lia.
From S2P Require Import Prelude PyStr Json Sql Base64 CryptoEnvelope CryptoFields.

Definition row : Type := Z * option string.

Record event := Event { ev_change : list row → list row; ev_fault : option exn }.

Record rotation := Rotation {
  rs_crypto : FieldCrypto; rs_rows : list row; rs_events : list event; rs_nonce : nat
}.

(** ** Names *)
Definition _COLUMN_RE : string → bool := plain_column.
Definition _TABLE_RE : string → bool := plain_table.

Definition cmd_key {S} (urandom : bytes) : prog S Z :=
  _ ← out (generate_key urandom);
  _ ← out "";
  _ ← out (sq "Put it in the environment variable named by config['crypto']['keys'],");
  _ ← out "not in a config file. Keep the previous key listed until:";
  _ ← out "  python3 src/app.py crypto rotate --table T --column C";
  _ ← out "reports nothing left under it.";
  mret 0.

(** ** Statements *)

(** What happens before a statement, and the statement's failure. *)
Definition interleave : prog rotation () :=
  s ← get_st;
  match rs_events s with
  | [] => mret ()
  | e :: events =>
      _ ← set_st (Rotation (rs_crypto s) (ev_change e (rs_rows s)) events (rs_nonce s));
      match ev_fault e with Some err => raise err | None => mret () end
  end.

Definition id_le (x y : row) : Prop := x.1 <= y.1.
#[export] Instance id_le_dec x y : Decision (id_le x y).
Proof. unfold id_le. apply _. Defined.

(** [SELECT ... WHERE id > cursor ORDER BY id LIMIT batch] *)
Definition page (cursor : option Z) (batch : Z) (rows : list row) : list row :=
  take (Z.to_nat batch)
    (order_by id_le (select_where (λ r, match cursor with Some c => c <? r.1 | None => true end) rows)).

Definition read_page (cursor : option Z) (batch : Z) : prog rotation (list row) :=
  _ ← interleave; s ← get_st; mret (page cursor batch (rs_rows s)).

(** [UPDATE ... SET col = fresh WHERE id = row_id AND col = value] *)
Definition write_value (fresh : string) (row_id : Z) (value : string) : prog rotation Z :=
  _ ← interleave;
  stmt (λ s,
    let '(rows, count) := update_where (λ r, (r.1 =? row_id) && bool_decide (r.2 = Some value))
                            (λ r, (r.1, Some fresh)) (rs_rows s) in
    (Rotation (rs_crypto s) rows (rs_events s) (rs_nonce s), count)).

Definition on_crypto {A} : prog FieldCrypto A → prog rotation A :=
  zoom rs_crypto (λ c s, Rotation c (rs_rows s) (rs_events s) (rs_nonce s)).

(** ** The run *)
Record counters := Counters { n_cursor : option Z; n_seen : Z; n_rotated : Z; n_changed : Z; n_plaintext : Z }.

Definition rotated_one (c : counters) : counters :=
  Counters (n_cursor c) (n_seen c) (n_rotated c + 1) (n_changed c) (n_plaintext c).

Section rotate.
Context (seal : bytes → bytes → bytes → bytes → bytes) (unseal : bytes → bytes → bytes → bytes → option bytes).
Context (resolver : string → option string) (urandom : nat → bytes).
Context (table column id_column : string) (batch : Z) (dry_run : bool).

Definition next_nonce : prog rotation bytes :=
  stmt (λ s, (Rotation (rs_crypto s) (rs_rows s) (rs_events s) (S (rs_nonce s)), urandom (rs_nonce s))).

(** [str(value)] of a decrypted value: it is never [None] here. *)
Definition reencrypt (current value : string) : prog rotation string :=
  plain ← on_crypto (decrypt unseal resolver (Some value));
  nonce ← next_nonce;
  on_crypto (encrypt seal resolver nonce (default "None" plain) (Some current)).

(** A failure is reported and ends the run with code 1. *)
Definition or_report {A} (m : prog rotation A) (sel : exn → bool) (report : exn → string) : prog rotation (A + Z) :=
  try_except (a ← m; mret (inl a)) sel (λ e, _ ← out (report e); mret (inr 1)).

Definition at_row (row_id : Z) (e : exn) : string := "error: " +:+ id_column +:+ " " +:+ str_of_Z row_id +:+ ": " +:+ exn_msg e.

(** One row: the counters after it, or the code the run ends with. *)
Definition rotate_row (current : string) (c : counters) (r : row) : prog rotation (counters + Z) :=
  let '(row_id, value) := r in
  let c := Counters (Some row_id) (n_seen c + 1) (n_rotated c) (n_changed c) (n_plaintext c) in
  match value with
  | None | Some EmptyString => mret (inl c)
  | Some v =>
      found ← or_report (lift_res (key_id_of (Some v))) (is_class CryptoError) (at_row row_id);
      match found with
      | inr code => mret (inr code)
      | inl None => mret (inl (Counters (n_cursor c) (n_seen c) (n_rotated c) (n_changed c) (n_plaintext c + 1)))
      | inl (Some kid) =>
          if String.eqb kid current then mret (inl c)
          else if dry_run then mret (inl (rotated_one c))
          else
            fresh ← or_report (reencrypt current v) (is_class CryptoError) (at_row row_id);
            match fresh with
            | inr code => mret (inr code)
            | inl fresh =>
                written ← or_report (write_value fresh row_id v) is_psycopg_error (at_row row_id);
                match written with
                | inr code => mret (inr code)
                | inl n =>
                    mret (inl (if n =? 0 then Counters (n_cursor c) (n_seen c) (n_rotated c) (n_changed c + 1) (n_plaintext c)
                               else rotated_one c))
                end
            end
      end
  end.

Fixpoint rotate_rows (current : string) (c : counters) (rows : list row) : prog rotation (counters + Z) :=
  match rows with
  | [] => mret (inl c)
  | r :: rows =>
      result ← rotate_row current c r;
      match result with inl c => rotate_rows current c rows | inr code => mret (inr code) end
  end.

(** [while True], with [fuel] pages at most; [None] when they did not do. *)
Fixpoint rotate_pages (fuel : nat) (current : string) (c : counters) : prog rotation (option (counters + Z)) :=
  match fuel with
  | O => mret None
  | S fuel =>
      rows ← or_report (read_page (n_cursor c) batch) is_psycopg_error
               (λ e, "error: cannot read " +:+ table +:+ ": " +:+ exn_msg e);
      match rows with
      | inr code => mret (Some (inr code))
      | inl [] => mret (Some (inl c))
      | inl rows =>
          result ← rotate_rows current c rows;
          match result with
          | inr code => mret (Some (inr code))
          | inl c => if Z.of_nat (length rows) <? batch then mret (Some (inl c)) else rotate_pages fuel current c
          end
      end
  end.

Definition report_counts (c : counters) : prog rotation () :=
  _ ← out ("Read " +:+ str_of_Z (n_seen c) +:+ " rows.");
  _ ← (if 0 <? n_plaintext c then out (str_of_Z (n_plaintext c) +:+ " were not encrypted and were left alone.") else mret ());
  _ ← out (if dry_run then str_of_Z (n_rotated c) +:+ " would be re-encrypted." else str_of_Z (n_rotated c) +:+ " re-encrypted.");
  if 0 <? n_changed c
  then out (str_of_Z (n_changed c) +:+ " were written by someone else while this ran and were left alone.") else mret ().

(** The exit code; [None] when [fuel] pages did not do. *)
Definition cmd_rotate (fuel : nat) : prog rotation (option Z) :=
  if negb (_TABLE_RE table) then _ ← out ("error: " +:+ repr table +:+ " is not a plain table name"); mret (Some 2)
  else if negb (_COLUMN_RE column) then _ ← out ("error: --column=" +:+ repr column +:+ " is not a plain column name"); mret (Some 2)
  else if negb (_COLUMN_RE id_column) then _ ← out ("error: --id=" +:+ repr id_column +:+ " is not a plain column name"); mret (Some 2)
  else if batch <? 1 then _ ← out "error: --batch must be at least 1"; mret (Some 2)
  else
    current ← or_report (on_crypto current_key_id) (is_class CryptoError) (λ e, "error: " +:+ exn_msg e);
    match current with
    | inr code => mret (Some code)
    | inl current =>
        _ ← out ("Rotating " +:+ table +:+ "." +:+ column +:+ " onto key " +:+ repr current
                 +:+ (if dry_run then " (--dry-run)" else ""));
        result ← rotate_pages fuel current (Counters None 0 0 0 0);
        match result with
        | None => mret None
        | Some (inr code) => mret (Some code)
        | Some (inl c) => _ ← report_counts c; mret (Some 0)
        end
    end.
End rotate.
