(* ===== verification/CryptoCommandsProps.v ===== *)
(** * What a rotation promises *)

From Stdlib Require Import ZArith Lia Relations.
From S2P Require Import Prelude PyStr Json Sql Base64 CryptoEnvelope CryptoFields CryptoFieldsProps CryptoCommands.

Section rotation.
Context (seal : bytes → bytes → bytes → bytes → bytes) (unseal : bytes → bytes → bytes → bytes → option bytes).
Context (resolver : string → option string) (urandom : nat → bytes).
Context (Hlaws : aead_laws seal unseal) (Hnonce : ∀ n, length (urandom n) = NONCE_BYTES).
Context (keys : list (string * string)).

(** ** Opening, whatever is in the cache *)

(** The material configured for a key id. *)
Definition has_key (kid : string) (m : bytes) : Prop :=
  _KEY_ID_RE kid = true
  ∧ ∃ a v, dict_get kid keys = Some (String a v) ∧ _material resolver (String a v) ("key " +:+ repr kid) = Ok m.

(** The cache holds configured material only. *)
Definition coherent (c : FieldCrypto) : Prop :=
  fc_keys c = keys ∧ ∀ id m, dict_get id (fc_cache c) = Some m → _KEY_ID_RE id = true → has_key id m.

(** The text a stored value holds. *)
Definition opens (v text : string) : Prop :=
  ∃ kid payload raw m, split v = Ok (Some (kid, payload)) ∧ b64decode payload = Some raw
    ∧ (NONCE_BYTES + TAG_BYTES <= length raw)%nat ∧ has_key kid m
    ∧ unseal m (take NONCE_BYTES raw) (drop NONCE_BYTES raw) (_aad kid) = Some (chars text) ∧ valid_utf8 (chars text) = true.

Abbreviation _key := (_key resolver).

Lemma key_coherent kid w : coherent (w_st w) → coherent (w_st (_key kid w).1).
Proof.
  intros [Hk Hc]. unfold CryptoFields._key, _assert_key_id. destruct (_KEY_ID_RE kid) eqn:Hre; [|done].
  erewrite bind_ok by done. erewrite bind_ok by done. destruct (dict_get kid (fc_cache _)); [done|].
  destruct (dict_get kid (fc_keys (w_st w))) as [[|a v]|] eqn:Hv; [done| |done].
  destruct (_material _ _ _) as [material|] eqn:Hm; [|done]. erewrite bind_ok by done. erewrite bind_ok by done.
  split; [done|]. intros id m. simpl. rewrite dict_get_set. destruct (decide _) as [<-|]; [|apply Hc].
  intros [= <-] _. split; [done|]. exists a, v. by rewrite <- Hk.
Qed.

Lemma key_configured kid w w' m : coherent (w_st w) → _key kid w = (w', Ok m) → has_key kid m.
Proof.
  intros [Hk Hc]. unfold CryptoFields._key, _assert_key_id. destruct (_KEY_ID_RE kid) eqn:Hre; [|done].
  erewrite bind_ok by done. erewrite bind_ok by done. destruct (dict_get kid (fc_cache _)) eqn:Hd.
  { intros [= _ <-]. by apply Hc. }
  destruct (dict_get kid (fc_keys (w_st w))) as [[|a v]|] eqn:Hv; [done| |done].
  destruct (_material _ _ _) as [material|] eqn:Hm; [|done]. erewrite bind_ok by done. erewrite bind_ok by done.
  intros [= _ <-]. split; [done|]. exists a, v. by rewrite <- Hk.
Qed.

Lemma key_available kid w m : coherent (w_st w) → has_key kid m → ∃ w', _key kid w = (w', Ok m).
Proof.
  intros [Hk Hc] (Hre & a & v & Hv & Hm). unfold CryptoFields._key, _assert_key_id. rewrite Hre.
  erewrite bind_ok by done. erewrite bind_ok by done. destruct (dict_get kid (fc_cache _)) as [m0|] eqn:Hd.
  { destruct (Hc _ _ Hd Hre) as (_ & a' & v' & Hv' & Hm'). assert (m0 = m) as -> by congruence. by eexists. }
  rewrite Hk, Hv, Hm. by eexists.
Qed.

Lemma decrypt_coherent v w : coherent (w_st w) → coherent (w_st (decrypt unseal resolver (Some v) w).1).
Proof.
  intros Hc. unfold decrypt. destruct v as [|a s]; [done|].
  destruct (split _) as [[[kid payload]|]|e]; [| |done]; (erewrite bind_ok by done); cbn match; [|by destruct (startswith _ _)].
  destruct (b64decode payload) as [raw|]; [|done]. destruct (Nat.ltb _ _); [done|].
  pose proof (key_coherent kid w Hc). destruct (_key kid w) as [w1 [m|e]] eqn:E; [|by rewrite (bind_err _ _ _ _ _ E)].
  rewrite (bind_ok _ _ _ _ _ E). destruct (unseal _ _ _ _) as [p|]; [|done]. by destruct (valid_utf8 p).
Qed.

(** Decrypting a value in the format is opening it. *)
Lemma decrypt_opens v kid w w' r :
  coherent (w_st w) → key_id_of (Some v) = Ok (Some kid) → decrypt unseal resolver (Some v) w = (w', Ok r) →
  ∃ text, r = Some text ∧ opens v text.
Proof.
  intros Hc Hk. unfold key_id_of in Hk. unfold decrypt. destruct v as [|a s]; [done|]. set (v := String a s) in *.
  destruct (split v) as [[[kid' payload]|]|e] eqn:Hs; try done.
  erewrite bind_ok by done. cbn match.
  destruct (b64decode payload) as [raw|] eqn:Hb; [|done]. destruct (Nat.ltb_spec (length raw) (NONCE_BYTES + TAG_BYTES)); [done|].
  destruct (_key kid' w) as [w1 [m|e]] eqn:E; [|by rewrite (bind_err _ _ _ _ _ E)]. rewrite (bind_ok _ _ _ _ _ E).
  destruct (unseal _ _ _ _) as [p|] eqn:Ho; [|done]. destruct (valid_utf8 p) eqn:Hu; [|done]. intros [= _ <-].
  exists (of_chars p). split; [done|]. exists kid', payload, raw, m. rewrite chars_of_chars. split_and!; try done.
  by eapply key_configured.
Qed.

Lemma opens_decrypt v text w : coherent (w_st w) → opens v text → ∃ w', decrypt unseal resolver (Some v) w = (w', Ok (Some text)).
Proof.
  intros Hc (kid & payload & raw & m & Hs & Hb & Hl & Hk & Ho & Hu). unfold decrypt.
  destruct v as [|a s]; [done|]. set (v := String a s) in *. rewrite Hs. erewrite bind_ok by done. cbn match.
  rewrite Hb, (proj2 (Nat.ltb_ge _ _)) by done. destruct (key_available kid w m Hc Hk) as [w' E].
  rewrite (bind_ok _ _ _ _ _ E), Ho, Hu, of_chars_chars. by eexists.
Qed.

Lemma stored_opens kid m n text :
  has_key kid m → valid_utf8 (chars text) = true → length n = NONCE_BYTES →
  let v := stored kid (n ++ seal m n (chars text) (_aad kid)) in
  opens v text ∧ key_id_of (Some v) = Ok (Some kid).
Proof.
  intros Hk Hu Hn v. unfold v. set (raw := n ++ _).
  assert (Hlen : (NONCE_BYTES + TAG_BYTES <= length raw)%nat) by (unfold raw; rewrite length_app, Hn, (seal_length _ _ Hlaws); lia).
  assert (Hs : split (stored kid raw) = Ok (Some (kid, b64encode raw))).
  { apply split_stored; [apply Hk|]. intros He. rewrite He in Hlen. simpl in Hlen. lia. }
  split.
  - exists kid, (b64encode raw), raw, m. rewrite b64decode_encode. split_and!; try done.
    unfold raw. rewrite take_app_length', drop_app_length' by done. apply (open_seal _ _ Hlaws).
  - unfold key_id_of. destruct (stored kid raw) as [|a s] eqn:E; [done|]. rewrite <- E in *. by rewrite Hs.
Qed.

Lemma encrypt_coherent n text kid w :
  kid ≠ "" → coherent (w_st w) → coherent (w_st (encrypt seal resolver n text (Some kid) w).1).
Proof.
  intros Hne Hc. unfold encrypt. destruct kid as [|a s]; [done|].
  erewrite bind_ok by done. pose proof (key_coherent (String a s) w Hc).
  destruct (_key (String a s) w) as [w1 [m|e]] eqn:E; [by rewrite (bind_ok _ _ _ _ _ E)|by rewrite (bind_err _ _ _ _ _ E)].
Qed.

(** ** What the run does to the table *)

(** One re-encryption: a value under another key becomes one under the
    current key that holds the same text, where that value still stands. *)
Definition reencrypts (current : string) (rows rows' : list row) : Prop :=
  ∃ id old fresh kid text, key_id_of (Some old) = Ok (Some kid) ∧ kid ≠ current
    ∧ opens old text ∧ opens fresh text ∧ key_id_of (Some fresh) = Ok (Some current)
    ∧ rows' = (λ r : row, if (r.1 =? id) && bool_decide (r.2 = Some old) then (r.1, Some fresh) else r) <$> rows.

(** A step of the run, or of somebody else. *)
Definition table_step (current : string) (events : list event) (rows rows' : list row) : Prop :=
  reencrypts current rows rows' ∨ ∃ e, e ∈ events ∧ rows' = ev_change e rows.

Definition inv (s : rotation) : Prop := coherent (rs_crypto s).

Section logic.
Context (current : string).

Definition moves (s s' : rotation) : Prop :=
  rs_events s' ⊆ rs_events s ∧ rtc (table_step current (rs_events s)) (rs_rows s) (rs_rows s').

Lemma moves_trans s1 s2 s3 : moves s1 s2 → moves s2 s3 → moves s1 s3.
Proof.
  clear Hlaws Hnonce. intros [He1 Hr1] [He2 Hr2]. split; [set_solver|]. etrans; [exact Hr1|].
  eapply rtc_subrel; [|exact Hr2]. intros x y [H|(e & Hin & ->)]; [by left|right; exists e; split; [set_solver|done]].
Qed.

(** [steps m Q]: from a coherent cache [m] makes such steps only, keeps the
    cache coherent, and what it returns satisfies [Q]. *)
Definition steps {A} (m : prog rotation A) (Q : A → Prop) : Prop :=
  ∀ w, inv (w_st w) → inv (w_st (m w).1) ∧ moves (w_st w) (w_st (m w).1) ∧ ∀ a, (m w).2 = Ok a → Q a.

Lemma moves_refl s : moves s s.
Proof. by split_and!. Qed.

Lemma steps_ret {A} (a : A) (Q : A → Prop) : Q a → steps (mret a) Q.
Proof. intros Hq w Hi. split_and!; [done|apply moves_refl|]. by intros b [= <-]. Qed.

Lemma steps_raise {A} e (Q : A → Prop) : steps (raise e) Q.
Proof. intros w Hi. split_and!; [done|apply moves_refl|done]. Qed.

Lemma steps_out line : steps (out line) (λ _, True).
Proof. intros w Hi. split_and!; [done|apply moves_refl|done]. Qed.

Lemma steps_lift {A} (r : res A) : steps (lift_res r) (λ a, r = Ok a).
Proof. intros w Hi. split_and!; [done|apply moves_refl|done]. Qed.

Lemma steps_bind {A B} (m : prog rotation A) (k : A → prog rotation B) Q Q' :
  steps m Q → (∀ a, Q a → steps (k a) Q') → steps (m ≫= k) Q'.
Proof.
  intros Hm Hk w Hi. destruct (Hm w Hi) as (Hi1 & Hm1 & Hq). unfold mbind, prog_bind.
  destruct (m w) as [w1 [a|e]]; simpl in *; [|by split_and!].
  destruct (Hk a (Hq a eq_refl) w1 Hi1) as (Hi2 & Hm2 & Hq2). split_and!; [done|by eapply moves_trans|done].
Qed.

Lemma steps_weaken {A} (m : prog rotation A) (Q Q' : A → Prop) : steps m Q → (∀ a, Q a → Q' a) → steps m Q'.
Proof. intros Hm Hq w Hi. destruct (Hm w Hi) as (? & ? & Hr). split_and!; [done..|]. intros a Ha. auto. Qed.

Lemma steps_report {A} (m : prog rotation A) sel report Q :
  steps m Q → steps (or_report m sel report) (λ r, match r with inl a => Q a | inr _ => True end).
Proof.
  intros Hm w Hi. destruct (Hm w Hi) as (Hi1 & Hm1 & Hq). unfold or_report, try_except, mbind, prog_bind.
  destruct (m w) as [w1 [a|e]]; simpl in *.
  - split_and!; [done..|]. intros r [= <-]. by apply Hq.
  - destruct (sel e); simpl; split_and!; try done. by intros r [= <-].
Qed.

Lemma steps_crypto {A} (m : prog FieldCrypto A) (Q : A → Prop) :
  (∀ w, coherent (w_st w) → coherent (w_st (m w).1) ∧ ∀ a, (m w).2 = Ok a → Q a) →
  steps (on_crypto m) Q.
Proof.
  intros Hm w Hi. unfold on_crypto, zoom.
  destruct (Hm (World (rs_crypto (w_st w)) (w_log w) (w_clock w)) Hi) as (Hi1 & Hq).
  destruct (m _) as [w1 r]. simpl in *. by split_and!.
Qed.

Lemma steps_interleave : steps interleave (λ _, True).
Proof.
  clear Hlaws Hnonce. intros [s l t] Hi. unfold interleave. erewrite bind_ok by done. simpl.
  destruct (rs_events s) as [|e events] eqn:He; [split_and!; [done|apply moves_refl|done]|].
  erewrite bind_ok by done.
  assert (Hm : moves s (Rotation (rs_crypto s) (ev_change e (rs_rows s)) events (rs_nonce s))).
  { split; [rewrite He; set_solver|]. apply rtc_once. right. exists e. split; [rewrite He; set_solver|done]. }
  destruct (ev_fault e); by split_and!.
Qed.

Context (Hcur : current ≠ "").

(** What a fresh value is to the one it replaces. *)
Definition replaces (old fresh : string) : Prop :=
  ∃ text, opens old text ∧ opens fresh text ∧ key_id_of (Some fresh) = Ok (Some current).

Lemma steps_reencrypt kid v :
  key_id_of (Some v) = Ok (Some kid) → steps (reencrypt seal unseal resolver urandom current v) (replaces v).
Proof.
  intros Hk. unfold reencrypt.
  apply (steps_bind _ _ (λ r, ∃ text, r = Some text ∧ opens v text)).
  { apply steps_crypto. intros w Hc. split; [by apply decrypt_coherent|]. intros r Hr.
    destruct (decrypt unseal resolver (Some v) w) as [w' r'] eqn:E. simpl in Hr. subst. by eapply decrypt_opens. }
  intros plain (text & -> & Ho). apply (steps_bind _ _ (λ n, length n = NONCE_BYTES)).
  { intros [s l t] Hi. split_and!; [done|by split|]. intros n [= <-]. apply Hnonce. }
  intros n Hn. apply steps_crypto. intros w Hc. split; [by apply encrypt_coherent|]. intros fresh Hf.
  destruct (encrypt seal resolver n (default "None" (Some text)) (Some current) w) as [w' r'] eqn:E. simpl in Hf. subst.
  apply (encrypt_spec seal unseal) in E as (_ & m & Hm & ->). exists text. split; [done|].
  assert (Hid : chosen_id (Some current) (w_st w) = current) by (by destruct current). rewrite Hid in *.
  apply stored_opens; [by eapply key_configured| |done]. by destruct Ho as (? & ? & ? & ? & _ & _ & _ & _ & _ & ?).
Qed.

Lemma steps_write kid old fresh id :
  key_id_of (Some old) = Ok (Some kid) → kid ≠ current → replaces old fresh →
  steps (write_value fresh id old) (λ _, True).
Proof.
  intros Hk Hne (text & Ho & Hf & Hc). unfold write_value. apply (steps_bind _ _ (λ _, True)); [apply steps_interleave|].
  intros _ _ [s l t] Hi. split_and!; [done| |done]. split; [done|]. apply rtc_once. left.
  by exists id, old, fresh, kid, text.
Qed.

Context (table id_column : string) (batch : Z) (dry_run : bool).

Lemma steps_row c r : steps (rotate_row seal unseal resolver urandom id_column dry_run current c r) (λ _, True).
Proof.
  destruct r as [id [[|a s]|]]; cbn [rotate_row]; cbv zeta; [by apply steps_ret| |by apply steps_ret].
  set (v := String a s).
  eapply steps_bind; [apply steps_report, steps_lift|]. intros [[kid|]|code] Hk; [|by apply steps_ret..].
  destruct (String.eqb_spec kid current) as [|Hne]; [by apply steps_ret|]. destruct dry_run; [by apply steps_ret|].
  eapply steps_bind; [by apply steps_report, (steps_reencrypt kid)|]. intros [fresh|code] Hf; [|by apply steps_ret].
  eapply steps_bind; [by apply steps_report, (steps_write kid)|]. intros [n|code] _; by apply steps_ret.
Qed.

Lemma steps_rows c rows : steps (rotate_rows seal unseal resolver urandom id_column dry_run current c rows) (λ _, True).
Proof.
  revert c. induction rows as [|r rows IH]; intros c; cbn [rotate_rows]; [by apply steps_ret|].
  eapply steps_bind; [apply steps_row|]. intros [c'|code] _; [apply IH|by apply steps_ret].
Qed.

Lemma steps_read cursor : steps (read_page cursor batch) (λ _, True).
Proof.
  unfold read_page. eapply steps_bind; [apply steps_interleave|]. intros _ _ [s l t] Hi.
  split_and!; [done|apply moves_refl|done].
Qed.

Lemma steps_pages fuel c :
  steps (rotate_pages seal unseal resolver urandom table id_column batch dry_run fuel current c) (λ _, True).
Proof.
  revert c. induction fuel as [|fuel IH]; intros c; cbn [rotate_pages]; [by apply steps_ret|].
  eapply steps_bind; [apply steps_report, steps_read|]. intros [[|r rows]|code] _; [by apply steps_ret| |by apply steps_ret].
  eapply steps_bind; [apply steps_rows|]. intros [c'|code] _; [|by apply steps_ret].
  destruct (_ <? _); [by apply steps_ret|apply IH].
Qed.

Lemma steps_counts c : steps (report_counts dry_run c) (λ _, True).
Proof.
  unfold report_counts. eapply steps_bind; [apply steps_out|intros _ _].
  eapply steps_bind; [destruct (0 <? n_plaintext c); [apply steps_out|by apply steps_ret]|intros _ _].
  eapply steps_bind; [destruct dry_run; apply steps_out|intros _ _].
  destruct (0 <? n_changed c); [apply steps_out|by apply steps_ret].
Qed.
End logic.

Lemma current_key_run w :
  current_key_id w = (w, match fc_key_id (w_st w) with
                         | "" => Err (crypto_error (sq "config['crypto']['key'] does not name a key to encrypt with. " +:+ hint))
                         | kid => _assert_key_id kid
                         end).
Proof. unfold current_key_id. erewrite bind_ok by done. destruct (fc_key_id (w_st w)) as [|a s]; [done|]. by unfold lift_res. Qed.
End rotation.

Lemma report_ok {A} (m : prog rotation A) sel report w w1 a : m w = (w1, Ok a) → or_report m sel report w = (w1, Ok (inl a)).
Proof. intros E. unfold or_report, try_except. by rewrite (bind_ok _ _ _ _ _ E). Qed.

Lemma report_err {A} (m : prog rotation A) sel report w w1 e :
  m w = (w1, Err e) → sel e = true →
  or_report m sel report w = (World (w_st w1) (w_log w1 ++ [report e]) (w_clock w1), Ok (inr 1)).
Proof. intros E Hs. unfold or_report, try_except. by rewrite (bind_err _ _ _ _ _ E), Hs. Qed.

(** C17: A rotation never changes what the table says and never overwrites a
    write it has not seen. Whatever happens between its statements, and
    however it ends, the table it leaves comes from the one it found by
    steps of two kinds only: what others did, and the replacement of a value
    under another key, where that very value still stands, by one under the
    current key that holds the same text. *)
Theorem rotation_preserves seal unseal resolver urandom keys table column id_column batch dry_run fuel w w' r :
  aead_laws seal unseal → (∀ n, length (urandom n) = NONCE_BYTES) →
  coherent resolver keys (rs_crypto (w_st w)) →
  cmd_rotate seal unseal resolver urandom table column id_column batch dry_run fuel w = (w', r) →
  coherent resolver keys (rs_crypto (w_st w'))
  ∧ rtc (table_step unseal resolver keys (fc_key_id (rs_crypto (w_st w))) (rs_events (w_st w)))
      (rs_rows (w_st w)) (rs_rows (w_st w')).
Proof.
  intros Hl Hn Hc E. set (current := fc_key_id (rs_crypto (w_st w))).
  assert (Hsteps : ∀ w1, cmd_rotate seal unseal resolver urandom table column id_column batch dry_run fuel w = w1 →
    coherent resolver keys (rs_crypto (w_st w1.1)) ∧ moves unseal resolver keys current (w_st w) (w_st w1.1)).
  2: { destruct (Hsteps _ E) as [Hi [_ Hm]]. by split. }
  intros w1 <-. clear E. unfold cmd_rotate.
  assert (Hstop : ∀ line (code : Z), let w1 := (_ ← out line; mret (Some code)) w in
    coherent resolver keys (rs_crypto (w_st w1.1)) ∧ moves unseal resolver keys current (w_st w) (w_st w1.1))
    by (intros line code; split; [done|by split]).
  destruct (_TABLE_RE table); [|apply Hstop]. destruct (_COLUMN_RE column); [|apply Hstop].
  destruct (_COLUMN_RE id_column); [|apply Hstop]. destruct (batch <? 1); [apply Hstop|]. cbn [negb].
  assert (Hcur : on_crypto current_key_id w = (w, (current_key_id (World (rs_crypto (w_st w)) (w_log w) (w_clock w))).2)).
  { unfold on_crypto, zoom. rewrite current_key_run. by destruct w as [[] ? ?]. }
  rewrite current_key_run in Hcur. cbn [snd w_st] in Hcur. fold current in Hcur.
  destruct current as [|a s] eqn:Hk.
  { erewrite bind_ok by (by eapply report_err). split; [done|by split]. }
  unfold _assert_key_id in Hcur. destruct (_KEY_ID_RE (String a s)).
  2: { erewrite bind_ok by (by eapply report_err). split; [done|by split]. }
  erewrite bind_ok by (by eapply report_ok). cbn match.
  assert (Hrest : steps unseal resolver keys (String a s)
    (_ ← out ("Rotating " +:+ table +:+ "." +:+ column +:+ " onto key " +:+ repr (String a s) +:+ (if dry_run then " (--dry-run)" else ""));
     result ← rotate_pages seal unseal resolver urandom table id_column batch dry_run fuel (String a s) (Counters None 0 0 0 0);
     match result with None => mret None | Some (inr code) => mret (Some code) | Some (inl c) => _ ← report_counts dry_run c; mret (Some 0) end)
    (λ _, True)).
  { eapply steps_bind; [apply steps_out|intros _ _]. eapply steps_bind; [by apply steps_pages|].
    intros [[c|code]|] _; [|by apply steps_ret..]. eapply steps_bind; [apply steps_counts|]. intros _ _. by apply steps_ret. }
  destruct (Hrest w Hc) as (Hi & Hm & _). by split.
Qed.

(** ** A run nobody interferes with *)
Section alone.
Context (seal : bytes → bytes → bytes → bytes → bytes) (unseal : bytes → bytes → bytes → bytes → option bytes).
Context (resolver : string → option string) (urandom : nat → bytes).
Context (Hlaws : aead_laws seal unseal) (Hnonce : ∀ n, length (urandom n) = NONCE_BYTES).
Context (keys : list (string * string)) (current : string) (Hkey : ∃ m, has_key resolver keys current m) (Hcur : current ≠ "").
Context (table id_column : string) (batch : Z) (Hbatch : 1 <= batch).

Abbreviation opens := (opens unseal resolver keys).

(** A value that needs no rotation. *)
Definition settled (v : option string) : Prop :=
  match v with
  | None | Some EmptyString => True
  | Some v => key_id_of (Some v) = Ok None ∨ key_id_of (Some v) = Ok (Some current)
  end.

(** A value the run can deal with. *)
Definition manageable (v : option string) : Prop :=
  settled v ∨ ∃ s kid text, v = Some s ∧ key_id_of (Some s) = Ok (Some kid) ∧ opens s text.

Definition ready (ids : list Z) (s : rotation) : Prop :=
  coherent resolver keys (rs_crypto s) ∧ rs_events s = [] ∧ (rs_rows s).*1 = ids ∧ Forall (λ r, manageable r.2) (rs_rows s).

Lemma reencrypt_run v kid text w :
  coherent resolver keys (rs_crypto (w_st w)) → key_id_of (Some v) = Ok (Some kid) → opens v text →
  ∃ w1 fresh, reencrypt seal unseal resolver urandom current v w = (w1, Ok fresh)
    ∧ replaces unseal resolver keys current v fresh
    ∧ coherent resolver keys (rs_crypto (w_st w1)) ∧ rs_rows (w_st w1) = rs_rows (w_st w) ∧ rs_events (w_st w1) = rs_events (w_st w).
Proof.
  intros Hc Hk Ho. unfold reencrypt.
  destruct (opens_decrypt unseal resolver keys v text (World (rs_crypto (w_st w)) (w_log w) (w_clock w)) Hc Ho) as [w1 E1].
  pose proof (decrypt_coherent unseal resolver keys v (World (rs_crypto (w_st w)) (w_log w) (w_clock w)) Hc) as Hc1. rewrite E1 in Hc1.
  erewrite bind_ok by (unfold on_crypto, zoom; by rewrite E1). erewrite bind_ok by done.
  match goal with |- context[on_crypto ?m ?u] => set (w2 := u); set (e := m) end.
  destruct Hkey as [m Hm].
  assert (He : ∃ w3, e (World (rs_crypto (w_st w2)) (w_log w2) (w_clock w2)) = (w3, Ok (stored current
      (urandom (rs_nonce (w_st w)) ++ seal m (urandom (rs_nonce (w_st w))) (chars text) (_aad current))))).
  { destruct (key_available resolver keys current (World (rs_crypto (w_st w2)) (w_log w2) (w_clock w2)) m Hc1 Hm) as [w3 E3].
    exists w3. apply (encrypt_spec seal unseal).
    assert (Hid : ∀ c, chosen_id (Some current) c = current) by (by destruct current). rewrite Hid. split; [done|]. exists m.
    split; [exact E3|done]. }
  destruct He as [w3 E3].
  pose proof (encrypt_coherent seal resolver keys (urandom (rs_nonce (w_st w))) text current
    (World (rs_crypto (w_st w2)) (w_log w2) (w_clock w2)) Hcur Hc1) as Hc3.
  unfold e in E3. simpl in E3, Hc3. rewrite E3 in Hc3.
  unfold e, on_crypto, zoom. simpl. rewrite E3. eexists _, _. split; [done|]. split_and!; [|done..].
  exists text. split; [done|]. apply (stored_opens seal unseal); [done|done| |apply Hnonce].
  by destruct Ho as (? & ? & ? & ? & _ & _ & _ & _ & _ & ?).
Qed.

(** What one row of the run does to the table. *)
Definition row_handled (r : row) (rows rows' : list row) : Prop :=
  (∀ x, x ∈ rows' → if decide (x.1 = r.1) then settled x.2 else x ∈ rows) ∧ (∀ x, x ∈ rows → x.1 ≠ r.1 → x ∈ rows').

Lemma same_id (rows : list row) x r : NoDup rows.*1 → x ∈ rows → r ∈ rows → x.1 = r.1 → x = r.
Proof. intros Hn Hx Hr He. by eapply (NoDup_fmap_inj_in fst). Qed.

Lemma row_untouched ids rows r : NoDup ids → rows.*1 = ids → r ∈ rows → settled r.2 → row_handled r rows rows.
Proof.
  intros Hn Hids Hr Hs. subst. split; [|done]. intros x Hx. destruct (decide _) as [He|]; [|done].
  by rewrite (same_id rows x r).
Qed.

Lemma row_run ids c r w :
  NoDup ids → ready ids (w_st w) → r ∈ rs_rows (w_st w) →
  ∃ w' c', rotate_row seal unseal resolver urandom id_column false current c r w = (w', Ok (inl c'))
    ∧ n_cursor c' = Some r.1 ∧ ready ids (w_st w') ∧ row_handled r (rs_rows (w_st w)) (rs_rows (w_st w')).
Proof.
  intros Hn (Hc & He & Hids & Hall) Hr.
  assert (Hkeep : settled r.2 → ready ids (w_st w) ∧ row_handled r (rs_rows (w_st w)) (rs_rows (w_st w))).
  { intros Hs. split; [by split_and!|]. by eapply row_untouched. }
  pose proof (proj1 (Forall_forall _ _) Hall r Hr) as Hm. destruct r as [id [[|a s]|]]; cbn [rotate_row]; cbv zeta.
  - destruct (Hkeep I). by eexists _, _.
  - set (v := String a s) in *. cbn [snd] in *.
    assert (Hk : ∃ found, key_id_of (Some v) = Ok found).
    { destruct Hm as [[H|H]|(s' & kid & text & [= <-] & H & _)]; by eexists. }
    destruct Hk as [found Hk]. erewrite bind_ok by (by eapply report_ok; rewrite Hk). cbn match.
    destruct found as [kid|].
    2: { destruct (Hkeep (or_introl Hk)). by eexists _, _. }
    destruct (String.eqb_spec kid current) as [->|Hne].
    { destruct (Hkeep (or_intror Hk)). by eexists _, _. }
    assert (Ho : ∃ text, opens v text).
    { destruct Hm as [[H|H]|(s' & kid' & text & [= <-] & H & Ho)]; [congruence|congruence|by eexists]. }
    destruct Ho as [text Ho]. destruct (reencrypt_run v kid text w Hc Hk Ho) as (w1 & fresh & E1 & Hrep & Hc1 & Hrows1 & He1).
    erewrite bind_ok by (by eapply report_ok). cbn match.
    set (p := λ r : row, (r.1 =? id) && bool_decide (r.2 = Some v)).
    assert (Hw : write_value fresh id v w1 = (World (Rotation (rs_crypto (w_st w1))
        (update_where p (λ r, (r.1, Some fresh)) (rs_rows (w_st w1))).1 (rs_events (w_st w1)) (rs_nonce (w_st w1))) (w_log w1) (w_clock w1),
        Ok (update_where p (λ r, (r.1, Some fresh)) (rs_rows (w_st w1))).2)).
    { unfold write_value. erewrite (bind_ok interleave _ w1 w1 ()) by (unfold interleave; erewrite bind_ok by done; by rewrite He1, He). done. }
    erewrite bind_ok by (by eapply report_ok). cbn match. eexists _, _. split; [done|]. split; [by destruct (_ =? 0)|].
    cbn [w_st rs_rows rs_events rs_crypto]. rewrite Hrows1.
    assert (Hs : settled (Some fresh)).
    { destruct Hrep as (t & _ & Hof & Hkf). destruct fresh as [|b f]; [done|]. by right. }
    assert (Hpid : ∀ x, x ∈ rs_rows (w_st w) → p x = true → x = (id, Some v)).
    { intros x Hx Hp. unfold p in Hp. apply andb_true_iff in Hp as [Hp1 Hp2]. apply Z.eqb_eq in Hp1. apply bool_decide_eq_true in Hp2.
      destruct x. simpl in *. by subst. }
    assert (Hpme : ∀ x, x ∈ rs_rows (w_st w) → x.1 = id → p x = true).
    { intros x Hx Hid. rewrite (same_id (rs_rows (w_st w)) x (id, Some v)) by (try done; by rewrite Hids).
      unfold p. simpl. by rewrite Z.eqb_refl, bool_decide_true. }
    split.
    + split_and!; [done|by rewrite He1, He| |].
      * etrans; [by apply (update_where_keys fst)|done].
      * apply Forall_forall. intros x Hx. apply elem_of_update in Hx as (y & Hy & ->).
        destruct (p y); [by left|]. by eapply (proj1 (Forall_forall _ _) Hall).
    + split.
      * intros x Hx. apply elem_of_update in Hx as (y & Hy & ->). destruct (p y) eqn:Hp.
        -- rewrite (Hpid y Hy Hp). simpl. by rewrite decide_True.
        -- destruct (decide _) as [Hid|]; [|done]. rewrite Hpme in Hp; done.
      * intros x Hx Hid. apply elem_of_update. exists x. split; [done|]. destruct (p x) eqn:Hp; [|done].
        rewrite (Hpid x Hx Hp) in Hid. done.
  - destruct (Hkeep I). by eexists _, _.
Qed.

(** The rows of a page one after the other: their ids are distinct, and the
    rows of other ids stay where they are. *)
Lemma rows_run ids pg c w :
  NoDup ids → ready ids (w_st w) → NoDup pg.*1 → (∀ r, r ∈ pg → r ∈ rs_rows (w_st w)) →
  ∃ w' c', rotate_rows seal unseal resolver urandom id_column false current c pg w = (w', Ok (inl c'))
    ∧ n_cursor c' = default (n_cursor c) (Some <$> last pg.*1) ∧ ready ids (w_st w')
    ∧ (∀ x, x ∈ rs_rows (w_st w') → if decide (x.1 ∈ pg.*1) then settled x.2 else x ∈ rs_rows (w_st w)).
Proof.
  intros Hn. revert c w. induction pg as [|r pg IH]; intros c w Hr Hpg Hin; cbn [rotate_rows].
  - eexists _, _. split; [done|]. split; [done|]. split; [done|]. intros x Hx.
    rewrite decide_False; [done|]. apply not_elem_of_nil.
  - rewrite fmap_cons in Hpg. apply NoDup_cons in Hpg as [Hnew Hpg].
    destruct (row_run ids c r w Hn Hr) as (w1 & c1 & E & Hc1 & Hr1 & Hh1 & Hh2); [apply Hin; left|].
    rewrite (bind_ok _ _ _ _ _ E).
    destruct (IH c1 w1 Hr1 Hpg) as (w' & c' & E' & Hc' & Hr' & Hs').
    { intros x Hx. apply Hh2; [apply Hin; by right|]. intros He. apply Hnew. rewrite <- He. by apply (list_elem_of_fmap_2 fst). }
    exists w', c'. split; [done|]. split; [|split; [done|]].
    + rewrite Hc', Hc1, fmap_cons, last_cons. by destruct (last pg.*1).
    + intros x Hx. specialize (Hs' x Hx). rewrite fmap_cons. destruct (decide (x.1 ∈ pg.*1)).
      * rewrite decide_True; [done|]. by right.
      * specialize (Hh1 x Hs'). destruct (decide (x.1 = r.1)) as [He|Hne].
        -- rewrite decide_True; [done|]. rewrite He. left.
        -- rewrite decide_False; [done|]. by rewrite not_elem_of_cons.
Qed.

(** ** Pages *)
Definition above (cursor : option Z) (i : Z) : bool := match cursor with Some c => c <? i | None => true end.

Definition pending (cursor : option Z) (rows : list row) : list row :=
  order_by id_le (select_where (λ r, above cursor r.1) rows).

Lemma elem_of_pending cursor rows r : r ∈ pending cursor rows ↔ r ∈ rows ∧ above cursor r.1 = true.
Proof. unfold pending. rewrite order_by_Permutation. apply (elem_of_select (λ r : row, above cursor r.1)). Qed.

Lemma pending_ids cursor rows : NoDup rows.*1 → NoDup (pending cursor rows).*1.
Proof. intros Hn. unfold pending. rewrite order_by_Permutation. by apply NoDup_fmap_filter. Qed.

Lemma pending_sorted cursor rows : StronglySorted id_le (pending cursor rows).
Proof. apply StronglySorted_merge_sort; unfold id_le; [intros ???; lia|intros ??; lia]. Qed.

Lemma pending_split cursor rows :
  let pg := page cursor batch rows in
  ∃ rest, pending cursor rows = pg ++ rest ∧ (Z.of_nat (length pg) < batch → rest = []).
Proof.
  intros pg. exists (drop (Z.to_nat batch) (pending cursor rows)). split; [unfold pg, page; by rewrite take_drop|].
  intros Hlt. apply drop_ge. unfold pg, page in Hlt. change (take _ _) with (take (Z.to_nat batch) (pending cursor rows)) in Hlt.
  rewrite length_take in Hlt. lia.
Qed.

(** What a page leaves out lies above it. *)
Lemma page_covers cursor rows x :
  NoDup rows.*1 → x ∈ rows → above cursor x.1 = true →
  let pg := page cursor batch rows in
  x ∈ pg ∨ (batch <= Z.of_nat (length pg) ∧ ∀ r, r ∈ pg → r.1 < x.1).
Proof.
  intros Hn Hx Ha pg. destruct (pending_split cursor rows) as (rest & Hp & Hrest). fold pg in Hp, Hrest.
  assert (Hin : x ∈ pending cursor rows) by (by apply elem_of_pending).
  rewrite Hp in Hin. apply elem_of_app in Hin as [Hin|Hin]; [by left|]. right. split.
  - destruct (decide (Z.of_nat (length pg) < batch)) as [Hlt|]; [|lia]. rewrite Hrest in Hin by done. by apply not_elem_of_nil in Hin.
  - intros r Hr. pose proof (pending_sorted cursor rows) as Hs. rewrite Hp in Hs.
    pose proof (StronglySorted_app_1_elem_of _ _ _ _ _ Hs Hr Hin) as Hle. unfold id_le in Hle.
    pose proof (pending_ids cursor rows Hn) as Hd. rewrite Hp, fmap_app in Hd. apply NoDup_app in Hd as (_ & Hd & _).
    assert (r.1 ≠ x.1); [|lia]. intros He. apply (Hd r.1); [by apply (list_elem_of_fmap_2 fst)|].
    rewrite He. by apply (list_elem_of_fmap_2 fst).
Qed.

Lemma page_ok cursor rows :
  NoDup rows.*1 → let pg := page cursor batch rows in
  NoDup pg.*1 ∧ ∀ r, r ∈ pg → r ∈ rows ∧ above cursor r.1 = true.
Proof.
  intros Hn pg. destruct (pending_split cursor rows) as (rest & Hp & _). fold pg in Hp. split.
  - pose proof (pending_ids cursor rows Hn) as Hd. rewrite Hp, fmap_app in Hd. by apply NoDup_app in Hd as (Hd & _).
  - intros r Hr. apply elem_of_pending. rewrite Hp. apply elem_of_app. by left.
Qed.

(** The last id of a page is its greatest. *)
Lemma page_last cursor rows i :
  last (page cursor batch rows).*1 = Some i → ∀ r, r ∈ page cursor batch rows → r.1 <= i.
Proof.
  intros Hl r Hr. destruct (pending_split cursor rows) as (rest & Hp & _).
  pose proof (pending_sorted cursor rows) as Hs. rewrite Hp in Hs. apply StronglySorted_app_1_l in Hs.
  set (pg := page cursor batch rows) in *. clearbody pg. clear Hp.
  apply last_Some in Hl as [l Hl]. assert (Hi : i ∈ pg.*1) by (rewrite Hl; set_solver).
  destruct (list_elem_of_split _ _ Hr) as (l1 & l2 & ->).
  destruct l2 as [|y l2].
  - rewrite fmap_app in Hl. cbn in Hl. apply app_inj_tail in Hl as [_ <-]. done.
  - assert (Hy : i ∈ (y :: l2).*1).
    { assert (Hlast : last (l1 ++ r :: y :: l2).*1 = Some i) by (rewrite Hl; by apply last_snoc).
      rewrite fmap_app, fmap_cons, last_app, last_cons in Hlast. destruct (last (y :: l2).*1) as [j|] eqn:Hj.
      - injection Hlast as ->. apply last_Some in Hj as [l' Hj]. rewrite Hj. set_solver.
      - by apply last_None in Hj. }
    apply list_elem_of_fmap_1 in Hy as (x & -> & Hx).
    change (l1 ++ r :: y :: l2) with (l1 ++ [r] ++ y :: l2) in Hs. rewrite app_assoc in Hs.
    refine (StronglySorted_app_1_elem_of _ _ _ _ _ Hs _ Hx). apply elem_of_app. right. by apply list_elem_of_singleton.
Qed.

Lemma fewer_above ids cursor i :
  NoDup ids → i ∈ ids → above cursor i = true →
  (length (List.filter (above (Some i)) ids) < length (List.filter (above cursor) ids))%nat.
Proof.
  intros Hn Hi Ha. assert (Hf : ∀ c x, x ∈ List.filter (above c) ids ↔ x ∈ ids ∧ above c x = true).
  { intros c x. rewrite !list_elem_of_In. apply filter_In. }
  apply Nat.lt_le_trans with (length (i :: List.filter (above (Some i)) ids)); [simpl; lia|].
  apply submseteq_length, NoDup_submseteq.
  - apply NoDup_cons. split; [rewrite Hf; simpl; intros [_ ?]; lia|].
    apply NoDup_ListNoDup, List.NoDup_filter. by apply NoDup_ListNoDup.
  - intros x. rewrite elem_of_cons, !Hf. intros [->|[Hx Hlt]]; [done|]. split; [done|].
    destruct cursor; simpl in *; lia.
Qed.

Lemma pages_run fuel ids c w :
  NoDup ids → ready ids (w_st w) → (length (List.filter (above (n_cursor c)) ids) < fuel)%nat →
  (∀ x, x ∈ rs_rows (w_st w) → above (n_cursor c) x.1 = false → settled x.2) →
  ∃ w' c', rotate_pages seal unseal resolver urandom table id_column batch false fuel current c w = (w', Ok (Some (inl c')))
    ∧ ready ids (w_st w') ∧ ∀ x, x ∈ rs_rows (w_st w') → settled x.2.
Proof.
  revert c w. induction fuel as [|fuel IH]; intros c w Hn Hr Hf Hs; [lia|]. cbn [rotate_pages].
  assert (Hread : read_page (n_cursor c) batch w = (w, Ok (page (n_cursor c) batch (rs_rows (w_st w))))).
  { unfold read_page, interleave. erewrite bind_ok by (erewrite bind_ok by done; by rewrite (proj1 (proj2 Hr))). done. }
  erewrite bind_ok by (by eapply report_ok). cbn match.
  pose proof Hr as (_ & _ & Hids & _).
  assert (Hnd : NoDup (rs_rows (w_st w)).*1) by (by rewrite Hids).
  destruct (page_ok (n_cursor c) (rs_rows (w_st w)) Hnd) as [Hpd Hpin].
  assert (Hcov := page_covers (n_cursor c) (rs_rows (w_st w))). assert (Hlast := page_last (n_cursor c) (rs_rows (w_st w))).
  set (pg := page (n_cursor c) batch (rs_rows (w_st w))) in *. clearbody pg.
  assert (Hall : ∀ x, x ∈ rs_rows (w_st w) → above (n_cursor c) x.1 = false ∨ x ∈ pg ∨ (batch <= Z.of_nat (length pg) ∧ ∀ r, r ∈ pg → r.1 < x.1)).
  { intros x Hx. destruct (above (n_cursor c) x.1) eqn:Ha; [right|by left]. by apply Hcov. }
  destruct pg as [|r0 pg0] eqn:Hpg.
  { eexists _, _. split; [done|]. split; [done|]. intros x Hx.
    destruct (Hall x Hx) as [Ha|[Hin|[Hb _]]]; [by apply Hs|by apply not_elem_of_nil in Hin|simpl in Hb; lia]. }
  rewrite <- Hpg in *. clear Hread.
  destruct (rows_run ids pg c w Hn Hr Hpd (λ r Hin, proj1 (Hpin r Hin))) as (w1 & c1 & E1 & Hc1 & Hr1 & Hs1).
  rewrite (bind_ok _ _ _ _ _ E1). cbn match.
  destruct (last pg.*1) as [i|] eqn:Hl; [|by apply last_None in Hl; subst]. cbn [fmap option_fmap option_map default from_option] in Hc1.
  assert (Hdone : ∀ x, x ∈ rs_rows (w_st w1) → x.1 ∈ pg.*1 ∨ above (n_cursor c) x.1 = false → settled x.2).
  { intros x Hx Hor. specialize (Hs1 x Hx). destruct (decide _); [done|]. destruct Hor; [done|]. by apply Hs. }
  destruct (Z.ltb_spec (Z.of_nat (length pg)) batch) as [Hlt|Hge].
  - exists w1, c1. split; [done|]. split; [done|]. intros x Hx. specialize (Hs1 x Hx). destruct (decide _); [done|].
    destruct (Hall x Hs1) as [Ha|[Hin|[Hb _]]]; [by apply Hs| |lia]. exfalso. apply n. by apply (list_elem_of_fmap_2 fst).
  - apply IH; [done|done| |].
    + rewrite Hc1. change (id <$> Some i) with (Some i). cbn. apply last_Some in Hl as Hl'. destruct Hl' as [l Hl'].
      assert (Hi : i ∈ pg.*1) by (rewrite Hl'; apply elem_of_app; right; by apply list_elem_of_singleton).
      apply list_elem_of_fmap_1 in Hi as (r & -> & Hin). destruct (Hpin r Hin) as [Hrin Ha].
      eapply Nat.lt_le_trans; [apply (fewer_above ids (n_cursor c) r.1); [done| |done]|lia].
      rewrite <- Hids. by apply (list_elem_of_fmap_2 fst).
    + intros x Hx Hna. rewrite Hc1 in Hna. simpl in Hna. apply Hdone; [done|].
      specialize (Hs1 x Hx). destruct (decide (x.1 ∈ pg.*1)); [by left|].
      destruct (Hall x Hs1) as [Ha|[Hin|[_ Hgt]]]; [by right|exfalso; apply n; by apply (list_elem_of_fmap_2 fst)|].
      apply last_Some in Hl as [l Hl].
      assert (Hi : i ∈ pg.*1) by (rewrite Hl; apply elem_of_app; right; by apply list_elem_of_singleton).
      apply list_elem_of_fmap_1 in Hi as (r & -> & Hin). specialize (Hgt r Hin). lia.
Qed.
End alone.

(** C18: A rotation nobody interferes with completes. If every value is plain
    or opens with a configured key, the run reaches the end of the table,
    exits with 0 and leaves each row in place: no value is under an old key
    any more, however the rows fall into pages. *)
Theorem rotation_completes seal unseal resolver urandom keys table column id_column batch fuel w :
  let s := w_st w in let current := fc_key_id (rs_crypto s) in
  aead_laws seal unseal → (∀ n, length (urandom n) = NONCE_BYTES) →
  coherent resolver keys (rs_crypto s) → (∃ m, has_key resolver keys current m) → current ≠ "" →
  _TABLE_RE table = true → _COLUMN_RE column = true → _COLUMN_RE id_column = true → 1 <= batch →
  rs_events s = [] → NoDup (rs_rows s).*1 →
  Forall (λ r, manageable unseal resolver keys current r.2) (rs_rows s) →
  (length (rs_rows s) < fuel)%nat →
  ∃ w', cmd_rotate seal unseal resolver urandom table column id_column batch false fuel w = (w', Ok (Some 0))
    ∧ (rs_rows (w_st w')).*1 = (rs_rows s).*1 ∧ Forall (λ r, settled current r.2) (rs_rows (w_st w')).
Proof.
  intros s current Hl Hn Hc Hkey Hne Ht Hcol Hid Hb He Hnd Hall Hf. unfold cmd_rotate. rewrite Ht, Hcol, Hid. cbn [negb].
  destruct (Z.ltb_spec batch 1); [lia|].
  assert (Hcur : on_crypto current_key_id w = (w, Ok current)).
  { unfold on_crypto, zoom. rewrite current_key_run. cbn [w_st]. fold s current. destruct Hkey as (m & Hre & _).
    destruct current as [|a k]; [done|]. unfold _assert_key_id. rewrite Hre. unfold s. by destruct w as [[] ? ?]. }
  erewrite bind_ok by (by eapply report_ok). cbn match. erewrite bind_ok by done.
  match goal with |- context[mbind _ _ ?u] => set (w1 := u) end.
  destruct (pages_run seal unseal resolver urandom Hl Hn keys current Hkey Hne table id_column batch Hb fuel
              (rs_rows s).*1 (Counters None 0 0 0 0) w1) as (w2 & c & E & Hr & Hs).
  - exact Hnd.
  - by split_and!.
  - cbn [n_cursor]. eapply Nat.le_lt_trans; [|exact Hf]. etrans; [apply List.filter_length_le|]. by rewrite length_fmap.
  - done.
  - rewrite (bind_ok _ _ _ _ _ E). cbn match.
    assert (Hrep : ∃ w3, report_counts false c w2 = (w3, Ok ()) ∧ w_st w3 = w_st w2).
    { unfold report_counts. erewrite bind_ok by done.
      destruct (0 <? n_plaintext c); erewrite bind_ok by done; erewrite bind_ok by done; destruct (0 <? n_changed c); by eexists. }
    destruct Hrep as (w3 & E3 & Hst). rewrite (bind_ok _ _ _ _ _ E3). exists w3. split; [done|]. rewrite Hst. split; [apply Hr|].
    apply Forall_forall. exact Hs.
Qed.

(** ** A concrete run: a value under the old key, one not encrypted, one
    empty, read two at a time *)
Definition w_two_keys (v : string) : option string :=
  if String.eqb v "K1" then Some "MDEyMzQ1Njc4OWFiY2RlZjAxMjM0NTY3ODlhYmNkZWY="
  else if String.eqb v "K2" then Some "ZmVkY2JhOTg3NjU0MzIxMGZlZGNiYTk4NzY1NDMyMTA=" else None.
Definition w_keys : list (string * string) := [("k1", "K1"); ("k2", "K2")].
Definition w_rows : list row := [(1, Some w_value); (2, Some "plain"); (3, None)].
Definition w_rotation (events : list event) : world rotation :=
  World (Rotation (__init__ "k2" w_keys "") w_rows events 0) [] 0.

Lemma rotation_preserves_witness :
  let update := Event (λ rows, (λ r : row, if r.1 =? 1 then (1, Some "new") else r) <$> rows) None in
  let w := w_rotation [Event (λ rows, rows) None; update] in
  let '(w', r) := cmd_rotate toy_seal toy_open w_two_keys (λ _, w_nonce) "people" "name" "id" 2 false 4 w in
  r = Ok (Some 0) ∧ rs_rows (w_st w') = [(1, Some "new"); (2, Some "plain"); (3, None)]
  ∧ rtc (table_step toy_open w_two_keys w_keys "k2" (rs_events (w_st w))) w_rows (rs_rows (w_st w')).
Proof.
  intros update w. destruct (cmd_rotate _ _ _ _ _ _ _ _ _ _ w) as [w' r] eqn:E.
  assert (Hc : coherent w_two_keys w_keys (rs_crypto (w_st w))) by (split; [reflexivity|]; intros id m Hd; discriminate Hd).
  assert (Hn : ∀ n : nat, length w_nonce = NONCE_BYTES) by reflexivity.
  destruct (rotation_preserves _ _ _ _ _ _ _ _ _ _ _ _ _ _ toy_aead Hn Hc E) as [_ Hm].
  split; [|split; [|exact Hm]].
  - change r with ((w', r).2). rewrite <- E. vm_compute. reflexivity.
  - change w' with ((w', r).1). rewrite <- E. vm_compute. reflexivity.
Defined.

Lemma rotation_completes_witness :
  ∃ w', cmd_rotate toy_seal toy_open w_two_keys (λ _, w_nonce) "people" "name" "id" 2 false 4 (w_rotation []) = (w', Ok (Some 0))
    ∧ (rs_rows (w_st w')).*1 = [1; 2; 3] ∧ Forall (λ r, settled "k2" r.2) (rs_rows (w_st w')).
Proof.
  assert (Hn : ∀ n : nat, length w_nonce = NONCE_BYTES) by reflexivity.
  assert (Hc : coherent w_two_keys w_keys (__init__ "k2" w_keys "")) by (split; [reflexivity|]; intros id m Hd; discriminate Hd).
  assert (Hm2 : _material w_two_keys "K2" ("key " +:+ repr "k2") = Ok (chars "fedcba9876543210fedcba9876543210"))
    by (vm_compute; reflexivity).
  assert (Hm1 : _material w_two_keys "K1" ("key " +:+ repr "k1") = Ok (chars "0123456789abcdef0123456789abcdef"))
    by (vm_compute; reflexivity).
  assert (Hopen : toy_open (chars "0123456789abcdef0123456789abcdef") w_nonce (chars "Anna0123456789abcdef") (_aad "k1") = Some (chars "Anna"))
    by (vm_compute; reflexivity).
  assert (Hraw : b64decode "bm5ubm5ubm5ubm5uQW5uYTAxMjM0NTY3ODlhYmNkZWY=" = Some (w_nonce ++ chars "Anna0123456789abcdef"))
    by (vm_compute; reflexivity).
  assert (Hsplit : split w_value = Ok (Some ("k1", "bm5ubm5ubm5ubm5uQW5uYTAxMjM0NTY3ODlhYmNkZWY="))) by (vm_compute; reflexivity).
  assert (Hutf : valid_utf8 (chars "Anna") = true) by (vm_compute; reflexivity).
  assert (Hplain : key_id_of (Some "plain") = Ok None) by (vm_compute; reflexivity).
  assert (Hk1 : key_id_of (Some w_value) = Ok (Some "k1")) by (vm_compute; reflexivity).
  refine (rotation_completes toy_seal toy_open w_two_keys (λ _, w_nonce) w_keys "people" "name" "id" 2 4 (w_rotation [])
            toy_aead Hn Hc _ _ _ _ _ _ _ _ _ _).
  - eexists. split; [reflexivity|]. by exists "K"%char, "2".
  - discriminate.
  - reflexivity.
  - reflexivity.
  - reflexivity.
  - lia.
  - reflexivity.
  - apply (bool_decide_unpack _). reflexivity.
  - apply Forall_cons_2; [right|apply Forall_cons_2; [left; left; exact Hplain|apply Forall_cons_2; [left; exact I|apply Forall_nil_2]]].
    exists w_value, "k1", "Anna". split; [reflexivity|]. split; [exact Hk1|].
    exists "k1", "bm5ubm5ubm5ubm5uQW5uYTAxMjM0NTY3ODlhYmNkZWY=", (w_nonce ++ chars "Anna0123456789abcdef"), (chars "0123456789abcdef0123456789abcdef").
    split; [exact Hsplit|]. split; [exact Hraw|]. split; [by apply Nat.leb_le|]. split; [|by split].
    split; [reflexivity|]. by exists "K"%char, "1".
  - by apply Nat.ltb_lt.
Defined.
