(* ===== verification/CryptoPasswords.v ===== *)
(** * Password hashing

    [crypto/passwords.py]. bcrypt is a parameter: [gensalt] with its
    randomness as an argument, [hashpw] and [checkpw]; [bcrypt_laws] is what
    its documentation promises. *)

From Stdlib Require Import ZArith Lia.
From S2P Require Import Prelude PyStr Json Base64 CryptoEnvelope.

Definition DEFAULT_ROUNDS : Z := 12.
Definition MAX_PASSWORD_BYTES : nat := 72.

Definition _encode (password : string) : res bytes :=
  let raw := chars password in
  if Nat.ltb MAX_PASSWORD_BYTES (length raw) then
    Err (crypto_error ("bcrypt hashes at most " +:+ str_of_nat MAX_PASSWORD_BYTES +:+ " bytes and this password is "
           +:+ str_of_nat (length raw) +:+ ". Everything past that is ignored, so accepting it would mean two different passwords unlocking the same account."))
  else Ok raw.

Definition refusal (e : exn) : bool := is_class ValueError e || is_class TypeError e || is_class CryptoError e.

Section hasher.
Context (seed : Type) (gensalt : Z → seed → res bytes) (hashpw : bytes → bytes → res bytes) (checkpw : bytes → bytes → res bool).

(** [hash] of a hasher with [rounds] *)
Definition hash (rounds : Z) (random : seed) (password : string) : res string :=
  raw ← _encode password;
  salt ← gensalt rounds random;
  hashed ← hashpw raw salt;
  if forallb (λ a, code a <? 128) hashed then Ok (of_chars hashed) else Err (raise_exn UnicodeError "'ascii' codec can't decode").

Definition verify (password stored : string) : res bool :=
  match (raw ← _encode password; checkpw raw (chars stored)) with
  | Ok answer => Ok answer
  | Err e => if refusal e then Ok false else Err e
  end.

Definition needs_rehash (rounds : Z) (stored : string) : bool :=
  match split "$"%char stored !! 2%nat with
  | None => true
  | Some field => match int_of_str field with Ok cost => cost <? rounds | Err _ => true end
  end.

(** A hash verifies its password, is the text [$version$cost$rest] of the
    rounds its salt was made for, and what the library refuses it refuses as
    one of these two. *)
Record bcrypt_laws : Prop := {
  hash_checks p salt h : hashpw p salt = Ok h → checkpw p h = Ok true;
  hash_form rounds random p salt h : gensalt rounds random = Ok salt → hashpw p salt = Ok h →
    ∃ version cost rest, h = chars ("$" +:+ version +:+ "$" +:+ cost +:+ "$" +:+ rest) ∧ forallb (λ a, code a <? 128) h = true
      ∧ has_char "$"%char version = false ∧ has_char "$"%char cost = false ∧ int_of_str cost = Ok rounds;
  check_refuses p h e : checkpw p h = Err e → exn_cls e = ValueError ∨ exn_cls e = TypeError
}.
End hasher.

(** C40: A password opens what it was hashed to and nothing raises out of a
    login. A hash verifies its password; it is due for a new hash exactly
    when it was made with fewer rounds than are configured now. A password
    past bcrypt's limit is never hashed and opens nothing; and whatever is
    stored, verifying answers yes or no. *)
Theorem password_verify seed gensalt hashpw checkpw rounds random password stored :
  bcrypt_laws seed gensalt hashpw checkpw →
  (∀ h, hash seed gensalt hashpw rounds random password = Ok h →
     verify checkpw password h = Ok true ∧ ∀ rounds', needs_rehash rounds' h = (rounds <? rounds'))
  ∧ ((MAX_PASSWORD_BYTES < length (chars password))%nat →
       (∃ e, hash seed gensalt hashpw rounds random password = Err e ∧ exn_cls e = CryptoError)
       ∧ verify checkpw password stored = Ok false)
  ∧ ∃ answer, verify checkpw password stored = Ok answer.
Proof.
  intros Hl. split_and!.
  - intros h. unfold hash, verify. unfold _encode. destruct (Nat.ltb_spec MAX_PASSWORD_BYTES (length (chars password))); [done|].
    simpl. destruct (gensalt rounds random) as [salt|] eqn:Hs; [|done]. simpl.
    destruct (hashpw (chars password) salt) as [b|] eqn:Hh; [|done]. simpl.
    destruct (hash_form _ _ _ _ Hl _ _ _ _ _ Hs Hh) as (version & cost & rest & -> & Ha & Hv & Hc & Hint).
    rewrite Ha, of_chars_chars. remember ("$" +:+ version +:+ "$" +:+ cost +:+ "$" +:+ rest) as text eqn:Ht. intros [= <-].
    rewrite (hash_checks _ _ _ _ Hl _ _ _ Hh). split; [done|]. intros rounds'. unfold needs_rehash. rewrite Ht.
    change ("$" +:+ version +:+ "$" +:+ cost +:+ "$" +:+ rest)
      with ("" +:+ String "$"%char (version +:+ String "$"%char (cost +:+ String "$"%char rest))).
    rewrite !split_app, (split_free _ "") by done. rewrite (split_free _ version), (split_free _ cost) by done.
    cbn [app lookup list_lookup]. by rewrite Hint.
  - intros Hlen. unfold hash, verify, _encode. rewrite (proj2 (Nat.ltb_lt _ _)) by done. simpl. split; [by eexists|done].
  - unfold verify, _encode. destruct (Nat.ltb _ _); simpl; [by eexists|].
    destruct (checkpw _ _) as [b|e] eqn:E; [by eexists|]. apply (check_refuses _ _ _ _ Hl) in E.
    unfold refusal, is_class. destruct E as [-> | ->]; by eexists.
Qed.

(** ** A toy library: the hash is the password after its version and rounds *)
Definition toy_gensalt (rounds : Z) (random : unit) : res bytes :=
  if (10 <=? rounds) && (rounds <=? 12) then Ok (chars (str_of_Z rounds)) else Err (raise_exn ValueError "Invalid rounds").
Definition toy_hashpw (p salt : bytes) : res bytes :=
  if forallb (λ a, code a <? 128) p then Ok (chars "$2b$" ++ salt ++ ["$"%char] ++ p) else Err (raise_exn ValueError "Invalid").
Definition toy_checkpw (p h : bytes) : res bool := Ok (bool_decide (drop 7 h = p)).

Lemma toy_bcrypt : bcrypt_laws unit toy_gensalt (λ p salt, if Nat.eqb (length salt) 2 then toy_hashpw p salt else Err (raise_exn ValueError "Invalid salt")) toy_checkpw.
Proof.
  split.
  - intros p salt h. destruct salt as [|a [|b [|? ?]]]; try done. simpl. unfold toy_hashpw. destruct (forallb _ _); [|done].
    intros [= <-]. unfold toy_checkpw. simpl. by rewrite bool_decide_true.
  - intros rounds [] p salt h. unfold toy_gensalt. destruct (_ && _) eqn:Hr; [|done].
    apply andb_true_iff in Hr as [H1 H2]. intros [= <-].
    assert (rounds = 10 ∨ rounds = 11 ∨ rounds = 12) as Hcases by lia. clear H1 H2.
    assert (Hsalt : length (chars (str_of_Z rounds)) = 2%nat) by (destruct Hcases as [-> | [-> | ->]]; reflexivity).
    rewrite (proj2 (Nat.eqb_eq _ _)) by done. unfold toy_hashpw. destruct (forallb _ p) eqn:Hp; [|done]. intros [= <-].
    exists "2b", (str_of_Z rounds), (of_chars p). rewrite !chars_app, chars_of_chars.
    split; [done|]. split; [|destruct Hcases as [-> | [-> | ->]]; by vm_compute].
    change (forallb (λ a, code a <? 128) (chars "$2b$" ++ chars (str_of_Z rounds) ++ ["$"%char] ++ p) = true).
    rewrite !forallb_app, Hp. by destruct Hcases as [-> | [-> | ->]].
  - done.
Qed.

Lemma password_verify_witness :
  let hashpw p salt := if Nat.eqb (length salt) 2 then toy_hashpw p salt else Err (raise_exn ValueError "Invalid salt") in
  hash unit toy_gensalt hashpw 11 () "hunter2" = Ok "$2b$11$hunter2"
  ∧ verify toy_checkpw "hunter2" "$2b$11$hunter2" = Ok true
  ∧ needs_rehash DEFAULT_ROUNDS "$2b$11$hunter2" = true ∧ ∃ answer, verify toy_checkpw "hunter2" "" = Ok answer.
Proof.
  intros hashpw. assert (Hh : hash unit toy_gensalt hashpw 11 () "hunter2" = Ok "$2b$11$hunter2") by (vm_compute; reflexivity).
  destruct (password_verify unit toy_gensalt hashpw toy_checkpw 11 () "hunter2" "" toy_bcrypt) as (H & _ & Ha).
  destruct (H _ Hh) as [Hv Hr]. split; [exact Hh|]. split; [exact Hv|]. split; [|exact Ha]. by rewrite Hr.
Defined.
