(* ===== verification/CryptoService.v ===== *)
(** * The crypto command line

    [crypto/_service.py]: which command runs, on what, and the exit code. The
    configuration is its [crypto] block as JSON and its databases as
    [db_entry] records; opening a connection is a parameter. *)

From Stdlib Require Import ZArith Lia.
From S2P Require Import Prelude PyStr Json Sql Base64 MigTracker MigService CryptoEnvelope CryptoFields CryptoCommands.

Definition _DEFAULT_DB : string := "main".

Record crypto_args := CryptoArgs {
  ca_step : string; ca_db : option string; ca_table : string; ca_column : string; ca_id : string; ca_batch : Z; ca_dry_run : bool
}.

Section service.
Context (seal : bytes → bytes → bytes → bytes → bytes) (unseal : bytes → bytes → bytes → bytes → option bytes).
Context (resolver : string → option string) (urandom : nat → bytes) (key_bytes : bytes).
Context (py_str : json → string) (connected : connect_args → res ()).

Definition with_crypto (c : FieldCrypto) (s : rotation) : rotation := Rotation c (rs_rows s) (rs_events s) (rs_nonce s).

(** The body of the [try]: the exit code, [None] when [fuel] pages did not do. *)
Definition _run (fuel : nat) (args : crypto_args) (config : list (string * json)) (db : list (string * db_entry)) : prog rotation (option Z) :=
  crypto ← lift_res (from_config py_str config);
  _ ← stmt (λ s, (with_crypto crypto s, ()));
  let db_name := or_default (ca_db args) _DEFAULT_DB in
  match dict_get db_name db with
  | None =>
      _ ← out ("error: no database " +:+ repr db_name +:+ sq " in config['db']; configured are: "
               +:+ or_default (Some (join ", " (sorted_names db.*1))) "none" +:+ ".");
      raise (system_exit 2)
  | Some entry =>
      if String.eqb (ca_step args) "rotate" then
        kwargs ← lift_res (connect_kwargs entry);
        _ ← lift_res (connected kwargs);
        cmd_rotate seal unseal resolver urandom (ca_table args) (ca_column args) (ca_id args) (ca_batch args) (ca_dry_run args) fuel
      else _ ← out ("error: unknown crypto command " +:+ repr (ca_step args)); mret (Some 1)
  end.

(** Ends the process, unless [fuel] did not do. *)
Definition init_service (fuel : nat) (args : crypto_args) (config : list (string * json)) (db : list (string * db_entry)) : prog rotation () :=
  if String.eqb (ca_step args) "key" then code ← cmd_key key_bytes; raise (system_exit code)
  else
    code ← try_except (_run fuel args config db) (λ e, negb (is_class SystemExit e))
      (λ e, _ ← (if is_class CryptoError e then out ("error: " +:+ exn_msg e) else mret ()); raise (system_exit 1));
    match code with Some code => raise (system_exit code) | None => mret () end.

(** A command that did not finish, or was never run, ends the process with
    another code than 0. *)
Lemma service_code fuel args config db w w' r :
  init_service fuel args config db w = (w', r) →
  (r = Ok () ∧ (∃ w1, _run fuel args config db w = (w1, Ok None)))
  ∨ (∃ code, r = Err (system_exit code) ∧ (code = 0 →
       ca_step args = "key" ∨ (∃ w1, _run fuel args config db w = (w1, Ok (Some 0))) ∨ ∃ w1, _run fuel args config db w = (w1, Err (system_exit 0))))
  ∨ ∃ e, r = Err e ∧ exn_cls e = SystemExit ∧ ∃ w1, _run fuel args config db w = (w1, Err e).
Proof.
  unfold init_service. destruct (String.eqb_spec (ca_step args) "key") as [Hk|_].
  { intros [= <- <-]. right. left. exists 0. split; [done|]. by left. }
  unfold try_except, mbind, prog_bind. destruct (_run fuel args config db w) as [w1 [[code|]|e]]; simpl.
  - intros [= <- <-]. right. left. exists code. split; [done|]. intros ->. right. left. by exists w1.
  - intros [= <- <-]. left. split; [done|]. by exists w1.
  - destruct (is_class SystemExit e) eqn:He; simpl.
    + intros [= <- <-]. right. right. exists e. split; [done|]. apply bool_decide_eq_true in He. split; [done|]. by exists w1.
    + intros H. right. left. exists 1. split; [|done]. revert H. destruct (is_class CryptoError e); intros [= _ <-]; done.
Qed.
End service.
