(* ===== verification/AuditDiff.v ===== *)
(** * Comparing a row with the values written to it

    [audit/diff.py]. A value of a row is a [value]: a float and a [Decimal]
    are their texts ([str] gives them back), a date is a day number, a
    datetime its local microseconds and its offset. Reading a date from an
    ISO text and writing one are parameters, and so is [str] of a list or a
    dict. Case and surrounding space are those of ASCII. The text of an
    integer is there however long it is: CPython refuses ([ValueError]) to
    write one of more than 4300 digits, which no numeric column that is
    compared here is taken to hold. *)

From Stdlib Require Import ZArith Lia.
From S2P Require Import Prelude PyStr Json.

Record moment := Moment { mo_local : Z; mo_offset : option Z }.

#[export] Instance moment_eq_dec : EqDecision moment.
Proof. solve_decision. Defined.

Inductive value :=
  | VNone
  | VBool (b : bool)
  | VInt (n : Z)
  | VFloat (text : string)
  | VDecimal (text : string)
  | VStr (s : string)
  | VDate (day : Z)
  | VDatetime (m : moment)
  | VJson (j : json)        (* a list, a tuple or a dict *)
  | VSet (text : string)
  | VOther (text : string).

Definition arow : Type := list (string * value).

(** ** Decimals *)

(** A finite one is [coefficient * 10 ^ exponent]. *)
Inductive decimal := DFinite (coefficient exponent : Z) | DInf (negative : bool) | DNaN | DSNaN.

Definition digits_value (ds : list ascii) : Z := foldl (λ n a, 10 * n + (code a - 48)) 0 ds.

(** [digits '.' digits], one of them perhaps empty: the digits and how many
    follow the point. *)
Definition decimal_part (l : list ascii) : option (list ascii * nat) :=
  match span is_digit l with
  | (ds, []) => if Nat.eqb (length ds) 0 then None else Some (ds, 0%nat)
  | (ds, "."%char :: frac) =>
      if forallb is_digit frac && negb (Nat.eqb (length ds + length frac) 0) then Some (ds ++ frac, length frac) else None
  | _ => None
  end.

Definition signed_digits (l : list ascii) : option Z :=
  let '(sign, ds) := match l with "-"%char :: r => (-1, r) | "+"%char :: r => (1, r) | _ => (1, l) end in
  if digits1 ds then Some (sign * digits_value ds) else None.

(** The exponents [Decimal] can hold. *)
Definition MAX_EMAX : Z := 999999999999999999.
Definition MIN_ETINY : Z := -1999999999999999997.

Definition finite (negative : bool) (body : list ascii) : option decimal :=
  let '(number, exponent) :=
    match partition_chars "e"%char body with
    | Some (number, e) => (number, signed_digits e)
    | None => (body, Some 0)
    end in
  match decimal_part number, exponent with
  | Some (ds, places), Some e =>
      let c := digits_value ds in
      let e := e - Z.of_nat places in
      let adjusted := if c =? 0 then e else e + py_len (str_of_Z c) - 1 in
      if (MIN_ETINY <=? e) && (adjusted <=? MAX_EMAX) then Some (DFinite (if negative then - c else c) e) else None
  | _, _ => None
  end.

Definition nan_payload (l : list ascii) : bool := forallb is_digit l.

(** [Decimal(s)]; [None] for [InvalidOperation]. *)
Definition Decimal (s : string) : option decimal :=
  let l := List.filter (λ a, negb (Ascii.eqb a "_"%char)) (map lower_char (chars (strip s))) in
  let '(negative, body) := match l with "-"%char :: r => (true, r) | "+"%char :: r => (false, r) | _ => (false, l) end in
  match body with
  | "i"%char :: _ =>
      if bool_decide (body = chars "inf") || bool_decide (body = chars "infinity") then Some (DInf negative) else None
  | "n"%char :: "a"%char :: "n"%char :: payload => if nan_payload payload then Some DNaN else None
  | "s"%char :: "n"%char :: "a"%char :: "n"%char :: payload => if nan_payload payload then Some DSNaN else None
  | _ => finite negative body
  end.

Definition InvalidOperation : exn := raise_exn OtherException "InvalidOperation".

(** [lhs == rhs]: exact, a quiet NaN equals nothing and a signalling one
    raises. *)
Definition decimal_eq (x y : decimal) : res bool :=
  match x, y with
  | DSNaN, _ | _, DSNaN => Err InvalidOperation
  | DFinite c1 e1, DFinite c2 e2 => let m := Z.min e1 e2 in Ok (c1 * 10 ^ (e1 - m) =? c2 * 10 ^ (e2 - m))
  | DInf s1, DInf s2 => Ok (Bool.eqb s1 s2)
  | _, _ => Ok false
  end.

(** ** JSON text

    The escapes of [ensure_ascii] are left out: they never make two texts
    one, and the texts are only compared. *)
Definition member_le (x y : string * json) : Prop := String.le x.1 y.1.

#[export] Instance member_le_dec x y : Decision (member_le x y).
Proof. unfold member_le. apply _. Defined.

(** [sort_keys=True, default=str]: an object JSON cannot hold is its text. *)
Fixpoint sorted_plain (j : json) : json :=
  match j with
  | JList l => JList (map sorted_plain l)
  | JObj d => JObj (merge_sort member_le (map (λ kv, (kv.1, sorted_plain kv.2)) d))
  | JOpaque text => JStr text
  | _ => j
  end.

Section diff.
Context (date_fromisoformat : string → option Z) (datetime_fromisoformat : string → option moment).
Context (str_date : Z → string) (str_datetime : moment → string) (py_str : json → string).

(** [str(v)] *)
Definition str_value (v : value) : string :=
  match v with
  | VNone => "None"
  | VBool b => if b then "True" else "False"
  | VInt n => str_of_Z n
  | VFloat t | VDecimal t | VStr t | VSet t | VOther t => t
  | VDate d => str_date d
  | VDatetime m => str_datetime m
  | VJson j => py_str j
  end.

(** What [default=str] makes of a value. *)
Definition to_json (v : value) : json :=
  match v with
  | VNone => JNull
  | VBool b => JBool b
  | VInt n => JInt n
  | VFloat t => JFloat t
  | VStr s => JStr s
  | VJson j => j
  | _ => JStr (str_value v)
  end.

Definition REDACTED : string := "***".

Definition _TRUE : list string := ["1"; "t"; "true"; "y"; "yes"; "on"].
Definition _FALSE : list string := ["0"; "f"; "false"; "n"; "no"; "off"; ""].

Definition _boolish (v : value) : string :=
  match v with
  | VBool b => if b then "1" else "0"
  | VInt n => if n =? 1 then "1" else if n =? 0 then "0" else str_of_Z n
  | _ =>
      let text := lower (strip (str_value v)) in
      if existsb (String.eqb text) _TRUE then "1" else if existsb (String.eqb text) _FALSE then "0" else text
  end.

Definition _as_decimal (v : value) : option decimal :=
  match v with
  | VInt n => Decimal (str_of_Z n)
  | VFloat t | VDecimal t | VStr t => Decimal t
  | _ => None
  end.

Definition is_bool (v : value) : bool := match v with VBool _ => true | _ => false end.
Definition is_time (v : value) : bool := match v with VDate _ | VDatetime _ => true | _ => false end.
Definition _is_plain_date (v : value) : bool := match v with VDate _ => true | _ => false end.
Definition is_container (v : value) : bool := match v with VJson _ | VSet _ => true | _ => false end.

Definition day : Z := 86400000000.

Inductive time := Day (d : Z) | At (m : moment).

Definition _as_datetime (as_date : bool) (v : value) : option time :=
  match v with
  | VDatetime m => Some (if as_date then Day (mo_local m / day) else At m)
  | VDate d => Some (Day d)
  | VStr s => if as_date then Day <$> date_fromisoformat s else At <$> datetime_fromisoformat s
  | _ => None
  end.

(** [lhs == rhs], once both or neither have an offset *)
Definition time_eq (lhs rhs : time) : bool :=
  match lhs, rhs with
  | Day d1, Day d2 => d1 =? d2
  | At m1, At m2 => mo_local m1 - default 0 (mo_offset m1) =? mo_local m2 - default 0 (mo_offset m2)
  | _, _ => false
  end.

Definition _json (v : value) : string :=
  match dumps (sorted_plain (to_json v)) with Ok text => text | Err _ => str_value v end.

Definition is_none (v : value) : bool := match v with VNone => true | _ => false end.
Definition zoned (m : moment) : bool := match mo_offset m with Some _ => true | None => false end.
Definition same_text (a b : value) : bool := String.eqb (str_value a) (str_value b).

Definition same (a b : value) : res bool :=
  if is_none a || is_none b then Ok (is_none a && is_none b)
  else if is_bool a || is_bool b then Ok (String.eqb (_boolish a) (_boolish b))
  else if is_time a || is_time b then
    let as_date := _is_plain_date a || _is_plain_date b in
    match _as_datetime as_date a, _as_datetime as_date b with
    | Some lhs, Some rhs =>
        match lhs, rhs with
        | At m1, At m2 => Ok (if Bool.eqb (zoned m1) (zoned m2) then time_eq lhs rhs else same_text a b)
        | _, _ => Ok (time_eq lhs rhs)
        end
    | _, _ => Ok (same_text a b)
    end
  else if is_container a || is_container b then Ok (String.eqb (_json a) (_json b))
  else
    match _as_decimal a, _as_decimal b with
    | Some lhs, Some rhs => decimal_eq lhs rhs
    | _, _ => Ok (same_text a b)
    end.

(** ** What is recorded *)
Definition is_excluded (exclude : list string) (key : string) : bool := existsb (String.eqb (lower key)) (map lower exclude).

Definition mask (values : arow) (exclude : list string) : arow :=
  match exclude with
  | [] => values
  | _ => map (λ kv, (kv.1, if is_excluded exclude kv.1 then VStr REDACTED else kv.2)) values
  end.

Definition old_value (before : arow) (key : string) : value := default VNone (dict_get key before).

(** The keys of [after] in its order, with what they were and are. *)
Fixpoint changes (before : arow) (exclude : list string) (after : arow) : res (arow * arow) :=
  match after with
  | [] => Ok ([], [])
  | (key, new_value) :: after =>
      is_same ← same (old_value before key) new_value;
      rest ← changes before exclude after;
      let '(old_values, new_values) := rest in
      Ok (if (is_same : bool) then (old_values, new_values)
          else if is_excluded exclude key then ((key, VStr REDACTED) :: old_values, (key, VStr REDACTED) :: new_values)
          else ((key, old_value before key) :: old_values, (key, new_value) :: new_values))
  end.

Definition between (before after : option arow) (exclude : list string) : res (option arow * option arow) :=
  match before, after with
  | None, None => Ok (None, None)
  | None, Some after => Ok (None, Some (mask after (map lower exclude)))
  | Some before, None => Ok (Some (mask before (map lower exclude)), None)
  | Some before, Some after =>
      found ← changes before exclude after;
      Ok (match found.2 with [] => (None, None) | _ => (Some found.1, Some found.2) end)
  end.
End diff.
