(* ===== verification/AuditTrail.v ===== *)
(** * The audit trail

    [audit/event.py], [audit/store.py] and [audit/audit.py]. The store is the
    caller's transaction: the tables, the rows written to the trail, whether
    a failed statement has aborted it, the ambient request context of the
    task, and [au_events], what happens around each statement of the calls:
    a change other transactions make before it, and perhaps its failure. What
    the server decides is a parameter: the row it stores for an insert or an
    update, and when a stored value equals one in a condition. Log lines are
    not modelled. *)

From Stdlib Require Import ZArith Lia.
From S2P Require Import Prelude PyStr Json Sql AuditDiff.

Definition audit_error (msg : string) : exn := raise_exn AuditError msg.

(** ** The event *)
Definition CREATED : string := "created".
Definition UPDATED : string := "updated".
Definition DELETED : string := "deleted".

Record Actor := MkActor { at_type : string; at_id : string; at_name : string }.
Record RequestContext := MkContext {
  rc_request_id : string; rc_url : string; rc_ip_address : string; rc_user_agent : string; rc_actor : Actor
}.

Definition no_actor : Actor := MkActor "" "" "".
Definition _EMPTY : RequestContext := MkContext "" "" "" "" no_actor.

Record AuditEvent := MkEvent {
  ae_event : string; ae_entity_type : string; ae_entity_id : string; ae_module : string;
  ae_old_values : option arow; ae_new_values : option arow;
  ae_actor_type : string; ae_actor_id : string; ae_actor_name : string;
  ae_request_id : string; ae_url : string; ae_ip_address : string; ae_user_agent : string;
  ae_tags : list string; ae_context : option json; ae_created_at : option Z
}.

Definition or_text (a b : string) : string := if String.eqb a "" then b else a.

Definition with_resolved (e : AuditEvent) (c : RequestContext) : AuditEvent :=
  MkEvent (ae_event e) (ae_entity_type e) (ae_entity_id e) (ae_module e) (ae_old_values e) (ae_new_values e)
    (or_text (ae_actor_type e) (at_type (rc_actor c))) (or_text (ae_actor_id e) (at_id (rc_actor c)))
    (or_text (ae_actor_name e) (at_name (rc_actor c))) (or_text (ae_request_id e) (rc_request_id c))
    (or_text (ae_url e) (rc_url c)) (or_text (ae_ip_address e) (rc_ip_address c)) (or_text (ae_user_agent e) (rc_user_agent c))
    (ae_tags e) (ae_context e) (ae_created_at e).

Definition with_values (e : AuditEvent) (old new : option arow) : AuditEvent :=
  MkEvent (ae_event e) (ae_entity_type e) (ae_entity_id e) (ae_module e) old new
    (ae_actor_type e) (ae_actor_id e) (ae_actor_name e) (ae_request_id e) (ae_url e) (ae_ip_address e) (ae_user_agent e)
    (ae_tags e) (ae_context e) (ae_created_at e).

(** ** The row of an event *)
Record trail_row := TrailRow {
  tr_created_at : Z; tr_request_id : string; tr_module : string; tr_event : string; tr_entity_type : string;
  tr_entity_id : string; tr_actor_type : string; tr_actor_id : string; tr_actor_name : string;
  tr_old_values : option string; tr_new_values : option string; tr_url : string; tr_ip_address : string;
  tr_user_agent : string; tr_tags : option string; tr_context : option string
}.

Definition _WIDTHS : list (string * Z) :=
  [("request_id", 32); ("module", 64); ("event", 32); ("entity_type", 128); ("entity_id", 64); ("actor_type", 32);
   ("actor_id", 64); ("actor_name", 190); ("ip_address", 45)].

Definition _fit (column value : string) : string :=
  match dict_get column _WIDTHS with
  | None => value
  | Some width => if py_len value <=? width then value else py_take (Z.to_nat width) value
  end.

Definition _TABLE_RE : string → bool := plain_table.

Definition assert_table_name (table : string) : res string :=
  if _TABLE_RE table then Ok table
  else Err (audit_error ("Refusing to write the audit trail to " +:+ repr table +:+ ": not a plain table name")).

(** ** The transaction *)
Record table := Table { tb_columns : list string; tb_rows : list arow }.

Record event := Event { ev_change : list (string * table) → list (string * table); ev_fault : option exn }.

Record audit_db := AuditDb {
  au_tables : list (string * table); au_trail : list (string * trail_row); au_failed : bool;
  au_context : option RequestContext; au_events : list event
}.

Definition with_tables (t : list (string * table)) (s : audit_db) : audit_db :=
  AuditDb t (au_trail s) (au_failed s) (au_context s) (au_events s).
Definition with_trail (t : list (string * trail_row)) (s : audit_db) : audit_db :=
  AuditDb (au_tables s) t (au_failed s) (au_context s) (au_events s).
Definition with_context (c : option RequestContext) (s : audit_db) : audit_db :=
  AuditDb (au_tables s) (au_trail s) (au_failed s) c (au_events s).
Definition aborted (s : audit_db) : audit_db :=
  AuditDb (au_tables s) (au_trail s) true (au_context s) (au_events s).

Definition db_error (msg : string) : exn := raise_exn PsycopgError msg.

(** One statement. A statement that fails aborts the transaction, and an
    aborted one executes nothing more. *)
Definition execute {A} (f : audit_db → res (audit_db * A)) : prog audit_db A := λ w,
  let s := w_st w in
  let '(s, fault) :=
    match au_events s with
    | [] => (s, None)
    | e :: events => (AuditDb (ev_change e (au_tables s)) (au_trail s) (au_failed s) (au_context s) events, ev_fault e)
    end in
  if au_failed s then (World s (w_log w) (w_clock w), Err (db_error "current transaction is aborted"))
  else
    match fault, f s with
    | None, Ok (s', a) => (World s' (w_log w) (w_clock w), Ok a)
    | Some e, _ | None, Err e => (World (aborted s) (w_log w) (w_clock w), Err e)
    end.

(** ** The ambient context *)
Definition current_context : prog audit_db RequestContext := s ← get_st; mret (default _EMPTY (au_context s)).

Definition set_context (c : RequestContext) : prog audit_db () := stmt (λ s, (with_context (Some c) s, ())).

(** [with request_context(...): body]; [new_request_id] is what
    [secrets.token_hex(16)] gives. *)
Definition request_context {A} (new_request_id : string) (actor : option Actor) (url ip_address user_agent : string)
    (request_id : option string) (body : RequestContext → prog audit_db A) : prog audit_db A :=
  let context := MkContext (default new_request_id request_id) url ip_address user_agent (default no_actor actor) in
  s ← get_st;
  _ ← set_context context;
  try_finally (body context) (stmt (λ s', (with_context (au_context s) s', ()))).

(** ** The recorder *)
Definition table_key : Type := option string * string.

#[export] Instance table_key_eq_dec : EqDecision table_key := _.

Definition _table_key (table : string) : table_key :=
  let '(schema, _, name) := rpartition "."%char (lower table) in
  (if String.eqb schema "" then None else Some schema, name).

(** [self]: the table of the trail, the settings, and the columns to redact
    by table. *)
Record Audit := MkAudit {
  a_table : string; a_strict : bool; a_max_rows : Z; a_id_key : string; a_exclude : list (table_key * list string)
}.

(** An entry of the [exclude] block: the names, [None] for what is not a list
    of texts. *)
Definition raw_exclude : Type := list (string * option (list string)).

Fixpoint normalised (raw : raw_exclude) (d : list (table_key * list string)) : list (table_key * list string) :=
  match raw with
  | [] => d
  | (table, columns) :: raw =>
      let key := _table_key table in
      normalised raw (dict_set key (default [] (dict_get key d) ++ map lower (default [] columns)) d)
  end.

Definition _validated_exclude (exclude : raw_exclude) : res (list (table_key * list string)) :=
  match List.find (λ kv, match kv.2 with None => true | Some _ => false end) exclude with
  | Some (table, _) =>
      Err (audit_error (sq "config['audit']['exclude'][" +:+ repr table
             +:+ "] must be a list of column names. Anything unreadable here is a redaction that will not happen."))
  | None => Ok (normalised exclude [])
  end.

Definition __init__ (table : string) (strict : bool) (max_rows : Z) (id_key : string) (exclude : raw_exclude) : res Audit :=
  table ← assert_table_name table;
  exclude ← _validated_exclude exclude;
  Ok (MkAudit table strict max_rows id_key exclude).

(** ** The configuration *)
Definition _DEFAULTS : list (string * json) :=
  [("table", JStr "audit_log"); ("strict", JBool true); ("max_rows", JInt 1000); ("id_key", JStr "id"); ("exclude", JObj [])].

(** [isinstance(columns, (list, tuple)) and all(isinstance(c, str) for c in columns)] *)
Fixpoint texts (l : list json) : option (list string) :=
  match l with
  | [] => Some []
  | JStr s :: l => rest ← texts l; Some (s :: rest)
  | _ :: _ => None
  end.
Definition columns_of (v : json) : option (list string) := match v with JList l => texts l | _ => None end.

Definition exclude_of (v : json) : res raw_exclude :=
  if truthy v then
    match v with
    | JObj d => Ok (map (λ kv, (kv.1, columns_of kv.2)) d)
    | _ => Err (audit_error (sq "config['audit']['exclude'] must be a mapping of table name -> list of columns"))
    end
  else Ok [].

(** A table name or an [id_key] that is not a text is refused here; the code
    refuses it on its first use. *)
Definition from_config (config : list (string * json)) : res Audit :=
  given ← match dict_get "audit" config with
          | Some v => if truthy v then match v with JObj d => Ok d | _ => Err (raise_exn TypeError "object is not a mapping") end else Ok []
          | None => Ok []
          end;
  let settings k := default JNull (dict_get k (foldl (λ d kv, dict_set kv.1 kv.2 d) _DEFAULTS given)) in
  max_rows ← match settings "max_rows" with
             | JInt n => Ok n
             | _ => Err (audit_error (sq "config['audit']['max_rows'] must be an int. A string here would compare against a row count and silently never match."))
             end;
  table ← match settings "table" with JStr s => Ok s | _ => Err (raise_exn TypeError "expected string or bytes-like object") end;
  id_key ← (if truthy (settings "id_key") then match settings "id_key" with JStr s => Ok s | _ => Err (raise_exn TypeError "SQL identifier parts must be strings") end
            else Ok "id");
  exclude ← exclude_of (settings "exclude");
  __init__ table (match settings "strict" with JBool false => false | _ => true end) max_rows id_key exclude.

Section audit.
Context (date_fromisoformat : string → option Z) (datetime_fromisoformat : string → option moment).
Context (str_date : Z → string) (str_datetime : moment → string) (py_str : json → string).
Context (inserted : string → table → arow → res arow) (updated : string → arow → arow → res arow).
Context (sql_equal : string → string → value → value → bool).
Context (a : Audit).

Abbreviation str_value := (str_value str_date str_datetime py_str).
Abbreviation to_json := (to_json str_date str_datetime py_str).
Abbreviation between := (between date_fromisoformat datetime_fromisoformat str_date str_datetime py_str).

(** [json.dumps(value, ensure_ascii=False, default=str)] *)
Fixpoint plain (j : json) : json :=
  match j with
  | JList l => JList (map plain l)
  | JObj d => JObj (map (λ kv, (kv.1, plain kv.2)) d)
  | JOpaque text => JStr text
  | _ => j
  end.

Definition _json (j : json) : option string := match dumps (plain j) with Ok text => Some text | Err _ => None end.

Definition values_json (values : option arow) : option string :=
  v ← values; _json (JObj (map (λ kv, (kv.1, to_json kv.2)) v)).

Definition row (now : Z) (e : AuditEvent) : trail_row :=
  TrailRow (match ae_created_at e with Some t => t | None => now end)
    (_fit "request_id" (ae_request_id e)) (_fit "module" (ae_module e)) (_fit "event" (ae_event e))
    (_fit "entity_type" (ae_entity_type e)) (_fit "entity_id" (ae_entity_id e)) (_fit "actor_type" (ae_actor_type e))
    (_fit "actor_id" (ae_actor_id e)) (_fit "actor_name" (ae_actor_name e))
    (values_json (ae_old_values e)) (values_json (ae_new_values e)) (ae_url e) (_fit "ip_address" (ae_ip_address e))
    (ae_user_agent e) (match ae_tags e with [] => None | tags => _json (JList (map JStr tags)) end)
    (c ← ae_context e; _json c).

Definition write (e : AuditEvent) : prog audit_db () :=
  now ← now_utc;
  execute (λ s, Ok (with_trail (au_trail s ++ [(a_table a, row now e)]) s, ())).

(** [set] of lower-case columns, sorted *)
Definition excluded (table : string) : list string :=
  let '(schema, name) := _table_key table in
  merge_sort String.le (remove_dups (concat (map snd (filter (λ kv : table_key * list string,
    kv.1.2 = name ∧ (kv.1.1 = None ∨ schema = None ∨ kv.1.1 = schema)) (a_exclude a))))).

Definition _fail (e : exn) : prog audit_db () :=
  if a_strict a then raise (if is_class AuditError e then e else audit_error ("Audit trail: " +:+ exn_msg e))
  else mret ().

Definition masked (e : AuditEvent) : AuditEvent :=
  match excluded (ae_entity_type e) with
  | [] => e
  | columns => with_values e (v ← ae_old_values e; Some (mask v columns)) (v ← ae_new_values e; Some (mask v columns))
  end.

Definition record (e : AuditEvent) : prog audit_db () :=
  let e := masked e in
  try_except (c ← current_context; write (with_resolved e c)) is_exception _fail.

(** ** The wrappers *)

(** The options of a call: module, tags and context. *)
Record options := Options { op_module : string; op_tags : list string; op_context : option json }.

Definition change_event (o : options) (event table entity_id : string) (old new : option arow) : AuditEvent :=
  MkEvent event table entity_id (op_module o) old new "" "" "" "" "" "" "" (op_tags o) (op_context o) None.

Definition find_table (table : string) (s : audit_db) : res AuditTrail.table :=
  match dict_get table (au_tables s) with Some t => Ok t | None => Err (db_error ("relation " +:+ table +:+ " does not exist")) end.

(** A statement names columns the table has. *)
Definition has_columns (t : AuditTrail.table) (columns : list string) : res () :=
  match List.find (λ c, negb (existsb (String.eqb c) (tb_columns t))) columns with
  | Some c => Err (db_error ("column " +:+ c +:+ " does not exist"))
  | None => Ok ()
  end.

(** [WHERE c1 = v1 AND ...]: a value that is NULL equals nothing. *)
Definition matches (table : string) (where_ : arow) (r : arow) : bool :=
  forallb (λ cv, match dict_get cv.1 r with
                 | Some v => negb (is_none v) && negb (is_none cv.2) && sql_equal table cv.1 v cv.2
                 | None => false
                 end) where_.

Definition put_rows (table : string) (rows : list arow) (t : AuditTrail.table) (s : audit_db) : audit_db :=
  with_tables (dict_set table (Table (tb_columns t) rows) (au_tables s)) s.

(** [SELECT * FROM table [WHERE ...] FOR UPDATE] *)
Definition _rows (table : string) (where_ : arow) : prog audit_db (list arow) :=
  execute (λ s,
    t ← find_table table s;
    _ ← has_columns t where_.*1;
    Ok (s, select_where (matches table where_) (tb_rows t))).

Definition _row_id (r : arow) : string :=
  match dict_get (a_id_key a) r with None | Some VNone => "" | Some v => str_value v end.

Definition _assert_within_limit (table : string) (matched : Z) : prog audit_db () :=
  if (a_max_rows a <? 1) || (matched <=? a_max_rows a) then mret ()
  else _fail (audit_error ("Refusing to audit " +:+ str_of_Z matched +:+ " rows of " +:+ repr table
         +:+ sq " in one call; config['audit']['max_rows'] is " +:+ str_of_Z (a_max_rows a)
         +:+ ". Narrow the condition, or raise the limit.")).

Definition syntax_error : exn := db_error "syntax error".

(** [INSERT INTO table (...) VALUES (...) RETURNING id] *)
Definition insert_row (table : string) (data : arow) : prog audit_db value :=
  execute (λ s,
    t ← find_table table s;
    match data with
    | [] => Err syntax_error
    | _ =>
        _ ← has_columns t (data.*1 ++ [a_id_key a]);
        stored ← inserted table t data;
        Ok (put_rows table (tb_rows t ++ [stored]) t s, default VNone (dict_get (a_id_key a) stored))
    end).

Definition insert (table : string) (data : arow) (entity_id : option string) (o : options) : prog audit_db value :=
  _ ← lift_res (assert_table_name table);
  new_id ← insert_row table data;
  values ← lift_res (between None (Some data) []);
  _ ← record (change_event o CREATED table
                (match entity_id with Some i => i | None => if is_none new_id then "" else str_value new_id end)
                None values.2);
  mret new_id.

(** The rows an update leaves: the server may refuse one of them. *)
Fixpoint update_rows (table : string) (where_ data : arow) (rows : list arow) : res (list arow * Z) :=
  match rows with
  | [] => Ok ([], 0)
  | r :: rows =>
      r' ← (if matches table where_ r then updated table data r else Ok r);
      rest ← update_rows table where_ data rows;
      Ok (r' :: rest.1, (if matches table where_ r then 1 else 0) + rest.2)
  end.

(** [UPDATE table SET ... WHERE ...]; without columns or without a condition
    it is not a statement. *)
Definition update_matching (table : string) (data where_ : arow) : prog audit_db Z :=
  execute (λ s,
    t ← find_table table s;
    match data, where_ with
    | [], _ | _, [] => Err syntax_error
    | _, _ =>
        _ ← has_columns t (data.*1 ++ where_.*1);
        found ← update_rows table where_ data (tb_rows t);
        Ok (put_rows table found.1 t s, found.2)
    end).

Definition record_update (table : string) (data : arow) (o : options) (r : arow) : prog audit_db () :=
  values ← lift_res (between (Some r) (Some data) []);
  match values.2 with
  | None => mret ()
  | new_values => record (change_event o UPDATED table (_row_id r) values.1 new_values)
  end.

Definition update (table : string) (data where_ : arow) (o : options) : prog audit_db Z :=
  _ ← lift_res (assert_table_name table);
  rows ← _rows table where_;
  _ ← _assert_within_limit table (Z.of_nat (length rows));
  affected ← update_matching table data where_;
  _ ← for_each rows (record_update table data o);
  mret affected.

(** [DELETE FROM table WHERE ...] *)
Definition delete_matching (table : string) (where_ : arow) : prog audit_db Z :=
  execute (λ s,
    t ← find_table table s;
    _ ← has_columns t where_.*1;
    let '(rows, gone) := delete_where (matches table where_) (tb_rows t) in
    Ok (put_rows table rows t s, Z.of_nat (length gone))).

Definition record_delete (table : string) (o : options) (r : arow) : prog audit_db () :=
  values ← lift_res (between (Some r) None []);
  record (change_event o DELETED table (_row_id r) values.1 None).

Definition delete (table : string) (where_ : arow) (o : options) : prog audit_db Z :=
  _ ← lift_res (assert_table_name table);
  match where_ with
  | [] => raise (audit_error ("Refusing to delete every row of " +:+ repr table
            +:+ " with an empty condition. Pass an explicit condition, or run the DELETE yourself and record it with record()."))
  | _ =>
      rows ← _rows table where_;
      _ ← _assert_within_limit table (Z.of_nat (length rows));
      affected ← delete_matching table where_;
      _ ← for_each rows (record_delete table o);
      mret affected
  end.
End audit.
