(* ===== verification/AuditProps.v ===== *)
(** * What the audit trail promises *)

From Stdlib Require Import ZArith Lia.
From S2P Require Import Prelude PyStr Json Sql AuditDiff AuditTrail.

(** ** Case *)
Lemma lower_char_idem c : lower_char (lower_char c) = lower_char c.
Proof. destruct c as [[] [] [] [] [] [] [] []]; reflexivity. Qed.

Lemma lower_idem s : lower (lower s) = lower s.
Proof.
  unfold lower. rewrite chars_of_chars, map_map. f_equal. apply map_ext. apply lower_char_idem.
Qed.

Lemma is_excluded_spec exclude key : is_excluded exclude key = true ↔ ∃ c, c ∈ exclude ∧ lower c = lower key.
Proof.
  unfold is_excluded. rewrite existsb_exists. setoid_rewrite String.eqb_eq. split.
  - intros (x & Hx & He). apply in_map_iff in Hx as (c & <- & Hc). exists c. split; [by apply list_elem_of_In|done].
  - intros (c & Hc & He). exists (lower c). split; [by apply in_map, list_elem_of_In|done].
Qed.

(** ** Redaction *)

(** A key of the [exclude] block covers an entity. *)
Definition covers (key : table_key) (entity : string) : Prop :=
  key.2 = (_table_key entity).2 ∧ (key.1 = None ∨ (_table_key entity).1 = None ∨ key.1 = (_table_key entity).1).

Lemma elem_of_excluded a table c :
  c ∈ excluded a table ↔ ∃ key cs, (key, cs) ∈ a_exclude a ∧ covers key table ∧ c ∈ cs.
Proof.
  unfold excluded, covers. destruct (_table_key table) as [schema name]. rewrite merge_sort_Permutation, elem_of_remove_dups.
  rewrite list_elem_of_In, in_concat. split.
  - intros (cs & Hcs & Hc). apply in_map_iff in Hcs as ([key cs'] & <- & Hf). apply list_elem_of_In, list_elem_of_filter in Hf as [Hk Hin].
    exists key, cs'. split; [done|]. split; [|by apply list_elem_of_In]. simpl in *. naive_solver.
  - intros (key & cs & Hin & [Hn Hs] & Hc). exists cs. split; [|by apply list_elem_of_In].
    apply in_map_iff. exists (key, cs). split; [done|]. apply list_elem_of_In, list_elem_of_filter. split; [|done]. simpl in *. naive_solver.
Qed.

(** What is configured is in the block the recorder looks at. *)
Lemma normalised_covers raw : ∀ d,
  (∀ key cs, dict_get key d = Some cs → ∃ cs', dict_get key (normalised raw d) = Some cs' ∧ cs ⊆ cs')
  ∧ (∀ table columns, (table, Some columns) ∈ raw →
       ∃ cs', dict_get (_table_key table) (normalised raw d) = Some cs' ∧ map lower columns ⊆ cs').
Proof.
  induction raw as [|[table columns] raw IH]; intros d; cbn [normalised].
  { split; [intros key cs Hk; by exists cs|]. by intros t cols Hin%not_elem_of_nil. }
  set (d' := dict_set _ _ d). destruct (IH d') as [IHd IHraw]. clear IH. split.
  - intros key cs Hk.
    assert (∃ cs1, dict_get key d' = Some cs1 ∧ cs ⊆ cs1) as (cs1 & Hk1 & Hs1).
    { unfold d'. rewrite dict_get_set. destruct (decide (_table_key table = key)) as [<-|].
      - eexists. split; [done|]. rewrite Hk. simpl. set_solver.
      - by exists cs. }
    destruct (IHd _ _ Hk1) as (cs' & Hk' & Hs'). exists cs'. split; [done|]. set_solver.
  - intros t cols Hin. apply elem_of_cons in Hin as [[= -> <-]|Hin]; [|by apply IHraw].
    destruct (IHd (_table_key table) (default [] (dict_get (_table_key table) d) ++ map lower cols)) as (cs' & Hk' & Hs').
    { unfold d'. rewrite dict_get_set. by rewrite decide_True. }
    exists cs'. split; [done|]. set_solver.
Qed.

(** A column configured to be withheld from the trail of an entity. *)
Definition withheld (exclude : raw_exclude) (entity column : string) : Prop :=
  ∃ table columns c, (table, Some columns) ∈ exclude ∧ covers (_table_key table) entity ∧ c ∈ columns ∧ lower c = lower column.

Lemma withheld_excluded table strict max_rows id_key exclude a entity column :
  __init__ table strict max_rows id_key exclude = Ok a → withheld exclude entity column →
  is_excluded (excluded a entity) column = true.
Proof.
  unfold __init__, _validated_exclude. destruct (assert_table_name table); [|done]. simpl. destruct (List.find _ _) as [[? ?]|]; [done|].
  intros [= <-] (t & columns & c & Hin & Hcov & Hc & Hlow). apply is_excluded_spec.
  destruct (normalised_covers exclude []) as [_ H]. destruct (H _ _ Hin) as (cs & Hget & Hsub).
  exists (lower c). split; [|by rewrite lower_idem].
  apply elem_of_excluded. exists (_table_key t), cs. split; [by apply dict_get_Some_elem|]. split; [done|].
  apply Hsub. apply list_elem_of_In, in_map, list_elem_of_In. done.
Qed.

(** Rows that differ in the values of some columns only. *)
Definition agree (hidden : string → Prop) (v1 v2 : option arow) : Prop :=
  match v1, v2 with
  | None, None => True
  | Some r1, Some r2 => Forall2 (λ x y, x.1 = y.1 ∧ (x.2 = y.2 ∨ hidden x.1)) r1 r2
  | _, _ => False
  end.

Lemma mask_agree hidden columns v1 v2 :
  columns ≠ [] → (∀ c, hidden c → is_excluded columns c = true) → agree hidden v1 v2 →
  (v ← v1; Some (mask v columns)) = (v ← v2; Some (mask v columns)).
Proof.
  intros Hne Hh. destruct v1 as [r1|], v2 as [r2|]; simpl; try done. intros H. f_equal. unfold mask.
  destruct columns as [|c columns]; [done|]. induction H as [|[k1 x1] [k2 x2] r1 r2 [He Hx] _ IH]; [done|].
  simpl in *. subst k2. f_equal; [|exact IH]. f_equal. destruct (is_excluded _ k1) eqn:E; [done|].
  destruct Hx as [->|Hx]; [done|]. by rewrite Hh in E.
Qed.

Lemma agree_equal hidden v1 v2 : (∀ c, ¬ hidden c) → agree hidden v1 v2 → v1 = v2.
Proof.
  intros Hh. destruct v1 as [r1|], v2 as [r2|]; simpl; try done. intros H. f_equal.
  induction H as [|[k1 x1] [k2 x2] r1 r2 [He Hx] _ IH]; [done|]. simpl in *. subst. destruct Hx as [->|Hx]; [done|]. by apply Hh in Hx.
Qed.

(** C22: What is configured to be withheld never reaches the trail. Two events
    that differ only in the values of withheld columns, in any case and
    under any schema the configuration covers, are recorded as the very same
    row, with the same outcome, whoever built them. *)
Theorem record_redacts str_date str_datetime py_str table strict max_rows id_key exclude a e old new w :
  __init__ table strict max_rows id_key exclude = Ok a →
  agree (withheld exclude (ae_entity_type e)) (ae_old_values e) old →
  agree (withheld exclude (ae_entity_type e)) (ae_new_values e) new →
  record str_date str_datetime py_str a (with_values e old new) w = record str_date str_datetime py_str a e w.
Proof.
  intros Ha Ho Hn. unfold record. cbv zeta.
  assert (Hm : masked a (with_values e old new) = masked a e); [|by rewrite Hm].
  unfold masked. change (ae_entity_type (with_values e old new)) with (ae_entity_type e).
  pose proof (λ c, withheld_excluded _ _ _ _ _ _ (ae_entity_type e) c Ha) as Hw.
  destruct (excluded a (ae_entity_type e)) as [|c columns].
  - assert (Hnone : ∀ c, ¬ withheld exclude (ae_entity_type e) c) by (intros c Hc; by apply Hw in Hc).
    apply agree_equal in Ho as <-, Hn as <-; try done. by destruct e.
  - assert (Hne : c :: columns ≠ []) by done.
    pose proof (mask_agree _ _ _ _ Hne Hw Ho) as E1. pose proof (mask_agree _ _ _ _ Hne Hw Hn) as E2.
    transitivity (with_values e (v ← old; Some (mask v (c :: columns))) (v ← new; Some (mask v (c :: columns)))); [done|].
    by rewrite <- E1, <- E2.
Qed.

(** ** Widths *)
Lemma py_take_len n s : py_len (py_take n s) <= Z.of_nat n.
Proof.
  unfold py_len, py_take. rewrite chars_of_chars. apply Nat2Z.inj_le. revert n.
  induction (chars s) as [|a l IH]; intros n; simpl; [lia|]. destruct (is_continuation a) eqn:Ha.
  - simpl. rewrite Ha. apply IH.
  - destruct n as [|n]; simpl; [lia|]. rewrite Ha. simpl. specialize (IH n). lia.
Qed.

Lemma fit_spec column text width :
  dict_get column _WIDTHS = Some width → 0 <= width →
  py_len (_fit column text) <= width ∧ _fit column text = if py_len text <=? width then text else py_take (Z.to_nat width) text.
Proof.
  intros Hw H0. unfold _fit. rewrite Hw. destruct (Z.leb_spec (py_len text) width); [done|]. split; [|done].
  etrans; [apply py_take_len|lia].
Qed.

Lemma texts_json l : ∃ text, _json (JList (map JStr l)) = Some text.
Proof.
  assert (Hgo : ∃ ps, (fix go (l : list json) : res (list (list ascii)) :=
            match l with [] => Ok [] | x :: l' => p ← dump_chars x; ps ← go l'; Ok (p :: ps) end) (map JStr l) = Ok ps).
  { induction l as [|x l [ps IH]]; [by eexists|]. cbn [map]. cbn. rewrite IH. by eexists. }
  destruct Hgo as [ps Hgo]. unfold _json, dumps. cbn [plain]. rewrite map_map. cbn [plain dump_chars].
  change (map (λ x, JStr x) l) with (map JStr l). rewrite Hgo. by eexists.
Qed.

(** Recording never fails because a text is long, and what is stored fits
    its column: each bounded column of the row holds the event's text when it
    fits and otherwise its first characters, as many as the column is wide. *)
Theorem row_fits str_date str_datetime py_str now e :
  let r := row str_date str_datetime py_str now e in
  Forall (λ '(column, text, full), ∃ width, dict_get column _WIDTHS = Some width ∧ py_len text <= width
            ∧ text = if py_len full <=? width then full else py_take (Z.to_nat width) full)
    [("request_id", tr_request_id r, ae_request_id e); ("module", tr_module r, ae_module e); ("event", tr_event r, ae_event e);
     ("entity_type", tr_entity_type r, ae_entity_type e); ("entity_id", tr_entity_id r, ae_entity_id e);
     ("actor_type", tr_actor_type r, ae_actor_type e); ("actor_id", tr_actor_id r, ae_actor_id e);
     ("actor_name", tr_actor_name r, ae_actor_name e); ("ip_address", tr_ip_address r, ae_ip_address e)]
  ∧ tr_url r = ae_url e ∧ tr_user_agent r = ae_user_agent e ∧ (tr_tags r = None ↔ ae_tags e = [])
  ∧ (ae_old_values e = None → tr_old_values r = None) ∧ (ae_new_values e = None → tr_new_values r = None).
Proof.
  intros r. split; [|split_and!; try done].
  - repeat (apply Forall_cons_2; [eexists; split; [reflexivity|]; apply fit_spec; [reflexivity|done]|]). apply Forall_nil_2.
  - assert (Hr : tr_tags r = match ae_tags e with [] => None | tags => _json (JList (map JStr tags)) end) by done.
    rewrite Hr. destruct (ae_tags e) as [|t tags]; [done|]. split; [|done]. by destruct (texts_json (t :: tags)) as [text ->].
  - unfold r. simpl. by intros ->.
  - unfold r. simpl. by intros ->.
Qed.

(** ** Comparison *)
Section same.
Context (date_fromisoformat : string → option Z) (datetime_fromisoformat : string → option moment).
Context (str_date : Z → string) (str_datetime : moment → string) (py_str : json → string).

Abbreviation same := (same date_fromisoformat datetime_fromisoformat str_date str_datetime py_str).

Definition is_nan (d : decimal) : bool := match d with DNaN | DSNaN => true | _ => false end.

Lemma decimal_eq_sym x y : decimal_eq x y = decimal_eq y x.
Proof.
  destruct x as [c1 e1|s1| |], y as [c2 e2|s2| |]; try done; simpl.
  - by rewrite (Z.min_comm e1), Z.eqb_sym.
  - f_equal. by destruct s1, s2.
Qed.

Lemma decimal_eq_refl x : is_nan x = false → decimal_eq x x = Ok true.
Proof. destruct x as [c e|s| |]; try done; intros _; simpl; [by rewrite Z.eqb_refl|by destruct s]. Qed.

(** Equality of the numbers, scaled to any common exponent. *)
Lemma decimal_eq_exact c1 e1 c2 e2 k :
  k <= e1 → k <= e2 → decimal_eq (DFinite c1 e1) (DFinite c2 e2) = Ok (c1 * 10 ^ (e1 - k) =? c2 * 10 ^ (e2 - k)).
Proof.
  intros H1 H2. simpl. f_equal. set (m := Z.min e1 e2). assert (Hm : k <= m) by lia.
  replace (e1 - k) with ((e1 - m) + (m - k)) by lia. replace (e2 - k) with ((e2 - m) + (m - k)) by lia.
  rewrite !Z.pow_add_r by lia. rewrite !Z.mul_assoc. assert (Hp : 0 < 10 ^ (m - k)) by (apply Z.pow_pos_nonneg; lia).
  apply eq_true_iff_eq. rewrite !Z.eqb_eq. split; [by intros ->|]. intros H. apply Z.mul_reg_r in H; [done|lia].
Qed.

Lemma time_eq_sym x y : time_eq x y = time_eq y x.
Proof. destruct x, y; try done; apply Z.eqb_sym. Qed.

Lemma same_text_sym x y : same_text str_date str_datetime py_str x y = same_text str_date str_datetime py_str y x.
Proof. apply String.eqb_sym. Qed.

(** C39: When two values count as the same is a sane relation. It does not
    depend on which side was read and which was written; a value is the same
    as itself unless it reads as a NaN; values that both read as finite
    numbers, other than booleans, are the same exactly when the numbers are
    equal, however they are written; and the comparison raises only for a
    signalling NaN. *)
Theorem same_laws x y :
  same x y = same y x
  ∧ (match _as_decimal x with Some d => is_nan d = false | None => True end → same x x = Ok true)
  ∧ (is_bool x = false → is_bool y = false → is_time x = false → is_time y = false →
     ∀ c1 e1 c2 e2 k, _as_decimal x = Some (DFinite c1 e1) → _as_decimal y = Some (DFinite c2 e2) → k <= e1 → k <= e2 →
       same x y = Ok (c1 * 10 ^ (e1 - k) =? c2 * 10 ^ (e2 - k)))
  ∧ (∀ e, same x y = Err e → _as_decimal x = Some DSNaN ∨ _as_decimal y = Some DSNaN).
Proof.
  split_and!.
  - unfold AuditDiff.same. rewrite (orb_comm (is_none x)), (andb_comm (is_none x)), (orb_comm (is_bool x)).
    rewrite (String.eqb_sym (_boolish _ _ _ x)), (orb_comm (is_time x)), (orb_comm (_is_plain_date x)).
    rewrite (orb_comm (is_container x)), (String.eqb_sym (AuditDiff._json _ _ _ x)), (same_text_sym x).
    destruct (is_none y || is_none x), (is_bool y || is_bool x), (is_time y || is_time x), (is_container y || is_container x); try done.
    all: try (destruct (_as_decimal x), (_as_decimal y); try done; apply decimal_eq_sym).
    all: set (p := _is_plain_date y || _is_plain_date x).
    all: destruct (_as_datetime _ _ p x) as [tx|], (_as_datetime _ _ p y) as [ty|]; try done.
    all: rewrite (time_eq_sym tx); destruct tx as [|m1], ty as [|m2]; try done.
    all: replace (Bool.eqb (zoned m1) (zoned m2)) with (Bool.eqb (zoned m2) (zoned m1)) by (by destruct (zoned m1), (zoned m2)); done.
  - intros Hn. assert (Ht : same_text str_date str_datetime py_str x x = true) by apply String.eqb_refl.
    unfold AuditDiff.same. rewrite !orb_diag, andb_diag. destruct (is_none x); [done|].
    destruct (is_bool x); [by rewrite String.eqb_refl|]. destruct (is_time x).
    + destruct (_as_datetime _ _ (_is_plain_date x) x) as [[d|m]|]; simpl; [by rewrite Z.eqb_refl| |by rewrite Ht].
      replace (Bool.eqb (zoned m) (zoned m)) with true by (by destruct (zoned m)). by rewrite Z.eqb_refl.
    + destruct (is_container x); [by rewrite String.eqb_refl|]. destruct (_as_decimal x); [by apply decimal_eq_refl|by rewrite Ht].
  - intros Hbx Hby Htx Hty c1 e1 c2 e2 k Hx Hy H1 H2.
    assert (Hnum : ∀ v c e, _as_decimal v = Some (DFinite c e) → is_none v = false ∧ is_container v = false) by (by intros [] ? ?).
    destruct (Hnum _ _ _ Hx) as [Hnx Hcx], (Hnum _ _ _ Hy) as [Hny Hcy].
    unfold AuditDiff.same. rewrite Hbx, Hby, Htx, Hty, Hnx, Hny, Hcx, Hcy, Hx, Hy. simpl orb. by apply decimal_eq_exact.
  - intros e. unfold AuditDiff.same. cbv zeta. destruct (_ || _); [done|]. destruct (_ || _); [done|]. destruct (is_time x || is_time y).
    + set (p := _is_plain_date x || _is_plain_date y).
      destruct (_as_datetime date_fromisoformat datetime_fromisoformat p x) as [[|]|], (_as_datetime date_fromisoformat datetime_fromisoformat p y) as [[|]|]; done.
    + destruct (_ || _); [done|]. destruct (_as_decimal x) as [[]|], (_as_decimal y) as [[]|]; naive_solver.
Qed.
End same.

Definition w_date (s : string) : option Z := None.
Definition w_moment (s : string) : option moment := None.

Lemma same_laws_witness :
  let same := same w_date w_moment (λ _, "") (λ _, "") (λ _, "") in
  same (VDecimal "10.50") (VFloat "10.5") = Ok true ∧ same (VFloat "10.5") (VDecimal "10.50") = Ok true ∧ same (VStr "Anna") (VStr "Anna") = Ok true.
Proof.
  intros same. assert (Hx : _as_decimal (VDecimal "10.50") = Some (DFinite 1050 (-2))) by (vm_compute; reflexivity).
  assert (Hy : _as_decimal (VFloat "10.5") = Some (DFinite 105 (-1))) by (vm_compute; reflexivity).
  assert (Hn : _as_decimal (VStr "Anna") = None) by (vm_compute; reflexivity).
  destruct (same_laws w_date w_moment (λ _, "") (λ _, "") (λ _, "") (VDecimal "10.50") (VFloat "10.5")) as (Hs & _ & Heq & _).
  destruct (same_laws w_date w_moment (λ _, "") (λ _, "") (λ _, "") (VStr "Anna") VNone) as (_ & Hr & _). rewrite Hn in Hr.
  assert (He : same (VDecimal "10.50") (VFloat "10.5") = Ok true).
  { unfold same. rewrite (Heq eq_refl eq_refl eq_refl eq_refl 1050 (-2) 105 (-1) (-2) Hx Hy) by lia. reflexivity. }
  split; [exact He|]. split; [|by apply Hr]. unfold same. rewrite <- Hs. exact He.
Defined.

(** Texts that read as numbers are compared as numbers: a changed postal code
    is not a change, and the comparison of two NaN texts is one. *)
Example texts_as_numbers :
  let changes := changes w_date w_moment (λ _, "") (λ _, "") (λ _, "") in
  changes [("zip", VStr "00123")] [] [("zip", VStr "123")] = Ok ([], [])
  ∧ changes [("name", VStr "nan")] [] [("name", VStr "nan")] = Ok ([("name", VStr "nan")], [("name", VStr "nan")])
  ∧ is_ok (changes [("name", VStr "sNaN")] [] [("name", VStr "x")]) = true
  ∧ is_ok (changes [("name", VStr "sNaN")] [] [("name", VStr "1")]) = false.
Proof. vm_compute. done. Qed.

(** ** A concrete recorder: passwords are withheld *)
Definition w_exclude : raw_exclude := [("hr.People", Some ["PassWord"])].
Definition w_audit : Audit := MkAudit "audit_log" true 1000 "id" (normalised w_exclude []).
Definition w_event (password : string) : AuditEvent :=
  MkEvent UPDATED "people" "1" "hr" (Some [("id", VInt 1); ("password", VStr password)]) None "" "" "" "" "" "" "" [] None None.
Definition w_db : world audit_db := World (AuditDb [] [] false None []) [] 1700000000.

Lemma record_redacts_witness :
  let record e := record (λ _, "") (λ _, "") (λ _, "") w_audit e w_db in
  record (w_event "swordfish") = record (w_event "hunter2")
  ∧ map (λ kv, tr_old_values kv.2) (au_trail (w_st (record (w_event "hunter2")).1)) =
      [Some (sq "{'id': 1, 'password': '***'}")].
Proof.
  intros record.
  assert (Ha : __init__ "audit_log" true 1000 "id" w_exclude = Ok w_audit) by (vm_compute; reflexivity).
  assert (Hw : withheld w_exclude "people" "password").
  { exists "hr.People", ["PassWord"], "PassWord". split; [by apply list_elem_of_singleton|]. split; [|split; [by apply list_elem_of_singleton|vm_compute; reflexivity]].
    split; [vm_compute; reflexivity|]. right. left. vm_compute. reflexivity. }
  split; [|vm_compute; reflexivity].
  apply (record_redacts (λ _, "") (λ _, "") (λ _, "") "audit_log" true 1000 "id" w_exclude w_audit (w_event "hunter2")
           (Some [("id", VInt 1); ("password", VStr "swordfish")]) None w_db Ha); [|exact I].
  apply Forall2_cons_2; [by split; [|left]|]. apply Forall2_cons_2; [|apply Forall2_nil_2]. split; [reflexivity|]. by right.
Defined.
