(* ===== verification/AuditClaims.v ===== *)
(** * Every change that commits is in the trail *)

From Stdlib Require Import ZArith Lia.
From S2P Require Import Prelude PyStr Json Sql AuditDiff AuditTrail.

Section audited.
Context (date_fromisoformat : string → option Z) (datetime_fromisoformat : string → option moment).
Context (str_date : Z → string) (str_datetime : moment → string) (py_str : json → string).
Context (inserted : string → table → arow → res arow) (updated : string → arow → arow → res arow).
Context (sql_equal : string → string → value → value → bool).
Context (a : Audit).

Abbreviation matches := (matches sql_equal).
Abbreviation record := (record str_date str_datetime py_str a).
Abbreviation row := (row str_date str_datetime py_str).
Abbreviation between := (between date_fromisoformat datetime_fromisoformat str_date str_datetime py_str).
Abbreviation _row_id := (_row_id str_date str_datetime py_str a).
Abbreviation update_rows := (update_rows updated sql_equal).

(** The rows a condition selects. *)
Definition matching (table : string) (where_ : arow) (tables : list (string * AuditTrail.table)) : option (list arow) :=
  (λ t, select_where (matches table where_) (tb_rows t)) <$> dict_get table tables.

(** ** Statements *)
Definition next_state (s : audit_db) : audit_db :=
  match au_events s with
  | [] => s
  | e :: events => AuditDb (ev_change e (au_tables s)) (au_trail s) (au_failed s) (au_context s) events
  end.

Lemma execute_spec {A} (f : audit_db → res (audit_db * A)) w w' r :
  execute f w = (w', r) →
  (∃ e, r = Err e ∧ au_failed (w_st w') = true)
  ∨ (∃ s x, au_failed (w_st w) = false ∧ f (next_state (w_st w)) = Ok (s, x) ∧ w' = World s (w_log w) (w_clock w) ∧ r = Ok x).
Proof.
  unfold execute, next_state. destruct w as [[tables trail failed ctx events] l c]. cbn [w_st au_events].
  destruct events as [|e events]; cbn [w_st au_events au_tables au_trail au_failed au_context]; destruct failed.
  - intros [= <- <-]. left. by eexists.
  - destruct (f _) as [[s x]|err] eqn:E; intros [= <- <-]; [right; by eexists _, _|left; by eexists].
  - intros [= <- <-]. left. by eexists.
  - destruct (ev_fault e) as [err|]; [intros [= <- <-]; left; by eexists|].
    destruct (f _) as [[s x]|err] eqn:E; intros [= <- <-]; [right; by eexists _, _|left; by eexists].
Qed.

Lemma next_state_same s :
  au_trail (next_state s) = au_trail s ∧ au_failed (next_state s) = au_failed s ∧ au_context (next_state s) = au_context s.
Proof. unfold next_state. by destruct (au_events s). Qed.

Lemma next_idle s : au_events s = [] → next_state s = s.
Proof. unfold next_state. by intros ->. Qed.

(** ** What recording some entries comes to *)

(** An exception; or, if failures are tolerated, an aborted transaction; or
    the entries. *)
Definition recorded (entries : list (string * trail_row)) (w w' : world audit_db) (r : res ()) : Prop :=
  (∃ e, r = Err e) ∨ (au_failed (w_st w') = true ∧ a_strict a = false)
  ∨ (r = Ok () ∧ au_trail (w_st w') = au_trail (w_st w) ++ entries ∧ au_context (w_st w') = au_context (w_st w)
     ∧ w_clock w' = w_clock w ∧ au_failed (w_st w') = au_failed (w_st w)
     ∧ (au_events (w_st w) = [] → au_events (w_st w') = [] ∧ au_tables (w_st w') = au_tables (w_st w))).

Definition entry (c : option RequestContext) (now : Z) (e : AuditEvent) : string * trail_row :=
  (a_table a, row now (with_resolved (masked a e) (default _EMPTY c))).

Lemma record_event_spec e w w' r :
  record e w = (w', r) →
  recorded [entry (au_context (w_st w)) (w_clock w) e] w w' r ∧ (au_failed (w_st w) = true → au_failed (w_st w') = true)
  ∧ (au_events (w_st w) = [] → au_failed (w_st w) = false → r = Ok ()).
Proof.
  unfold AuditTrail.record. cbv zeta. unfold try_except. erewrite (bind_ok current_context) by done. unfold write. erewrite bind_ok by done.
  match goal with |- context[execute ?f ?w] => set (f' := f) end.
  destruct (execute f' w) as [w1 [[]|err]] eqn:E.
  - intros [= <- <-]. destruct (execute_spec _ _ _ _ E) as [(? & ? & _)|(s & x & Hf & Hs & -> & _)]; [done|].
    unfold f' in Hs. injection Hs as <- _. pose proof (next_state_same (w_st w)) as (Ht & Hf' & Hc). split; [|split].
    + right. right. cbn [w_st with_trail au_trail au_context w_clock au_events au_tables au_failed]. rewrite Ht, Hc, Hf'.
      split_and!; try done. all: intros H0; by rewrite (next_idle _ H0).
    + by rewrite Hf.
    + done.
  - intros Hfail. destruct (execute_spec _ _ _ _ E) as [(e1 & [= <-] & Hf)|(s & x & _ & _ & _ & H)]; [|done].
    assert (Hidle : au_events (w_st w) = [] → au_failed (w_st w) = false → False).
    { intros H0 H1. unfold execute in E. rewrite H0, H1 in E. by unfold f' in E. }
    destruct (is_exception err) eqn:He.
    + unfold _fail in Hfail. destruct (a_strict a) eqn:Hs.
      * injection Hfail as <- <-. split_and!; [left; by eexists|done|naive_solver].
      * injection Hfail as <- <-. split_and!; [right; left; by rewrite Hs|done|naive_solver].
    + injection Hfail as <- <-. split_and!; [left; by eexists|done|naive_solver].
Qed.

(** An aborted transaction stays aborted. *)
Definition sticky (s s' : audit_db) : Prop := au_failed s = true → au_failed s' = true.

#[local] Instance sticky_preorder : PreOrder sticky.
Proof. split; unfold sticky; [by intros s|by intros s1 s2 s3; auto]. Qed.

Lemma record_sticky e : within sticky (record e).
Proof. intros w. destruct (record e w) as [w' r] eqn:E. by apply record_event_spec in E as (_ & H & _). Qed.

(** A loop of recordings. *)
Lemma for_each_recorded (body : arow → prog audit_db ()) entries c now rows :
  (∀ r w w' x, au_context (w_st w) = c → w_clock w = now → body r w = (w', x) → recorded (entries r) w w' x) →
  (∀ r, within sticky (body r)) →
  ∀ w w' x, au_context (w_st w) = c → w_clock w = now → for_each rows body w = (w', x) → recorded (flat_map entries rows) w w' x.
Proof.
  intros Hbody Hsticky. induction rows as [|r rows IH]; intros w w' x Hc Hn E; cbn [for_each flat_map] in *.
  { injection E as <- <-. right. right. by rewrite app_nil_r. }
  destruct (body r w) as [w1 x1] eqn:E1. specialize (Hbody r w w1 x1 Hc Hn E1).
  destruct x1 as [[]|e].
  2: { rewrite (bind_err _ _ _ _ _ E1) in E. injection E as <- <-. left. by eexists. }
  rewrite (bind_ok _ _ _ _ _ E1) in E.
  destruct Hbody as [[e [=]]|[[Hf Hs]|(_ & Ht & Hc1 & Hn1 & Hf1 & He1)]].
  - right. left. split; [|done]. pose proof (within_for_each sticky rows body (λ r _, Hsticky r) w1) as Hst. rewrite E in Hst. by apply Hst.
  - destruct (IH w1 w' x) as [?|[?|(-> & Ht2 & Hc2 & Hn2 & Hf2 & He2)]]; [by rewrite Hc1|by rewrite Hn1|done|by left|by right; left|].
    right. right. rewrite Ht2, Ht, <- app_assoc. split_and!; try congruence.
    intros H0. destruct (He1 H0) as [H1 H2]. destruct (He2 H1) as [H3 H4]. by rewrite H4.
Qed.

(** ** A change and its recordings *)

Lemma find_matching table where_ s t :
  find_table table s = Ok t → matching table where_ (au_tables s) = Some (select_where (matches table where_) (tb_rows t)).
Proof. unfold find_table, matching. destruct (dict_get table (au_tables s)); [|done]. by intros [= ->]. Qed.

(** The rows read are the rows of the condition at that moment. *)
Lemma rows_read table where_ w w' rows :
  _rows sql_equal table where_ w = (w', Ok rows) →
  w' = World (next_state (w_st w)) (w_log w) (w_clock w) ∧ au_failed (w_st w) = false
  ∧ matching table where_ (au_tables (next_state (w_st w))) = Some rows.
Proof.
  intros E. destruct (execute_spec _ _ _ _ E) as [(e & [=] & _)|(s & x & Hf & Hs & -> & [= <-])].
  destruct (find_table table _) as [t|] eqn:Ht; [|done]. simpl in Hs. destruct (has_columns _ _); [|done]. simpl in Hs.
  injection Hs as <- <-. split_and!; [done|done|]. by apply find_matching.
Qed.

Lemma limit_spec table n w w' r :
  _assert_within_limit a table n w = (w', r) →
  (∃ e, r = Err e) ∨ (r = Ok () ∧ w' = w ∧ (a_strict a = true → 1 <= a_max_rows a → n <= a_max_rows a)).
Proof.
  unfold _assert_within_limit, _fail. destruct (Z.ltb_spec (a_max_rows a) 1); simpl.
  { intros [= <- <-]. right. split_and!; [done..|lia]. }
  destruct (Z.leb_spec n (a_max_rows a)); [intros [= <- <-]; right; by split_and!|].
  destruct (a_strict a); intros [= <- <-]; [left; by eexists|right; by split_and!].
Qed.

(** A change makes the rows of its condition [n] and leaves the rest of the
    transaction alone. *)
Definition changes_rows (table : string) (where_ : arow) (change : prog audit_db Z) : Prop :=
  ∀ w w' n, change w = (w', Ok n) →
    ∃ rows, matching table where_ (au_tables (next_state (w_st w))) = Some rows ∧ n = Z.of_nat (length rows)
      ∧ au_trail (w_st w') = au_trail (w_st w) ∧ au_failed (w_st w') = au_failed (w_st w)
      ∧ au_context (w_st w') = au_context (w_st w) ∧ w_clock w' = w_clock w
      ∧ (au_events (next_state (w_st w)) = [] → au_events (w_st w') = []).

(** What [update] and [delete] have in common. *)
Definition audited_change (table : string) (where_ : arow) (change : prog audit_db Z) (body : arow → prog audit_db ()) : prog audit_db Z :=
  rows ← _rows sql_equal table where_;
  _ ← _assert_within_limit a table (Z.of_nat (length rows));
  affected ← change;
  _ ← for_each rows body;
  mret affected.

(** The transaction as the rows are read, and as they are written: each
    statement sees what others have committed up to then. *)
Definition at_read (w : world audit_db) : audit_db := next_state (w_st w).
Definition at_write (w : world audit_db) : audit_db := next_state (at_read w).

Lemma audited_change_spec table where_ change body entries w w' r :
  changes_rows table where_ change →
  (∀ r w w' x, au_context (w_st w) = au_context (w_st w) → body r w = (w', x) →
     recorded (entries (au_context (w_st w)) (w_clock w) r) w w' x) →
  (∀ r, within sticky (body r)) →
  audited_change table where_ change body w = (w', r) →
  (∃ e, r = Err e) ∨ (au_failed (w_st w') = true ∧ a_strict a = false)
  ∨ ∃ read changed, matching table where_ (au_tables (at_read w)) = Some read
      ∧ matching table where_ (au_tables (at_write w)) = Some changed ∧ r = Ok (Z.of_nat (length changed))
      ∧ au_failed (w_st w') = false
      ∧ au_trail (w_st w') = au_trail (w_st w) ++ flat_map (entries (au_context (w_st w)) (w_clock w)) read
      ∧ (a_strict a = true → 1 <= a_max_rows a → Z.of_nat (length read) <= a_max_rows a)
      ∧ ∃ w3, change (World (at_read w) (w_log w) (w_clock w)) = (w3, Ok (Z.of_nat (length changed)))
          ∧ (au_events (at_write w) = [] → au_tables (w_st w') = au_tables (w_st w3)).
Proof.
  intros Hchange Hbody Hsticky. unfold audited_change, at_write, at_read.
  destruct (_rows sql_equal table where_ w) as [w1 [rows|e]] eqn:E1.
  2: { rewrite (bind_err _ _ _ _ _ E1). intros [= <- <-]. left. by eexists. }
  rewrite (bind_ok _ _ _ _ _ E1). destruct (rows_read _ _ _ _ _ E1) as (Hw1 & Hf & Hm).
  destruct (next_state_same (w_st w)) as (Ht1 & Hf1 & Hc1).
  destruct (_assert_within_limit a table (Z.of_nat (length rows)) w1) as [w2 [[]|e]] eqn:E2.
  2: { rewrite (bind_err _ _ _ _ _ E2). intros [= <- <-]. left. by eexists. }
  rewrite (bind_ok _ _ _ _ _ E2). destruct (limit_spec _ _ _ _ _ E2) as [[e [=]]|(_ & -> & Hlimit)].
  destruct (change w1) as [w3 [n|e]] eqn:E3.
  2: { rewrite (bind_err _ _ _ _ _ E3). intros [= <- <-]. left. by eexists. }
  rewrite (bind_ok _ _ _ _ _ E3). destruct (Hchange _ _ _ E3) as (rows' & Hm3 & Hn & Ht3 & Hf3 & Hc3 & Hk3 & He3).
  subst w1. cbn [w_st w_clock w_log] in *.
  destruct (for_each rows body w3) as [w4 x4] eqn:E4.
  destruct (for_each_recorded body (entries (au_context (w_st w)) (w_clock w)) (au_context (w_st w)) (w_clock w) rows
    (λ r0 wa wb x Ha Hb Hr, ltac:(rewrite <- Ha, <- Hb; by apply Hbody)) Hsticky w3 w4 x4)
    as [[e ->]|[[Hlost Hns]|(-> & Htr & _ & _ & Hft & Hid)]]; [by rewrite Hc3, Hc1|done|done| | |].
  - rewrite (bind_err _ _ _ _ _ E4). intros [= <- <-]. left. by eexists.
  - destruct x4 as [[]|e]; [|rewrite (bind_err _ _ _ _ _ E4); intros [= <- <-]; left; by eexists].
    rewrite (bind_ok _ _ _ _ _ E4). intros [= <- <-]. right. by left.
  - rewrite (bind_ok _ _ _ _ _ E4). intros [= <- <-]. right. right. exists rows, rows'. subst n. split_and!; try done.
    + by rewrite Hft, Hf3, Hf1.
    + by rewrite Htr, Ht3, Ht1.
    + exists w3. split; [done|]. intros H0. by apply Hid, He3.
Qed.

(** ** Updates *)

(** The entry of a row an update changed. *)
Definition update_entry (c : option RequestContext) (now : Z) (table : string) (data : arow) (o : options) (r : arow) :
    list (string * trail_row) :=
  match between (Some r) (Some data) [] with
  | Ok (old, Some new) => [entry c now (change_event o UPDATED table (_row_id r) old (Some new))]
  | _ => []
  end.

Abbreviation record_update := (record_update date_fromisoformat datetime_fromisoformat str_date str_datetime py_str a).
Abbreviation update := (update date_fromisoformat datetime_fromisoformat str_date str_datetime py_str updated sql_equal a).

Lemma record_update_recorded table data o r w w' x :
  record_update table data o r w = (w', x) →
  recorded (update_entry (au_context (w_st w)) (w_clock w) table data o r) w w' x.
Proof.
  unfold AuditTrail.record_update, update_entry. destruct (between (Some r) (Some data) []) as [[old new]|e]; simpl.
  - erewrite bind_ok by done. simpl. destruct new as [new|].
    + intros E. by apply record_event_spec in E as [H _].
    + intros [= <- <-]. right. right. by rewrite app_nil_r.
  - erewrite bind_err by done. intros [= <- <-]. left. by eexists.
Qed.

Lemma record_update_sticky table data o r : within sticky (record_update table data o r).
Proof.
  unfold AuditTrail.record_update. apply within_bind; [apply _|apply within_lift; apply _|]. intros values.
  destruct values.2; [apply record_sticky|apply within_ret; apply _].
Qed.

(** A row count is the number of rows that matched. *)
Lemma update_rows_count table where_ data rows rows' n :
  update_rows table where_ data rows = Ok (rows', n) → n = Z.of_nat (length (select_where (matches table where_) rows)).
Proof.
  revert rows' n. induction rows as [|r rows IH]; intros rows' n; cbn [AuditTrail.update_rows]; [by intros [= _ <-]|].
  assert (Hstep : ∀ r' (k : Z), (rest ← update_rows table where_ data rows; Ok (r' :: rest.1, k + rest.2)) = Ok (rows', n) →
    n = k + Z.of_nat (length (select_where (matches table where_) rows))).
  { intros r' k. destruct (update_rows table where_ data rows) as [[rest m]|]; [|done]. intros [= _ <-]. by rewrite (IH _ _ eq_refl). }
  unfold select_where. rewrite filter_cons. destruct (matches table where_ r).
  - destruct (updated table data r) as [r'|]; [|done]. intros H. apply Hstep in H. rewrite H. simpl. unfold select_where. lia.
  - intros H. apply Hstep in H. rewrite H. unfold select_where. by rewrite decide_False.
Qed.

Lemma update_matching_spec table data where_ w w' n :
  update_matching updated sql_equal table data where_ w = (w', Ok n) →
  ∃ t rows', find_table table (next_state (w_st w)) = Ok t ∧ update_rows table where_ data (tb_rows t) = Ok (rows', n)
    ∧ w' = World (put_rows table rows' t (next_state (w_st w))) (w_log w) (w_clock w).
Proof.
  intros E. destruct (execute_spec _ _ _ _ E) as [(e & [=] & _)|(s & x & Hf & Hs & -> & [= <-])].
  destruct (find_table table _) as [t|] eqn:Ht; [|done]. simpl in Hs.
  assert (Hs' : (_ ← has_columns t (data.*1 ++ where_.*1);
                 found ← update_rows table where_ data (tb_rows t);
                 Ok (put_rows table found.1 t (next_state (w_st w)), found.2)) = Ok (s, n)) by (by destruct data, where_).
  destruct (has_columns _ _); [|done]. simpl in Hs'. destruct (update_rows table where_ data (tb_rows t)) as [[rows' m]|] eqn:Hu; [|done].
  injection Hs' as <- <-. by exists t, rows'.
Qed.

Lemma update_changes table data where_ : changes_rows table where_ (update_matching updated sql_equal table data where_).
Proof.
  intros w w' n E. destruct (update_matching_spec _ _ _ _ _ _ E) as (t & rows' & Ht & Hu & ->).
  eexists. split; [by apply find_matching|]. split; [by eapply update_rows_count|].
  destruct (next_state_same (w_st w)) as (? & ? & ?). by split_and!.
Qed.

(** C21: No update escapes the trail. An audited update that returns has, in
    the caller's transaction, appended one entry for each row that its locking
    SELECT found and that the write changes, as [audit/diff.py] compares
    values, with what the row held and what was written, in the order of the
    table; and none for rows the write leaves as they were - unless failures
    are tolerated and the transaction is already lost. With failures not
    tolerated it returns only within the configured number of rows. It
    answers the number of rows the UPDATE changed: those same rows if no
    change that others commit between the two statements touches the rows of
    the condition. The locks hold others off the rows that were read, but
    not off rows that come to match only then: those are changed without an
    entry. *)
Theorem update_audited table data where_ o w w' r :
  update table data where_ o w = (w', r) →
  (∃ e, r = Err e) ∨ (au_failed (w_st w') = true ∧ a_strict a = false)
  ∨ ∃ read changed, matching table where_ (au_tables (at_read w)) = Some read
      ∧ matching table where_ (au_tables (at_write w)) = Some changed ∧ r = Ok (Z.of_nat (length changed))
      ∧ (matching table where_ (au_tables (at_write w)) = matching table where_ (au_tables (at_read w)) → changed = read)
      ∧ au_failed (w_st w') = false
      ∧ au_trail (w_st w') = au_trail (w_st w) ++ flat_map (update_entry (au_context (w_st w)) (w_clock w) table data o) read
      ∧ (a_strict a = true → 1 <= a_max_rows a → Z.of_nat (length read) <= a_max_rows a)
      ∧ ∃ t rows', dict_get table (au_tables (at_write w)) = Some t
           ∧ update_rows table where_ data (tb_rows t) = Ok (rows', Z.of_nat (length changed))
           ∧ (au_events (at_write w) = [] →
                au_tables (w_st w') = dict_set table (Table (tb_columns t) rows') (au_tables (at_write w))).
Proof.
  unfold AuditTrail.update. destruct (assert_table_name table) as [name|e].
  2: { erewrite bind_err by done. intros [= <- <-]. left. by eexists. }
  erewrite bind_ok by done. intros E.
  destruct (audited_change_spec table where_ (update_matching updated sql_equal table data where_) (record_update table data o)
    (λ c now, update_entry c now table data o) w w' r (update_changes table data where_)
    (λ r w w' x _, record_update_recorded table data o r w w' x) (record_update_sticky table data o) E)
    as [He|[Hl|(read & changed & Hm & Hm' & Hr & Hf & Ht & Hlim & w3 & E3 & Hc)]]; [by left|by right; left|].
  right. right. exists read, changed. split_and!; try done; [congruence|].
  destruct (update_matching_spec _ _ _ _ _ _ E3) as (t & rows' & Hfind & Hu & ->).
  cbn [w_st w_log w_clock] in *. fold (at_write w) in *. exists t, rows'. unfold find_table in Hfind.
  destruct (dict_get table _); [|done]. injection Hfind as ->. done.
Qed.

(** ** Deletes *)
Definition delete_entry (c : option RequestContext) (now : Z) (table : string) (o : options) (r : arow) : list (string * trail_row) :=
  [entry c now (change_event o DELETED table (_row_id r) (Some r) None)].

Abbreviation record_delete := (record_delete date_fromisoformat datetime_fromisoformat str_date str_datetime py_str a).
Abbreviation delete := (delete date_fromisoformat datetime_fromisoformat str_date str_datetime py_str sql_equal a).

Lemma record_delete_recorded table o r w w' x :
  record_delete table o r w = (w', x) → recorded (delete_entry (au_context (w_st w)) (w_clock w) table o r) w w' x.
Proof. unfold AuditTrail.record_delete. erewrite bind_ok by done. simpl. intros E. by apply record_event_spec in E as [H _]. Qed.

Lemma record_delete_sticky table o r : within sticky (record_delete table o r).
Proof. unfold AuditTrail.record_delete. apply within_bind; [apply _|apply within_lift; apply _|]. intros values. apply record_sticky. Qed.

Lemma delete_changes table where_ : changes_rows table where_ (delete_matching sql_equal table where_).
Proof.
  intros w w' n E. destruct (execute_spec _ _ _ _ E) as [(e & [=] & _)|(s & x & Hf & Hs & -> & [= <-])].
  destruct (find_table table _) as [t|] eqn:Ht; [|done]. simpl in Hs. destruct (has_columns _ _); [|done]. injection Hs as <- <-.
  eexists. split; [by apply find_matching|]. split; [done|]. destruct (next_state_same (w_st w)) as (? & ? & ?). by split_and!.
Qed.

(** No deleted row escapes the trail: an audited delete that returns has
    appended one entry for each row its locking SELECT found, with the whole
    row as its old values, and answers the number of rows the DELETE removed,
    the same if none came to match in between; and it never runs without a
    condition. *)
Theorem delete_audited table where_ o w w' r :
  delete table where_ o w = (w', r) →
  (∃ e, r = Err e) ∨ (au_failed (w_st w') = true ∧ a_strict a = false)
  ∨ ∃ read gone, where_ ≠ [] ∧ matching table where_ (au_tables (at_read w)) = Some read
      ∧ matching table where_ (au_tables (at_write w)) = Some gone ∧ r = Ok (Z.of_nat (length gone))
      ∧ au_failed (w_st w') = false
      ∧ au_trail (w_st w') = au_trail (w_st w) ++ flat_map (delete_entry (au_context (w_st w)) (w_clock w) table o) read
      ∧ (a_strict a = true → 1 <= a_max_rows a → Z.of_nat (length read) <= a_max_rows a).
Proof.
  unfold AuditTrail.delete. destruct (assert_table_name table) as [name|e].
  2: { erewrite bind_err by done. intros [= <- <-]. left. by eexists. }
  erewrite bind_ok by done. destruct where_ as [|c0 where0] eqn:Hwhere.
  { intros [= <- <-]. left. by eexists. }
  rewrite <- Hwhere in *. assert (Hne : where_ ≠ []) by (by subst). clear Hwhere. intros E.
  destruct (audited_change_spec table where_ (delete_matching sql_equal table where_) (record_delete table o)
    (λ c now, delete_entry c now table o) w w' r (delete_changes table where_)
    (λ r w w' x _, record_delete_recorded table o r w w' x) (record_delete_sticky table o) E)
    as [He|[Hl|(read & gone & Hm & Hm' & Hr & Hf & Ht & Hlim & _)]]; [by left|by right; left|].
  right. right. exists read, gone. by split_and!.
Qed.
End audited.

(** ** A concrete transaction: two rows match, one of them changes *)
Definition w_equal (table column : string) (x y : value) : bool :=
  match x, y with VInt m, VInt n => m =? n | VStr s, VStr t => String.eqb s t | _, _ => false end.
Definition w_updated (table : string) (data r : arow) : res arow := Ok (foldl (λ r kv, dict_set kv.1 kv.2 r) r data).
Definition w_people : table :=
  Table ["id"; "team"; "status"]
    [[("id", VInt 1); ("team", VStr "a"); ("status", VStr "active")]; [("id", VInt 2); ("team", VStr "b"); ("status", VStr "active")];
     [("id", VInt 3); ("team", VStr "a"); ("status", VStr "left")]].
Definition w_recorder : Audit := MkAudit "audit_log" true 1000 "id" [].
Definition w_tx : world audit_db := World (AuditDb [("people", w_people)] [] false None []) [] 1700000000.

Abbreviation w_update := (update (λ _, None) (λ _, None) (λ _, "") (λ _, "") (λ _, "") w_updated w_equal w_recorder
  "people" [("status", VStr "left")] [("team", VStr "a")] (Options "hr" [] None) w_tx).
Abbreviation w_delete := (delete (λ _, None) (λ _, None) (λ _, "") (λ _, "") (λ _, "") w_equal w_recorder
  "people" [("team", VStr "a")] (Options "hr" [] None) w_tx).

Lemma update_audited_witness :
  w_update.2 = Ok 2
  ∧ map (λ kv, (tr_entity_id kv.2, tr_old_values kv.2, tr_new_values kv.2)) (au_trail (w_st w_update.1))
    = [("1", Some (sq "{'status': 'active'}"), Some (sq "{'status': 'left'}"))].
Proof.
  destruct w_update as [w' r] eqn:E. cbn [fst snd].
  assert (Hr : r = Ok 2) by (change r with ((w', r).2); rewrite <- E; vm_compute; reflexivity).
  assert (Hf : au_failed (w_st w') = false) by (change w' with ((w', r).1); rewrite <- E; vm_compute; reflexivity).
  split; [exact Hr|].
  destruct (update_audited (λ _, None) (λ _, None) (λ _, "") (λ _, "") (λ _, "") w_updated w_equal w_recorder
    "people" [("status", VStr "left")] [("team", VStr "a")] (Options "hr" [] None) w_tx w' r E)
    as [[e He]|[[Hfail _]|(rows & changed & Hm & _ & _ & _ & _ & Ht & _)]]; [by rewrite He in Hr|by rewrite Hfail in Hf|].
  assert (Hrows : rows = [[("id", VInt 1); ("team", VStr "a"); ("status", VStr "active")]; [("id", VInt 3); ("team", VStr "a"); ("status", VStr "left")]]).
  { injection Hm as <-. vm_compute. reflexivity. }
  rewrite Ht, Hrows. vm_compute. reflexivity.
Defined.

Lemma delete_audited_witness :
  w_delete.2 = Ok 2 ∧ map (λ kv, (tr_event kv.2, tr_entity_id kv.2)) (au_trail (w_st w_delete.1)) = [("deleted", "1"); ("deleted", "3")].
Proof.
  destruct w_delete as [w' r] eqn:E. cbn [fst snd].
  assert (Hr : r = Ok 2) by (change r with ((w', r).2); rewrite <- E; vm_compute; reflexivity).
  assert (Hf : au_failed (w_st w') = false) by (change w' with ((w', r).1); rewrite <- E; vm_compute; reflexivity).
  split; [exact Hr|].
  destruct (delete_audited (λ _, None) (λ _, None) (λ _, "") (λ _, "") (λ _, "") w_equal w_recorder
    "people" [("team", VStr "a")] (Options "hr" [] None) w_tx w' r E)
    as [[e He]|[[Hfail _]|(rows & gone & _ & Hm & _ & _ & _ & Ht & _)]]; [by rewrite He in Hr|by rewrite Hfail in Hf|].
  assert (Hrows : rows = [[("id", VInt 1); ("team", VStr "a"); ("status", VStr "active")]; [("id", VInt 3); ("team", VStr "a"); ("status", VStr "left")]]).
  { injection Hm as <-. vm_compute. reflexivity. }
  rewrite Ht, Hrows. vm_compute. reflexivity.
Defined.

(** A row that another transaction moves into the team between the SELECT and
    the UPDATE: it is changed and counted, and the trail does not know. *)
Definition w_newcomer : event :=
  Event (λ tables, dict_set "people" (Table (tb_columns w_people)
    (match tb_rows w_people with r1 :: r2 :: rest => r1 :: dict_set "team" (VStr "a") r2 :: rest | l => l end)) tables) None.
Definition w_same : event := Event (λ tables, tables) None.

Example newcomer_unaudited :
  let out := update (λ _, None) (λ _, None) (λ _, "") (λ _, "") (λ _, "") w_updated w_equal w_recorder
    "people" [("status", VStr "left")] [("team", VStr "a")] (Options "hr" [] None)
    (World (AuditDb [("people", w_people)] [] false None [w_same; w_newcomer]) [] 1700000000) in
  out.2 = Ok 3 ∧ map (λ kv, tr_entity_id kv.2) (au_trail (w_st out.1)) = ["1"]
  ∧ option_map (λ t, map (dict_get "status") (tb_rows t)) (dict_get "people" (au_tables (w_st out.1)))
    = Some [Some (VStr "left"); Some (VStr "left"); Some (VStr "left")].
Proof. vm_compute. done. Qed.
