(* ===== verification/AuditCommands.v ===== *)
(** * The audit command line

    [audit/commands.py] and [audit/_service.py]. Of the trail, [prune] sees
    ids and times, with integers for both; [ps_events] is what happens before
    each of its statements, a change by others and perhaps a failure. How the
    server reads the text of a time, the schema template, the file system and
    the connection are parameters. *)

From Stdlib Require Import ZArith Lia.
From S2P Require Import Prelude PyStr Json Sql MigDiscovery MigTracker MigService ApiKeyCommands AuditTrail.

Record entry := Entry { en_id : Z; en_created_at : Z }.
Record prune_event := PruneEvent { pe_change : list entry → list entry; pe_fault : option exn }.
Record prune_store := PruneStore { ps_rows : list entry; ps_events : list prune_event }.

Definition digits_of (n : nat) (l : list ascii) : bool := Nat.eqb (length l) n && forallb is_digit l.

(** [\d{4}-\d{2}-\d{2}] and [\d{2}:\d{2}:\d{2}] *)
Definition is_day (s : string) : bool :=
  match split "-"%char s with [y; m; d] => digits_of 4 (chars y) && digits_of 2 (chars m) && digits_of 2 (chars d) | _ => false end.
Definition is_clock (s : string) : bool :=
  match split ":"%char s with [h; m; s] => digits_of 2 (chars h) && digits_of 2 (chars m) && digits_of 2 (chars s) | _ => false end.

Definition _BEFORE_RE (s : string) : bool :=
  dollar (λ s, let '(date, space, clock) := partition " "%char s in
               if space then is_day date && is_clock clock else is_day s) s.

Definition statement {A} (f : list entry → list entry * A) : prog prune_store A := λ w,
  let s := w_st w in
  let '(s, fault) :=
    match ps_events s with
    | [] => (s, None)
    | e :: events => (PruneStore (pe_change e (ps_rows s)) events, pe_fault e)
    end in
  match fault with
  | Some e => (World s (w_log w) (w_clock w), Err e)
  | None => let '(rows, a) := f (ps_rows s) in (World (PruneStore rows (ps_events s)) (w_log w) (w_clock w), Ok a)
  end.

Definition entry_le (x y : entry) : Prop := en_id x <= en_id y.
#[export] Instance entry_le_dec x y : Decision (entry_le x y).
Proof. unfold entry_le. apply _. Defined.

Section prune.
Context (timestamp : string → res Z) (table before : string) (batch : Z).

(** [created_at < %s]; a text the server cannot read fails the statement. *)
Definition older (limit : Z) (e : entry) : bool := en_created_at e <? limit.

Definition count_older : prog prune_store Z :=
  limit ← lift_res (timestamp before);
  statement (λ rows, (rows, Z.of_nat (length (select_where (older limit) rows)))).

(** [SELECT id ... WHERE created_at < %s ORDER BY id LIMIT %s] *)
Definition batch_ids (limit : Z) (rows : list entry) : list Z :=
  map en_id (take (Z.to_nat batch) (order_by entry_le (select_where (older limit) rows))).

(** [DELETE ... WHERE id IN (...)] *)
Definition delete_batch : prog prune_store Z :=
  limit ← lift_res (timestamp before);
  statement (λ rows,
    let ids := batch_ids limit rows in
    let '(rows, gone) := delete_where (λ e, existsb (Z.eqb (en_id e)) ids) rows in
    (rows, Z.of_nat (length gone))).

Definition or_report {A} (m : prog prune_store A) (what : string) : prog prune_store (A + Z) :=
  try_except (a ← m; mret (inl a)) is_psycopg_error (λ e, _ ← out (what +:+ exn_msg e); mret (inr 1)).

(** [while deleted < total], with [fuel] batches at most. *)
Fixpoint prune_batches (fuel : nat) (total deleted : Z) : prog prune_store (option (Z + Z)) :=
  if negb (deleted <? total) then mret (Some (inl deleted))
  else
    match fuel with
    | O => mret None
    | S fuel =>
        removed ← or_report delete_batch ("error: cannot delete from " +:+ table +:+ ": ");
        match removed with
        | inr code => mret (Some (inr code))
        | inl removed =>
            if removed <=? 0 then mret (Some (inl deleted))
            else
              _ ← out ("Deleted " +:+ str_of_Z (deleted + removed) +:+ "/" +:+ str_of_Z total);
              prune_batches fuel total (deleted + removed)
        end
    end.

(** The exit code; [None] when [fuel] batches did not do. *)
Definition cmd_prune (fuel : nat) (dry_run : bool) : prog prune_store (option Z) :=
  match assert_table_name table with
  | Err e => _ ← out ("error: " +:+ exn_msg e); mret (Some 2)
  | Ok _ =>
      if negb (_BEFORE_RE before) then
        _ ← out ("error: --before=" +:+ repr before +:+ " must be YYYY-MM-DD or 'YYYY-MM-DD HH:MM:SS'"); mret (Some 2)
      else if batch <? 1 then _ ← out "error: --batch must be at least 1"; mret (Some 2)
      else
        total ← or_report count_older ("error: cannot read " +:+ table +:+ ": ");
        match total with
        | inr code => mret (Some code)
        | inl total =>
            _ ← out (str_of_Z total +:+ " rows in " +:+ table +:+ " older than " +:+ before);
            if total =? 0 then mret (Some 0)
            else if dry_run then _ ← out "Nothing deleted (--dry-run)."; mret (Some 0)
            else
              result ← prune_batches fuel total 0;
              match result with
              | None => mret None
              | Some (inr code) => mret (Some code)
              | Some (inl deleted) => _ ← out ("Done. " +:+ str_of_Z deleted +:+ " rows removed."); mret (Some 0)
              end
        end
  end.
End prune.

(** ** Installing the schema *)
Definition cmd_install (template : res string) (written : res ()) (table : string) (now : datetime) : prog directory Z :=
  match assert_table_name table with
  | Err e => _ ← out ("error: " +:+ exn_msg e); mret 2
  | Ok _ =>
      d ← get_st;
      match dir_files d with
      | None => _ ← out ("error: no migrations directory at " +:+ dir_path d); mret 2
      | Some files =>
          match template with
          | Err e => _ ← out ("error: could not read the template: " +:+ exn_msg e); mret 1
          | Ok schema =>
              let schema := if String.eqb table "audit_log" then schema else replace_str "audit_log" table schema in
              match new_filename ("create " +:+ table) now with
              | Err e => _ ← out ("error: " +:+ exn_msg e); mret 2
              | Ok filename =>
                  let path := dir_path d +:+ "/" +:+ filename in
                  if dict_has filename files then _ ← out ("error: " +:+ path +:+ " already exists"); mret 1
                  else
                    match written with
                    | Err e => _ ← out ("error: could not write " +:+ path +:+ ": " +:+ exn_msg e); mret 1
                    | Ok _ =>
                        _ ← set_st (Directory (dir_path d) (Some (dict_set filename (chars schema) files)));
                        _ ← out ("Wrote " +:+ path);
                        _ ← out "Review it, then: python3 src/app.py migrations apply";
                        mret 0
                    end
              end
          end
      end
  end.

(** ** The service *)
Record audit_args := AuditArgs {
  aa_step : string; aa_dir : option string; aa_table : option string; aa_db : option string; aa_before : string; aa_batch : Z;
  aa_dry_run : bool
}.

(** [config["audit"]]: the two keys the service reads. *)
Record audit_settings := AuditSettings { au_set_table : option string; au_set_db : option string }.

Record audit_store := AuditStore { as_prune : prune_store; as_directories : list (string * directory) }.

Definition on_prune {A} : prog prune_store A → prog audit_store A :=
  zoom as_prune (λ p s, AuditStore p (as_directories s)).

Definition on_directory {A} (path : string) : prog directory A → prog audit_store A :=
  zoom (λ s, default (Directory path None) (dict_get path (as_directories s)))
       (λ d s, AuditStore (as_prune s) (dict_set path d (as_directories s))).

Section service.
Context (timestamp : string → res Z) (realpath : string → string) (calendar : Z → datetime).
Context (template : res string) (written : res ()) (connected : connect_args → res ()).

Definition _DEFAULT_DB : string := "main".
Definition _DEFAULT_TABLE : string := "audit_log".

(** [a or b or d] *)
Definition first_text (a b : option string) (d : string) : string := or_default a (or_default b d).

(** The body of the [try]. *)
Definition _run (fuel : nat) (args : audit_args) (settings : audit_settings) (c : config) : prog audit_store (option Z) :=
  let table := first_text (aa_table args) (au_set_table settings) _DEFAULT_TABLE in
  if String.eqb (aa_step args) "install" then
    path ← lift_res (_migrations_dir realpath (aa_dir args) c);
    now ← now_utc;
    code ← on_directory path (cmd_install template written table (calendar now));
    raise (system_exit code)
  else
    let db_name := first_text (aa_db args) (au_set_db settings) _DEFAULT_DB in
    match dict_get db_name (cf_db c) with
    | None =>
        _ ← out ("error: no database " +:+ repr db_name +:+ sq " in config['db']; configured are: "
                 +:+ or_default (Some (join ", " (sorted_names (cf_db c).*1))) "none" +:+ ".");
        raise (system_exit 2)
    | Some entry =>
        if String.eqb (aa_step args) "prune" then
          kwargs ← lift_res (connect_kwargs entry);
          _ ← lift_res (connected kwargs);
          on_prune (cmd_prune timestamp table (aa_before args) (aa_batch args) fuel (aa_dry_run args))
        else _ ← out ("error: unknown audit command " +:+ repr (aa_step args)); mret (Some 1)
    end.

(** Ends the process, unless [fuel] did not do. *)
Definition init_service (fuel : nat) (args : audit_args) (settings : audit_settings) (c : config) : prog audit_store () :=
  code ← try_except (_run fuel args settings c) (λ e, negb (is_class SystemExit e))
    (λ e, _ ← (if is_class AuditError e then out ("error: " +:+ exn_msg e) else mret ()); raise (system_exit 1));
  match code with Some code => raise (system_exit code) | None => mret () end.
End service.
