(* ===== verification/AuditCommandsProps.v ===== *)
(** * What a prune deletes *)

From Stdlib Require Import ZArith Lia Relations.
From S2P Require Import Prelude PyStr Json Sql AuditTrail AuditCommands.

Section prune.
Context (timestamp : string → res Z) (table before : string) (batch : Z).
Context (limit : Z) (Hlimit : timestamp before = Ok limit) (Hbatch : 1 <= batch).

Abbreviation older := (older limit).

(** A statement of the run: a batch of entries with the ids of old ones goes. *)
Definition deletes (rows rows' : list entry) : Prop :=
  ∃ ids, Z.of_nat (length ids) <= batch ∧ (∀ i, i ∈ ids → ∃ e, e ∈ rows ∧ en_id e = i ∧ older e = true)
    ∧ rows' = filter (λ e, en_id e ∉ ids) rows.

Definition prune_step (events : list prune_event) (rows rows' : list entry) : Prop :=
  deletes rows rows' ∨ ∃ e, e ∈ events ∧ rows' = pe_change e rows.

Definition prunes (s s' : prune_store) : Prop :=
  ps_events s' ⊆ ps_events s ∧ rtc (prune_step (ps_events s)) (ps_rows s) (ps_rows s').

#[local] Instance prunes_preorder : PreOrder prunes.
Proof.
  clear Hlimit Hbatch. split; [by intros s|]. intros s1 s2 s3 [He1 Hr1] [He2 Hr2]. split; [set_solver|]. etrans; [exact Hr1|].
  eapply rtc_subrel; [|exact Hr2]. intros x y [H|(e & Hin & ->)]; [by left|right; exists e; split; [set_solver|done]].
Qed.

Lemma within_statement {A} (f : list entry → list entry * A) :
  (∀ rows, (f rows).1 = rows ∨ deletes rows (f rows).1) → within prunes (statement f).
Proof.
  clear Hlimit Hbatch. intros Hf [[rows events] l c]. unfold statement. cbn [w_st ps_events ps_rows w_log w_clock].
  destruct events as [|e events]; simpl.
  - destruct (f rows) as [rows' a] eqn:E. simpl. split; [reflexivity|]. specialize (Hf rows). rewrite E in Hf. simpl in *.
    destruct Hf as [->|Hf]; [apply rtc_refl|]. by apply rtc_once; left.
  - assert (Hm : prunes (PruneStore rows (e :: events)) (PruneStore (pe_change e rows) events)).
    { split; simpl; [set_solver|]. apply rtc_once. right. exists e. split; [by left|done]. }
    destruct (pe_fault e) as [err|]; [done|]. destruct (f (pe_change e rows)) as [rows' a] eqn:E. cbn [fst w_st ps_rows ps_events].
    specialize (Hf (pe_change e rows)). rewrite E in Hf. etrans; [exact Hm|]. split; [reflexivity|]. simpl in *.
    destruct Hf as [->|Hf]; [apply rtc_refl|]. by apply rtc_once; left.
Qed.

Lemma batch_ids_old rows i : i ∈ batch_ids batch limit rows → ∃ e, e ∈ rows ∧ en_id e = i ∧ older e = true.
Proof.
  unfold batch_ids. intros Hi. apply list_elem_of_fmap_1 in Hi as (e & -> & He). exists e.
  apply elem_of_take in He as (k & He & _). apply list_elem_of_lookup_2 in He. unfold order_by in He.
  rewrite merge_sort_Permutation in He. apply elem_of_select in He. tauto.
Qed.

Lemma delete_step rows : (delete_where (λ e, existsb (Z.eqb (en_id e)) (batch_ids batch limit rows)) rows).1
  = filter (λ e, en_id e ∉ batch_ids batch limit rows) rows ∧ deletes rows (filter (λ e, en_id e ∉ batch_ids batch limit rows) rows).
Proof.
  split.
  - unfold delete_where. cbn [fst]. apply filter_ext_in. intros e _. rewrite <- not_true_iff_false, existsb_exists.
    setoid_rewrite Z.eqb_eq. setoid_rewrite <- list_elem_of_In. naive_solver.
  - exists (batch_ids batch limit rows). split; [|split; [apply batch_ids_old|done]].
    unfold batch_ids. rewrite length_map, length_take. lia.
Qed.


Lemma within_delete : within prunes (delete_batch timestamp before batch).
Proof.
  unfold delete_batch. rewrite Hlimit. intros w. erewrite bind_ok by done. revert w. apply within_statement. intros rows.
  destruct (delete_step rows) as [He Hd]. destruct (delete_where _ rows) as [rows' gone]. simpl in *. subst rows'. by right.
Qed.

Lemma within_report {A} (m : prog prune_store A) what : within prunes m → within prunes (or_report m what).
Proof. intros Hm. unfold or_report. within_tac. Qed.

Lemma within_batches fuel total deleted : within prunes (prune_batches timestamp table before batch fuel total deleted).
Proof.
  revert deleted. induction fuel as [|fuel IH]; intros deleted; cbn [prune_batches].
  - destruct (negb _); apply within_ret; apply _.
  - destruct (negb _); [apply within_ret; apply _|]. apply within_bind; [apply _|apply within_report, within_delete|].
    intros [removed|code]; [|apply within_ret; apply _]. destruct (removed <=? 0); [apply within_ret; apply _|].
    apply within_bind; [apply _|apply within_out; apply _|]. intros _. apply IH.
Qed.

Lemma within_prune fuel dry_run : within prunes (cmd_prune timestamp table before batch fuel dry_run).
Proof.
  unfold cmd_prune. destruct (assert_table_name table); [|within_tac]. destruct (negb _); [within_tac|]. destruct (batch <? 1); [within_tac|].
  apply within_bind; [apply _|apply within_report|].
  { unfold count_older. rewrite Hlimit. intros w. erewrite bind_ok by done. revert w. apply within_statement. intros rows. by left. }
  intros [total|code]; [|within_tac]. apply within_bind; [apply _|apply within_out; apply _|]. intros _.
  destruct (total =? 0); [within_tac|]. destruct dry_run; [within_tac|].
  apply within_bind; [apply _|apply within_batches|]. intros [[deleted|code]|]; within_tac.
Qed.

(** ** Enough fuel *)
Lemma batches_end fuel total deleted w :
  total - deleted < Z.of_nat fuel → ∀ w', prune_batches timestamp table before batch fuel total deleted w ≠ (w', Ok None).
Proof.
  revert deleted w. induction fuel as [|fuel IH]; intros deleted w Hf w'; cbn [prune_batches].
  { destruct (Z.ltb_spec deleted total); [lia|done]. }
  destruct (Z.ltb_spec deleted total); [|done]. cbn [negb].
  match goal with |- context[or_report ?m ?what] => destruct (or_report m what w) as [w1 [[removed|code]|e]] eqn:E end;
    [| |by rewrite (bind_err _ _ _ _ _ E)];
    rewrite (bind_ok _ _ _ _ _ E); [|done].
  destruct (Z.leb_spec removed 0); [done|]. erewrite bind_ok by done. apply IH. lia.
Qed.

(** ** A run nobody disturbs *)
Definition idle (rows : list entry) (w : world prune_store) : Prop := ps_rows (w_st w) = rows ∧ ps_events (w_st w) = [].

Lemma idle_statement {A} (f : list entry → list entry * A) rows w :
  idle rows w → ∃ w', statement f w = (w', Ok (f rows).2) ∧ idle (f rows).1 w'.
Proof.
  destruct w as [[r e] l c]. intros [Hr He]. simpl in *. subst. unfold statement. simpl.
  destruct (f rows) as [rows' a]. by eexists.
Qed.

Lemma prune_report_ok {A} (m : prog prune_store A) what w w1 a : m w = (w1, Ok a) → or_report m what w = (w1, Ok (inl a)).
Proof. intros E. unfold or_report, try_except. by rewrite (bind_ok _ _ _ _ _ E). Qed.

Definition olds (rows : list entry) : list entry := select_where older rows.
Definition young (rows : list entry) : list entry := filter (λ e, older e = false) rows.

Lemma old_or_young rows : (length rows = length (olds rows) + length (young rows))%nat.
Proof.
  unfold olds, young, select_where. induction rows as [|e rows IH]; [done|]. rewrite !filter_cons.
  destruct (older e); repeat case_decide; simpl; try done; lia.
Qed.

(** A batch takes as many old entries as there are, up to its size. *)
Lemma batch_takes rows :
  NoDup (map en_id rows) →
  let rest := filter (λ e, en_id e ∉ batch_ids batch limit rows) rows in
  Z.of_nat (length (olds rest)) = Z.max 0 (Z.of_nat (length (olds rows)) - batch) ∧ young rest = young rows ∧ NoDup (map en_id rest).
Proof.
  intros Hnd rest. set (ids := batch_ids batch limit rows) in *.
  set (sorted := order_by entry_le (olds rows)).
  set (T := take (Z.to_nat batch) sorted). set (D := drop (Z.to_nat batch) sorted).
  assert (Hperm : olds rows ≡ₚ T ++ D) by (unfold T, D; rewrite take_drop; symmetry; apply merge_sort_Permutation).
  assert (Hids : ids = map en_id T) by done.
  assert (Hnds : NoDup (map en_id (T ++ D))).
  { rewrite <- (Permutation_map en_id Hperm). by apply (NoDup_fmap_filter en_id). }
  split_and!.
  - assert (Ho : olds rest ≡ₚ D).
    { transitivity (filter (λ e, en_id e ∉ ids) (olds rows)).
      - unfold olds, rest, select_where. rewrite !list_filter_filter. erewrite filter_ext_in; [reflexivity|]. intros e _. simpl. tauto.
      - rewrite Hperm, filter_app. rewrite map_app in Hnds. apply NoDup_app in Hnds as (_ & Hd & _).
        rewrite filter_none, filter_all; [done| |].
        + intros e He Hin. rewrite Hids in Hin. apply (Hd _ Hin). by apply (list_elem_of_fmap_2 en_id).
        + intros e He Hout. apply Hout. rewrite Hids. by apply (list_elem_of_fmap_2 en_id). }
    rewrite Ho. unfold D. rewrite length_drop. assert (Hl : length sorted = length (olds rows)) by apply (Permutation_length (merge_sort_Permutation _ _)).
    lia.
  - unfold young, rest. rewrite list_filter_filter. apply filter_ext_in. intros e Hin. split; [by intros [? _]|]. intros Hy. split; [done|].
    intros Hi. destruct (batch_ids_old rows _ Hi) as (e' & Hin' & He & Ho).
    rewrite (NoDup_fmap_inj_in en_id rows e' e Hnd Hin' Hin He) in Ho. congruence.
  - by apply (NoDup_fmap_filter en_id).
Qed.

Lemma delete_run rows w :
  idle rows w → NoDup (map en_id rows) →
  ∃ w' rest, delete_batch timestamp before batch w = (w', Ok (Z.min batch (Z.of_nat (length (olds rows))))) ∧ idle rest w'
    ∧ Z.of_nat (length (olds rest)) = Z.max 0 (Z.of_nat (length (olds rows)) - batch) ∧ young rest = young rows ∧ NoDup (map en_id rest).
Proof.
  intros Hi Hnd. unfold delete_batch. rewrite Hlimit. erewrite bind_ok by done.
  set (f := λ rows : list entry, _). destruct (idle_statement f rows w Hi) as (w' & E & Hi').
  destruct (delete_step rows) as [He _]. destruct (batch_takes rows Hnd) as (Ho & Hy & Hnd').
  assert (Hf1 : (f rows).1 = filter (λ e, en_id e ∉ batch_ids batch limit rows) rows).
  { unfold f. rewrite <- He. by destruct (delete_where _ rows). }
  assert (Hf2 : (f rows).2 = Z.of_nat (length rows) - Z.of_nat (length (f rows).1)).
  { unfold f, delete_where, select_where. simpl.
    pose proof (length_filter_complement (λ e, existsb (Z.eqb (en_id e)) (batch_ids batch limit rows) = true) rows) as Hlen.
    rewrite (filter_ext_in (λ e, existsb (Z.eqb (en_id e)) (batch_ids batch limit rows) = false) (λ e, ¬ existsb (Z.eqb (en_id e)) (batch_ids batch limit rows) = true));
      [lia|]. intros e _. by rewrite not_true_iff_false. }
  set (rest := filter _ rows) in Ho, Hy, Hnd', Hf1. exists w', rest. rewrite Hf1 in Hi'. split; [|by split_and!].
  rewrite E. f_equal. f_equal. rewrite Hf2, Hf1. pose proof (old_or_young rows). pose proof (old_or_young rest). rewrite Hy in *. lia.
Qed.

Lemma batches_run fuel rows deleted total w :
  idle rows w → NoDup (map en_id rows) → total = deleted + Z.of_nat (length (olds rows)) → (length (olds rows) < fuel)%nat →
  ∃ w', prune_batches timestamp table before batch fuel total deleted w = (w', Ok (Some (inl total)))
    ∧ ∃ rest, idle rest w' ∧ olds rest = [] ∧ young rest = young rows.
Proof.
  revert rows deleted w. induction fuel as [|fuel IH]; intros rows deleted w Hi Hnd Ht Hf; [lia|]. cbn [prune_batches].
  destruct (Z.ltb_spec deleted total) as [Hlt|Hge]; cbn [negb].
  2: { assert (deleted = total) as -> by lia. exists w. split; [done|]. exists rows. split; [exact Hi|]. split; [|done].
       apply length_zero_iff_nil. lia. }
  destruct (delete_run rows w Hi Hnd) as (w1 & rest & E & Hi1 & Ho & Hy & Hnd1).
  erewrite bind_ok by (by eapply prune_report_ok). cbn match. destruct (Z.leb_spec (Z.min batch (Z.of_nat (length (olds rows)))) 0); [lia|].
  erewrite bind_ok by done.
  set (removed := Z.min batch (Z.of_nat (length (olds rows)))) in *.
  destruct (IH rest (deleted + removed) (World (w_st w1) (w_log w1 ++ ["Deleted " +:+ str_of_Z (deleted + removed) +:+ "/" +:+ str_of_Z total])
    (w_clock w1)) Hi1 Hnd1) as (w' & E' & rest' & Hi' & Ho' & Hy'); [lia|lia|]. exists w'. split; [exact E'|]. exists rest'. by rewrite Hy', Hy.
Qed.

End prune.

(** The entries as the first statement finds them. *)
Definition first_rows (s : prune_store) : list entry :=
  match ps_events s with e :: _ => pe_change e (ps_rows s) | [] => ps_rows s end.

Lemma prune_ends timestamp table before batch fuel dry_run w w' limit :
  timestamp before = Ok limit → cmd_prune timestamp table before batch fuel dry_run w = (w', Ok None) →
  Z.of_nat fuel <= Z.of_nat (length (olds limit (first_rows (w_st w)))).
Proof.
  intros Hl E. apply Z.nlt_ge. intros Hf. unfold first_rows in Hf. revert E.
  intros E. unfold cmd_prune in E. destruct (assert_table_name table); [|done]. destruct (negb _); [done|]. destruct (batch <? 1); [done|].
  match type of E with context[or_report ?m ?what] => destruct (or_report m what w) as [w1 [[total|code]|e]] eqn:E1 end;
    [| |by rewrite (bind_err _ _ _ _ _ E1) in E]; rewrite (bind_ok _ _ _ _ _ E1) in E; [|done].
  cbn match in E. erewrite bind_ok in E by done. destruct (total =? 0); [done|]. destruct dry_run; [by erewrite bind_ok in E by done|].
  assert (Htotal : total = Z.of_nat (length (olds limit (match ps_events (w_st w) with e :: _ => pe_change e (ps_rows (w_st w)) | [] => ps_rows (w_st w) end)))).
  { unfold or_report, try_except, count_older in E1. rewrite Hl in E1. unfold mbind, prog_bind, lift_res, statement in E1.
    destruct (ps_events (w_st w)) as [|e events]; [|destruct (pe_fault e)]; simpl in E1; try (by injection E1 as _ <-).
    by destruct (is_psycopg_error e0). }
  match type of E with context[prune_batches ?a ?b ?c ?d ?e ?f ?g] =>
    match type of E with mbind _ _ ?u = _ => destruct (prune_batches a b c d e f g u) as [w2 x] eqn:E2 end end.
  destruct x as [[[deleted|code]|]|e]; [| | |by rewrite (bind_err _ _ _ _ _ E2) in E]; rewrite (bind_ok _ _ _ _ _ E2) in E; try done.
  revert E2. apply batches_end. lia.
Qed.

Lemma prune_idle timestamp table before batch fuel dry_run w w' r limit :
  timestamp before = Ok limit → cmd_prune timestamp table before batch fuel dry_run w = (w', r) →
  assert_table_name table = Ok table → _BEFORE_RE before = true → 1 <= batch →
  ps_events (w_st w) = [] → NoDup (map en_id (ps_rows (w_st w))) → (length (olds limit (ps_rows (w_st w))) < fuel)%nat →
  r = Ok (Some 0) ∧ ps_rows (w_st w') = if dry_run then ps_rows (w_st w) else young limit (ps_rows (w_st w)).
Proof.
  intros Hl E Ht Hb Hbatch He Hnd Hf. unfold cmd_prune in E. rewrite Ht, Hb in E. cbn [negb] in E. destruct (Z.ltb_spec batch 1); [lia|].
  assert (Hi : idle (ps_rows (w_st w)) w) by done.
  assert (Hcount : ∃ w1, count_older timestamp before w = (w1, Ok (Z.of_nat (length (olds limit (ps_rows (w_st w)))))) ∧ idle (ps_rows (w_st w)) w1).
  { unfold count_older. rewrite Hl. erewrite bind_ok by done.
    apply (idle_statement (λ rows, (rows, Z.of_nat (length (select_where (older limit) rows)))) _ _ Hi). }
  destruct Hcount as (w1 & E1 & Hi1). erewrite bind_ok in E by (by eapply prune_report_ok).
  cbn match in E. erewrite bind_ok in E by done.
  destruct (Z.eqb_spec (Z.of_nat (length (olds limit (ps_rows (w_st w))))) 0) as [H0|H0].
  - injection E as <- <-. split; [done|]. destruct Hi1 as [Hr1 _]. cbn [w_st]. rewrite Hr1. destruct dry_run; [done|].
    unfold young. rewrite filter_all; [done|]. intros e Hin. apply not_true_iff_false. intros Ho.
    assert (Hold : e ∈ olds limit (ps_rows (w_st w))) by (by apply elem_of_select).
    destruct (olds limit (ps_rows (w_st w))); [by apply not_elem_of_nil in Hold|simpl in H0; lia].
  - destruct dry_run.
    { erewrite bind_ok in E by done. injection E as <- <-. split; [done|]. apply Hi1. }
    match type of E with mbind _ _ ?u = _ => set (w2 := u) in E end.
    destruct (batches_run timestamp table before batch limit Hl Hbatch fuel (ps_rows (w_st w)) 0
      (Z.of_nat (length (olds limit (ps_rows (w_st w))))) w2 Hi1 Hnd) as (w3 & E3 & rest & Hi3 & Ho3 & Hy3); [lia|done|].
    rewrite (bind_ok _ _ _ _ _ E3) in E. injection E as <- <-. split; [done|]. destruct Hi3 as [Hr3 _]. cbn [w_st]. rewrite Hr3, <- Hy3.
    unfold young. rewrite filter_all; [done|]. intros e Hin. apply not_true_iff_false. intros Ho.
    assert (Hold : e ∈ olds limit rest) by (by apply elem_of_select). rewrite Ho3 in Hold. by apply not_elem_of_nil in Hold.
Qed.

(** C23: A prune deletes old entries and nothing else. Whatever happens
    between its statements and however it ends, the trail it leaves comes
    from the one it found by others' changes and by batches no larger than
    asked for of entries older than the date; with one round more than there
    are old entries counted it always comes to an end; undisturbed it exits with
    0 and exactly the old entries are gone, or none in a dry run. *)
Theorem prune_exact timestamp table before batch fuel dry_run w w' r limit :
  timestamp before = Ok limit →
  cmd_prune timestamp table before batch fuel dry_run w = (w', r) →
  rtc (prune_step batch limit (ps_events (w_st w))) (ps_rows (w_st w)) (ps_rows (w_st w'))
  ∧ (Z.of_nat (length (olds limit (first_rows (w_st w)))) < Z.of_nat fuel → r ≠ Ok None)
  ∧ (assert_table_name table = Ok table → _BEFORE_RE before = true → 1 <= batch →
     ps_events (w_st w) = [] → NoDup (map en_id (ps_rows (w_st w))) → (length (olds limit (ps_rows (w_st w))) < fuel)%nat →
     r = Ok (Some 0) ∧ ps_rows (w_st w') = if dry_run then ps_rows (w_st w) else young limit (ps_rows (w_st w))).
Proof.
  intros Hl E. split_and!.
  - destruct (Z.leb_spec 1 batch) as [Hb|Hb].
    + pose proof (within_prune timestamp table before batch limit Hl Hb fuel dry_run w) as [_ H]. by rewrite E in H.
    + unfold cmd_prune in E. destruct (assert_table_name table); [|injection E as <- _; apply rtc_refl].
      destruct (negb _); [injection E as <- _; apply rtc_refl|]. destruct (Z.ltb_spec batch 1); [|lia]. injection E as <- _. apply rtc_refl.
  - intros Hf ->. pose proof (prune_ends _ _ _ _ _ _ _ _ _ Hl E). lia.
  - by eapply prune_idle.
Qed.

Definition w_trail : list entry := [Entry 1 10; Entry 2 99; Entry 3 20; Entry 4 30].

Lemma prune_exact_witness :
  let '(w', r) := cmd_prune (λ _, Ok 50) "audit_log" "2024-01-01" 2 4 false (World (PruneStore w_trail []) [] 0) in
  r = Ok (Some 0) ∧ ps_rows (w_st w') = [Entry 2 99].
Proof.
  destruct (cmd_prune _ _ _ _ _ _ _) as [w' r] eqn:E.
  assert (Hlen : (length (olds 50 w_trail) < 4)%nat) by (vm_compute; lia).
  assert (Hnd : NoDup (map en_id w_trail)) by (apply (bool_decide_unpack _); reflexivity).
  destruct (prune_exact (λ _, Ok 50) "audit_log" "2024-01-01" 2 4 false _ w' r 50 eq_refl E) as (_ & _ & H).
  destruct H as [Hr Hrows]; [vm_compute; reflexivity|vm_compute; reflexivity|lia|reflexivity|exact Hnd|exact Hlen|].
  split; [exact Hr|]. rewrite Hrows. vm_compute. reflexivity.
Defined.
