(* ===== verification/Telemetry.v ===== *)
(** * Log records and reported errors

    [logger_handlers.py]: which errors are reported and how often, what is
    taken out of a report, and the lines of the console. The similarity of two
    texts (difflib), the text of an event and the formatted message and date of
    a record are parameters; the SDK's set-up is not modelled. *)

From Stdlib Require Import ZArith Lia.
From S2P Require Import Prelude PyStr Json QueueIface Redact.

(** ** How often an error is reported *)
Definition ERROR_RATE : Z := 60.
Definition SIMILARITY_CHARS : nat := 1024.

Record last_error := LastError { le_count : Z; le_time : Z; le_msg : string }.
Definition no_error : last_error := LastError 0 0 "".

Record event := Event { ev_text : string; ev_http : bool; ev_dispatch : option bool }.

Section rate.
(** [SequenceMatcher(None, a, b).ratio() < 0.4] *)
Context (dissimilar : string → string → bool).

Definition current_event (e : event) : string := py_take SIMILARITY_CHARS (ev_text e).

Definition RateControl (e : event) : prog last_error (option event) :=
  if ev_http e then mret None
  else
    match ev_dispatch e with
    | Some false => _ ← out "#### Manually discarded error message meant to be sent via Sentry"; mret None
    | _ =>
        t ← now_utc;
        let now := t / second in
        last ← get_st;
        if (le_time last =? 0) || (ERROR_RATE <=? now - le_time last) || dissimilar (le_msg last) (current_event e) then
          _ ← out "#### Allowing Sentry to send error message";
          _ ← set_st (LastError 0 now (current_event e));
          mret (Some e)
        else
          _ ← out "#### Discarded error message meant to be sent to Sentry";
          _ ← set_st (LastError (le_count last + 1) (le_time last) (le_msg last));
          mret None
    end.

(** What is sent is sent as it is, is no refusal of a request, and is the
    first, or a minute after the last one sent, or unlike it; and the rest
    leaves what it is compared with. *)
Lemma rate_control_spec e w :
  match RateControl e w with
  | (w', Ok (Some e')) =>
      e' = e ∧ ev_http e = false ∧ le_time (w_st w') = w_clock w / second ∧ le_msg (w_st w') = current_event e
      ∧ (le_time (w_st w) = 0 ∨ le_time (w_st w) + ERROR_RATE <= w_clock w / second ∨ dissimilar (le_msg (w_st w)) (current_event e) = true)
  | (w', Ok None) => le_time (w_st w') = le_time (w_st w) ∧ le_msg (w_st w') = le_msg (w_st w)
  | (_, Err _) => False
  end.
Proof.
  unfold RateControl. destruct (ev_http e); [done|]. destruct (ev_dispatch e) as [[]|]; try done.
  all: erewrite bind_ok by done; cbv zeta; erewrite bind_ok by done.
  all: destruct (Z.eqb_spec (le_time (w_st w)) 0) as [Hz|Hz]; cbn [orb]; [run_prog; by split_and!; auto|].
  all: destruct (Z.leb_spec ERROR_RATE (w_clock w / second - le_time (w_st w))) as [Ht|Ht]; cbn [orb];
    [run_prog; split_and!; auto; right; left; lia|].
  all: destruct (dissimilar _ _) eqn:Hd; run_prog; split_and!; auto.
Qed.
End rate.

(** ** What is taken out of a report *)
Definition FILTERED : json := JStr "[Filtered]".

Section scrub.
Context (denylist : list string).

Definition scrubbed_key (k : string) : bool := existsb (String.eqb (lower k)) denylist || is_sensitive_key k.

(** [scrub_dict] and [_scrubbed_copy], with the values the call leaves: the
    given dictionary is changed in place, nested ones are copies. *)
Fixpoint _scrubbed_copy (value : json) : json :=
  match value with
  | JObj d => JObj (map (λ kv, (kv.1, if scrubbed_key kv.1 then FILTERED else _scrubbed_copy kv.2)) d)
  | JList l => JList (map _scrubbed_copy l)
  | v => v
  end.

Definition scrub_dict (d : list (string * json)) : list (string * json) :=
  map (λ kv, (kv.1, if scrubbed_key kv.1 then FILTERED else _scrubbed_copy kv.2)) d.

(** Nothing is left under a key that is to be scrubbed, at any depth. *)
Fixpoint scrubbed (v : json) : bool :=
  match v with
  | JObj d => forallb (λ kv, if scrubbed_key kv.1 then match kv.2 with JStr s => String.eqb s "[Filtered]" | _ => false end else scrubbed kv.2) d
  | JList l => forallb scrubbed l
  | _ => true
  end.

Lemma scrubbed_copy_clean v : scrubbed (_scrubbed_copy v) = true.
Proof.
  induction v as [|b|n|t|s|t|l IH|d IH] using json_nested_ind; try done.
  - cbn [_scrubbed_copy scrubbed]. induction IH as [|x l Hx _ IHl]; [done|]. cbn [map forallb]. by rewrite Hx.
  - cbn [_scrubbed_copy scrubbed]. induction IH as [|[k x] d Hx _ IHd]; [done|]. cbn [map forallb fst snd]. rewrite IHd.
    destruct (scrubbed_key k); [done|]. cbn [snd] in Hx. by rewrite Hx.
Qed.

Lemma scrub_dict_clean d : scrubbed (JObj (scrub_dict d)) = true.
Proof. apply (scrubbed_copy_clean (JObj d)). Qed.
End scrub.

(** ** The console *)
Inductive log_level := DEBUG | INFO | WARNING | ERROR | CRITICAL.
#[export] Instance log_level_eq_dec : EqDecision log_level.
Proof. solve_decision. Defined.

Record log_record := LogRecord {
  lr_name : string; lr_level : log_level; lr_levelname : string; lr_message : string; lr_end : option string; lr_prefix : option string;
  lr_clean : bool; lr_skip_date : bool
}.

Record ConsoleHandler := MkConsole { name_filter : option string; should_buffer : bool; the_buffer : list log_record }.

(** The [Colors] that are used. *)
Definition ESC (code : string) : string := String "027"%char ("[" +:+ code +:+ "m").
Definition ColorOff : string := ESC "0".
Definition Red : string := ESC "0;31".
Definition Yellow : string := ESC "0;33".
Definition Purple : string := ESC "0;35".
Definition Cyan : string := ESC "0;36".

Section console.
Context (strftime : Z → string).

Definition colour (l : log_level) : string * string :=
  match l with
  | INFO => (Yellow, ColorOff)
  | DEBUG => (Cyan, ColorOff)
  | WARNING => (Purple, ColorOff)
  | ERROR => (Red, ColorOff)
  | CRITICAL => ("", "")
  end.

Definition shown (h : ConsoleHandler) (r : log_record) : bool :=
  match name_filter h with Some f => startswith f (lr_name r) | None => true end.

Definition console_text (now : Z) (r : log_record) : string :=
  let '(prepend, append) := colour (lr_level r) in
  let origin := "[" +:+ lr_levelname r +:+ "] [" +:+ lr_name r +:+ "] " in
  let date := if lr_clean r then "" else if lr_skip_date r then origin else "[" +:+ strftime now +:+ "] " +:+ origin in
  default "" (lr_prefix r) +:+ prepend +:+ date +:+ lr_message r +:+ append +:+ default NL (lr_end r).

Definition emit (r : log_record) : prog ConsoleHandler () :=
  h ← get_st;
  if negb (shown h r) then mret ()
  else if should_buffer h then set_st (MkConsole (name_filter h) true (the_buffer h ++ [r]))
  else now ← now_utc; out (console_text now r).

Definition emit_buffer : prog ConsoleHandler () :=
  h ← get_st;
  _ ← set_st (MkConsole (name_filter h) false (the_buffer h));
  _ ← for_each (the_buffer h) emit;
  h ← get_st;
  set_st (MkConsole (name_filter h) (should_buffer h) []).

Lemma emit_each l : ∀ w, should_buffer (w_st w) = false → Forall (λ r, shown (w_st w) r = true) l →
  for_each l emit w = (World (w_st w) (w_log w ++ map (console_text (w_clock w)) l) (w_clock w), Ok ()).
Proof.
  induction l as [|r l IH]; intros w Hb Hl; cbn [for_each map]; [rewrite app_nil_r; by destruct w|]. inversion Hl as [|? ? Hr Hrest]; subst.
  assert (E : emit r w = (World (w_st w) (w_log w ++ [console_text (w_clock w) r]) (w_clock w), Ok ())).
  { unfold emit. erewrite bind_ok by done. rewrite Hr, Hb. cbn [negb]. by erewrite bind_ok by done. }
  erewrite bind_ok by exact E. rewrite IH by done. cbn [w_st w_log w_clock]. by rewrite <- app_assoc.
Qed.

(** What was held back comes out in its order, all of it, and once. *)
Lemma emit_buffer_spec w : Forall (λ r, shown (w_st w) r = true) (the_buffer (w_st w)) →
  emit_buffer w = (World (MkConsole (name_filter (w_st w)) false []) (w_log w ++ map (console_text (w_clock w)) (the_buffer (w_st w))) (w_clock w), Ok ()).
Proof.
  intros Hl. unfold emit_buffer. erewrite bind_ok by done. erewrite bind_ok by done. erewrite bind_ok by by apply emit_each. by erewrite bind_ok by done.
Qed.
End console.
