(* ===== verification/Shlex.v ===== *)
(** * Command lines as texts

    The two functions of Python's [shlex] the scheduler uses, in POSIX mode:
    [shlex.split] without comments, and [shlex.join]. *)

From Stdlib Require Import ZArith Lia.
From S2P Require Import Prelude PyStr.

Definition BACKSLASH : ascii := "092"%char.
Definition QUOTE : ascii := "039"%char.
Definition DQUOTE : ascii := "034"%char.

Definition is_blank (a : ascii) : bool := existsb (Ascii.eqb a) [" "; "009"; "013"; "010"]%char.
Definition is_quote (a : ascii) : bool := Ascii.eqb a QUOTE || Ascii.eqb a DQUOTE.

(** Where the reader is: between words, in one, within a quote, or after a
    backslash that was read in a word or within a quote. *)
Inductive mode := Blank | Word | Quoted (q : ascii) | Escaped (q : option ascii).

Definition emit (token : list ascii) (quoted : bool) (words : list (list ascii)) : list (list ascii) :=
  match token, quoted with [], false => words | _, _ => token :: words end.

(** [read_token] over the rest of the text; tokens and words are kept
    reversed. *)
Fixpoint read (m : mode) (token : list ascii) (quoted : bool) (words : list (list ascii)) (l : list ascii) : res (list (list ascii)) :=
  match l with
  | [] =>
      match m with
      | Quoted _ => Err (raise_exn ValueError "No closing quotation")
      | Escaped _ => Err (raise_exn ValueError "No escaped character")
      | Blank | Word => Ok (emit token quoted words)
      end
  | c :: l =>
      match m with
      | Blank | Word =>
          if is_blank c then read Blank [] false (emit token quoted words) l
          else if is_quote c then read (Quoted c) token quoted words l
          else if Ascii.eqb c BACKSLASH then read (Escaped None) token quoted words l
          else read Word (c :: token) quoted words l
      | Quoted q =>
          if Ascii.eqb c q then read Word token true words l
          else if Ascii.eqb c BACKSLASH && Ascii.eqb q DQUOTE then read (Escaped (Some q)) token true words l
          else read (Quoted q) (c :: token) true words l
      | Escaped q =>
          match q with
          | Some q =>
              read (Quoted q) (c :: if Ascii.eqb c BACKSLASH || Ascii.eqb c q then token else BACKSLASH :: token) quoted words l
          | None => read Word (c :: token) quoted words l
          end
      end
  end.

(** [shlex.split(s)] *)
Definition shlex_split (s : string) : res (list string) :=
  words ← read Blank [] false [] (chars s);
  Ok (rev (map (λ w, of_chars (rev w)) words)).

Definition is_safe (a : ascii) : bool := is_alnum a || existsb (Ascii.eqb a) (chars "_@%+=:,./-").

(** [shlex.quote(s)] *)
Definition shlex_quote (s : string) : string :=
  if String.eqb s "" then "''"
  else if all_chars is_safe s then s
  else SQ +:+ replace_char QUOTE (SQ +:+ DQ +:+ SQ +:+ DQ +:+ SQ) s +:+ SQ.

(** [shlex.join(words)] *)
Definition shlex_join (words : list string) : string := join " " (map shlex_quote words).

(** ** Joining and splitting *)
Lemma read_safe l token quoted words rest m :
  forallb is_safe l = true → l ≠ [] → (m = Blank ∨ m = Word) →
  read m token quoted words (l ++ rest) = read Word (rev l ++ token) quoted words rest.
Proof.
  revert token m. induction l as [|c l IH]; intros token m Hs Hne Hm; [done|].
  simpl in Hs. apply andb_true_iff in Hs as [Hc Hs].
  assert (Hstep : read m token quoted words ((c :: l) ++ rest) = read Word (c :: token) quoted words (l ++ rest)).
  { assert (Hp : is_blank c = false ∧ is_quote c = false ∧ Ascii.eqb c BACKSLASH = false).
    { revert Hc. clear. destruct c as [[] [] [] [] [] [] [] []]; try done. }
    destruct Hp as (H1 & H2 & H3). destruct Hm as [-> | ->]; simpl; by rewrite H1, H2, H3. }
  rewrite Hstep. destruct l as [|c' l]; [done|].
  rewrite (IH (c :: token) Word Hs) by (done || by right). simpl. by rewrite <- !app_assoc.
Qed.

(** Within single quotes everything but the quote stands for itself. *)
Lemma read_single l token words rest :
  forallb (λ a, negb (Ascii.eqb a QUOTE)) l = true →
  read (Quoted QUOTE) token true words (l ++ rest) = read (Quoted QUOTE) (rev l ++ token) true words rest.
Proof.
  revert token. induction l as [|c l IH]; intros token Hl; [done|]. simpl in Hl. apply andb_true_iff in Hl as [Hc Hl].
  apply negb_true_iff in Hc. cbn [app read]. rewrite Hc. rewrite andb_false_r. rewrite (IH (c :: token) Hl). simpl. by rewrite <- app_assoc.
Qed.

Definition quote_body (l : list ascii) : list ascii := flat_map (λ x, if Ascii.eqb x QUOTE then [QUOTE; DQUOTE; QUOTE; DQUOTE; QUOTE] else [x]) l.

Lemma read_quoted l token words rest :
  read (Quoted QUOTE) token true words (quote_body l ++ rest) = read (Quoted QUOTE) (rev l ++ token) true words rest.
Proof.
  revert token. induction l as [|c l IH]; intros token; [done|]. cbn [quote_body flat_map]. fold (quote_body l).
  rewrite <- app_assoc. destruct (Ascii.eqb_spec c QUOTE) as [->|Hc].
  - transitivity (read (Quoted QUOTE) (QUOTE :: token) true words (quote_body l ++ rest)); [reflexivity|]. rewrite IH. simpl.
    by rewrite <- app_assoc.
  - rewrite (read_single [c]) by (simpl; destruct (Ascii.eqb_spec c QUOTE); [done|done]). rewrite IH. simpl. by rewrite <- app_assoc.
Qed.

Lemma chars_quote s :
  String.eqb s "" = false → all_chars is_safe s = false → chars (shlex_quote s) = [QUOTE] ++ quote_body (chars s) ++ [QUOTE].
Proof.
  intros He Hs. unfold shlex_quote. rewrite He, Hs. rewrite !chars_app. unfold replace_char. by rewrite chars_of_chars.
Qed.

(** One quoted word is read back, up to what follows it. *)
Lemma read_word s words rest :
  ∃ quoted, read Blank [] false words (chars (shlex_quote s) ++ rest) = read Word (rev (chars s)) quoted words rest
            ∧ emit (rev (chars s)) quoted words = rev (chars s) :: words.
Proof.
  destruct (String.eqb_spec s "") as [->|Hne]; [by exists true|].
  assert (Hc : rev (chars s) ≠ []).
  { intros H. apply (f_equal (@rev ascii)) in H. rewrite rev_involutive in H. destruct s; done. }
  destruct (all_chars is_safe s) eqn:Hs.
  - exists false. unfold shlex_quote. rewrite (proj2 (String.eqb_neq _ _) Hne), Hs. split.
    + rewrite read_safe; [by rewrite app_nil_r|done| |by left]. intros H. by rewrite H in Hc.
    + by destruct (rev (chars s)).
  - exists true. rewrite chars_quote by (done || by apply String.eqb_neq). split.
    + rewrite <- !app_assoc. change (read Blank [] false words ([QUOTE] ++ quote_body (chars s) ++ [QUOTE] ++ rest))
        with (read (Quoted QUOTE) [] false words (quote_body (chars s) ++ [QUOTE] ++ rest)).
      assert (Hq : ∀ l tail, l ≠ [] → read (Quoted QUOTE) [] false words (quote_body l ++ QUOTE :: tail) = read (Quoted QUOTE) [] true words (quote_body l ++ QUOTE :: tail)).
      { intros l tail Hl. destruct l as [|c l]; [done|]. cbn [quote_body flat_map]. destruct (Ascii.eqb c QUOTE) eqn:E; [done|].
        cbn [app read]. rewrite E. by rewrite andb_false_r. }
      simpl ([QUOTE] ++ rest). rewrite Hq by (intros H; rewrite H in Hc; done).
      rewrite read_quoted. rewrite app_nil_r. reflexivity.
    + by destruct (rev (chars s)).
Qed.

(** What was joined splits into the same words. *)
Lemma split_join_words words : shlex_split (shlex_join words) = Ok words.
Proof.
  unfold shlex_split, shlex_join.
  assert (H : ∀ words acc, words ≠ [] →
    read Blank [] false acc (chars (join " " (map shlex_quote words))) = Ok (rev (map (λ s, rev (chars s)) words) ++ acc)).
  { induction words0 as [|s words0 IH]; intros acc Hne; [done|]. destruct words0 as [|s' words0].
    - cbn [map]. change (join " " [shlex_quote s]) with (shlex_quote s). rewrite <- (app_nil_r (chars (shlex_quote s))).
      destruct (read_word s acc []) as (quoted & -> & He). cbn [read]. by rewrite He.
    - change (join " " (map shlex_quote (s :: s' :: words0))) with (shlex_quote s +:+ String " "%char (join " " (map shlex_quote (s' :: words0)))).
      rewrite chars_app. change (chars (String " "%char ?x)) with (" "%char :: chars x).
      destruct (read_word s acc (" "%char :: chars (join " " (map shlex_quote (s' :: words0))))) as (quoted & -> & He).
      cbn [read]. change (is_blank " "%char) with true. cbn match. rewrite He. rewrite IH by done.
      cbn [map rev]. by rewrite <- !app_assoc. }
  destruct words as [|s words]; [done|]. rewrite H by done. cbn [mbind res_bind]. f_equal.
  rewrite app_nil_r, map_rev, rev_involutive, map_map. rewrite <- (map_id (s :: words)) at 2. apply map_ext.
  intros x. by rewrite rev_involutive, of_chars_chars.
Qed.
