(* ===== verification/Cron.v ===== *)
(** * Scheduled commands

    [cron/schedule.py] and [cron/commands.py]: which jobs are configured,
    which are due at a minute, and what [run] makes of them. Times are
    seconds: an instant, or the wall clock of a zone with its [fold], which
    two datetimes of one zone are compared without and datetime arithmetic
    drops. The zone database ([zone_info], [astimezone]) and cronsim are
    parameters; [cronsim_laws] is what cronsim documents where the wall clock
    runs evenly. *)

From Stdlib Require Import ZArith Lia.
From S2P Require Import Prelude PyStr Json MigTracker Shlex.

Definition cron_error (msg : string) : exn := raise_exn CronError msg.

Definition _DEFAULTS : list (string * json) := [("db", JStr "main"); ("timezone", JStr "UTC"); ("jobs", JObj [])].
Definition _JOB_KEYS : list string := ["schedule"; "command"; "timeout"; "timezone"].

Section cron.
Context (zone : Type) (zone_info : string → option zone) (astimezone : zone → Z → Z * bool).
Context (cronsim : string → res ()) (cronsim_next : zone → string → Z * bool → res Z).

Record Job := MkJob { job_name : string; job_schedule : string; job_command : list string; job_timezone : zone; job_timeout : option Z }.

Definition minute : Z := 60.
Definition floor_minute (t : Z) : Z := t - t mod minute.

(** [job.is_due(at)]; [at] is an instant. *)
Definition is_due (job : Job) (at_ : Z) : res bool :=
  let local := floor_minute (astimezone (job_timezone job) at_).1 in
  next ← cronsim_next (job_timezone job) (job_schedule job) (local - minute, false);
  Ok (next =? local).

Definition next_run (job : Job) (after : Z) : res Z :=
  cronsim_next (job_timezone job) (job_schedule job) (astimezone (job_timezone job) after).

(** The wall clock of [z] runs evenly from [t] to [u]: neither is inside an
    hour that is left out, and no jump lies between them. *)
Definition steady (z : zone) (t u : Z) : Prop :=
  t <= u ∧ ∃ i, ∀ k, 0 <= k <= u - t → astimezone z (i + k) = (t + k, false).

(** The wall clock of [z] shows [t] at some time. *)
Definition shown (z : zone) (t : Z) : Prop := ∃ i, astimezone z i = (t, false).

Definition day : Z := 86400.
(** It gives up after fifty years. *)
Definition horizon : Z := 50 * 365 * day.

(** What cronsim promises for a text it accepts, where [cron_matches s u] is
    that the expression fires at the minute [u] of a wall clock. From a whole
    minute on, as far as the wall clock runs evenly, the next time is the
    first whole minute after the start at which it fires: nothing is said of
    what it makes of a clock that is put forward or back. It finds a time if
    there is one ahead; and the space around an expression does not count. *)
Record cronsim_laws (cron_matches : string → Z → Prop) : Prop := {
  next_matches z s t u : t mod minute = 0 → cronsim_next z s (t, false) = Ok u → steady z t u → cron_matches s u;
  next_first z s t v :
    t mod minute = 0 → is_ok (cronsim s) = true → cron_matches s v → v mod minute = 0 → t < v <= t + horizon → steady z t v →
    ∃ u, cronsim_next z s (t, false) = Ok u ∧ t < u <= v ∧ u mod minute = 0;
  next_found z s t v :
    t mod minute = 0 → is_ok (cronsim s) = true → cron_matches s v → v mod minute = 0 → t + day < v <= t + horizon → shown z v →
    ∃ u, cronsim_next z s (t, false) = Ok u;
  cronsim_strip s : is_ok (cronsim s) = true → is_ok (cronsim (strip s)) = true
}.

Definition settings (config : list (string * json)) : res (list (string * json)) :=
  given ← match dict_get "cron" config with
          | Some v => if truthy v then match v with JObj d => Ok d | _ => Err (raise_exn TypeError "object is not a mapping") end else Ok []
          | None => Ok []
          end;
  Ok (foldl (λ d kv, dict_set kv.1 kv.2 d) _DEFAULTS given).

(** [str(v)] inside an f-string, for the messages *)
Context (py_repr : json → string).

Definition _zone (name : json) (job : string) : res zone :=
  match name with
  | JStr s =>
      if String.eqb s "" then Err (cron_error ("Job " +:+ repr job +:+ ": timezone must be a non-empty string."))
      else match zone_info s with
           | Some z => Ok z
           | None => Err (cron_error ("Job " +:+ repr job +:+ ": unknown timezone " +:+ repr s +:+ "."))
           end
  | _ => Err (cron_error ("Job " +:+ repr job +:+ ": timezone must be a non-empty string."))
  end.

Definition _timeout (name : string) (timeout : option json) : res (option Z) :=
  match timeout with
  | None | Some JNull => Ok None
  | Some (JInt n) =>
      if n <? 1 then Err (cron_error ("Job " +:+ repr name +:+ ": timeout must be a positive number of seconds.")) else Ok (Some n)
  | Some _ => Err (cron_error ("Job " +:+ repr name +:+ ": timeout must be a positive number of seconds."))
  end.

(** A text that is not blank. *)
Definition text_of (v : option json) : option string :=
  match v with Some (JStr s) => if String.eqb (strip s) "" then None else Some s | _ => None end.

Definition _job (name : string) (raw : json) (default_zone : json) : res Job :=
  match raw with
  | JObj d =>
      match sorted_names (List.filter (λ k, negb (existsb (String.eqb k) _JOB_KEYS)) d.*1) with
      | [] =>
          match text_of (dict_get "schedule" d) with
          | None => Err (cron_error ("Job " +:+ repr name +:+ ": schedule must be a cron expression string."))
          | Some schedule =>
              match text_of (dict_get "command" d) with
              | None => Err (cron_error ("Job " +:+ repr name +:+ ": command must be a non-empty string of app.py arguments."))
              | Some command =>
                  timeout ← _timeout name (dict_get "timeout" d);
                  zone ← _zone (match dict_get "timezone" d with Some v => v | None => default_zone end) name;
                  match cronsim schedule with
                  | Err e => Err (cron_error ("Job " +:+ repr name +:+ ": bad schedule " +:+ repr schedule +:+ ": " +:+ exn_msg e))
                  | Ok _ =>
                      words ← shlex_split command;
                      Ok (MkJob name (strip schedule) words zone timeout)
                  end
              end
          end
      | unknown => Err (cron_error ("Job " +:+ repr name +:+ ": unknown key(s) " +:+ join ", " unknown +:+ "."))
      end
  | _ => Err (cron_error ("Job " +:+ repr name +:+ ": expected a dict with schedule and command."))
  end.

Fixpoint jobs_of (jobs : list (string * json)) (default_zone : json) : res (list Job) :=
  match jobs with
  | [] => Ok []
  | (name, raw) :: jobs =>
      if String.eqb (strip name) "" then Err (cron_error "Every job needs a non-empty name.")
      else
        job ← _job name raw default_zone;
        rest ← jobs_of jobs default_zone;
        Ok (job :: rest)
  end.

Definition load_jobs (config : list (string * json)) : res (list Job) :=
  conf ← settings config;
  match dict_get "jobs" conf with
  | Some (JObj jobs) =>
      let default_zone := default JNull (dict_get "timezone" conf) in
      _ ← _zone default_zone "<default>";
      jobs_of jobs default_zone
  | _ => Err (cron_error (sq "config['cron']['jobs'] must be a dict of name -> job."))
  end.

Definition current_minute (now : Z) : Z := floor_minute now.

(** ** Commands *)

(** [--job NAME] means now. *)
Fixpoint due_jobs (jobs : list Job) (at_ : Z) : res (list Job) :=
  match jobs with
  | [] => Ok []
  | job :: jobs => due ← is_due job at_; rest ← due_jobs jobs at_; Ok (if (due : bool) then job :: rest else rest)
  end.

Definition select_due (jobs : list Job) (at_ : Z) (only : option string) : res (list Job) :=
  match only with
  | Some name => Ok (List.filter (λ job, String.eqb (job_name job) name) jobs)
  | None => due_jobs jobs at_
  end.

Inductive status := SOk | SFailed | STimeout | SSkipped.
#[export] Instance status_eq_dec : EqDecision status.
Proof. solve_decision. Defined.

(** The code [run] ends with, from the outcomes of the jobs. *)
Definition run_code (outcomes : list status) : Z :=
  if existsb (λ o, bool_decide (o = SFailed) || bool_decide (o = STimeout)) outcomes then 1 else 0.

(** [cmd_run]: [run] is the executor's run of all the jobs at once. *)
Definition cmd_run {S} (due : list Job) (run : list Job → prog S (list status)) (dry_run : bool) : prog S Z :=
  match due with
  | [] => mret 0
  | _ =>
      if dry_run then
        _ ← for_each due (λ job, out ("would run " +:+ job_name job +:+ ": " +:+ shlex_join (job_command job)));
        mret 0
      else outcomes ← run due; mret (run_code outcomes)
  end.

(** [cmd_list]; [strftime] writes a time. *)
Definition cmd_list {S} (strftime : zone → Z → string) (jobs : list Job) (now : Z) : prog S Z :=
  match jobs with
  | [] => _ ← out "No jobs configured."; mret 0
  | _ =>
      let width := foldr Z.max 0 (map (λ job, py_len (job_name job)) jobs) in
      _ ← out (ljust width "job" +:+ "  " +:+ ljust 16 "schedule" +:+ " " +:+ ljust 25 "next run" +:+ " command");
      _ ← for_each jobs (λ job,
            next ← lift_res (next_run job now);
            out (ljust width (job_name job) +:+ "  " +:+ ljust 16 (job_schedule job) +:+ " "
                 +:+ ljust 25 (strftime (job_timezone job) next) +:+ " " +:+ shlex_join (job_command job)));
      mret 0
  end.

(** ** What is promised *)
Lemma floor_mod t : floor_minute t mod minute = 0.
Proof.
  unfold floor_minute, minute. pose proof (Z.div_mod t 60 ltac:(lia)).
  replace (t - t mod 60) with (t / 60 * 60) by lia. by apply Z.mod_mul.
Qed.

(** The minute of a job's own wall clock. *)
Definition local_minute (job : Job) (at_ : Z) : Z := floor_minute (astimezone (job_timezone job) at_).1.

(** The wall clock of the job ran evenly up to its minute. *)
Definition even_minute (job : Job) (at_ : Z) : Prop :=
  steady (job_timezone job) (local_minute job at_ - minute) (local_minute job at_).

Lemma minute_before t : t mod minute = 0 → (t - minute) mod minute = 0.
Proof. unfold minute. intros H. replace (t - 60) with (t + (-1) * 60) by lia. by rewrite Z.mod_add. Qed.

Lemma is_due_spec cron_matches job at_ :
  cronsim_laws cron_matches → is_ok (cronsim (job_schedule job)) = true → even_minute job at_ →
  is_due job at_ = Ok true ↔ cron_matches (job_schedule job) (local_minute job at_).
Proof.
  intros Hl Hok Heven. unfold is_due, even_minute in *. fold (local_minute job at_). pose proof (floor_mod (astimezone (job_timezone job) at_).1) as Hm.
  fold (local_minute job at_) in Hm. revert Hm Heven. generalize (local_minute job at_). intros local Hm Heven.
  pose proof (minute_before _ Hm) as Hm'. split.
  - destruct (cronsim_next _ _ _) as [u|] eqn:E; [|done]. simpl. intros [= Hu]. apply Z.eqb_eq in Hu. subst u.
    by apply (next_matches _ Hl _ _ _ _ Hm' E).
  - intros Hmatch. destruct (next_first _ Hl (job_timezone job) (job_schedule job) (local - minute) local Hm' Hok Hmatch Hm) as (u & E & Hu & Hum);
      [unfold minute, horizon, day; lia|done|].
    rewrite E. simpl. f_equal. apply Z.eqb_eq. unfold minute in *.
    pose proof (Z.div_mod u 60 ltac:(lia)). pose proof (Z.div_mod local 60 ltac:(lia)). lia.
Qed.

Lemma timeout_positive name v n : _timeout name v = Ok (Some n) → 1 <= n.
Proof. destruct v as [[]|]; simpl; try done. destruct (Z.ltb_spec n0 1); [done|]. by intros [= <-]. Qed.

Lemma stripped_nonempty v s : text_of v = Some s → v = Some (JStr s) ∧ strip s ≠ "".
Proof. destruct v as [[]|]; simpl; try done. destruct (String.eqb_spec (strip s0) ""); [done|]. by intros [= <-]. Qed.
End cron.
