(* ===== verification/CronExecutor.v ===== *)
(** * Running due jobs

    [cron/execute.py]: any number of schedulers, one per tick, each running
    its due jobs at once, against one table of locks. The state is where each
    [_run_one] of each scheduler is; an [action] is one of its steps, the end
    of a child, or the end of a scheduler, in any order. A lock entry is a
    key and the scheduler that holds it. Forwarding a stop signal only makes
    children end sooner and is not an action of its own. *)

From Stdlib Require Import ZArith Lia Relations.
From S2P Require Import Prelude PyStr Json Cron.

(** ** Locks *)

(** [FileLock.path]: [sha256_hex] is [hashlib.sha256(...).hexdigest()]. *)
Definition safe_char (a : ascii) : bool := is_alnum a || existsb (Ascii.eqb a) (chars "_.-").

(** One underscore for each character that is not safe. *)
Definition safe_name (name : string) : string :=
  of_chars (flat_map (λ a, if safe_char a then [a] else if is_continuation a then [] else ["_"%char]) (chars name)).

Definition path (sha256_hex : list ascii → string) (database name : string) : string :=
  let safe := safe_name name in
  let safe := if String.eqb safe name then safe else safe +:+ "-" +:+ py_take 8 (sha256_hex (chars name)) in
  database +:+ ".cron-" +:+ safe +:+ ".lock".

(** The kinds of lock: the file a job name maps to, the database's advisory
    lock of its hash, or the name itself in this process. A session may take
    its own advisory lock again; the others refuse it. *)
Class JobLock (K : Type) := { lock_key : string → K; lock_again : bool; lock_eq :: EqDecision K }.

#[export] Instance FileLock (sha256_hex : list ascii → string) (database : string) : JobLock string :=
  {| lock_key := path sha256_hex database; lock_again := false |}.
#[export] Instance PgLock (hashtextextended : string → Z) : JobLock Z := {| lock_key := hashtextextended; lock_again := true |}.
Definition LocalLock : JobLock string := {| lock_key := λ name, name; lock_again := false |}.

(** ** The schedulers *)
Inductive phase :=
  | Queued              (* before the lock *)
  | Holding             (* with the lock, before the child *)
  | Running             (* waiting for the child *)
  | Killing             (* over its timeout, terminated *)
  | Ended (o : status)  (* the child is over, the lock is not released *)
  | Done (o : status)
  | Gone.               (* cancelled *)

Definition holds (p : phase) : bool := match p with Holding | Running | Killing | Ended _ => true | _ => false end.
Definition alive (p : phase) : bool := match p with Running | Killing => true | _ => false end.

Inductive action :=
  | Start (sid : nat) (jobs : list string)
  | Acquire (sid : nat) (name : string)
  | Spawn (sid : nat) (name : string) (started : bool)
  | Exit (sid : nat) (name : string) (code : Z)
  | Timeout_ (sid : nat) (name : string)
  | Killed (sid : nat) (name : string)
  | Release (sid : nat) (name : string)
  | Cancel (sid : nat) (name : string)
  | Crash (sid : nat).

Section executor.
Context {K : Type} `{JobLock K}.

Record cluster := Cluster { cl_runs : list ((nat * string) * phase); cl_locks : list (K * nat); cl_orphans : list string }.

(** [acquire]: no one else has the key, nor this scheduler unless its lock
    may be taken again. *)
Definition free (sid : nat) (name : string) (locks : list (K * nat)) : bool :=
  forallb (λ e, negb (bool_decide (e.1 = lock_key name)) || (lock_again && bool_decide (e.2 = sid))) locks.

(** [release]: one entry of the scheduler for the key. *)
Fixpoint unlock (k : K) (sid : nat) (locks : list (K * nat)) : list (K * nat) :=
  match locks with
  | [] => []
  | e :: locks => if bool_decide (e = (k, sid)) then locks else e :: unlock k sid locks
  end.

Definition move (sid : nat) (name : string) (p : phase) (locks : list (K * nat)) (orphans : list string) (s : cluster) : cluster :=
  Cluster (dict_set (sid, name) p (cl_runs s)) locks orphans.

Definition orphaned (name : string) (p : phase) (orphans : list string) : list string :=
  if alive p then name :: orphans else orphans.

(** One action; [None] when it cannot happen. *)
Definition step (a : action) (s : cluster) : option cluster :=
  let run sid name := dict_get (sid, name) (cl_runs s) in
  let to sid name p := Some (move sid name p (cl_locks s) (cl_orphans s) s) in
  match a with
  | Start sid jobs =>
      (* one scheduler per tick: its session is new, and a name is configured once *)
      if existsb (λ r, bool_decide (r.1.1 = sid)) (cl_runs s) || negb (bool_decide (NoDup jobs)) then None
      else Some (Cluster (cl_runs s ++ map (λ name, ((sid, name), Queued)) jobs) (cl_locks s) (cl_orphans s))
  | Acquire sid name =>
      match run sid name with
      | Some Queued =>
          if free sid name (cl_locks s) then Some (move sid name Holding ((lock_key name, sid) :: cl_locks s) (cl_orphans s) s)
          else to sid name (Done SSkipped)
      | _ => None
      end
  | Spawn sid name started =>
      match run sid name with Some Holding => to sid name (if started then Running else Ended SFailed) | _ => None end
  | Exit sid name code =>
      match run sid name with Some Running => to sid name (Ended (if code =? 0 then SOk else SFailed)) | _ => None end
  | Timeout_ sid name => match run sid name with Some Running => to sid name Killing | _ => None end
  | Killed sid name => match run sid name with Some Killing => to sid name (Ended STimeout) | _ => None end
  | Release sid name =>
      match run sid name with
      | Some (Ended o) => Some (move sid name (Done o) (unlock (lock_key name) sid (cl_locks s)) (cl_orphans s) s)
      | _ => None
      end
  | Cancel sid name =>
      match run sid name with
      | Some p =>
          if holds p
          then Some (move sid name Gone (unlock (lock_key name) sid (cl_locks s)) (orphaned name p (cl_orphans s)) s)
          else None
      | None => None
      end
  | Crash sid =>
      Some (Cluster (filter (λ r, r.1.1 ≠ sid) (cl_runs s)) (filter (λ e, e.2 ≠ sid) (cl_locks s))
              (foldr (λ r o, orphaned r.1.2 r.2 o) (cl_orphans s) (filter (λ r, r.1.1 = sid) (cl_runs s))))
  end.

Fixpoint steps (l : list action) (s : cluster) : option cluster :=
  match l with [] => Some s | a :: l => s' ← step a s; steps l s' end.

Definition nothing : cluster := Cluster [] [] [].

(** The runs that hold a lock, as lock entries. *)
Definition held (runs : list ((nat * string) * phase)) : list (K * nat) :=
  map (λ r, (lock_key r.1.2, r.1.1)) (filter (λ r, holds r.2 = true) runs).

(** What is always so: the lock table is exactly what the runs hold, a key is
    with one scheduler, and runs are told apart by scheduler and name. *)
Record sound (s : cluster) : Prop := {
  sound_runs : NoDup (cl_runs s).*1;
  sound_locks : cl_locks s ≡ₚ held (cl_runs s);
  sound_keys : ∀ k sid1 sid2, (k, sid1) ∈ cl_locks s → (k, sid2) ∈ cl_locks s → sid1 = sid2
}.

Lemma unlock_Permutation k sid locks : (k, sid) ∈ locks → locks ≡ₚ (k, sid) :: unlock k sid locks.
Proof.
  induction locks as [|e locks IH]; intros Hin; [by apply not_elem_of_nil in Hin|]. cbn [unlock].
  destruct (bool_decide _) eqn:E; [apply bool_decide_eq_true in E; by subst|]. apply bool_decide_eq_false in E.
  apply elem_of_cons in Hin as [Hin|Hin]; [congruence|]. rewrite (IH Hin) at 1. constructor.
Qed.

(** A run that changes its phase changes what is held by its own entry. *)
Lemma held_set runs sid name p p' :
  NoDup runs.*1 → dict_get (sid, name) runs = Some p →
  ∃ rest, held runs ≡ₚ (if holds p then [(lock_key name, sid)] else []) ++ rest
        ∧ held (dict_set (sid, name) p' runs) ≡ₚ (if holds p' then [(lock_key name, sid)] else []) ++ rest.
Proof.
  induction runs as [|[k q] runs IH]; intros Hnd Hget; [done|]. apply NoDup_cons in Hnd as [Hnew Hnd].
  cbn [dict_get] in Hget. cbn [dict_set]. unfold held in *. destruct (decide (k = (sid, name))) as [->|Hne].
  - injection Hget as ->. exists (map (λ r, (lock_key r.1.2, r.1.1)) (filter (λ r, holds r.2 = true) runs)).
    rewrite !filter_cons. cbn [snd]. destruct (holds p), (holds p'); repeat case_decide; try done.
  - destruct (IH Hnd Hget) as (rest & H1 & H2). rewrite !filter_cons. cbn [snd]. case_decide as Hq.
    + exists ((lock_key k.2, k.1) :: rest). cbn [map fst snd]. rewrite H1, H2. split; by rewrite Permutation_middle.
    + by exists rest.
Qed.

Lemma move_sound s sid name p p' locks orphans :
  sound s → dict_get (sid, name) (cl_runs s) = Some p →
  (holds p = holds p' → locks = cl_locks s) →
  (holds p = false → holds p' = true → locks = (lock_key name, sid) :: cl_locks s ∧ free sid name (cl_locks s) = true) →
  (holds p = true → holds p' = false → locks = unlock (lock_key name) sid (cl_locks s)) →
  sound (move sid name p' locks orphans s).
Proof.
  intros [Hnd Hlocks Hkeys] Hget Hsame Hnew Hgone. destruct (held_set _ _ _ _ p' Hnd Hget) as (rest & H1 & H2).
  assert (Hin : holds p = true → (lock_key name, sid) ∈ cl_locks s).
  { intros Hp. rewrite Hlocks, H1, Hp. apply elem_of_app. left. by apply list_elem_of_singleton. }
  assert (Hnd' : NoDup (dict_set (sid, name) p' (cl_runs s)).*1) by (by apply dict_set_NoDup).
  unfold move. destruct (holds p) eqn:Hp, (holds p') eqn:Hp'.
  - rewrite (Hsame eq_refl) in *. split; cbn [cl_runs cl_locks]; [done| |done]. rewrite Hlocks, H1. by rewrite H2.
  - rewrite (Hgone eq_refl eq_refl) in *. pose proof (unlock_Permutation _ _ _ (Hin eq_refl)) as Hu.
    split; cbn [cl_runs cl_locks]; [done| |].
    + rewrite H2. simpl in H1. apply (Permutation_cons_inv (a := (lock_key name, sid))).
      etrans; [symmetry; exact Hu|]. etrans; [exact Hlocks|exact H1].
    + intros k s1 s2 Ha Hb. apply (Hkeys k); rewrite Hu; by right.
  - destruct (Hnew eq_refl eq_refl) as [-> Hfree]. split; cbn [cl_runs cl_locks]; [done| |].
    + rewrite H2, Hlocks, H1. done.
    + assert (Hothers : ∀ s', (lock_key name, s') ∈ cl_locks s → s' = sid).
      { intros s' Hs'. unfold free in Hfree. rewrite forallb_forall in Hfree. apply list_elem_of_In in Hs'. specialize (Hfree _ Hs'). simpl in Hfree.
        rewrite bool_decide_true in Hfree by done. simpl in Hfree. apply andb_true_iff in Hfree as [_ Hs]. by apply bool_decide_eq_true in Hs. }
      intros k s1 s2 Ha Hb. apply elem_of_cons in Ha, Hb. destruct Ha as [Ha|Ha], Hb as [Hb|Hb].
      * congruence.
      * injection Ha as -> ->. symmetry. auto.
      * injection Hb as -> ->. auto.
      * by eapply Hkeys.
  - rewrite (Hsame eq_refl) in *. split; cbn [cl_runs cl_locks]; [done| |done]. rewrite Hlocks, H1. by rewrite H2.
Qed.

Lemma held_app runs1 runs2 : held (runs1 ++ runs2) = held runs1 ++ held runs2.
Proof. unfold held. by rewrite filter_app, map_app. Qed.

Lemma held_queued sid jobs : held (map (λ name, ((sid, name), Queued)) jobs) = [].
Proof. unfold held. rewrite filter_none; [done|]. intros r Hr. apply list_elem_of_fmap_1 in Hr as (name & -> & _). done. Qed.

Lemma held_others sid runs :
  held (filter (λ r : (nat * string) * phase, r.1.1 ≠ sid) runs) = filter (λ e : K * nat, e.2 ≠ sid) (held runs).
Proof.
  unfold held. induction runs as [|r runs IH]; [done|]. rewrite !filter_cons.
  destruct (decide (r.1.1 ≠ sid)) as [Hne|He].
  - rewrite filter_cons. destruct (decide (holds r.2 = true)); [|exact IH]. cbn [map]. rewrite filter_cons. cbn [snd].
    rewrite decide_True by done. by rewrite IH.
  - destruct (decide (holds r.2 = true)); [|exact IH]. cbn [map]. rewrite filter_cons. cbn [snd]. by rewrite decide_False.
Qed.

Lemma step_sound a s s' : step a s = Some s' → sound s → sound s'.
Proof.
  intros E Hs. pose proof Hs as [Hnd Hlocks Hkeys]. destruct a as [sid jobs|sid name|sid name started|sid name code|sid name|sid name|sid name|sid name|sid];
    cbn [step] in E; cbv zeta in E.
  - destruct (existsb _ _) eqn:Hfresh; [done|]. destruct (bool_decide (NoDup jobs)) eqn:Hj; [|done]. injection E as <-.
    apply bool_decide_eq_true in Hj. split; cbn [cl_runs cl_locks]; [|by rewrite held_app, held_queued, app_nil_r|done].
    rewrite fmap_app. apply NoDup_app. split; [done|]. split.
    + intros [i n] Hi Hq. apply list_elem_of_fmap_1 in Hi as (r & Hr & Hin). apply list_elem_of_fmap_1 in Hq as (r2 & Hr2 & Hq).
      apply list_elem_of_fmap_1 in Hq as (n' & -> & _). simpl in Hr2. injection Hr2 as -> ->.
      apply not_true_iff_false in Hfresh. apply Hfresh, existsb_exists. exists r. split; [by apply list_elem_of_In|]. by rewrite <- Hr, bool_decide_true.
    + assert (Hm : (map (λ name, ((sid, name), Queued)) jobs).*1 = (λ name, (sid, name)) <$> jobs) by (rewrite <- list_fmap_compose; done).
      rewrite Hm. apply NoDup_fmap_2; [|done]. intros x y. congruence.
  - destruct (dict_get (sid, name) (cl_runs s)) as [[]|] eqn:Hget; try done. destruct (free sid name (cl_locks s)) eqn:Hf; injection E as <-;
      (eapply move_sound; [exact Hs|exact Hget|..]; done).
  - destruct (dict_get (sid, name) (cl_runs s)) as [[]|] eqn:Hget; try done. injection E as <-.
    destruct started; (eapply move_sound; [exact Hs|exact Hget|..]; done).
  - destruct (dict_get (sid, name) (cl_runs s)) as [[]|] eqn:Hget; try done. injection E as <-. eapply move_sound; [exact Hs|exact Hget|..]; done.
  - destruct (dict_get (sid, name) (cl_runs s)) as [[]|] eqn:Hget; try done. injection E as <-. eapply move_sound; [exact Hs|exact Hget|..]; done.
  - destruct (dict_get (sid, name) (cl_runs s)) as [[]|] eqn:Hget; try done. injection E as <-. eapply move_sound; [exact Hs|exact Hget|..]; done.
  - destruct (dict_get (sid, name) (cl_runs s)) as [[]|] eqn:Hget; try done. injection E as <-. eapply move_sound; [exact Hs|exact Hget|..]; done.
  - destruct (dict_get (sid, name) (cl_runs s)) as [p|] eqn:Hget; [|done]. destruct (holds p) eqn:Hp; [|done]. injection E as <-.
    eapply move_sound; [exact Hs|exact Hget|..]; rewrite Hp; done.
  - injection E as <-. split; cbn [cl_runs cl_locks].
    + by apply (NoDup_fmap_filter fst).
    + rewrite held_others. by rewrite Hlocks.
    + intros k s1 s2 [_ H1]%list_elem_of_filter [_ H2]%list_elem_of_filter. by apply (Hkeys k).
Qed.

Lemma steps_sound l : ∀ s s', steps l s = Some s' → sound s → sound s'.
Proof.
  induction l as [|a l IH]; intros s s'; cbn [steps]; [by intros [= <-]|]. destruct (step a s) as [s1|] eqn:E; [|done].
  simpl. intros Hl Hs. eapply IH; [exact Hl|]. by eapply step_sound.
Qed.

Lemma nothing_sound : sound nothing.
Proof. split; [constructor|done|]. by intros k s1 s2 Hk%not_elem_of_nil. Qed.
End executor.
