(* ===== verification/CronService.v ===== *)
(** * The cron service

    [cron/_service.py] and the loop of [cron/commands.py]: the exit code of
    each command. The executor and its connection, processes, the event that
    stops the worker and the wait for the next minute are parameters; signal
    handlers and log lines below the terminal are not modelled. *)

From Stdlib Require Import ZArith Lia.
From S2P Require Import Prelude PyStr Json MigTracker MigService Shlex Cron.

Record cron_args := CronArgs { ca_step : string; ca_job : option string; ca_dry_run : bool; ca_v : option string }.

(** [app_argv] *)
Definition app_argv (executable script : string) (args : cron_args) : list string :=
  [executable; script; "-v"; match ca_v args with Some v => if String.eqb v "" then "info" else v | None => "info" end].

(** [launch] of [_executor] *)
Definition launch {zone} (base : list string) (job : Job zone) : list string := base ++ job_command zone job.

Section work.
Context {S P : Type} (stop_is_set : prog S bool) (wait_for_minute : prog S ()) (start_tick : prog S P).
Context (running : P → prog S bool) (terminate wait : P → prog S ()).

(** The ticks that are still running. *)
Fixpoint still_running (ticks : list P) : prog S (list P) :=
  match ticks with
  | [] => mret []
  | proc :: ticks =>
      live ← running proc;
      rest ← still_running ticks;
      mret (if (live : bool) then proc :: rest else rest)
  end.

Definition end_work (ticks : list P) : prog S Z :=
  _ ← for_each ticks (λ proc, live ← running proc; if (live : bool) then terminate proc else mret ());
  _ ← for_each ticks wait;
  mret 0.

(** [cmd_work]; [None] while it goes on. *)
Fixpoint cmd_work (fuel : nat) (ticks : list P) : prog S (option Z) :=
  match fuel with
  | O => mret None
  | Datatypes.S fuel =>
      stop ← stop_is_set;
      if (stop : bool) then code ← end_work ticks; mret (Some code)
      else
        _ ← wait_for_minute;
        stop ← stop_is_set;
        if (stop : bool) then code ← end_work ticks; mret (Some code)
        else
          proc ← try_except (p ← start_tick; mret (Some p)) (is_class OSError)
                   (λ e, _ ← out ("cron: could not start a tick: " +:+ exn_msg e); mret None);
          match proc with
          | None => mret (Some 1)
          | Some p => ticks ← still_running (ticks ++ [p]); cmd_work fuel ticks
          end
  end.

(** Once the event is set, or no tick can be started, the worker ends, with
    code 0 and 1. *)
Lemma work_stops fuel ticks w w1 : stop_is_set w = (w1, Ok true) →
  cmd_work (Datatypes.S fuel) ticks w = (code ← end_work ticks; mret (Some code)) w1.
Proof. intros E. cbn [cmd_work]. by erewrite bind_ok by exact E. Qed.
End work.

Section service.
Context {zone S : Type} (zone_info : string → option zone) (astimezone : zone → Z → Z * bool).
Context (cronsim : string → res ()) (cronsim_next : zone → string → Z * bool → res Z) (strftime : zone → Z → string).
Context (py_repr : json → string) (work : prog S Z) (connected : db_entry → prog S Z → prog S Z) (run : list (Job zone) → prog S (list status)).

Abbreviation load_jobs := (load_jobs zone zone_info cronsim).
Abbreviation select_due := (select_due zone astimezone cronsim_next).

(** [_db_config]: the entry, once its driver is known. *)
Definition _db_config (conf : list (string * json)) (db : list (string * db_entry)) : prog S db_entry :=
  let name := default JNull (dict_get "db" conf) in
  let found := match name with JStr s => dict_get s db | _ => None end in
  match name with
  | JList _ | JObj _ => raise (raise_exn TypeError "unhashable type")
  | _ =>
      match found with
      | None =>
          _ ← out ("error: no database " +:+ py_repr name +:+ sq " in config['db']; configured are: "
                   +:+ (let names := join ", " (sorted_names db.*1) in if String.eqb names "" then "none" else names) +:+ ".");
          raise (system_exit 2)
      | Some e =>
          match db_driver e with
          | Ok _ => mret e
          | Err x => _ ← out ("error: " +:+ exn_msg x); raise (system_exit 2)
          end
      end
  end.

Definition cron_body (args : cron_args) (config : list (string * json)) (db : list (string * db_entry)) : prog S Z :=
  conf ← lift_res (settings config);
  jobs ← lift_res (load_jobs config);
  now ← now_utc;
  if String.eqb (ca_step args) "list" then cmd_list zone astimezone cronsim_next strftime jobs now
  else if String.eqb (ca_step args) "work" then work
  else if negb (String.eqb (ca_step args) "run") then
    _ ← out ("error: unknown cron command " +:+ repr (ca_step args)); raise (system_exit 1)
  else
    due ← lift_res (select_due jobs (current_minute now) (ca_job args));
    match ca_job args, due with
    | Some job, [] =>
        let names := join ", " (map (job_name zone) jobs) in
        _ ← out ("error: no job " +:+ repr job +:+ "; configured are: " +:+ (if String.eqb names "" then "none" else names) +:+ ".");
        raise (system_exit 2)
    | _, _ =>
        if ca_dry_run args || match due with [] => true | _ => false end then cmd_run zone due run true
        else e ← _db_config conf db; connected e (cmd_run zone due run false)
    end.

(** [init_service] always ends the process. *)
Definition init_service (args : cron_args) (config : list (string * json)) (db : list (string * db_entry)) : prog S () :=
  code ← try_except (cron_body args config db) (λ e, negb (is_class SystemExit e))
    (λ e,
      if is_class CronError e then _ ← out ("error: " +:+ exn_msg e); raise (system_exit 2)
      else raise (system_exit 1));
  raise (system_exit code).

(** A tick whose configuration or jobs cannot be read does not look like a
    quiet minute: the process ends with the code of the command when there is
    one, with 2 for an error of the configuration and with 1 for any other. *)
Lemma init_service_code args config db w :
  (init_service args config db w).2
  = match (cron_body args config db w).2 with
    | Ok code => Err (system_exit code)
    | Err e => if is_class SystemExit e then Err e else Err (system_exit (if is_class CronError e then 2 else 1))
    end.
Proof.
  unfold init_service, mbind, prog_bind, try_except. destruct (cron_body args config db w) as [w1 [code|e]]; [done|]. cbn.
  destruct (is_class SystemExit e); [done|]. cbn. by destruct (is_class CronError e).
Qed.

(** A dry run starts nothing: it does not depend on how jobs are run. *)
Lemma dry_run_starts_nothing args config db w : ca_step args = "run" → ca_dry_run args = true → ∀ jobs due conf,
  settings config = Ok conf → load_jobs config = Ok jobs → select_due jobs (current_minute (w_clock w)) (ca_job args) = Ok due → due ≠ [] →
  cron_body args config db w = cmd_run zone due (λ _, raise (raise_exn OSError "nothing may be started")) true w.
Proof.
  intros Hs Hd jobs due conf Hc Hj Hdue Hne. unfold cron_body. rewrite Hc, Hj. erewrite bind_ok by done. erewrite bind_ok by done.
  erewrite bind_ok by done. rewrite Hs. cbn match. simpl. rewrite Hdue. erewrite bind_ok by done. rewrite Hd.
  destruct due as [|job due]; [done|]. by destruct (ca_job args).
Qed.
End service.
