(* ===== verification/CronClaims.v ===== *)
(** * What scheduled jobs promise

    Which jobs are due, how runs of one job exclude one another, and what the
    code of [run] means. *)

From Stdlib Require Import ZArith Lia Relations.
From S2P Require Import Prelude PyStr Json MigTracker Shlex Cron CronExecutor.

(** ** Jobs and their minutes *)
Section due.
Context (zone : Type) (zone_info : string → option zone) (astimezone : zone → Z → Z * bool).
Context (cronsim : string → res ()) (cronsim_next : zone → string → Z * bool → res Z).
Abbreviation Job := (Job zone).
Abbreviation load_jobs := (load_jobs zone zone_info cronsim).
Abbreviation due_jobs := (due_jobs zone astimezone cronsim_next).

(** A job as it may be declared. *)
Record declared (job : Job) : Prop := {
  declared_name : strip (job_name _ job) ≠ "";
  declared_schedule : is_ok (cronsim (job_schedule _ job)) = true;
  declared_timeout n : job_timeout _ job = Some n → 1 <= n;
  declared_zone : ∃ name, zone_info name = Some (job_timezone _ job)
}.

Lemma zone_known name what z : _zone zone zone_info name what = Ok z → ∃ s, zone_info s = Some z.
Proof.
  destruct name; simpl; try done. destruct (String.eqb s ""); [done|]. destruct (zone_info s) eqn:E; [|done].
  intros [= <-]. by exists s.
Qed.

Lemma job_declared matches name raw default_zone job :
  cronsim_laws zone astimezone cronsim cronsim_next matches → strip name ≠ "" →
  _job zone zone_info cronsim name raw default_zone = Ok job → job_name _ job = name ∧ declared job.
Proof.
  intros Hl Hname E. unfold _job in E. destruct raw as [| | | | | |d|]; try done. destruct (sorted_names _); [|done].
  destruct (text_of (dict_get "schedule" d)) as [schedule|]; [|done].
  destruct (text_of (dict_get "command" d)) as [command|]; [|done].
  destruct (_timeout name (dict_get "timeout" d)) as [timeout|] eqn:Et; [|done]. cbn [mbind res_bind] in E.
  destruct (_zone _ _ _ _) as [z|] eqn:Ez; [|done]. cbn [mbind res_bind] in E.
  destruct (cronsim schedule) as [[]|] eqn:Ec; [|done]. destruct (shlex_split command); [|done]. injection E as <-.
  split; [done|]. split; cbn [job_name job_schedule job_timeout job_timezone]; [done| | |by eapply zone_known].
  - apply (cronsim_strip _ _ _ _ _ Hl). by rewrite Ec.
  - intros n ->. by eapply timeout_positive.
Qed.

Lemma jobs_declared matches default_zone : cronsim_laws zone astimezone cronsim cronsim_next matches → ∀ raws jobs,
  jobs_of zone zone_info cronsim raws default_zone = Ok jobs → map (job_name zone) jobs = raws.*1 ∧ Forall declared jobs.
Proof.
  intros Hl. induction raws as [|[name raw] raws IH]; intros jobs E; cbn [jobs_of] in E; [by injection E as <-|].
  destruct (String.eqb_spec (strip name) ""); [done|]. destruct (_job _ _ _ _ _ _) as [job|] eqn:Ej; [|done].
  cbn [mbind res_bind] in E. destruct (jobs_of _ _ _ _ _) as [rest|]; [|done]. injection E as <-.
  destruct (IH rest eq_refl) as [Hn Hd]. destruct (job_declared _ _ _ _ _ Hl n Ej) as [Hname Hjob].
  split; [cbn [map]; by rewrite Hn, Hname|by constructor].
Qed.

(** The schedule of a job fires at its own minute. *)
Definition fires (matches : string → Z → Prop) (job : Job) (at_ : Z) : Prop :=
  matches (job_schedule _ job) (local_minute zone astimezone job at_).

Lemma due_jobs_spec matches at_ : cronsim_laws zone astimezone cronsim cronsim_next matches → ∀ jobs due,
  Forall declared jobs → due_jobs jobs at_ = Ok due →
  due `sublist_of` jobs
  ∧ (∀ job, even_minute zone astimezone job at_ → job ∈ due ↔ job ∈ jobs ∧ fires matches job at_).
Proof.
  intros Hl. induction jobs as [|job jobs IH]; intros due Hd E; cbn [Cron.due_jobs] in E.
  { injection E as <-. split; [done|]. intros job _. by rewrite elem_of_nil; split; [|intros []]. }
  inversion Hd as [|? ? Hjob Hrest]; subst. destruct (is_due _ _ _ job at_) as [b|] eqn:Eb; [|done]. cbn [mbind res_bind] in E.
  destruct (Cron.due_jobs _ _ _ jobs at_) as [rest|]; [|done]. injection E as <-. destruct (IH rest Hrest eq_refl) as [Hs He]. split.
  { destruct b; by constructor. }
  intros x Hx.
  assert (Hb : x = job → b = true ↔ fires matches x at_).
  { intros ->. rewrite <- (is_due_spec zone astimezone cronsim cronsim_next matches job at_ Hl (declared_schedule _ Hjob) Hx), Eb. naive_solver. }
  destruct b; [rewrite !elem_of_cons|rewrite elem_of_cons]; rewrite (He x Hx); naive_solver.
Qed.

(** The schedule of a job still has a minute to fire, within what cronsim
    looks at. *)
Definition has_future (matches : string → Z → Prop) (job : Job) (at_ : Z) : Prop :=
  ∃ v, matches (job_schedule _ job) v ∧ v mod minute = 0 ∧ shown zone astimezone (job_timezone _ job) v
    ∧ local_minute zone astimezone job at_ + day <= v < local_minute zone astimezone job at_ + horizon.

Lemma due_jobs_found matches at_ : cronsim_laws zone astimezone cronsim cronsim_next matches → ∀ jobs, Forall declared jobs →
  Forall (λ job, has_future matches job at_) jobs → ∃ due, due_jobs jobs at_ = Ok due.
Proof.
  intros Hl. induction jobs as [|job jobs IH]; intros Hd Hv; [by exists []|].
  apply Forall_cons in Hd as [Hjob Hrest]. apply Forall_cons in Hv as [(v & Hm & H0 & Hs & Hle) Hv].
  destruct IH as [due E]; [done..|].
  cbn [Cron.due_jobs]. unfold is_due. pose proof (floor_mod (astimezone (job_timezone _ job) at_).1) as Hmod. fold (local_minute zone astimezone job at_) in *.
  destruct (next_found _ _ _ _ _ Hl (job_timezone _ job) (job_schedule _ job) (local_minute zone astimezone job at_ - minute) v
    (minute_before _ Hmod) (declared_schedule _ Hjob) Hm H0) as [u Eu]; [|exact Hs|rewrite Eu; cbn [mbind res_bind]; rewrite E; by eexists].
  unfold minute, day in *. pose proof (Z.div_mod v 60 ltac:(lia)).
  pose proof (Z.div_mod (local_minute zone astimezone job at_) 60 ltac:(lia)). unfold horizon, day in *. lia.
Qed.

(** C29: Jobs that load are the configured ones, each with a name, a schedule
    cronsim accepts, a known zone and, if any, a timeout of at least a second;
    and the ones picked as due at an instant are, in order, jobs among them:
    exactly those whose schedule fires at the current minute of their own
    zone, if the wall clock of that zone ran evenly up to that minute - in
    every minute, that is, but the first one after the clock was put forward,
    and the first one after an hour that was repeated.
    They are picked without an error as long as each still has a minute to
    fire within fifty years. *)
Theorem due_exact matches config jobs at_ :
  cronsim_laws zone astimezone cronsim cronsim_next matches → load_jobs config = Ok jobs →
  (∃ conf raws, settings config = Ok conf ∧ dict_get "jobs" conf = Some (JObj raws) ∧ map (job_name zone) jobs = raws.*1)
  ∧ Forall declared jobs
  ∧ (∀ due, select_due zone astimezone cronsim_next jobs at_ None = Ok due →
       due `sublist_of` jobs
       ∧ ∀ job, even_minute zone astimezone job at_ → job ∈ due ↔ job ∈ jobs ∧ fires matches job at_)
  ∧ (Forall (λ job, has_future matches job at_) jobs → ∃ due, select_due zone astimezone cronsim_next jobs at_ None = Ok due).
Proof.
  intros Hl E. unfold Cron.load_jobs in E. destruct (settings config) as [conf|] eqn:Es; [|done]. cbn [mbind res_bind] in E.
  destruct (dict_get "jobs" conf) as [[| | | | | |raws|]|] eqn:Ej; try done. destruct (_zone _ _ _ _); [|done]. cbn [mbind res_bind] in E.
  destruct (jobs_declared _ _ Hl _ _ E) as [Hn Hd]. split; [by exists conf, raws|]. split; [done|]. cbn [select_due]. split.
  - intros due. by apply due_jobs_spec.
  - by apply due_jobs_found.
Qed.
End due.

(** ** Schedulers and their locks *)
Section locks.
Context {K : Type} `{JobLock K}.
Implicit Types (s : cluster (K := K)).

Lemma elem_of_held k sid (runs : list ((nat * string) * phase)) :
  (k, sid) ∈ held runs ↔ ∃ name p, ((sid, name), p) ∈ runs ∧ holds p = true ∧ lock_key name = k.
Proof.
  unfold held. split.
  - intros ([[i n] p] & [= -> ->] & Hin)%list_elem_of_fmap_1. apply list_elem_of_filter in Hin as [Hp Hin]. by exists n, p.
  - intros (name & p & Hin & Hp & <-). apply list_elem_of_fmap. exists ((sid, name), p). split; [done|]. by apply list_elem_of_filter.
Qed.

(** A lock is with one scheduler. *)
Lemma held_once s sid1 sid2 n1 n2 p1 p2 :
  sound s → dict_get (sid1, n1) (cl_runs s) = Some p1 → dict_get (sid2, n2) (cl_runs s) = Some p2 →
  holds p1 = true → holds p2 = true → lock_key n1 = lock_key n2 → sid1 = sid2.
Proof.
  intros [_ Hl Hk] G1 G2 H1 H2 He. apply dict_get_Some_elem in G1, G2. apply (Hk (lock_key n1)); rewrite Hl; apply elem_of_held; eauto.
Qed.

Lemma forallb_false {A} (f : A → bool) l : forallb f l = false → ∃ x, x ∈ l ∧ f x = false.
Proof.
  induction l as [|x l IH]; [done|]. cbn [forallb]. destruct (f x) eqn:E; [|by exists x; split; [left|]].
  intros (y & Hy & Ey)%IH. exists y. split; [by right|done].
Qed.

(** What makes a lock refused is a run that has it. *)
Lemma refused_held s sid name : sound s → free sid name (cl_locks s) = false →
  ∃ sid' name' p, dict_get (sid', name') (cl_runs s) = Some p ∧ holds p = true ∧ lock_key name' = lock_key name
                ∧ (sid' = sid → lock_again = false).
Proof.
  intros [Hnd Hl _] Hf. unfold free in Hf. destruct (forallb_false _ _ Hf) as ([k sid'] & Hin & Hb).
  apply orb_false_iff in Hb as [H1 H2]. cbn [fst snd] in *. apply negb_false_iff, bool_decide_eq_true in H1. subst k.
  rewrite Hl in Hin. apply elem_of_held in Hin as (name' & p & Hin & Hp & Hk).
  exists sid', name', p. split; [by apply elem_dict_get|]. split; [done|]. split; [done|]. intros ->.
  apply andb_false_iff in H2 as [|H2]; [done|]. by apply bool_decide_eq_false in H2.
Qed.

(** The action that takes an unfinished run on. *)
Definition onward (sid : nat) (name : string) (p : phase) : option action :=
  match p with
  | Queued => Some (Acquire sid name)
  | Holding => Some (Spawn sid name true)
  | Running => Some (Exit sid name 0)
  | Killing => Some (Killed sid name)
  | Ended _ => Some (Release sid name)
  | Done _ | Gone => None
  end.

Lemma onward_possible s sid name p a :
  dict_get (sid, name) (cl_runs s) = Some p → onward sid name p = Some a → is_Some (step a s).
Proof.
  intros G E. destruct p; simpl in E; simplify_eq; cbn [step]; cbv zeta; rewrite G; try by eexists.
  destruct (free _ _ _); by eexists.
Qed.

(** Without a cancelled or dying scheduler no child is left alone. *)
Definition orderly (a : action) : bool := match a with Cancel _ _ | Crash _ => false | _ => true end.

Lemma step_orphans a s s' : step a s = Some s' → orderly a = true → cl_orphans s' = cl_orphans s.
Proof.
  destruct a as [sid jobs|sid name|sid name started|sid name code|sid name|sid name|sid name|sid name|sid]; cbn [step]; cbv zeta; intros E Ho; try done.
  - destruct (_ || _); by simplify_eq.
  - destruct (dict_get _ _) as [[]|]; try done. destruct (free _ _ _); by simplify_eq.
  - destruct (dict_get _ _) as [[]|]; try done. by simplify_eq.
  - destruct (dict_get _ _) as [[]|]; try done. by simplify_eq.
  - destruct (dict_get _ _) as [[]|]; try done. by simplify_eq.
  - destruct (dict_get _ _) as [[]|]; try done. by simplify_eq.
  - destruct (dict_get _ _) as [[]|]; try done. by simplify_eq.
Qed.

Lemma steps_orphans l : ∀ s s', steps l s = Some s' → forallb orderly l = true → cl_orphans s' = cl_orphans s.
Proof.
  induction l as [|a l IH]; intros s s'; cbn [steps forallb]; [by intros [= <-]|]. destruct (step a s) as [s1|] eqn:E; [|done].
  simpl. intros Hl [Ha Ho]%andb_true_iff. rewrite (IH _ _ Hl Ho). by eapply step_orphans.
Qed.

(** C27: Whatever schedulers, children, time-outs, cancellations and crashes
    come in whatever order: two schedulers never have runs of one lock key at
    once; a scheduler holds exactly the locks of its unfinished runs, so one
    whose runs are over holds none; a run is skipped only while a run that
    holds its key is there; no run ever waits, since each unfinished one has
    its next action possible at once; and as long as no scheduler dies or is
    cancelled no child is left running without its lock. *)
Theorem runs_exclusive l s : steps l nothing = Some s →
  (∀ sid1 sid2 n1 n2 p1 p2,
     dict_get (sid1, n1) (cl_runs s) = Some p1 → dict_get (sid2, n2) (cl_runs s) = Some p2 →
     holds p1 = true → holds p2 = true → lock_key n1 = lock_key n2 → sid1 = sid2)
  ∧ (∀ k sid, (k, sid) ∈ cl_locks s ↔ ∃ name p, dict_get (sid, name) (cl_runs s) = Some p ∧ holds p = true ∧ lock_key name = k)
  ∧ (∀ sid name s', step (Acquire sid name) s = Some s' → dict_get (sid, name) (cl_runs s') = Some (Done SSkipped) →
       ∃ sid' name' p, dict_get (sid', name') (cl_runs s) = Some p ∧ holds p = true ∧ lock_key name' = lock_key name
                     ∧ (sid' = sid → lock_again = false))
  ∧ (∀ sid name p a, dict_get (sid, name) (cl_runs s) = Some p → onward sid name p = Some a → is_Some (step a s))
  ∧ (forallb orderly l = true → cl_orphans s = []).
Proof.
  intros E. assert (Hs : sound s) by (eapply steps_sound; [exact E|apply nothing_sound]). split; [by intros *; apply held_once|].
  split; [|split; [|split; [by intros *; apply onward_possible|exact (steps_orphans l nothing s E)]]].
  - intros k sid. rewrite (sound_locks _ Hs), elem_of_held. split; intros (name & p & Hin & Hp).
    + exists name, p. split; [|done]. apply elem_dict_get; [by apply sound_runs|done].
    + exists name, p. split; [by apply dict_get_Some_elem|done].
  - intros sid name s' Ha Hd. cbn [step] in Ha. cbv zeta in Ha. destruct (dict_get (sid, name) (cl_runs s)) as [[]|]; try done.
    destruct (free sid name (cl_locks s)) eqn:Hf; [|by apply refused_held]. injection Ha as <-.
    unfold move in Hd. cbn [cl_runs] in Hd. rewrite dict_get_set, decide_True in Hd by done. done.
Qed.

(** *** Runs end *)

(** How many actions of its own a run has left at most. *)
Definition rank (p : phase) : nat :=
  match p with Queued => 5 | Holding => 4 | Running => 3 | Killing => 2 | Ended _ => 1 | Done _ | Gone => 0 end%nat.

Definition weight (runs : list ((nat * string) * phase)) : nat := foldr (λ r n, rank r.2 + n)%nat 0%nat runs.

Definition is_start (a : action) : bool := match a with Start _ _ => true | _ => false end.
Definition is_crash (a : action) : bool := match a with Crash _ => true | _ => false end.

Lemma weight_set (k : nat * string) p p' runs :
  dict_get k runs = Some p → (weight (dict_set k p' runs) + rank p = weight runs + rank p')%nat.
Proof.
  induction runs as [|[j q] runs IH]; [done|]. cbn [dict_get dict_set]. case_decide as Hk.
  - intros [= ->]. cbn [weight foldr snd]. lia.
  - intros G. specialize (IH G). unfold weight in *. cbn [foldr snd] in *. lia.
Qed.

Lemma weight_filter (P : (nat * string) * phase → Prop) `{∀ r, Decision (P r)} runs : (weight (filter P runs) <= weight runs)%nat.
Proof.
  induction runs as [|r runs IH]; [done|]. rewrite filter_cons. unfold weight in *. case_decide; cbn [foldr]; lia.
Qed.

Lemma step_weight a s s' : step a s = Some s' → is_start a = false →
  (weight (cl_runs s') + (if is_crash a then 0 else 1) <= weight (cl_runs s))%nat.
Proof.
  assert (Hmove : ∀ sid name p p' locks orphans, dict_get (sid, name) (cl_runs s) = Some p → (rank p' < rank p)%nat →
    (weight (cl_runs (move sid name p' locks orphans s)) + 1 <= weight (cl_runs s))%nat).
  { intros sid name p p' locks orphans G Hr. pose proof (weight_set _ _ p' _ G) as Hw. unfold move. cbn [cl_runs]. lia. }
  destruct a as [sid jobs|sid name|sid name started|sid name code|sid name|sid name|sid name|sid name|sid]; cbn [step is_start is_crash];
    cbv zeta; intros E Hs; try done.
  8: { injection E as <-. cbn [cl_runs]. rewrite Nat.add_0_r. apply weight_filter. }
  all: destruct (dict_get (sid, name) (cl_runs s)) as [p|] eqn:G; [|done].
  all: destruct p; cbn [holds] in E; try discriminate E; repeat case_match; simplify_eq.
  all: (eapply Hmove; [exact G|simpl; lia]).
Qed.

Lemma steps_weight l : ∀ s s', steps l s = Some s' → forallb (λ a, negb (is_start a)) l = true →
  (weight (cl_runs s') + length (List.filter (λ a, negb (is_crash a)) l) <= weight (cl_runs s))%nat.
Proof.
  induction l as [|a l IH]; intros s s'; cbn [steps forallb List.filter length]; [intros [= <-]; lia|].
  destruct (step a s) as [s1|] eqn:E; [|done]. simpl. intros Hl [Ha Ho]%andb_true_iff. apply negb_true_iff in Ha.
  pose proof (step_weight _ _ _ E Ha) as H1. pose proof (IH _ _ Hl Ho) as H2. destruct (is_crash a); simpl; lia.
Qed.

(** Schedulers that start nothing more come to an end: whatever the order,
    the runs there are take no more actions in all than five each, and when no
    run has an action left every one has an outcome or was cancelled, and no
    lock is held. *)
Theorem runs_end l s l' s' :
  steps l nothing = Some s → steps l' s = Some s' → forallb (λ a, negb (is_start a)) l' = true →
  (length (List.filter (λ a, negb (is_crash a)) l') <= 5 * length (cl_runs s))%nat
  ∧ ((∀ sid name p, dict_get (sid, name) (cl_runs s') = Some p → onward sid name p = None) →
     (∀ sid name p, dict_get (sid, name) (cl_runs s') = Some p → p = Gone ∨ ∃ o, p = Done o) ∧ cl_locks s' = []).
Proof.
  intros E El Hq. assert (Hs : sound s') by (do 2 (eapply steps_sound; [eassumption|]); apply nothing_sound). split.
  - pose proof (steps_weight _ _ _ El Hq) as Hw. assert (Hr : (weight (cl_runs s) <= 5 * length (cl_runs s))%nat); [|lia].
    clear. induction (cl_runs s) as [|[k p] runs IH]; [done|]. cbn [weight foldr length snd] in *. fold (weight runs). destruct p; simpl in *; lia.
  - intros Hend. assert (Hover : ∀ sid name p, dict_get (sid, name) (cl_runs s') = Some p → p = Gone ∨ ∃ o, p = Done o).
    { intros sid name p G. specialize (Hend _ _ _ G). destruct p; try done; eauto. }
    split; [done|]. destruct (cl_locks s') as [|[k sid] locks] eqn:El'; [done|]. exfalso.
    assert (Hin : (k, sid) ∈ held (cl_runs s')) by (rewrite <- (sound_locks _ Hs), El'; left).
    apply elem_of_held in Hin as (name & p & Hin & Hp & _). apply elem_dict_get in Hin; [|by apply sound_runs].
    apply Hover in Hin as [->|[o ->]]; done.
Qed.
End locks.

(** *** What the code of [run] means *)
Lemma run_code_spec outcomes : run_code outcomes = 0 ↔ ∀ o, o ∈ outcomes → o = SOk ∨ o = SSkipped.
Proof.
  unfold run_code. destruct (existsb _ _) eqn:E; split; intros Ho; try done.
  - apply existsb_exists in E as (o & Hin & Hb). apply list_elem_of_In, Ho in Hin as [->| ->]; done.
  - intros o Hin. destruct o; try (by left); try (by right); exfalso; apply not_true_iff_false in E; apply E, existsb_exists;
      eexists; (split; [by apply list_elem_of_In|done]).
Qed.

(** The lines of a dry run are read back as the words of each command. *)
Lemma dry_run_lines zone (due : list (Job zone)) run (w : world ()) : due ≠ [] →
  ∃ lines, cmd_run zone due run true w = (World (w_st w) (w_log w ++ lines) (w_clock w), Ok 0)
         ∧ Forall2 (λ job line, ∃ words, line = "would run " +:+ job_name _ job +:+ ": " +:+ words
                              ∧ shlex_split words = Ok (job_command _ job)) due lines.
Proof.
  intros Hne. unfold cmd_run. destruct due as [|job due]; [done|]. clear Hne. generalize (job :: due). clear job due. intros due.
  assert (Hrun : ∀ v : world (), ∃ lines,
    for_each due (λ job, out ("would run " +:+ job_name _ job +:+ ": " +:+ shlex_join (job_command _ job))) v
      = (World (w_st v) (w_log v ++ lines) (w_clock v), Ok tt)
    ∧ Forall2 (λ job line, ∃ words, line = "would run " +:+ job_name _ job +:+ ": " +:+ words
                            ∧ shlex_split words = Ok (job_command _ job)) due lines).
  { induction due as [|job due IH]; intros v; cbn [for_each].
    - exists []. rewrite app_nil_r. destruct v. by split.
    - erewrite bind_ok by done. destruct (IH (World (w_st v) (w_log v ++ ["would run " +:+ job_name _ job +:+ ": " +:+ shlex_join (job_command _ job)]) (w_clock v)))
        as (lines & E & Hl). eexists (_ :: lines). rewrite E. cbn [w_st w_log w_clock]. rewrite <- app_assoc. split; [done|].
      constructor; [|done]. eexists. split; [done|apply split_join_words]. }
  destruct (Hrun w) as (lines & E & Hl). exists lines. split; [|done]. by erewrite bind_ok by done.
Qed.

(** ** At work *)

(** Three zones: two at a fixed distance, and one whose clock is put forward
    an hour at the instant [w_forward]; "hourly" and "always" are the
    expressions there are. As cronsim does for such expressions, [w_next]
    counts in instants, and takes an hour that is left out as the time before
    it goes on. *)
Inductive w_zone := WUtc | WKolkata | WRiga.
Definition w_zones (name : string) : option w_zone :=
  if String.eqb name "UTC" then Some WUtc else if String.eqb name "Asia/Kolkata" then Some WKolkata
  else if String.eqb name "Europe/Riga" then Some WRiga else None.
Definition w_forward : Z := 36000.
Definition w_offset (z : w_zone) : Z := match z with WUtc => 0 | WKolkata => 19800 | WRiga => 7200 end.
Definition w_wall (z : w_zone) (i : Z) : Z :=
  i + w_offset z + match z with WRiga => if w_forward <=? i then 3600 else 0 | _ => 0 end.
Definition w_local (z : w_zone) (i : Z) : Z * bool := (w_wall z i, false).
Definition w_instant (z : w_zone) (t : Z) : Z :=
  t - w_offset z - match z with WRiga => if w_forward + w_offset z + 3600 <=? t then 3600 else 0 | _ => 0 end.
Definition w_period (s : string) : option Z :=
  if String.eqb (strip s) "hourly" then Some 3600 else if String.eqb (strip s) "always" then Some 60 else None.
Definition w_cronsim (s : string) : res () := match w_period s with Some _ => Ok () | None => Err (raise_exn ValueError "Bad expression") end.
Definition w_next (z : w_zone) (s : string) (t : Z * bool) : res Z :=
  match w_period s with
  | Some n => Ok (w_wall z (((w_instant z t.1 + w_offset z) / n + 1) * n - w_offset z))
  | None => Err (raise_exn ValueError "Bad expression")
  end.
Definition w_fires (s : string) (u : Z) : Prop := ∃ n, w_period s = Some n ∧ u mod n = 0.

Lemma w_period_cases s n : w_period s = Some n → n = 3600 ∨ n = 60.
Proof. unfold w_period. repeat case_match; intros; simplify_eq; auto. Qed.

Lemma w_instant_wall z i : w_instant z (w_wall z i) = i.
Proof. destruct z; unfold w_instant, w_wall, w_offset, w_forward; repeat case_match; lia. Qed.

Lemma w_wall_mono z i j : i < j → w_wall z i < w_wall z j.
Proof. destruct z; unfold w_wall, w_offset, w_forward; repeat case_match; lia. Qed.

(** The next whole period after [x]. *)
Lemma w_step n x y : 0 < n → x < y → y mod n = 0 → x < (x / n + 1) * n <= y.
Proof.
  intros Hn Hlt Hy. apply Z.mod_divide in Hy as [q ->]; [|lia]. pose proof (Z.div_mod x n ltac:(lia)). pose proof (Z.mod_pos_bound x n ltac:(lia)).
  assert (x / n < q) by nia. nia.
Qed.

Lemma w_wall_period z i n : n = 3600 ∨ n = 60 → (w_wall z i) mod n = (i + w_offset z) mod n.
Proof.
  intros Hn. unfold w_wall. destruct z; try (by rewrite Z.add_0_r). destruct (w_forward <=? i); [|by rewrite Z.add_0_r].
  destruct Hn as [-> | ->]; [by replace 3600 with (1 * 3600) at 1 by lia; rewrite Z.mod_add|].
  by replace 3600 with (60 * 60) by lia; rewrite Z.mod_add.
Qed.

Lemma w_next_spec z s i u : w_next z s (w_wall z i, false) = Ok u → ∃ n j, w_period s = Some n ∧ u = w_wall z j ∧ i < j
  ∧ u mod n = 0 ∧ ∀ k, i < k → w_wall z k mod n = 0 → j <= k.
Proof.
  unfold w_next. destruct (w_period s) as [n|] eqn:E; [|done]. pose proof (w_period_cases _ _ E) as Hn. cbn [fst]. rewrite w_instant_wall.
  intros [= <-]. exists n. eexists. assert (0 < n) by lia. set (x := i + w_offset z).
  split_and!; [done|reflexivity| | |].
  - pose proof (Z.div_mod x n ltac:(lia)). pose proof (Z.mod_pos_bound x n ltac:(lia)). unfold x in *. nia.
  - rewrite w_wall_period by done. replace (_ - _ + _) with ((x / n + 1) * n) by lia. by apply Z.mod_mul; lia.
  - intros k Hk. rewrite w_wall_period by done. intros H0. destruct (w_step n x (k + w_offset z)) as [_ ?]; [done|unfold x; lia|done|]. unfold x in *. lia.
Qed.

Lemma w_laws : cronsim_laws w_zone w_local w_cronsim w_next w_fires.
Proof.
  assert (Hok : ∀ z s t, is_ok (w_cronsim s) = true → ∃ u, w_next z s (t, false) = Ok u).
  { intros z s t. unfold w_cronsim, w_next. destruct (w_period s); [|done]. by eexists. }
  split.
  - intros z s t u _ E [Hle [i Hi]]. specialize (Hi 0 ltac:(lia)). rewrite !Z.add_0_r in Hi. injection Hi as <-.
    apply w_next_spec in E as (n & j & En & _ & _ & Hu & _). by exists n.
  - intros z s t v _ Hs (n & En & Hv) Hm Htv [_ [i Hi]]. destruct (Hok z s t Hs) as [u E]. exists u. split; [done|].
    pose proof (Hi 0 ltac:(lia)) as H0. pose proof (Hi (v - t) ltac:(lia)) as H1. rewrite !Z.add_0_r in H0. injection H0 as H0. injection H1 as H1.
    replace (t + (v - t)) with v in H1 by lia. subst t. apply w_next_spec in E as (n' & j & En' & -> & Hij & Hu & Hleast).
    rewrite En in En'. injection En' as <-. pose proof (w_wall_mono z _ _ Hij).
    assert (j <= i + (v - w_wall z i)) by (apply Hleast; [lia|by rewrite H1]).
    split; [split; [done|]|].
    + rewrite <- H1. destruct (Z.eq_dec j (i + (v - w_wall z i))) as [->|]; [lia|]. apply Z.lt_le_incl, w_wall_mono. lia.
    + destruct (w_period_cases _ _ En) as [-> | ->]; [|done]. unfold minute. apply Z.mod_divide in Hu as [q ->]; [|lia].
      replace (q * 3600) with (q * 60 * 60) by lia. by apply Z.mod_mul.
  - intros z s t v _ Hs _ _ _ _. by apply Hok.
  - intros s. unfold w_cronsim, w_period. destruct (String.eqb_spec (strip s) "hourly") as [->|]; [done|].
    by destruct (String.eqb_spec (strip s) "always") as [->|].
Qed.

Definition w_config : list (string * json) := [("cron", JObj [("jobs", JObj [
  ("tidy", JObj [("schedule", JStr "always"); ("command", JStr "audit prune --days 90"); ("timezone", JStr "Europe/Riga")]);
  ("report", JObj [("schedule", JStr " hourly "); ("command", JStr "report 'by mail'"); ("timeout", JInt 60); ("timezone", JStr "Asia/Kolkata")]);
  ("backup", JObj [("schedule", JStr "hourly"); ("command", JStr "backup"); ("timezone", JStr "Europe/Riga")])])])].

Abbreviation w_jobs := (load_jobs w_zone w_zones w_cronsim w_config).
Abbreviation w_due jobs := (select_due w_zone w_local w_next jobs 19845 None).

Lemma w_even job at_ m i : local_minute w_zone w_local job at_ = m →
  (∀ k, 0 <= k <= 60 → w_wall (job_timezone _ job) (i + k) = m - 60 + k) → even_minute w_zone w_local job at_.
Proof.
  intros Hm Hi. unfold even_minute, steady. rewrite Hm. unfold minute. split; [lia|]. exists i. intros k Hk. unfold w_local. f_equal. apply Hi. lia.
Defined.

(** Half past five and 45 seconds: an hour begins in Kolkata, and none in a
    zone whose clock is put forward later that day. *)
Lemma due_exact_witness : ∃ jobs due,
  w_jobs = Ok jobs ∧ w_due jobs = Ok due ∧ map (job_name w_zone) jobs = ["tidy"; "report"; "backup"]
  ∧ map (job_name w_zone) due = ["tidy"; "report"] ∧ Forall (declared w_zone w_zones w_cronsim) jobs
  ∧ ∀ job, job ∈ jobs → job ∈ due ↔ job ∈ jobs ∧ fires w_zone w_local w_fires job 19845.
Proof.
  destruct w_jobs as [jobs|] eqn:E; [|by vm_compute in E].
  destruct (due_exact w_zone w_zones w_local w_cronsim w_next w_fires w_config jobs 19845 w_laws E) as (_ & Hd & Hs & _).
  vm_compute in E. injection E as <-.
  eexists _, _. split; [done|]. split; [by vm_compute|]. split; [done|]. split; [done|]. split; [exact Hd|].
  intros job Hjob. apply Hs; [by vm_compute|]. apply list_elem_of_In in Hjob.
  destruct Hjob as [<-|[<-|[<-|[]]]]; (eapply (w_even _ _ _ 19740); [vm_compute; reflexivity|]); intros k Hk;
    unfold w_wall, w_forward; cbn [job_timezone w_offset]; [destruct (Z.leb_spec 36000 (19740 + k)); lia|lia|destruct (Z.leb_spec 36000 (19740 + k)); lia].
Defined.

(** The first minute after the clock was put forward: an hour begins, and the
    hourly job is not picked. *)
Example forward_hour_missed : ∃ jobs due,
  w_jobs = Ok jobs ∧ select_due w_zone w_local w_next jobs w_forward None = Ok due ∧ map (job_name w_zone) due = []
  ∧ Exists (λ job, job_name w_zone job = "backup" ∧ fires w_zone w_local w_fires job w_forward) jobs.
Proof.
  destruct w_jobs as [jobs|] eqn:E; [|by vm_compute in E]. vm_compute in E. injection E as <-. eexists _, _. split; [done|].
  split; [vm_compute; reflexivity|]. split; [done|]. do 2 apply Exists_cons_tl. apply Exists_cons_hd. split; [done|].
  exists 3600. split; vm_compute; reflexivity.
Qed.

(** Two ticks of one job, the second while the first is running; then a job
    that does not end in time. *)
Definition w_ticks : list action := [
  Start 0 ["tidy"; "report"]; Acquire 0 "tidy"; Spawn 0 "tidy" true; Start 1 ["tidy"]; Acquire 1 "tidy"; Acquire 0 "report";
  Spawn 0 "report" true; Timeout_ 0 "report"].

#[local] Existing Instance LocalLock.

Abbreviation w_ticked := (steps w_ticks nothing).

Lemma runs_exclusive_witness : ∃ s,
  w_ticked = Some s ∧ dict_get (1%nat, "tidy") (cl_runs s) = Some (Done SSkipped)
  ∧ (∀ k sid, (k, sid) ∈ cl_locks s ↔ ∃ name p, dict_get (sid, name) (cl_runs s) = Some p ∧ holds p = true ∧ lock_key name = k)
  ∧ cl_orphans s = [].
Proof.
  destruct w_ticked as [s|] eqn:E; [|by vm_compute in E]. destruct (runs_exclusive _ _ E) as (_ & Hlocks & _ & _ & Ho).
  exists s. split; [done|]. split; [vm_compute in E; by simplify_eq|]. split; [exact Hlocks|]. by apply Ho.
Defined.

Definition w_rest : list action := [Exit 0 "tidy" 0; Killed 0 "report"; Release 0 "report"; Release 0 "tidy"].

Lemma runs_end_witness : ∃ s s',
  w_ticked = Some s ∧ steps w_rest s = Some s' ∧ (4 <= 5 * length (cl_runs s))%nat ∧ cl_locks s' = []
  ∧ cl_runs s' = [((0%nat, "tidy"), Done SOk); ((0%nat, "report"), Done STimeout); ((1%nat, "tidy"), Done SSkipped)].
Proof.
  destruct w_ticked as [s|] eqn:E; [|by vm_compute in E]. destruct (steps w_rest s) as [s'|] eqn:E'.
  2: { exfalso. vm_compute in E. injection E as <-. by vm_compute in E'. }
  destruct (runs_end _ _ _ _ E E' eq_refl) as [Hn Hl].
  assert (Hr : cl_runs s' = [((0%nat, "tidy"), Done SOk); ((0%nat, "report"), Done STimeout); ((1%nat, "tidy"), Done SSkipped)]).
  { vm_compute in E. simplify_eq. vm_compute in E'. by simplify_eq. }
  exists s, s'. repeat (split; [done|]). split; [|done]. apply Hl. rewrite Hr. intros sid name p G. cbn [dict_get] in G.
  repeat case_decide; by simplify_eq.
Defined.
