(* ===== verification/Actions.v ===== *)
(** * Actions of a service

    [RequestHandlerHelper] of [request_handler/handlers.py] and the guards of
    [request_handler/decorators.py]: which methods of a class are actions,
    how an action is found and called, and [require_auth_for_actions]. A class
    is the chain of dictionaries its attributes are looked up in, the class's
    own first; an attribute that is not a method has no action name and does
    not appear. The state of a call is the service object, the bridge handler
    it is linked to and the rest of the world. *)

From Stdlib Require Import ZArith Lia Relations.
From S2P Require Import Prelude PyStr Json MigTracker IpAddress ClientIp ApiKeys QueueIface Auth Handlers.

(** A connection the pool hands out, a cursor being a number. *)
Record connection := Conn { cn_id : Z; cn_sqlite : bool }.
Inductive db_wrapper := DBWrapperPgsqlAsync (cur : Z) | DBWrapperSqliteAsync (cur : Z).

(** The attributes of a service: [None] is an attribute that is not set. *)
Record self := Self {
  se_linked : bool; se_db_conn : option connection; se_db_cur : option Z; se_pg_conn : option connection; se_pg_cur : option Z;
  se_db_wrapper : option db_wrapper; se_redis : option Z
}.

Record call (X : Type) := Call { cl_self : self; cl_site : site; cl_rest : X }.
Arguments Call {X} _ _ _.
Arguments cl_self {X} _.
Arguments cl_site {X} _.
Arguments cl_rest {X} _.

Definition not_authorized : exn := http_error "Not authorized" 4010 401.

Section actions.
Context {X A : Type} (py_str : json → string).
Abbreviation callp := (prog (call X)).

Definition on_bridge {B} (m : prog site B) : callp B := zoom cl_site (λ t s, Call (cl_self s) t (cl_rest s)) m.
Definition set_self (f : self → self) : callp () := stmt (λ s, (Call (f (cl_self s)) (cl_site s) (cl_rest s), ())).
Definition get_self : callp self := s ← get_st; mret (cl_self s).

(** A function of a class, with the marks the decorators leave on it. *)
Record method := Method { m_action : option string; m_auth : bool; m_run : json → callp A }.

(** [@action(name)] *)
Definition action (name : string) (m : method) : method := Method (Some name) (m_auth m) (m_run m).

(** [getattr(bridge_handler, "current_user", None)] *)
Definition signed_in_user : callp (option user) :=
  se ← get_self;
  if se_linked se then on_bridge current_user else mret None.

(** [@authenticated] *)
Definition authenticated (func : json → callp A) : json → callp A := λ input_data,
  u ← signed_in_user;
  match u with None => raise not_authorized | Some _ => func input_data end.

(** [functools.wraps] carries the name over and [_auth_wrapped] is set. *)
Definition authenticated_method (m : method) : method := Method (m_action m) true (authenticated (m_run m)).

(** ** Classes *)
Definition namespace : Type := list (string * method).

(** [getattr(cls, name, None)] *)
Fixpoint getattr (name : string) (mro : list namespace) : option method :=
  match mro with
  | [] => None
  | own :: bases => match dict_get name own with Some m => Some m | None => getattr name bases end
  end.

(** [dir(cls)] *)
Definition dir (mro : list namespace) : list string := sorted_names (remove_dups (concat (map (λ own, own.*1) mro))).

(** [setattr(cls, name, m)] *)
Definition setattr (name : string) (m : method) (mro : list namespace) : list namespace :=
  match mro with [] => [] | own :: bases => dict_set name m own :: bases end.

(** What [_guard_actions] puts in the place of an attribute. *)
Definition guarded (m : method) : method :=
  match m_action m with
  | None => m
  | Some _ => if m_auth m then m else authenticated_method m
  end.

Definition guard_name (mro : list namespace) (name : string) : list namespace :=
  match getattr name mro with
  | Some m =>
      match m_action m with
      | None => mro
      | Some _ => if m_auth m then mro else setattr name (authenticated_method m) mro
      end
  | None => mro
  end.

Definition _guard_actions (mro : list namespace) : list namespace := foldl guard_name mro (dir mro).

(** A class decorated with [require_auth_for_actions], or one that derives
    from such a class: the hook guards it when it is created. The first chain
    is what is written in the source. *)
Inductive required : list namespace → list namespace → Prop :=
  | decorated mro : mro ≠ [] → required mro (_guard_actions mro)
  | subclass own mro bases : required mro bases → required (own :: mro) (_guard_actions (own :: bases)).

(** ** Dispatch *)
Definition registered (mro : list namespace) (registry : namespace) (name : string) : namespace :=
  match getattr name mro with
  | Some m => match m_action m with Some a => dict_set a m registry | None => registry end
  | None => registry
  end.

Definition _get_actions (mro : list namespace) : namespace := foldl (registered mro) [] (dir mro).

(** The handler's method; an action that is a list or an object cannot be
    looked up. *)
Definition handler_method (registry : namespace) (name : json) : res (option method) :=
  let named := match name with JStr a => dict_get a registry | _ => None end in
  match name with
  | JList _ | JObj _ => Err (raise_exn TypeError "unhashable type")
  | _ => Ok (match named with Some m => Some m | None => dict_get "default" registry end)
  end.

Definition action_text (v : json) : string := match v with JStr s => s | v => py_str v end.

Definition link (se : self) : self :=
  Self true (se_db_conn se) (se_db_cur se) (se_pg_conn se) (se_pg_cur se) (se_db_wrapper se) (se_redis se).

Definition handle_request (cls : list namespace) (name input_data : json) : callp A :=
  _ ← set_self link;
  found ← lift_res (handler_method (_get_actions cls) name);
  match found with
  | Some m => m_run m input_data
  | None => raise (http_error ("Unknown action `" +:+ action_text name +:+ "`") 1234 400)
  end.
End actions.
