(* ===== verification/ActionsProps.v ===== *)
(** * What guarded classes promise *)

From Stdlib Require Import ZArith Lia Relations.
From S2P Require Import WbcmUsers Prelude PyStr Json MigTracker IpAddress ClientIp ApiKeys QueueIface Auth Handlers Actions.

Section props.
Context {X A : Type} (py_str : json → string).
Implicit Types (w : world (call X)) (mro : list (namespace (X := X) (A := A))).

(** ** Looking names up *)
Lemma elem_of_dir n mro : n ∈ dir mro ↔ is_Some (getattr n mro).
Proof.
  unfold dir, sorted_names. rewrite merge_sort_Permutation, elem_of_remove_dups.
  induction mro as [|own mro IH]; cbn [map concat getattr].
  { split; [by intros ?%not_elem_of_nil|by intros []]. }
  rewrite elem_of_app, IH. destruct (dict_get n own) as [m|] eqn:E.
  - split; [by eexists|]. intros _. left. apply dict_get_Some_elem in E. by apply (list_elem_of_fmap_2 fst) in E.
  - apply dict_get_None in E. naive_solver.
Qed.

Lemma dir_ext mro1 mro2 : (∀ n, is_Some (getattr n mro1) ↔ is_Some (getattr n mro2)) → dir mro1 = dir mro2.
Proof.
  intros H. unfold dir, sorted_names. apply (Sorted_unique String.le).
  - apply Sorted_merge_sort, _.
  - apply Sorted_merge_sort, _.
  - rewrite !merge_sort_Permutation. apply NoDup_Permutation; try apply NoDup_remove_dups. intros n.
    pose proof (elem_of_dir n mro1) as H1. pose proof (elem_of_dir n mro2) as H2. unfold dir, sorted_names in H1, H2.
    rewrite merge_sort_Permutation in H1, H2. by rewrite H1, H2.
Qed.

Lemma getattr_setattr n k m mro : mro ≠ [] → getattr n (setattr k m mro) = if decide (k = n) then Some m else getattr n mro.
Proof. destruct mro as [|own mro]; [done|]. intros _. cbn [setattr getattr]. rewrite dict_get_set. by case_decide. Qed.

Lemma guarded_idem (m : method (X := X) (A := A)) : guarded (guarded m) = guarded m.
Proof. unfold guarded. destruct (m_action m) eqn:E; [|by rewrite E]. destruct (m_auth m) eqn:Ea; by rewrite ?E, ?Ea; simpl; rewrite ?E. Qed.

Lemma guard_name_get mro k n : mro ≠ [] →
  getattr n (guard_name mro k) = if decide (k = n) then guarded <$> getattr n mro else getattr n mro.
Proof.
  intros Hne. unfold guard_name, guarded. destruct (getattr k mro) as [m|] eqn:E.
  - destruct (m_action m) eqn:Ea; [|by case_decide; subst; rewrite ?E; simpl; rewrite ?Ea].
    destruct (m_auth m) eqn:Eu; [by case_decide; subst; rewrite ?E; simpl; rewrite ?Ea, ?Eu|].
    rewrite getattr_setattr by done. case_decide; [subst|done]. rewrite E. simpl. by rewrite Ea, Eu.
  - case_decide; [subst|done]. by rewrite E.
Qed.

Lemma guard_name_nonempty mro k : mro ≠ [] → guard_name mro k ≠ [].
Proof. intros Hne. unfold guard_name. repeat case_match; try done. by destruct mro. Qed.

Lemma guard_names_get names n : ∀ mro, mro ≠ [] →
  getattr n (foldl guard_name mro names) = if decide (n ∈ names) then guarded <$> getattr n mro else getattr n mro.
Proof.
  induction names as [|k names IH]; intros mro Hne; cbn [foldl].
  { rewrite decide_False; [done|apply not_elem_of_nil]. }
  rewrite IH by by apply guard_name_nonempty. rewrite guard_name_get by done.
  destruct (decide (k = n)) as [->|Hk].
  - rewrite (decide_True (P := n ∈ n :: names)) by left. case_decide; [|done].
    destruct (getattr n mro) as [m|]; [|done]. simpl. by rewrite guarded_idem.
  - destruct (decide (n ∈ names)) as [Hin|Hout]; [rewrite decide_True by (by right); done|].
    rewrite decide_False; [done|]. intros [->|Hin]%elem_of_cons; done.
Qed.

Lemma guard_actions_get n mro : mro ≠ [] → getattr n (_guard_actions mro) = guarded <$> getattr n mro.
Proof.
  intros Hne. unfold _guard_actions. rewrite guard_names_get by done. case_decide as Hd; [done|].
  destruct (getattr n mro) as [m|] eqn:E; [|done]. exfalso. apply Hd, elem_of_dir. by rewrite E.
Qed.

(** A class that requires a user has the attributes its source has, guarded. *)
Lemma required_get mro cls : required mro cls → ∀ n, getattr n cls = guarded <$> getattr n mro.
Proof.
  induction 1 as [mro Hne|own mro bases Hr IH]; intros n; [by apply guard_actions_get|].
  rewrite guard_actions_get by done. cbn [getattr]. destruct (dict_get n own); [done|]. rewrite IH.
  destruct (getattr n mro) as [m|]; [|done]. simpl. by rewrite guarded_idem.
Qed.

Lemma guarded_action (m : method (X := X) (A := A)) : m_action (guarded m) = m_action m.
Proof. unfold guarded. destruct (m_action m) eqn:E; [|done]. by destruct (m_auth m). Qed.

Lemma dict_set_map {B C} (f : B → C) k (b : B) d :
  dict_set k (f b) (map (λ kv : string * B, (kv.1, f kv.2)) d) = map (λ kv, (kv.1, f kv.2)) (dict_set k b d).
Proof. induction d as [|[j c] d IH]; [done|]. cbn [map dict_set fst snd]. case_decide; [done|]. cbn [map fst snd]. by rewrite IH. Qed.

(** Its actions are the same ones, guarded. *)
Lemma required_actions mro cls : required mro cls →
  _get_actions cls = map (λ kv, (kv.1, guarded kv.2)) (_get_actions mro).
Proof.
  intros Hr. pose proof (required_get _ _ Hr) as Hget. unfold _get_actions.
  rewrite (dir_ext cls mro) by (intros n; rewrite Hget; by rewrite fmap_is_Some).
  change (@nil (string * method (X := X) (A := A))) with (map (λ kv : string * method (X := X) (A := A), (kv.1, guarded kv.2)) []) at 1.
  generalize (@nil (string * method (X := X) (A := A))). induction (dir mro) as [|n names IH]; intros reg; [done|]. cbn [foldl].
  rewrite <- IH. f_equal. unfold registered. rewrite Hget. destruct (getattr n mro) as [m|]; [|done]. simpl. rewrite guarded_action.
  destruct (m_action m); [|done]. apply dict_set_map.
Qed.

Lemma dict_get_map {B C} (f : B → C) k (d : list (string * B)) :
  dict_get k (map (λ kv, (kv.1, f kv.2)) d) = f <$> dict_get k d.
Proof. induction d as [|[j c] d IH]; [done|]. cbn [map dict_get fst snd]. by case_decide. Qed.

Lemma action_registered a x mro : dict_get a (_get_actions mro) = Some x → m_action x = Some a ∧ ∃ n, getattr n mro = Some x.
Proof.
  unfold _get_actions. generalize (dir mro). intros names.
  assert (H : ∀ reg, (∀ a x, dict_get a reg = Some x → m_action x = Some a ∧ ∃ n, getattr n mro = Some x) →
    ∀ a x, dict_get a (foldl (registered mro) reg names) = Some x → m_action x = Some a ∧ ∃ n, getattr n mro = Some x).
  { induction names as [|n names IH]; intros reg Hreg; [exact Hreg|]. cbn [foldl]. apply IH. intros b y. unfold registered.
    destruct (getattr n mro) as [m|] eqn:E; [|by auto]. destruct (m_action m) eqn:Ea; [|by auto].
    rewrite dict_get_set. case_decide; [|by auto]. subst. intros [= <-]. split; [done|by eexists]. }
  by apply H.
Qed.

(** ** Who may call *)

(** The user behind the call. *)
Definition caller w : option user :=
  let h := s_handler (cl_site (w_st w)) in match h_cached_user h with Some u => u | None => h_user h end.

(** Asking for the user caches it. *)
Definition remembered w : world (call X) := (signed_in_user w).1.
Definition linked w : world (call X) := World (Call (link (cl_self (w_st w))) (cl_site (w_st w)) (cl_rest (w_st w))) (w_log w) (w_clock w).

Lemma get_self_run w : get_self w = (w, Ok (cl_self (w_st w))).
Proof. unfold get_self. by erewrite bind_ok by done. Qed.

Lemma signed_in_spec w : se_linked (cl_self (w_st w)) = true → signed_in_user w = (remembered w, Ok (caller w)).
Proof.
  intros Hl. unfold remembered. rewrite (surjective_pairing (signed_in_user w)) at 1. f_equal.
  unfold signed_in_user. erewrite bind_ok by by apply get_self_run. rewrite Hl. unfold on_bridge, zoom, current_user, caller, get_handler, update_handler. run_prog.
  by destruct (h_cached_user _).
Qed.

Lemma caller_linked w : caller (linked w) = caller w.
Proof. done. Qed.

(** Asking again changes nothing, and nothing but the cache is changed. *)
Lemma remembered_keeps w : se_linked (cl_self (w_st w)) = true →
  let h := s_handler (cl_site (w_st w)) in
  remembered w = World (Call (cl_self (w_st w))
    (Site (Handler (h_auth_token h) (h_user h) (h_impersonator h) (h_token_expires_at h) (Some (caller w)) (h_uid h)
             (h_key_verified h) (h_key h) (h_key_user_applied h))
       (s_keys (cl_site (w_st w))) (s_users (cl_site (w_st w))) (s_conns (cl_site (w_st w)))) (cl_rest (w_st w))) (w_log w) (w_clock w).
Proof.
  intros Hl. unfold remembered, caller, signed_in_user. erewrite bind_ok by by apply get_self_run. rewrite Hl.
  unfold on_bridge, zoom, current_user, get_handler, update_handler. run_prog. destruct w as [[se [h keys users conns] rest] log clock]. simpl.
  by destruct h as [? ? ? ? []].
Qed.

Lemma authenticated_spec (run : json → prog (call X) A) d w : se_linked (cl_self (w_st w)) = true →
  authenticated run d w = match caller w with Some _ => run d (remembered w) | None => (remembered w, Err not_authorized) end.
Proof. intros Hl. unfold authenticated. erewrite bind_ok by by apply signed_in_spec. by destruct (caller w). Qed.

(** Refusing who is not signed in, before anything is done. *)
Definition refuses (run : json → prog (call X) A) : Prop :=
  ∀ d w, se_linked (cl_self (w_st w)) = true → caller w = None → run d w = (remembered w, Err not_authorized).

(** The method an action of a class leads to. *)
Definition method_of mro (a : string) : option (method (X := X) (A := A)) :=
  match dict_get a (_get_actions mro) with Some m => Some m | None => dict_get "default" (_get_actions mro) end.

Definition unknown (a : string) : exn := http_error ("Unknown action `" +:+ a +:+ "`") 1234 400.

Lemma handle_spec cls a d w :
  handle_request py_str cls (JStr a) d w
  = match method_of cls a with Some m => m_run m d (linked w) | None => (linked w, Err (unknown a)) end.
Proof.
  unfold handle_request, set_self. erewrite bind_ok by done. erewrite bind_ok by done. unfold method_of.
  by destruct (dict_get a _); [|destruct (dict_get "default" _)].
Qed.

Lemma required_method mro cls a : required mro cls → method_of cls a = guarded <$> method_of mro a.
Proof.
  intros Hr. unfold method_of. rewrite (required_actions _ _ Hr), !dict_get_map. by destruct (dict_get a _).
Qed.

(** C14: Every action of a class decorated with [require_auth_for_actions], or
    of any class derived from one, whether inherited, overridden or added, is
    refused with 401 to a caller who is not signed in, before anything but the
    look-up of the user happens, as long as a method that already carries the
    guard's mark refuses as well; and for a signed-in caller it runs the very
    method the source declares, the guard being applied once. The actions
    there are, the default one included, are those of the source. *)
Theorem actions_guarded mro cls :
  required mro cls → (∀ n m, getattr n mro = Some m → m_auth m = true → refuses (m_run m)) →
  ∀ a d w,
    (caller w = None →
     handle_request py_str cls (JStr a) d w
     = match method_of mro a with Some _ => (remembered (linked w), Err not_authorized) | None => (linked w, Err (unknown a)) end)
    ∧ (caller w ≠ None →
       handle_request py_str cls (JStr a) d w
       = match method_of mro a with
         | Some m => m_run m d (if m_auth m then linked w else remembered (linked w))
         | None => (linked w, Err (unknown a))
         end).
Proof.
  intros Hr Hmarked a d w. rewrite handle_spec, (required_method _ _ a Hr).
  destruct (method_of mro a) as [m|] eqn:Em; [|by split]. simpl.
  assert (Hm : is_Some (m_action m) ∧ ∃ n, getattr n mro = Some m).
  { unfold method_of in Em. destruct (dict_get a (_get_actions mro)) eqn:Ea; simplify_eq;
      match goal with H : dict_get _ _ = Some m |- _ => apply action_registered in H as [H ?] end; split; eauto. }
  destruct Hm as [[b Hb] [n Hn]]. unfold guarded. rewrite Hb.
  destruct (m_auth m) eqn:Ea; split; intros Hc.
  - by apply (Hmarked n m Hn Ea).
  - done.
  - cbn [m_run authenticated_method]. rewrite authenticated_spec by done. by rewrite caller_linked, Hc.
  - cbn [m_run authenticated_method]. rewrite authenticated_spec by done. rewrite caller_linked. by destruct (caller w).
Qed.
End props.

(** ** At work *)

(** A decorated class with an inherited action, and one derived from it that
    overrides and adds, the added one carrying the mark already. *)
Abbreviation w_method name answer := (Method (X := ()) (Some name) false (λ _, mret (JStr answer))).
Definition w_base : list (namespace (X := ()) (A := json)) := [[("listed", w_method "list" "list")]; [("inherited", w_method "show" "show")]].
Definition w_own : namespace (X := ()) (A := json) :=
  [("listed", w_method "list" "new list"); ("added", action "add" (authenticated_method (w_method "add" "added")));
   ("helper", Method None false (λ _, mret JNull))].
Definition w_class := _guard_actions (w_own :: _guard_actions w_base).

Definition w_call (u : option user) : world (call ()) :=
  World (Call (Self false None None None None None None)
           (Site (Handler None u None None None None false None false) (KeyTable [] 1) [] WbcmUsers.__init__) ()) [] 0.

Lemma actions_guarded_witness :
  let anna := User 7 "anna" None None in let ask name u := handle_request (λ _, "?") w_class (JStr name) (JObj []) (w_call u) in
  required (w_own :: w_base) w_class
  ∧ Forall (λ name, (ask name None).2 = Err not_authorized) ["list"; "show"; "add"]
  ∧ (ask "helper" None).2 = Err (unknown "helper")
  ∧ Forall (λ p, (ask p.1 (Some anna)).2 = Ok (JStr p.2)) [("list", "new list"); ("show", "show"); ("add", "added")].
Proof.
  intros anna ask. assert (Hr : required (w_own :: w_base) w_class) by (apply subclass, decorated; discriminate).
  assert (Hm : ∀ n m, getattr n (w_own :: w_base) = Some m → m_auth m = true → refuses (m_run m)).
  { intros n m. cbn [getattr w_own w_base dict_get]. repeat case_decide; intros; simplify_eq; try done;
      intros d w Hl Hc; cbn [m_run action authenticated_method]; by rewrite authenticated_spec, Hc. }
  pose proof (actions_guarded (λ _, "?") _ _ Hr Hm) as H. split; [exact Hr|]. split; [|split].
  - repeat apply List.Forall_cons; try apply List.Forall_nil; unfold ask;
      match goal with |- context[handle_request _ _ (JStr ?a) ?d ?w] => rewrite (proj1 (H a d w) eq_refl) end; vm_compute; reflexivity.
  - unfold ask. rewrite (proj1 (H "helper" (JObj []) (w_call None)) eq_refl). vm_compute. reflexivity.
  - repeat apply List.Forall_cons; try apply List.Forall_nil; unfold ask; cbn [fst snd];
      match goal with |- context[handle_request _ _ (JStr ?a) ?d ?w] => rewrite (proj2 (H a d w)) by (vm_compute; discriminate) end;
      vm_compute; reflexivity.
Defined.
