(* ===== verification/Decorators.v ===== *)
(** * Decorators of an action, and pagination

    [request_handler/decorators.py] but for the guards of [Actions], and
    [request_handler/pagination.py]. A pool is what [async with] does of it:
    entering, which may raise or give nothing, and leaving. [conn.transaction]
    puts the database back when it ends with an exception. *)

From Stdlib Require Import ZArith Lia Relations.
From S2P Require Import Throttle Redis Prelude PyStr Json IpAddress ClientIp ApiKeys QueueIface Auth Handlers Actions.

(** ** Pagination *)
Definition DEFAULT_PAGE_LIMIT : Z := 50.
Definition MAX_PAGE_LIMIT : Z := 100.

(** [except (TypeError, ValueError)] *)
Definition number_or (read : res Z) (fallback : Z) : res Z :=
  match read with
  | Err e => if is_class TypeError e || is_class ValueError e then Ok fallback else Err e
  | ok => ok
  end.

(** [int_of_float] is [int] of a JSON number with a fraction or an exponent. *)
Definition parse_pagination (int_of_float : string → res Z) (input_data : option (list (string * json))) (default_limit : Z) : res (Z * Z) :=
  match input_data with
  | None | Some [] => Ok (default_limit, 0)
  | Some d =>
      limit ← number_or (py_int int_of_float (default (JInt default_limit) (dict_get "limit" d))) default_limit;
      offset ← number_or (py_int int_of_float (default (JInt 0) (dict_get "offset" d))) 0;
      Ok (Z.max 1 (Z.min limit MAX_PAGE_LIMIT), Z.max 0 offset)
  end.

(** [_sanitize_input] *)
Definition _sanitize_input (input_data : json) (sensitive_fields : list string) : list (string * json) :=
  match input_data with
  | JObj d => map (λ kv, (kv.1, if existsb (String.eqb kv.1) sensitive_fields then JStr "***" else kv.2)) d
  | _ => []
  end.

(** ** What is attached to a service *)
Definition make_db_wrapper (conn : connection) (cur : Z) : db_wrapper :=
  if cn_sqlite conn then DBWrapperSqliteAsync cur else DBWrapperPgsqlAsync cur.

Definition attached (conn : connection) (cur : Z) (se : self) : self :=
  let pg := negb (cn_sqlite conn) in
  Self (se_linked se) (Some conn) (Some cur) (if pg then Some conn else se_pg_conn se) (if pg then Some cur else se_pg_cur se)
    (Some (make_db_wrapper conn cur)) (se_redis se).

Definition detached (se : self) : self := Self (se_linked se) None None None None None (se_redis se).
Definition with_redis (r : option Z) (se : self) : self :=
  Self (se_linked se) (se_db_conn se) (se_db_cur se) (se_pg_conn se) (se_pg_cur se) (se_db_wrapper se) r.

Section decorators.
Context {X A : Type}.
Abbreviation callp := (prog (call X)).
Abbreviation bodies := (json → callp A).

Definition on_rest {B} (m : prog X B) : callp B := zoom cl_rest (λ x s, Call (cl_self s) (cl_site s) x) m.

(** [async with pool as v: body(v)] *)
Record pool (B : Type) := Pool { pool_enter : prog X B; pool_exit : prog X () }.
Arguments Pool {B} _ _.
Arguments pool_enter {B} _.
Arguments pool_exit {B} _.

Definition async_with {B C} (p : pool B) (body : B → callp C) : callp C :=
  v ← on_rest (pool_enter p); try_finally (body v) (on_rest (pool_exit p)).

Context (main_db_pool : pool (option connection * option Z)) (cache_db_pool : option (pool (option Z))).

Definition _attach_db (conn : connection) (cur : Z) : callp () := set_self (attached conn cur).
Definition _detach_db : callp () := set_self detached.

Definition _cache_pool : callp (pool (option Z)) :=
  match cache_db_pool with
  | Some p => mret p
  | None => raise (http_error ("Cache is not configured: " +:+ sq "config['db']['redis']" +:+ " has no hostname") 5000 400)
  end.

(** The body with the service linked. *)
Definition when_linked (body : callp A) : callp A :=
  se ← get_self; if se_linked se then body else raise (http_error "Bridge handler not linked" 5000 400).

Definition in_database (func : bodies) (input_data : json) (got : option connection * option Z) : callp A :=
  match got with
  | (Some conn, Some cur) => _ ← _attach_db conn cur; try_finally (func input_data) _detach_db
  | _ => raise (http_error "Failed to connect to database server" 5000 400)
  end.

Definition with_db (func : bodies) : bodies := λ input_data,
  when_linked (async_with main_db_pool (in_database func input_data)).

Definition in_cache (body : callp A) (got : option Z) : callp A :=
  match got with
  | Some con => _ ← set_self (with_redis (Some con)); try_finally body (set_self (with_redis None))
  | None => raise (http_error "Failed to connect to cache server" 5000 400)
  end.

Definition with_cache (func : bodies) : bodies := λ input_data,
  when_linked (p ← _cache_pool; async_with p (in_cache (func input_data))).

Definition with_cache_and_db (func : bodies) : bodies := λ input_data,
  when_linked (p ← _cache_pool; async_with p (in_cache (async_with main_db_pool (in_database func input_data)))).

(** ** Transactions *)
Section transactions.
Context {D : Type} (database : X → D) (restore : D → X → X).

Definition in_transaction {B} (m : callp B) : callp B := λ w,
  match m w with
  | (w', Err e) =>
      let s := w_st w' in
      (World (Call (cl_self s) (cl_site s) (restore (database (cl_rest (w_st w))) (cl_rest s))) (w_log w') (w_clock w'), Err e)
  | r => r
  end.

Definition with_tx (func : bodies) : bodies := λ input_data,
  se ← get_self;
  match (match se_db_conn se with Some c => Some c | None => se_pg_conn se end) with
  | None => raise (http_error "Database connection not linked (db_conn missing)" 5000 400)
  | Some _ => in_transaction (func input_data)
  end.
End transactions.

(** ** Rate limits *)
Section limits.
Context {R : Type} `{Redis R} (redis_of : X → R) (put_redis : R → X → X) (up : res ()).
Context (sha256_hex : list ascii → string) (cfg : app_config) (rq : request) (throttle : throttle_config).

(** [f"{None}"] is the text None. *)
Definition address_or_none (ip : option string) : string := default "None" ip.

Definition identity_of (linked : bool) (u : option user) : string :=
  match u with
  | Some u => if negb (u_id u =? 0) then "user:" +:+ str_of_Z (u_id u) else "ip:" +:+ address_or_none (client_ip cfg rq)
  | None => if linked then "ip:" +:+ address_or_none (client_ip cfg rq) else "unknown"
  end.

(** [scope] is the class's module and name, [action_name] the function's
    action or its own name. *)
Definition rate_limit (scope action_name : string) (max_requests window_seconds : Z) (func : bodies) : bodies := λ input_data,
  se ← get_self;
  match se_redis se with
  | None => raise (raise_exn RuntimeError "@rate_limit must be applied after @with_cache or @with_cache_and_db")
  | Some _ =>
      u ← signed_in_user;
      let key := "rl:" +:+ scope +:+ ":" +:+ action_name +:+ ":" +:+ identity_of (se_linked se) u in
      attempt ← on_rest (zoom redis_of put_redis
                  (hit sha256_hex (from_config throttle).1 (from_config throttle).2 up key max_requests window_seconds));
      if negb (allowed attempt) then
        raise (http_error ("Rate limit exceeded. Try again in " +:+ str_of_Z (retry_after attempt) +:+ " seconds.") 4029 429)
      else func input_data
  end.
End limits.

(** ** Audit records *)
Record audit_record := AuditRecord {
  ar_event : string; ar_user_id : option Z; ar_details : list (string * json); ar_ip : option string; ar_user_agent : option string
}.

Section audit.
Context (cfg : app_config) (rq : request) (user_agent : option string) (record_text : audit_record → string).
Context (sink : option (db_wrapper → audit_record → callp ())).

Definition audit (event : string) (sensitive_fields : list string) (input_data : json) : callp () :=
  se ← get_self;
  match sink, se_db_wrapper se with
  | Some _, None => out "@audited with a sink requires @with_db; skipping audit"
  | _, wrapper =>
      u ← signed_in_user;
      let record := AuditRecord event (u_id <$> u) (_sanitize_input input_data sensitive_fields)
                      (if se_linked se then client_ip cfg rq else None) (if se_linked se then user_agent else None) in
      match sink, wrapper with
      | Some sink, Some wrapper => sink wrapper record
      | _, _ => out (record_text record)
      end
  end.

(** [@audited]: [name] is the function's action, or its own name. *)
Definition audited (event_type : option string) (name : string) (sensitive_fields : list string) (func : bodies) : bodies := λ input_data,
  result ← func input_data;
  _ ← try_except (audit (default name (nonempty_text event_type)) sensitive_fields input_data) is_exception
        (λ e, out ("@audited failed for event_type=" +:+ default "None" event_type +:+ ": " +:+ exn_msg e));
  mret result.
End audit.
End decorators.
Arguments Pool {X B} _ _.
Arguments pool_enter {X B} _.
Arguments pool_exit {X B} _.
