(* ===== verification/DecoratorsProps.v ===== *)
(** * What the decorators of an action promise *)

From Stdlib Require Import ZArith Lia Relations.
From S2P Require Import Throttle Redis WbcmUsers Prelude PyStr Json IpAddress ClientIp ApiKeys QueueIface Auth Handlers Actions ActionsProps Decorators.

(** ** Pagination *)

(** What is read of a client's numbers is in range, and reading only fails on
    a number that [int] overflows on. *)
Lemma pagination_bounds int_of_float d default_limit limit offset : d ≠ [] →
  parse_pagination int_of_float (Some d) default_limit = Ok (limit, offset) → 1 <= limit <= MAX_PAGE_LIMIT ∧ 0 <= offset.
Proof.
  intros Hne. unfold parse_pagination, MAX_PAGE_LIMIT. destruct d as [|kv d]; [done|]. destruct (number_or _ default_limit); [|done].
  cbn [mbind res_bind]. destruct (number_or _ 0); [|done]. cbn [mbind res_bind]. intros [= <- <-]. lia.
Qed.

(** Without input the default limit is taken as it is. *)
Example pagination_default f : parse_pagination f (Some []) 500 = Ok (500, 0) ∧ parse_pagination f (Some [("page", JInt 1)]) 500 = Ok (100, 0).
Proof. done. Qed.

(** ** Resources *)
Section resources.
Context {X A : Type} (lent : X → Z).
Context (main_db_pool : pool (X := X) (option connection * option Z)) (cache_db_pool : option (pool (X := X) (option Z))).
Implicit Types (w : world (call X)) (func : json → prog (call X) A).

(** A pool counts what it has lent: nothing when entering fails, and leaving
    takes the connection back whether or not it raises. *)
Record pool_laws {B} (p : pool (X := X) B) : Prop := {
  enter_lends (w w' : world X) v : pool_enter p w = (w', Ok v) → lent (w_st w') = lent (w_st w) + 1;
  enter_fails (w w' : world X) e : pool_enter p w = (w', Err e) → lent (w_st w') = lent (w_st w);
  exit_returns (w : world X) : lent (w_st (pool_exit p w).1) = lent (w_st w) - 1
}.

Definition keeps_lent {B} (m : prog (call X) B) : Prop := ∀ w, lent (cl_rest (w_st (m w).1)) = lent (cl_rest (w_st w)).

Lemma on_rest_run {B} (m : prog X B) w :
  on_rest m w = (let '(w', r) := m (World (cl_rest (w_st w)) (w_log w) (w_clock w)) in
                 (World (Call (cl_self (w_st w)) (cl_site (w_st w)) (w_st w')) (w_log w') (w_clock w'), r)).
Proof. done. Qed.

(** Whatever happens in the body, the connection goes back. *)
Lemma async_with_lent {B C} (p : pool B) (body : B → prog (call X) C) : pool_laws p → (∀ v, keeps_lent (body v)) → keeps_lent (async_with p body).
Proof.
  intros Hp Hb w. unfold async_with. unfold mbind, prog_bind. rewrite on_rest_run.
  destruct (pool_enter p _) as [x [v|e]] eqn:E; cbn [w_st cl_rest fst].
  2: { by apply (enter_fails _ Hp) in E. }
  apply (enter_lends _ Hp) in E. cbn [w_st] in E. unfold try_finally.
  match goal with |- context[body v ?w1] => pose proof (Hb v w1) as H1; destruct (body v w1) as [w2 r2] end. cbn [fst w_st cl_rest] in H1.
  rewrite on_rest_run. pose proof (exit_returns _ Hp (World (cl_rest (w_st w2)) (w_log w2) (w_clock w2))) as H2.
  destruct (pool_exit p _) as [w3 [|]]; cbn [fst w_st cl_rest] in *; lia.
Qed.

Lemma keeps_then {B C} (m : prog (call X) B) (k : B → prog (call X) C) : keeps_lent m → (∀ b, keeps_lent (k b)) → keeps_lent (m ≫= k).
Proof.
  intros Hm Hk w. unfold mbind, prog_bind. specialize (Hm w). destruct (m w) as [w1 [b|e]]; [|done]. cbn [fst] in Hm.
  by rewrite (Hk b w1).
Qed.

Lemma keeps_self (f : self → self) : keeps_lent (B := ()) (set_self f).
Proof. done. Qed.

Lemma keeps_finally {B} (m : prog (call X) B) (f : prog (call X) ()) : keeps_lent m → keeps_lent f → keeps_lent (try_finally m f).
Proof.
  intros Hm Hf w. unfold try_finally. specialize (Hm w). destruct (m w) as [w1 r]. cbn [fst] in Hm. specialize (Hf w1).
  destruct (f w1) as [w2 [|]]; cbn [fst] in *; congruence.
Qed.

Lemma keeps_raise {B} e : keeps_lent (B := B) (raise e).
Proof. done. Qed.

Lemma keeps_linked (body : prog (call X) A) : keeps_lent body → keeps_lent (when_linked body).
Proof. intros Hb. apply keeps_then; [done|]. intros se. by destruct (se_linked se). Qed.

Lemma keeps_in_database func d got : keeps_lent (func d) → keeps_lent (in_database func d got).
Proof.
  intros Hf. destruct got as [[conn|] [cur|]]; try apply keeps_raise. apply keeps_then; [done|]. intros []. by apply keeps_finally.
Qed.

Lemma keeps_in_cache (body : prog (call X) A) got : keeps_lent body → keeps_lent (in_cache body got).
Proof. intros Hb. destruct got; [|apply keeps_raise]. apply keeps_then; [done|]. intros []. by apply keeps_finally. Qed.

Lemma keeps_cache (body : option Z → prog (call X) A) : (∀ p, cache_db_pool = Some p → pool_laws p) → (∀ p, cache_db_pool = Some p → keeps_lent (async_with p body)) →
  keeps_lent (B := A) (p ← _cache_pool cache_db_pool; async_with p body).
Proof.
  intros Hp Hb. unfold _cache_pool. destruct cache_db_pool as [p|]; [|done]. intros w. erewrite bind_ok by done. by apply Hb.
Qed.

(** ** What is left on the service *)
Definition no_database (se : self) : Prop :=
  se_db_conn se = None ∧ se_db_cur se = None ∧ se_pg_conn se = None ∧ se_pg_cur se = None ∧ se_db_wrapper se = None.

(** A body in a pool leaves on the service what it leaves by itself. *)
Lemma async_with_self {B C} (p : pool B) (body : B → prog (call X) C) (P : self → self → Prop) :
  (∀ se, P se se) → (∀ v w, P (cl_self (w_st w)) (cl_self (w_st (body v w).1))) →
  ∀ w, P (cl_self (w_st w)) (cl_self (w_st (async_with p body w).1)).
Proof.
  intros Hr Hb w. unfold async_with, mbind, prog_bind. rewrite on_rest_run. destruct (pool_enter p _) as [x [v|e]]; [|apply Hr].
  unfold try_finally. match goal with |- context[body v ?w1] => pose proof (Hb v w1) as H1; destruct (body v w1) as [w2 r2] end.
  cbn [fst w_st cl_self] in H1. rewrite on_rest_run. by destruct (pool_exit p _) as [w3 [|]].
Qed.

Lemma linked_self (body : prog (call X) A) (P : self → self → Prop) :
  (∀ se, P se se) → (∀ w, P (cl_self (w_st w)) (cl_self (w_st (body w).1))) → ∀ w, P (cl_self (w_st w)) (cl_self (w_st (when_linked body w).1)).
Proof.
  intros Hr Hb w. unfold when_linked. erewrite bind_ok by by apply get_self_run. destruct (se_linked _); [apply Hb|apply Hr].
Qed.

(** What an attribute set by a decorator is afterwards: gone, or as it was. *)
Definition same_database (se se' : self) : Prop :=
  se_db_conn se' = se_db_conn se ∧ se_db_cur se' = se_db_cur se ∧ se_pg_conn se' = se_pg_conn se ∧ se_pg_cur se' = se_pg_cur se
  ∧ se_db_wrapper se' = se_db_wrapper se.
Definition cleared_db (se se' : self) : Prop := no_database se' ∨ se' = se.
Definition cleared_cache (se se' : self) : Prop := se_redis se' = None ∨ se' = se.
Definition cleared_both (se se' : self) : Prop := se_redis se' = None ∧ (no_database se' ∨ same_database se se') ∨ se' = se.

Lemma in_database_self func d got w : cleared_db (cl_self (w_st w)) (cl_self (w_st (in_database func d got w).1)).
Proof.
  destruct got as [[conn|] [cur|]]; try by right. left. unfold in_database. erewrite bind_ok by done. unfold try_finally.
  by destruct (func d _) as [w1 r].
Qed.

Lemma in_cache_self (body : prog (call X) A) got w : cleared_cache (cl_self (w_st w)) (cl_self (w_st (in_cache (A := A) body got w).1)).
Proof.
  destruct got; [|by right]. left. unfold in_cache. erewrite bind_ok by done. unfold try_finally. by destruct (body _) as [w1 r].
Qed.

Lemma in_both_self func d got w :
  cleared_both (cl_self (w_st w)) (cl_self (w_st (in_cache (A := A) (async_with main_db_pool (in_database func d)) got w).1)).
Proof.
  destruct got as [con|]; [|by right]. left. unfold in_cache. erewrite bind_ok by done. unfold try_finally.
  match goal with |- context[async_with _ _ ?v] =>
    assert (H : cleared_db (cl_self (w_st v)) (cl_self (w_st (async_with main_db_pool (in_database func d) v).1)))
      by (apply (async_with_self _ _ cleared_db); [by right|]; intros; apply in_database_self);
    destruct (async_with _ _ v) as [w1 r]
  end. destruct H as [H|H]; (split; [done|]); [by left|right]. cbn [fst] in H. simpl. by rewrite H.
Qed.

(** A body in the cache's pool, behind the check that there is a service and a pool. *)
Lemma cache_self (body : option Z → prog (call X) A) (P : self → self → Prop) :
  (∀ se, P se se) → (∀ v w, P (cl_self (w_st w)) (cl_self (w_st (body v w).1))) →
  ∀ w, P (cl_self (w_st w)) (cl_self (w_st (when_linked (p ← _cache_pool cache_db_pool; async_with p body) w).1)).
Proof.
  intros Hr Hb. apply (linked_self _ P Hr). intros w. unfold _cache_pool. destruct cache_db_pool as [p|]; [|apply Hr].
  erewrite bind_ok by done. by apply (async_with_self _ _ P).
Qed.

(** ** How the action runs *)

(** The service and the rest of the world a body starts in. *)
Definition with_rest (x : world X) (f : self → self) w : world (call X) :=
  World (Call (f (cl_self (w_st w))) (cl_site (w_st w)) (w_st x)) (w_log x) (w_clock x).

Definition rest_of w : world X := World (cl_rest (w_st w)) (w_log w) (w_clock w).

(** A run, [f] done to its service, the connection of [p] given back after
    it: the outcome is the run's, unless giving back raises. *)
Definition on_service (f : self → self) (run : world (call X) * res A) : world (call X) * res A := (with_rest (rest_of run.1) f run.1, run.2).

Definition given_back {B} (p : pool (X := X) B) (run : world (call X) * res A) : world (call X) * res A :=
  let '(x, r) := pool_exit p (rest_of run.1) in
  (with_rest x id run.1, match r with Ok _ => run.2 | Err e => Err e end).

Lemma async_with_runs {B} (p : pool (X := X) B) (body : B → prog (call X) A) w x v :
  pool_enter p (rest_of w) = (x, Ok v) → async_with p body w = given_back p (body v (with_rest x id w)).
Proof.
  intros E. unfold async_with, mbind, prog_bind. rewrite on_rest_run. unfold rest_of in E. rewrite E. unfold given_back, try_finally, with_rest.
  cbn [w_st w_log w_clock id]. destruct (body v _) as [w2 r2]. rewrite on_rest_run. unfold rest_of. cbn [fst snd].
  by destruct (pool_exit p _) as [w3 [|]].
Qed.

Lemma in_database_runs func d conn cur w :
  in_database func d (Some conn, Some cur) w = on_service detached (func d (with_rest (rest_of w) (attached conn cur) w)).
Proof.
  unfold in_database. erewrite bind_ok by done. unfold try_finally, on_service, with_rest, rest_of, _detach_db, set_self, stmt. cbn [w_st w_log w_clock].
  by destruct (func d _) as [w1 r].
Qed.

Lemma in_cache_runs (body : prog (call X) A) con w :
  in_cache body (Some con) w = on_service (with_redis None) (body (with_rest (rest_of w) (with_redis (Some con)) w)).
Proof.
  unfold in_cache. erewrite bind_ok by done. unfold try_finally, on_service, with_rest, rest_of, set_self, stmt. cbn [w_st w_log w_clock].
  by destruct (body _) as [w1 r].
Qed.

Lemma when_linked_runs (body : prog (call X) A) w : se_linked (cl_self (w_st w)) = true → when_linked body w = body w.
Proof. intros Hl. unfold when_linked. erewrite bind_ok by by apply get_self_run. by rewrite Hl. Qed.

Lemma cache_runs p (body : option Z → prog (call X) A) w : cache_db_pool = Some p →
  (p ← _cache_pool cache_db_pool; async_with p body) w = async_with p body w.
Proof. intros Hp. unfold _cache_pool. rewrite Hp. by erewrite bind_ok by done. Qed.

(** C36: [with_db], [with_cache] and [with_cache_and_db] give back every
    connection they take, however the action ends. Afterwards each attribute
    they set on the service is gone, or the service is as it was because
    nothing was attached. An action that gets its connections runs with
    exactly those attached, then the attributes go and the connections are
    given back, the inner one first, and its outcome is the outcome of the
    call unless giving back raises. *)
Theorem resources_returned func d :
  pool_laws main_db_pool → (∀ p, cache_db_pool = Some p → pool_laws p) → keeps_lent (func d) →
  (keeps_lent (with_db main_db_pool func d) ∧ keeps_lent (with_cache cache_db_pool func d)
   ∧ keeps_lent (with_cache_and_db main_db_pool cache_db_pool func d))
  ∧ (∀ w, cleared_db (cl_self (w_st w)) (cl_self (w_st (with_db main_db_pool func d w).1))
        ∧ cleared_cache (cl_self (w_st w)) (cl_self (w_st (with_cache cache_db_pool func d w).1))
        ∧ cleared_both (cl_self (w_st w)) (cl_self (w_st (with_cache_and_db main_db_pool cache_db_pool func d w).1)))
  ∧ ∀ w, se_linked (cl_self (w_st w)) = true →
      (∀ x conn cur, pool_enter main_db_pool (rest_of w) = (x, Ok (Some conn, Some cur)) →
         with_db main_db_pool func d w
         = given_back main_db_pool (on_service detached (func d (with_rest x (attached conn cur) w))))
    ∧ (∀ p x con, cache_db_pool = Some p → pool_enter p (rest_of w) = (x, Ok (Some con)) →
         with_cache cache_db_pool func d w
         = given_back p (on_service (with_redis None) (func d (with_rest x (with_redis (Some con)) w))))
    ∧ (∀ p x con y conn cur, cache_db_pool = Some p → pool_enter p (rest_of w) = (x, Ok (Some con)) →
         pool_enter main_db_pool x = (y, Ok (Some conn, Some cur)) →
         with_cache_and_db main_db_pool cache_db_pool func d w
         = given_back p (on_service (with_redis None) (given_back main_db_pool (on_service detached
             (func d (with_rest y (λ se, attached conn cur (with_redis (Some con) se)) w)))))).
Proof.
  intros Hmain Hcache Hf. assert (Hdb : keeps_lent (async_with main_db_pool (in_database func d))).
  { apply async_with_lent; [done|]. intros v. by apply keeps_in_database. }
  split; [split; [|split]|split].
  - by apply keeps_linked.
  - apply keeps_linked, keeps_cache; [done|]. intros p Hp. apply async_with_lent; [by apply Hcache|]. intros v. by apply keeps_in_cache.
  - apply keeps_linked, keeps_cache; [done|]. intros p Hp. apply async_with_lent; [by apply Hcache|]. intros v. by apply keeps_in_cache.
  - intros w. split; [|split].
    + apply (linked_self _ cleared_db); [by right|]. apply (async_with_self _ _ cleared_db); [by right|]. intros v v'. apply in_database_self.
    + apply (cache_self _ cleared_cache); [by right|]. intros *. apply in_cache_self.
    + apply (cache_self _ cleared_both); [by right|]. intros *. apply in_both_self.
  - intros w Hl. split; [|split].
    + intros x conn cur E. unfold with_db. rewrite when_linked_runs by done. erewrite async_with_runs by exact E. by rewrite in_database_runs.
    + intros p x con Hp E. unfold with_cache. rewrite when_linked_runs by done. rewrite (cache_runs _ _ _ Hp). erewrite async_with_runs by exact E.
      by rewrite in_cache_runs.
    + intros p x con y conn cur Hp E E2. unfold with_cache_and_db. rewrite when_linked_runs by done. rewrite (cache_runs _ _ _ Hp).
      erewrite async_with_runs by exact E. rewrite in_cache_runs. erewrite async_with_runs by (destruct x; exact E2). by rewrite in_database_runs.
Qed.
End resources.

(** ** Limits and records *)
Section wrapped.
Context {X A : Type}.
Implicit Types (w : world (call X)) (func : json → prog (call X) A).

(** A call counts before it runs, and runs exactly when it is within the
    limit. *)
Lemma rate_limit_spec {R} `{Redis R} redis_of put_redis up sha256_hex cfg rq throttle scope name n window func d w con x attempt :
  se_linked (cl_self (w_st w)) = true → se_redis (cl_self (w_st w)) = Some con →
  let key := "rl:" +:+ scope +:+ ":" +:+ name +:+ ":" +:+ identity_of cfg rq true (caller w) in
  on_rest (zoom redis_of put_redis (hit sha256_hex (from_config throttle).1 (from_config throttle).2 up key n window)) (remembered w) = (x, Ok attempt) →
  rate_limit redis_of put_redis up sha256_hex cfg rq throttle scope name n window func d w
  = if allowed attempt then func d x
    else (x, Err (http_error ("Rate limit exceeded. Try again in " +:+ str_of_Z (retry_after attempt) +:+ " seconds.") 4029 429)).
Proof.
  intros Hl Hr key E. unfold rate_limit. erewrite bind_ok by by apply get_self_run. rewrite Hr, Hl. cbn match.
  erewrite bind_ok by by apply signed_in_spec. cbv zeta. fold key. erewrite bind_ok by exact E. by destruct (allowed attempt).
Qed.

(** The fields of a record: what is to be kept out of it does not count. *)
Definition same_but (fields : list string) (d1 d2 : json) : Prop :=
  match d1, d2 with
  | JObj m1, JObj m2 => Forall2 (λ a b, a.1 = b.1 ∧ (existsb (String.eqb a.1) fields = false → a.2 = b.2)) m1 m2
  | JObj _, _ | _, JObj _ => False
  | _, _ => True
  end.

Lemma sanitize_same fields d1 d2 : same_but fields d1 d2 → _sanitize_input d1 fields = _sanitize_input d2 fields.
Proof.
  destruct d1, d2; try done. simpl. induction 1 as [|[k1 v1] [k2 v2] m1 m2 [Hk Hv] Hm IH]; [done|]. cbn [map fst snd] in *. subst k2.
  rewrite IH. destruct (existsb _ fields); [done|]. by rewrite Hv.
Qed.

(** An audited action ends as the action itself does: one that raises is
    not recorded, and one that returns gives its result whatever happens to
    the record, unless the process is being stopped. The record is the same
    whatever the input holds under the sensitive fields. *)
Theorem audited_outcome cfg rq ua record_text sink event name fields func d w :
  let audited := audited cfg rq ua record_text sink event name fields func in
  match func d w with
  | (w1, Err e) => audited d w = (w1, Err e)
  | (w1, Ok a) => (audited d w).2 = Ok a ∨ ∃ e, (audited d w).2 = Err e ∧ is_exception e = false
  end
  ∧ ∀ d2, same_but fields d d2 → audit cfg rq ua record_text sink (default name (nonempty_text event)) fields d
                               = audit cfg rq ua record_text sink (default name (nonempty_text event)) fields d2 (X := X).
Proof.
  intros audited. split.
  - unfold audited, Decorators.audited. destruct (func d w) as [w1 [a|e]] eqn:E; [|by erewrite bind_err by exact E].
    erewrite bind_ok by exact E. unfold mbind, prog_bind, try_except. destruct (audit _ _ _ _ _ _ _ _ w1) as [w2 [[]|e]]; [by left|].
    destruct (is_exception e) eqn:He; [by left|]. right. by exists e.
  - intros d2 Hs. unfold audit. by rewrite (sanitize_same _ _ _ Hs).
Qed.
End wrapped.

(** Nested: a decorated action that calls another takes its connection away
    and goes on without one. *)
Section nested.
Definition w_pool : pool (X := Z) (option connection * option Z) :=
  Pool (n ← get_st; _ ← set_st (n + 1); mret (Some (Conn n false), Some n)) (n ← get_st; set_st (n - 1)).

Definition w_inner : json → prog (call Z) (option Z) := with_db w_pool (λ _, se ← get_self; mret (se_db_cur se)).
Definition w_outer : json → prog (call Z) (option Z) := with_db w_pool (λ d, _ ← w_inner d; se ← get_self; mret (se_db_cur se)).

Definition w_start : world (call Z) :=
  World (Call (Self true None None None None None None) (Site new_handler (KeyTable [] 1) [] WbcmUsers.__init__) 0) [] 0.

Example nested_loses_database : (w_inner JNull w_start).2 = Ok (Some 0) ∧ (w_outer JNull w_start).2 = Ok None.
Proof. by vm_compute. Qed.

(** A pool whose connections cannot be given back without an error. *)
Definition w_broken : pool (X := Z) (option Z) := Pool (n ← get_st; _ ← set_st (n + 1); mret (Some n)) (n ← get_st; _ ← set_st (n - 1); raise (raise_exn RedisError "gone")).

Lemma w_pool_laws : pool_laws (λ n, n) w_pool.
Proof. split; [by intros * [= <- <-]|done|done]. Qed.
Lemma w_broken_laws : pool_laws (λ n, n) w_broken.
Proof. split; [by intros * [= <- <-]|done|done]. Qed.

Definition w_fails : json → prog (call Z) (option Z) := λ _, raise (raise_exn ValueError "no").

(** An action that reports what it was given. *)
Definition w_reports : json → prog (call Z) (option Z * option Z) := λ _, se ← get_self; mret (se_db_cur se, se_redis se).
Definition w_cache : pool (X := Z) (option Z) := Pool (n ← get_st; _ ← set_st (n + 1); mret (Some (n + 100))) (n ← get_st; set_st (n - 1)).

Lemma w_cache_laws : pool_laws (λ n, n) w_cache.
Proof. split; [by intros * [= <- <-]|done|done]. Qed.

Lemma resources_returned_witness :
  cl_rest (w_st (with_cache_and_db w_pool (Some w_broken) w_fails JNull w_start).1) = 0
  ∧ cleared_both (cl_self (w_st w_start)) (cl_self (w_st (with_cache_and_db w_pool (Some w_broken) w_fails JNull w_start).1))
  ∧ (with_db w_pool w_reports JNull w_start).2 = Ok (Some 0, None)
  ∧ (with_cache (Some w_cache) w_reports JNull w_start).2 = Ok (None, Some 100)
  ∧ (with_cache_and_db w_pool (Some w_cache) w_reports JNull w_start).2 = Ok (Some 1, Some 100)
  ∧ (with_db w_pool w_fails JNull w_start).2 = Err (raise_exn ValueError "no").
Proof.
  assert (Hb : ∀ p, Some w_broken = Some p → pool_laws (λ n, n) p) by (intros p [= <-]; exact w_broken_laws).
  assert (Hc : ∀ p, Some w_cache = Some p → pool_laws (λ n, n) p) by (intros p [= <-]; exact w_cache_laws).
  assert (Hi : keeps_lent (λ n : Z, n) (w_reports JNull)) by (intros w; reflexivity).
  assert (Hf : keeps_lent (λ n : Z, n) (w_fails JNull)) by (intros w; reflexivity).
  pose proof (resources_returned (λ n, n) w_pool (Some w_broken) w_fails JNull w_pool_laws Hb Hf) as ((_ & _ & H2) & Ha & Hr).
  pose proof (resources_returned (λ n, n) w_pool (Some w_cache) w_reports JNull w_pool_laws Hc Hi) as (_ & _ & Ho).
  destruct (Ho w_start eq_refl) as (Ho1 & Ho2 & Ho3). destruct (Hr w_start eq_refl) as (Hr1 & _).
  split; [exact (H2 w_start)|]. split; [exact (proj2 (proj2 (Ha w_start)))|].
  split; [rewrite (Ho1 (World 1 [] 0) (Conn 0 false) 0 eq_refl); vm_compute; reflexivity|].
  split; [rewrite (Ho2 w_cache (World 1 [] 0) 100 eq_refl eq_refl); vm_compute; reflexivity|].
  split; [rewrite (Ho3 w_cache (World 1 [] 0) 100 (World 2 [] 0) (Conn 1 false) 1 eq_refl eq_refl eq_refl); vm_compute; reflexivity|].
  rewrite (Hr1 (World 1 [] 0) (Conn 0 false) 0 eq_refl). vm_compute. reflexivity.
Defined.

(** A sink that is down, and a password. *)
Definition w_sink : db_wrapper → audit_record → prog (call Z) () := λ _ _, raise (raise_exn PsycopgError "down").
Definition w_config : app_config := AppConfig false [] "" "" [] true.
Definition w_request : request := Request None None None None None.
Definition w_input (password : string) : json := JObj [("email", JStr "a@b.c"); ("password", JStr password)].

Lemma audited_outcome_witness :
  let run := audited w_config w_request None (λ _, "record") (Some w_sink) (Some "users.create") "create" ["password"] (λ d, mret (Some 7)) in
  let event := audit w_config w_request None (λ _, "record") (Some w_sink) "users.create" ["password"] in
  ((run (w_input "x") w_start).2 = Ok (Some 7) ∨ ∃ e, (run (w_input "x") w_start).2 = Err e ∧ is_exception e = false)
  ∧ event (w_input "x") = event (w_input "y")
  ∧ _sanitize_input (w_input "x") ["password"] = [("email", JStr "a@b.c"); ("password", JStr "***")].
Proof.
  intros run event.
  assert (Hs : same_but ["password"] (w_input "x") (w_input "y")).
  { constructor; [by split|]. constructor; [|constructor]. split; [done|]. vm_compute. discriminate. }
  pose proof (audited_outcome w_config w_request None (λ _, "record") (Some w_sink) (Some "users.create") "create" ["password"]
    (λ d, mret (Some 7)) (w_input "x") w_start) as [H1 H2].
  split; [exact H1|]. split; [exact (H2 _ Hs)|]. vm_compute. reflexivity.
Defined.
End nested.
