(* ===== verification/Config.v ===== *)
(** * Configuration from the environment

    [config.py]: variables of the environment laid over the defaults of the
    project. The environment is what it is once [load_dotenv] has run, in its
    order; values are trees, so two sections of the defaults that are one
    object in memory are two here. *)

From Stdlib Require Import ZArith Lia Relations.
From S2P Require Import Prelude PyStr Json.

(** [value.isdigit() and str(int(value)) == value]; a number [int] refuses
    for its length raises. *)
Definition coerce_value (value : json) : res json :=
  match value with
  | JStr s =>
      if isdigit s then n ← int_of_str s; Ok (if String.eqb (str_of_Z n) s then JInt n else value)
      else Ok value
  | _ => Ok value
  end.

(** The dictionary as the call leaves it, and its outcome. *)
Fixpoint replace_rec (keys : list string) (finalDict : list (string * json)) (finalValue : json) : list (string * json) * res () :=
  match keys with
  | [] => (finalDict, Err (raise_exn IndexError "pop from empty list"))
  | key :: keys =>
      match keys with
      | [] =>
          match coerce_value finalValue with
          | Ok v => (dict_set key v finalDict, Ok ())
          | Err e => (finalDict, Err e)
          end
      | _ =>
          let d := match dict_get key finalDict with None => dict_set key (JObj []) finalDict | Some _ => finalDict end in
          match dict_get key d with
          | Some (JObj sub) => let '(sub, r) := replace_rec keys sub finalValue in (dict_set key (JObj sub) d, r)
          | _ => (d, Err (raise_exn ValueError ("Cannot descend into non-dict config key '" +:+ key +:+ "': it already holds a scalar value")))
          end
      end
  end.

Definition csv_strip (a : ascii) : bool := existsb (Ascii.eqb a) [" "; "013"; "010"; "009"; "092"]%char.

Definition parse_splitted_values (value : string) (separator : ascii) : list string :=
  List.filter (λ item, negb (String.eqb item "") && negb (startswith "#" item)) (map (strip_by csv_strip) (split separator value)).

Definition is_env (env : string) (config : list (string * json)) : bool :=
  match default (JStr "") (dict_get "environment" config) with JStr s => String.eqb env s | _ => false end.

Definition is_env_dev := is_env "dev".
Definition is_env_test := is_env "test".
Definition is_env_prod := is_env "prod".

(** A variable's path in the configuration. *)
Definition path_of (key : string) : list string := map lower (split "_"%char key).

(** [config_dict.get(keys[0], None) is None] *)
Definition has_section (keys : list string) (config : list (string * json)) : bool :=
  match keys with
  | [] => false
  | key :: _ => match dict_get key config with None | Some JNull => false | Some _ => true end
  end.

Definition new_value (split_value_keys : list string) (key value : string) : json :=
  if existsb (String.eqb key) split_value_keys then JList (map JStr (parse_splitted_values value ","%char)) else JStr value.

Section load.
Context {S : Type}.

Fixpoint load_env (environ : list (string * string)) (split_value_keys : list string) (config : list (string * json)) : prog S (list (string * json)) :=
  match environ with
  | [] => mret config
  | (key, value) :: environ =>
      if has_section (path_of key) config then
        let '(config, r) := replace_rec (path_of key) config (new_value split_value_keys key value) in
        match r with
        | Ok _ => load_env environ split_value_keys config
        | Err e =>
            if is_class ValueError e then
              _ ← out ("Ignoring env var " +:+ key +:+ ": " +:+ exn_msg e);
              load_env environ split_value_keys config
            else raise e
        end
      else load_env environ split_value_keys config
  end.

Definition load_config (environ : list (string * string)) (defaults : list (string * json)) (split_value_keys : list string) : prog S (list (string * json)) :=
  match dict_get "APP_ENV" environ with
  | None | Some EmptyString =>
      _ ← out "It seems that `.env` file is not loaded"; raise (system_exit (-1))
  | Some appEnv => load_env environ split_value_keys (dict_set "environment" (JStr appEnv) defaults)
  end.
End load.

(** ** Paths *)

(** The value at a path. *)
Fixpoint get_path (keys : list string) (v : json) : option json :=
  match keys with
  | [] => Some v
  | key :: keys => match v with JObj d => dict_get key d ≫= get_path keys | _ => None end
  end.

(** Neither path leads through the other. *)
Fixpoint apart (p q : list string) : bool :=
  match p, q with
  | a :: p, b :: q => if String.eqb a b then apart p q else true
  | _, _ => false
  end.

(** No value other than a section is in the way. *)
Fixpoint open_path (keys : list string) (d : list (string * json)) : bool :=
  match keys with
  | [] => false
  | key :: keys =>
      match keys with
      | [] => true
      | _ => match dict_get key d with None => true | Some (JObj sub) => open_path keys sub | Some _ => false end
      end
  end.
