(* ===== verification/ConfigProps.v ===== *)
(** * What loading the configuration promises *)

From Stdlib Require Import ZArith Lia Relations.
From S2P Require Import Prelude PyStr Json Config.

Lemma apart_cons a b p q : apart (a :: p) (b :: q) = if String.eqb a b then apart p q else true.
Proof. done. Qed.

Lemma apart_nil_r p : apart p [] = false.
Proof. by destruct p. Qed.

Lemma dict_set_twice key x v (d : list (string * json)) : dict_set key v (dict_set key x d) = dict_set key v d.
Proof.
  induction d as [|[k u] d IH]; cbn [dict_set]; [by rewrite decide_True|].
  case_decide; cbn [dict_set]; [by rewrite decide_True|]. rewrite decide_False by done. by rewrite IH.
Qed.

(** The value at the end of a path, [r] laid over what was there. *)
Definition at_end (r : res json) (before : option json) : option json := match r with Ok v => Some v | Err _ => before end.

(** An open path ends in the value, or in what was there when the value
    cannot be read, and nothing apart from it changes. *)
Lemma replace_open keys : ∀ d v, open_path keys d = true →
  ∃ d', replace_rec keys d v = (d', match coerce_value v with Ok _ => Ok () | Err e => Err e end)
      ∧ get_path keys (JObj d') = at_end (coerce_value v) (get_path keys (JObj d))
      ∧ ∀ q, apart q keys = true → get_path q (JObj d') = get_path q (JObj d).
Proof.
  induction keys as [|key keys IH]; intros d v Ho; [done|]. destruct keys as [|k2 keys].
  - cbn [replace_rec]. destruct (coerce_value v) as [v'|e]; [|by exists d]. exists (dict_set key v' d). split; [done|].
    split; [cbn [get_path]; by rewrite dict_get_set, decide_True|].
    intros [|a q] Ha; [done|]. rewrite apart_cons in Ha. destruct (String.eqb_spec a key) as [|Hne]; [by rewrite apart_nil_r in Ha|].
    cbn [get_path]. by rewrite dict_get_set, decide_False by congruence.
  - remember (k2 :: keys) as rest eqn:Hrest.
    (* the sub-dictionary, as it is or new *)
    assert (Hsub : ∃ sub, open_path rest sub = true
      ∧ (dict_get key d = Some (JObj sub) ∨ dict_get key d = None ∧ sub = [])
      ∧ ∀ sub' r, replace_rec rest sub v = (sub', r) → replace_rec (key :: rest) d v = (dict_set key (JObj sub') d, r)).
    { cbn [open_path] in Ho. rewrite Hrest in Ho. rewrite <- Hrest in Ho. destruct (dict_get key d) as [[| | | | | |sub|]|] eqn:G; try done.
      - exists sub. split; [done|]. split; [by left|]. intros sub' r E. cbn [replace_rec]. rewrite Hrest. rewrite <- Hrest, G, G, E. done.
      - exists []. split; [subst; cbn [open_path]; by destruct keys|]. split; [by right|]. intros sub' r E. cbn [replace_rec]. rewrite Hrest. rewrite <- Hrest, G.
        rewrite dict_get_set, decide_True by done. rewrite E. by rewrite dict_set_twice. }
    destruct Hsub as (sub & Hos & Hd & Hrec). destruct (IH sub v Hos) as (sub' & E & Hget & Hq). exists (dict_set key (JObj sub') d).
    split; [by apply Hrec|]. split.
    + cbn [get_path]. rewrite dict_get_set, decide_True by done. cbn [mbind option_bind]. rewrite Hget.
      destruct Hd as [-> |[-> ->]]; [done|]. by subst rest.
    + intros [|a q] Ha; [done|]. rewrite apart_cons in Ha. cbn [get_path]. rewrite dict_get_set.
      destruct (String.eqb_spec a key) as [->|Hne]; [|by rewrite decide_False by congruence]. rewrite decide_True by done.
      cbn [mbind option_bind]. rewrite (Hq q Ha). destruct Hd as [-> |[-> ->]]; [done|]. destruct q as [|b q]; [by subst|done].
Qed.

(** One that is not is left alone. *)
Lemma replace_closed keys : ∀ d v, keys ≠ [] → open_path keys d = false →
  ∃ e, replace_rec keys d v = (d, Err e) ∧ is_class ValueError e = true.
Proof.
  induction keys as [|key keys IH]; intros d v Hne Ho; [done|]. destruct keys as [|k2 keys]; [done|]. remember (k2 :: keys) as rest eqn:Hrest.
  cbn [open_path] in Ho. rewrite Hrest in Ho. rewrite <- Hrest in Ho. cbn [replace_rec]. rewrite Hrest. rewrite <- Hrest.
  destruct (dict_get key d) as [x|] eqn:G; [|done]. rewrite G. destruct x; try by eexists. destruct (IH d0 v) as (e & E & He); [by subst|done|].
  rewrite E. rewrite dict_set_same by done. by eexists.
Qed.

(** All that reading a value raises. *)
Lemma coerce_raises v e : coerce_value v = Err e → is_class ValueError e = true.
Proof.
  destruct v; try done. cbn [coerce_value]. destruct (isdigit s); [|done]. unfold int_of_str.
  destruct (match chars (strip s) with "-"%char :: r => (-1, r) | "+"%char :: r => (1, r) | _ => (1, chars (strip s)) end) as [sign body].
  destruct (grouped_digits body) as [ds|]; [destruct (Nat.leb _ _)|]; cbn [mbind res_bind]; try done; by intros [= <-].
Qed.

Lemma path_nonempty key : path_of key ≠ [].
Proof. unfold path_of, split. destruct (chars key) as [|a l]; [done|]. simpl. destruct (Ascii.eqb a "_"); [done|]. by destruct (split_chars _ l). Qed.

Section load.
Context {S : Type} (split_value_keys : list string).
Implicit Types (w : world S) (config : list (string * json)).
Abbreviation value_of key value := (new_value split_value_keys key value).

(** What one variable does to a configuration, and whether it is reported as
    ignored. One whose section is not there, or whose path leads through a
    value that is no section, changes nothing at all. Any other puts its
    value at its path, and what is apart from the path stays; a value that is
    a number too long to read is not put. *)
Definition laid (key value : string) config config' (reported : bool) : Prop :=
  let p := path_of key in
  if has_section p config then
    if open_path p config then
      let read := coerce_value (value_of key value) in
      reported = negb (is_ok read)
      ∧ get_path p (JObj config') = at_end read (get_path p (JObj config))
      ∧ ∀ q, apart q p = true → get_path q (JObj config') = get_path q (JObj config)
    else reported = true ∧ config' = config
  else reported = false ∧ config' = config.

(** The variables one after another, with the names of the ignored ones. *)
Inductive laid_over : list (string * string) → list (string * json) → list (string * json) → list string → Prop :=
| laid_none config : laid_over [] config config []
| laid_then key value environ config config1 config2 (reported : bool) ignored :
    laid key value config config1 reported → laid_over environ config1 config2 ignored →
    laid_over ((key, value) :: environ) config config2 (if reported then key :: ignored else ignored).

Lemma laid_apart key value config config' reported q :
  laid key value config config' reported → apart q (path_of key) = true → get_path q (JObj config') = get_path q (JObj config).
Proof.
  unfold laid. destruct (has_section _ _); [|by intros [_ ->]]. destruct (open_path _ _); [|by intros [_ ->]].
  intros (_ & _ & H). apply H.
Qed.

Lemma laid_over_apart environ config config' ignored q : laid_over environ config config' ignored →
  Forall (λ kv : string * string, apart q (path_of kv.1) = true) environ → get_path q (JObj config') = get_path q (JObj config).
Proof.
  induction 1 as [|key value environ config config1 config2 reported ignored H1 H2 IH]; [done|]. intros [Ha Hr]%Forall_cons.
  rewrite (IH Hr). by eapply laid_apart.
Qed.

Lemma laid_over_split before key value after : ∀ config config' ignored, laid_over (before ++ (key, value) :: after) config config' ignored →
  ∃ c1 c2 i1 reported i2, laid_over before config c1 i1 ∧ laid key value c1 c2 reported ∧ laid_over after c2 config' i2.
Proof.
  induction before as [|[k v] before IH]; intros config config' ignored H; inversion H; subst.
  - eexists _, _, _, _, _. split; [constructor|]. by split.
  - match goal with H1 : laid k v _ _ _, H2 : laid_over (before ++ _) _ _ _ |- _ =>
      destruct (IH _ _ _ H2) as (c1 & c2 & i1 & r & i2 & Hb & Ho & Ha); eexists c1, c2, _, r, i2; split; [exact (laid_then _ _ _ _ _ _ _ _ H1 Hb)|]; by split
    end.
Qed.

(** A line for each. *)
Definition notes (ignored lines : list string) : Prop :=
  Forall2 (λ key line, ∃ why, line = "Ignoring env var " +:+ key +:+ ": " +:+ why) ignored lines.

Lemma load_env_laid environ : ∀ config w, ∃ w' config' ignored lines,
  load_env environ split_value_keys config w = (w', Ok config') ∧ laid_over environ config config' ignored
  ∧ w_log w' = w_log w ++ lines ∧ notes ignored lines.
Proof.
  assert (Hstep : ∀ key value environ config config1 w,
    (∀ config w, ∃ w' config' ignored lines, load_env environ split_value_keys config w = (w', Ok config') ∧ laid_over environ config config' ignored
       ∧ w_log w' = w_log w ++ lines ∧ notes ignored lines) →
    ∀ reported e, laid key value config config1 reported → is_class ValueError e = true → ∃ w' config' ignored lines,
    (if reported then _ ← out ("Ignoring env var " +:+ key +:+ ": " +:+ exn_msg e); load_env environ split_value_keys config1
     else load_env environ split_value_keys config1) w = (w', Ok config') ∧ laid_over ((key, value) :: environ) config config' ignored
    ∧ w_log w' = w_log w ++ lines ∧ notes ignored lines).
  { intros key value env config config1 w IH reported e Hl He. destruct reported.
    - erewrite bind_ok by done.
      destruct (IH config1 (World (w_st w) (w_log w ++ ["Ignoring env var " +:+ key +:+ ": " +:+ exn_msg e]) (w_clock w))) as (w' & c & i & l & E & H & Hw & Hn).
      exists w', c, (key :: i), (("Ignoring env var " +:+ key +:+ ": " +:+ exn_msg e) :: l). split; [exact E|].
      split; [exact (laid_then _ _ _ _ _ _ true _ Hl H)|]. split; [rewrite Hw; cbn [w_log]; by rewrite <- app_assoc|].
      constructor; [by eexists|done].
    - destruct (IH config1 w) as (w' & c & i & l & E & H & Hw & Hn). exists w', c, i, l. split; [exact E|].
      split; [exact (laid_then _ _ _ _ _ _ false _ Hl H)|]. by split. }
  induction environ as [|[key value] environ IH]; intros config w.
  { exists w, config, [], []. split; [done|]. split; [constructor|]. split; [by rewrite app_nil_r|constructor]. }
  pose proof (Hstep key value environ config) as Hs. cbn [load_env]. unfold laid in Hs.
  destruct (has_section (path_of key) config); [|by apply (Hs config w IH false (raise_exn ValueError ""))].
  destruct (open_path (path_of key) config) eqn:Ho.
  - destruct (replace_open _ _ (value_of key value) Ho) as (config1 & E & Hg & Hq). rewrite E.
    destruct (coerce_value (value_of key value)) as [v|e] eqn:Hc.
    + by apply (Hs config1 w IH false (raise_exn ValueError "")).
    + rewrite (coerce_raises _ _ Hc). apply (Hs config1 w IH true e); [done|]. by eapply coerce_raises.
  - destruct (replace_closed (path_of key) config (value_of key value) (path_nonempty key) Ho) as (e & E & He). rewrite E, He.
    by apply (Hs config w IH true e).
Qed.

(** C37: Loading the configuration stops with code -1 without APP_ENV, and
    otherwise always returns: the defaults with APP_ENV as the environment,
    the variables laid over them one after another, each as [laid] says, and
    one note for each that is ignored. So a path no variable leads to or
    through is as the defaults have it; and what a variable decides stands
    when the later ones are apart from it. *)
Theorem config_loaded environ defaults w :
  match dict_get "APP_ENV" environ with
  | None | Some EmptyString => (load_config environ defaults split_value_keys w).2 = Err (system_exit (-1))
  | Some appEnv =>
      let start := dict_set "environment" (JStr appEnv) defaults in
      ∃ w' config ignored lines, load_config environ defaults split_value_keys w = (w', Ok config)
        ∧ laid_over environ start config ignored
        ∧ (w_log w' = w_log w ++ lines ∧ notes ignored lines)
        ∧ (∀ q, Forall (λ kv : string * string, apart q (path_of kv.1) = true) environ → get_path q (JObj config) = get_path q (JObj start))
        ∧ ∀ before key value after, environ = before ++ (key, value) :: after →
            Forall (λ kv : string * string, apart (path_of key) (path_of kv.1) = true) after →
            ∃ found i, laid_over before start found i
              ∧ get_path (path_of key) (JObj config)
                = if has_section (path_of key) found && open_path (path_of key) found
                  then at_end (coerce_value (value_of key value)) (get_path (path_of key) (JObj found))
                  else get_path (path_of key) (JObj found)
  end.
Proof.
  unfold load_config. destruct (dict_get "APP_ENV" environ) as [[|a s]|]; [done| |done].
  cbv zeta. set (start := dict_set "environment" _ defaults). destruct (load_env_laid environ start w) as (w' & config & ignored & lines & E & Hl & Hn).
  exists w', config, ignored, lines. split; [done|]. split; [done|]. split; [done|]. split; [intros q Ha; by eapply laid_over_apart|].
  intros before key value after -> Ha. apply laid_over_split in Hl as (found & c2 & i1 & reported & i2 & Hb & Hk & Hafter).
  exists found, i1. split; [done|]. rewrite (laid_over_apart _ _ _ _ _ Hafter Ha). unfold laid in Hk.
  destruct (has_section _ found); [|by destruct Hk as [_ ->]]. destruct (open_path _ found); [|by destruct Hk as [_ ->]]. by destruct Hk as (_ & Hk & _).
Qed.
End load.

(** A variable of the name decides over APP_ENV, and one named after a
    section replaces all of it. *)
Example named_like_a_section :
  (load_config [("APP_ENV", "prod"); ("ENVIRONMENT", "dev"); ("DB", "1")] [("db", JObj [("main", JObj [])])] [] (World () [] 0)).2
  = Ok [("db", JInt 1); ("environment", JStr "dev")].
Proof. by vm_compute. Qed.

(** A variable whose path runs through a value of the defaults. *)
Example refused_changes_nothing :
  let defaults := [("api", JObj [("key", JStr "k")])] in
  let w0 := World () [] 0 in
  (load_config [("APP_ENV", "test"); ("API_KEY_PEPPER", "p")] defaults [] w0).2 = Ok (defaults ++ [("environment", JStr "test")])
  ∧ w_log (load_config [("APP_ENV", "test"); ("API_KEY_PEPPER", "p")] defaults [] w0).1
    = ["Ignoring env var API_KEY_PEPPER: Cannot descend into non-dict config key 'key': it already holds a scalar value"].
Proof. by vm_compute. Qed.

Lemma config_loaded_witness :
  let environ := [("APP_ENV", "test"); ("DB_MAIN_PORT", "5433"); ("API_KEY_PEPPER", "p"); ("ZIP", "00123")] in
  let defaults := [("db", JObj [("main", JObj [("host", JStr "localhost")])]); ("api", JObj [("key", JStr "k")])] in
  let start := dict_set "environment" (JStr "test") defaults in
  let run := load_config environ defaults [] (World () [] 0) in
  ∃ config ignored, run.2 = Ok config
    ∧ laid_over [] environ start config ignored ∧ notes ignored (w_log run.1)
    ∧ get_path ["db"; "main"; "port"] (JObj config) = Some (JInt 5433)
    ∧ get_path ["db"; "main"; "host"] (JObj config) = Some (JStr "localhost")
    ∧ get_path ["api"] (JObj config) = get_path ["api"] (JObj start)
    ∧ get_path ["zip"] (JObj config) = None.
Proof.
  intros environ defaults start run.
  destruct (config_loaded [] environ defaults (World () [] 0)) as (w' & config & ignored & lines & E & Hl & [Hw Hn] & Hrest & _).
  exists config, ignored. unfold run. rewrite E. split; [done|]. split; [exact Hl|]. split; [cbn [fst]; rewrite Hw; exact Hn|].
  pose proof (Hrest ["db"; "main"; "host"]) as Hhost. split; [vm_compute in E; injection E as <- <-; reflexivity|].
  split; [apply Hhost; repeat constructor|]. split; [vm_compute in E; injection E as <- <-; reflexivity|].
  vm_compute in E. injection E as <- <-. reflexivity.
Defined.
