(* ===== verification/Services.v ===== *)
(** * Services of a project and the bridge's start

    [pybridge.py], [bridge/web_app.py] and [bridge/_service.py]: where a
    service's modules are looked for, which services the bridge knows, when
    the configured backends cannot run it, and the life of a worker process.
    The import system is a parameter: what importing a name gives, and
    whether a name can be found without running it. Sockets, forks, signals
    and threads are not modelled. *)

From Stdlib Require Import ZArith Lia.
From S2P Require Import Prelude PyStr Json MigService Config.

(** ** Looking for modules *)

(** What importing a module gives: the module, a [ModuleNotFoundError] with
    the name that is missing, or whatever else its code raises. *)
Inductive imported (M : Type) := Found (m : M) | NotFound (name : option string) | Broken (e : exn).
Arguments Found {M} _.
Arguments NotFound {M} _.
Arguments Broken {M} _.

Definition _ENTRY_MODULES : list string := ["_service"; "_service_args"; "_service_pybridge"].

Section resolve.
Context {M : Type} (import_module : string → imported M) (_module_exists : string → bool).

Definition module_not_found (name : string) : exn := raise_exn ImportError ("No module named '" +:+ name +:+ "'").

(** [None] when only the module, or a package it is in, is missing. *)
Definition _import_or_none (module_name : string) : res (option M) :=
  match import_module module_name with
  | Found m => Ok (Some m)
  | NotFound (Some name) =>
      if String.eqb name module_name || startswith (name +:+ ".") module_name then Ok None else Err (module_not_found name)
  | NotFound None => Err (module_not_found "?")
  | Broken e => Err e
  end.

Definition project (service_name : string) : string := "services." +:+ service_name.
Definition built_in (service_name : string) : string := "py_app_runner." +:+ service_name.

(** Whether the project has a package of that name with an entry module. *)
Definition owned (service_name : string) : bool := existsb (λ entry, _module_exists (project service_name +:+ "." +:+ entry)) _ENTRY_MODULES.

(** [None] is [False]. *)
Definition _resolve (service_name module : string) : res (option M) :=
  found ← _import_or_none (project service_name +:+ "." +:+ module);
  match found with
  | Some m => Ok (Some m)
  | None => if owned service_name then Ok None else _import_or_none (built_in service_name +:+ "." +:+ module)
  end.

Definition load_service_args (service_name : string) : res (option M) := _resolve service_name "_service_args".
Definition load_service_runner (service_name : string) : res (option M) := _resolve service_name "_service".
Definition load_service_pybridge (service_name : string) : res (option M) := _resolve service_name "_service_pybridge".

Definition load_service (service_name : string) : res M :=
  service ← _resolve service_name "_service";
  match service with
  | Some m => Ok m
  | None =>
      match import_module (project service_name) with
      | Found m => Ok m
      | NotFound name => Err (module_not_found (default "?" name))
      | Broken e => Err e
      end
  end.

(** A built-in module is only ever used when the project has no entry module
    of that name and importing the project's own fails for no reason but its
    absence; an error inside a project's module surfaces. *)
Lemma resolve_owner service_name module : 
  match import_module (project service_name +:+ "." +:+ module) with
  | Found m => _resolve service_name module = Ok (Some m)
  | Broken e => _resolve service_name module = Err e
  | NotFound _ =>
      ∀ m, _resolve service_name module = Ok (Some m) →
        owned service_name = false ∧ import_module (built_in service_name +:+ "." +:+ module) = Found m
  end.
Proof.
  unfold _resolve. destruct (import_module (project service_name +:+ "." +:+ module)) as [m|name|e] eqn:E.
  - unfold _import_or_none at 2. by rewrite E.
  - intros m. unfold _import_or_none at 2. rewrite E. destruct name as [name|]; [|done]. destruct (_ || _); [|done]. cbn [mbind res_bind].
    destruct (owned service_name); [done|]. unfold _import_or_none. cbv zeta.
    generalize (built_in service_name +:+ "." +:+ module). intros target. destruct (import_module target) as [x|[name'|]|e]; [by intros [= ->]|destruct (String.eqb _ _ || _); discriminate|discriminate|discriminate].
  - unfold _import_or_none at 2. by rewrite E.
Qed.
End resolve.

(** ** The services of the bridge *)
Section registry.
Context {M : Type}.

Definition services_placeholder : Type := list (string * M).
Definition cache_service (service_name : string) (service : M) (d : services_placeholder) : services_placeholder := dict_set service_name service d.
Definition register_alias (name : string) (handler : M) (d : services_placeholder) : services_placeholder := dict_set name handler d.
Definition get_service (service_name : string) (d : services_placeholder) : option M := dict_get service_name d.

(** A service as the bridge loads it: the name it gives itself, and the
    further routes. *)
Record endpoint := Endpoint { ep_service : M; ep_name : option string; ep_routes : list (string * M) }.

Fixpoint load_endpoints (load : string → res (option endpoint)) (names : list string) (d : services_placeholder) : res services_placeholder :=
  match names with
  | [] => Ok d
  | name :: names =>
      found ← load name;
      match found with
      | None => load_endpoints load names d
      | Some ep =>
          let d := cache_service (default name (ep_name ep)) (ep_service ep) d in
          load_endpoints load names (foldl (λ d r, cache_service r.1 r.2 d) d (ep_routes ep))
      end
  end.
End registry.

(** ** The configured backends *)
Definition redis_configured (redis_hostname : option string) : bool :=
  match redis_hostname with Some s => negb (String.eqb s "") | None => false end.

Definition backend_config_error (main : db_entry) (redis_hostname : option string) (api_key_use_db websockets : bool) : option string :=
  match db_driver main with
  | Err e => Some (sq "config['db']['main']: " +:+ exn_msg e)
  | Ok driver =>
      if websockets && negb (redis_configured redis_hostname) then
        Some ("The bridge has WebSocket routes, which relay messages through Redis, but " +:+ sq "config['db']['redis'] has no hostname.")
      else if String.eqb driver SQLITE && api_key_use_db then
        Some "api_key_use_db needs Postgres: the api_keys table uses text[] and cidr[] columns."
      else None
  end.

Definition max_body_size (settings : list (string * json)) : json :=
  match dict_get "max_body_size" settings with
  | Some v => if truthy v then v else JInt (10 * 1024 * 1024)
  | None => JInt (10 * 1024 * 1024)
  end.

(** The settings of the application: the project's own with the handlers of
    its routes, and a default for each that is missing. *)
Definition setdefault (key : string) (value : json) (d : list (string * json)) : list (string * json) :=
  match dict_get key d with Some _ => d | None => dict_set key value d end.

Definition application_settings (handlers : json) (config app_settings : list (string * json)) : list (string * json) :=
  let kwargs := foldl (λ d kv, dict_set kv.1 kv.2 d) [("autoreload", JBool false); ("xheaders", JBool true)] app_settings in
  setdefault "websocket_ping_timeout" (JInt 30) (setdefault "websocket_ping_interval" (JInt 30)
    (setdefault "debug" (JBool (is_env_dev config)) (dict_set "handlers" handlers kwargs))).

(** A setting the project gives is kept, but for the handlers. *)
Lemma settings_kept handlers config app_settings key v : NoDup app_settings.*1 → key ≠ "handlers" → dict_get key app_settings = Some v →
  dict_get key (application_settings handlers config app_settings) = Some v.
Proof.
  intros Hnd Hh Hg. assert (Hd : ∀ k value d, dict_get key d = Some v → dict_get key (setdefault k value d) = Some v).
  { intros k value d E. unfold setdefault. destruct (dict_get k d) eqn:Ek; [done|]. rewrite dict_get_set. case_decide; [congruence|done]. }
  unfold application_settings. do 3 apply Hd. clear Hd. rewrite dict_get_set, decide_False by congruence. generalize ([("autoreload", JBool false); ("xheaders", JBool true)] : list (string * json)).
  assert (Hrest : ∀ l d, dict_get key d = Some v → key ∉ l.*1 → dict_get key (foldl (λ d (kv : string * json), dict_set kv.1 kv.2 d) d l) = Some v).
  { induction l as [|[k u] l IH]; intros d Hd Hn; [done|]. cbn [foldl fst snd]. cbn in Hn. apply not_elem_of_cons in Hn as [Hn1 Hn2].
    apply IH; [|done]. by rewrite dict_get_set, decide_False by congruence. }
  induction app_settings as [|[k u] l IH]; intros d; [done|]. cbn [foldl fst snd]. apply NoDup_cons in Hnd as [Hnew Hnd]. cbn [dict_get] in Hg.
  case_decide as Hk; [|by apply IH]. injection Hg as ->. subst k. apply Hrest; [by rewrite dict_get_set, decide_True|done].
Qed.

(** ** A worker process *)
Section worker.
Context {S : Type} (open_main close_main : prog S ()) (redis_pool : option (prog S ())).
Context (start_manager stop_manager : prog S ()) (start_server : prog S ()).

(** [child_process_initializer]: [redis_pool] closes the pool there is. *)
Definition child_process_initializer (websockets : bool) : prog S () :=
  _ ← open_main;
  _ ← (if websockets then start_manager else mret ());
  try_finally start_server
    (_ ← (if websockets then stop_manager else mret ());
     _ ← (match redis_pool with Some close => close | None => mret () end);
     close_main).

(** However serving ends, what was opened is closed, as long as closing one
    thing does not fail. *)
Lemma child_closes (websockets : bool) w w1 w2 w3 w4 w5 r :
  open_main w = (w1, Ok ()) → (if websockets then start_manager else mret ()) w1 = (w2, Ok ()) → start_server w2 = (w3, r) →
  (if websockets then stop_manager else mret ()) w3 = (w4, Ok ()) → (match redis_pool with Some close => close | None => mret () end) w4 = (w5, Ok ()) →
  child_process_initializer websockets w
  = match close_main w5 with (w6, Ok _) => (w6, r) | (w6, Err e) => (w6, Err e) end.
Proof.
  intros E1 E2 E3 E4 E5. unfold child_process_initializer. erewrite bind_ok by exact E1. erewrite bind_ok by exact E2.
  unfold try_finally. rewrite E3. erewrite bind_ok by exact E4. erewrite bind_ok by exact E5. by destruct (close_main w5) as [w6 [[]|]].
Qed.
End worker.
