(* ===== verification/Timer.v ===== *)
(** * Timers

    [timer.py]: nested timers, the one around paused while one of another name
    runs. A reading of the clock and its arithmetic are those of a type [T]
    (the source's floats). The tables and CSV texts of the totals are not
    modelled. *)

From Stdlib Require Import ZArith Lia Relations.
From S2P Require Import Prelude PyStr Json.

Class Duration (T : Type) := { t_zero : T; t_add : T → T → T; t_sub : T → T → T; perf_counter : Z → T }.

Section timer.
Context {T : Type} `{Duration T}.

(** [TimerProperties]: the runtimes by run. *)
Record TimerProperties := MkProperties { tp_level : Z; tp_total : T; tp_runtimes : list (Z * T) }.

(** [timers] grows at its end. *)
Record Timer := MkTimer {
  start_times : list (string * T); total_times : list (string * TimerProperties); timers : list (Z * string); level : Z; run_index : Z
}.

Definition new_timer : Timer := MkTimer [] [] [] 0 0.

Definition add_level (n : Z) (t : Timer) : Timer := MkTimer (start_times t) (total_times t) (timers t) (level t + n) (run_index t).
Definition with_start (name : string) (now : T) (t : Timer) : Timer :=
  MkTimer (dict_set name now (start_times t)) (total_times t) (timers t) (level t) (run_index t).
Definition with_timers (l : list (Z * string)) (t : Timer) : Timer := MkTimer (start_times t) (total_times t) l (level t) (run_index t).

(** The elapsed time of a name that was started, on top of its total and for
    the run there is. *)
Definition add_elapsed (name : string) (elapsed : T) (t : Timer) : Timer :=
  let p := match dict_get name (total_times t) with Some p => p | None => MkProperties (level t) t_zero [] end in
  let p := MkProperties (tp_level p) (t_add (tp_total p) elapsed) (dict_set (run_index t) elapsed (tp_runtimes p)) in
  MkTimer (start_times t) (dict_set name p (total_times t)) (timers t) (level t) (run_index t).

Definition now_counter : prog Timer T := t ← now_utc; mret (perf_counter t).
Definition change (f : Timer → Timer) : prog Timer () := stmt (λ t, (f t, ())).

(** [stop], up to taking the timer off; whether the name had been started. *)
Definition stop_elapsed (name : string) : prog Timer bool :=
  end_time ← now_counter;
  t ← get_st;
  match dict_get name (start_times t) with
  | None => _ ← out ("Timer " +:+ name +:+ " stopped before it was started"); mret false
  | Some start => _ ← change (add_elapsed name (t_sub end_time start)); mret true
  end.

(** The timer on top, when it is another one on another level. *)
Definition other_on_top (name : string) (t : Timer) : option string :=
  match last (timers t) with
  | Some (l, prev) => if String.eqb prev name || (l =? level t) then None else Some prev
  | None => None
  end.

Definition start (name : string) (skip_append : bool) : prog Timer () :=
  t ← get_st;
  _ ← (match other_on_top name t with Some prev => _ ← stop_elapsed prev; mret () | None => mret () end);
  now ← now_counter;
  _ ← change (with_start name now);
  if skip_append then mret () else change (λ t, with_timers (timers t ++ [(level t, name)]) t).

(** Going on with a timer starts it without another entry, and the top being
    itself nothing is stopped. *)
Definition stop (name : string) : prog Timer () :=
  started ← stop_elapsed name;
  if negb started then mret ()
  else
    t ← get_st;
    match timers t with
    | [] => raise (raise_exn IndexError "pop from empty list")
    | l =>
        _ ← change (with_timers (removelast l));
        t ← get_st;
        match other_on_top name t with Some prev => start prev true | None => mret () end
    end.

Definition reset_timers : prog Timer () := change (λ t, MkTimer [] [] (timers t) (level t) (run_index t)).

(** [with timer.enter(name): body], and the same around a coroutine; the body
    works on a store that holds the timer. *)
Definition enter {S A} (on : ∀ B, prog Timer B → prog S B) (name : string) (body : prog S A) : prog S A :=
  _ ← on _ (_ ← change (add_level 1); start name false);
  try_finally body (on _ (_ ← stop name; change (add_level (-1)))).

(** [total_time] *)
Definition total_time (totals : list (string * TimerProperties)) : T := foldl (λ s kv, t_add s (tp_total kv.2)) t_zero totals.
End timer.
Arguments TimerProperties T : clear implicits.
Arguments Timer T : clear implicits.

(** ** What a timer promises *)
Section facts.
Context {T : Type} `{Duration T}.
Implicit Types (w : world (Timer T)).

(** What a block of code leaves as it was: the stack and the level; what was
    started stays started. *)
Definition balanced (t t' : Timer T) : Prop :=
  timers t' = timers t ∧ level t' = level t ∧ ∀ name, is_Some (dict_get name (start_times t)) → is_Some (dict_get name (start_times t')).

#[export] Instance balanced_preorder : PreOrder balanced.
Proof. split; [by intros t|]. intros x y z (H1 & H2 & H3) (H4 & H5 & H6). split_and!; [congruence..|naive_solver]. Qed.

Lemma stop_elapsed_run name w : ∃ w' b, stop_elapsed name w = (w', Ok b)
  ∧ timers (w_st w') = timers (w_st w) ∧ level (w_st w') = level (w_st w) ∧ start_times (w_st w') = start_times (w_st w)
  ∧ b = match dict_get name (start_times (w_st w)) with Some _ => true | None => false end.
Proof. unfold stop_elapsed, now_counter, change. run_prog. destruct (dict_get name _); eexists _, _; split; done. Qed.

Lemma start_run name skip w : ∃ w', start name skip w = (w', Ok ())
  ∧ timers (w_st w') = timers (w_st w) ++ (if skip then [] else [(level (w_st w), name)]) ∧ level (w_st w') = level (w_st w)
  ∧ ∀ k, is_Some (dict_get k (start_times (w_st w'))) ↔ k = name ∨ is_Some (dict_get k (start_times (w_st w))).
Proof.
  unfold start. erewrite bind_ok by done.
  assert (Hpause : ∃ w1, (match other_on_top name (w_st w) with Some prev => _ ← stop_elapsed prev; mret () | None => mret () end) w = (w1, Ok ())
    ∧ timers (w_st w1) = timers (w_st w) ∧ level (w_st w1) = level (w_st w) ∧ start_times (w_st w1) = start_times (w_st w)).
  { destruct (other_on_top name (w_st w)) as [prev|]; [|by exists w]. destruct (stop_elapsed_run prev w) as (w1 & b & E & ? & ? & ? & _).
    exists w1. by erewrite bind_ok by exact E. }
  destruct Hpause as (w1 & E & Ht & Hl & Hs). erewrite bind_ok by exact E. unfold now_counter, change. run_prog.
  destruct skip; (eexists; split; [done|]); cbn; rewrite ?Ht, ?Hl, ?app_nil_r; (split; [done|]; split; [done|]);
    intros k; rewrite Hs, dict_get_set; case_decide; split; try naive_solver; intros; subst; naive_solver.
Qed.

(** Stopping what is on top of the stack takes it off. *)
Lemma stop_run name l before w : timers (w_st w) = before ++ [(l, name)] → is_Some (dict_get name (start_times (w_st w))) →
  ∃ w', stop name w = (w', Ok ()) ∧ timers (w_st w') = before ∧ level (w_st w') = level (w_st w)
      ∧ ∀ k, is_Some (dict_get k (start_times (w_st w))) → is_Some (dict_get k (start_times (w_st w'))).
Proof.
  intros Ht [s Hs]. unfold stop. destruct (stop_elapsed_run name w) as (w1 & b & E & Ht1 & Hl1 & Hs1 & ->). rewrite Hs in E.
  erewrite bind_ok by exact E. cbn [negb]. erewrite bind_ok by done. rewrite Ht1, Ht.
  assert (Hne : ∃ x l', before ++ [(l, name)] = x :: l') by (destruct before; by eexists _, _). destruct Hne as (x & l' & Hne).
  rewrite Hne. rewrite <- Hne. rewrite removelast_last. erewrite bind_ok by done. erewrite bind_ok by done. cbn [w_st].
  match goal with |- context[other_on_top name ?t] => destruct (other_on_top name t) as [prev|] end.
  - match goal with |- context[start prev true ?v] => destruct (start_run prev true v) as (w2 & E2 & Ht2 & Hl2 & Hs2) end.
    exists w2. split; [done|]. cbn in Ht2, Hl2, Hs2. rewrite app_nil_r in Ht2. split; [done|]. split; [congruence|].
    intros k Hk. apply Hs2. right. by rewrite Hs1.
  - eexists. split; [done|]. cbn. split; [done|]. split; [congruence|]. intros k. by rewrite Hs1.
Qed.

(** A timed block leaves the timer as it found it and ends as its body ends,
    as long as the body leaves the timer as it found it. *)
Lemma enter_balanced {S A} (get : S → Timer T) (put : Timer T → S → S) name (body : prog S A) (w : world S) :
  (∀ t s, get (put t s) = t) → (∀ v, balanced (get (w_st v)) (get (w_st (body v).1))) →
  let entered := (zoom get put (_ ← change (add_level 1); start name false) w).1 in
  balanced (get (w_st w)) (get (w_st (enter (λ B, zoom get put) name body w).1))
  ∧ (enter (λ B, zoom get put) name body w).2 = (body entered).2.
Proof.
  intros Hput Hbody entered.
  set (t1 := add_level 1 (get (w_st w))).
  destruct (start_run name false (World t1 (w_log w) (w_clock w))) as (w1 & E1 & Ht1 & Hl1 & Hs1).
  assert (Hin : zoom get put (_ ← change (add_level 1); start name false) w = (World (put (w_st w1) (w_st w)) (w_log w1) (w_clock w1), Ok ())).
  { unfold zoom. erewrite bind_ok by done. cbn [w_st w_log w_clock]. fold t1. by rewrite E1. }
  unfold enter. erewrite bind_ok by exact Hin. unfold entered. rewrite Hin. cbn [fst]. clear entered Hin.
  set (v := World (put (w_st w1) (w_st w)) (w_log w1) (w_clock w1)). destruct (Hbody v) as (Ht2 & Hl2 & Hs2).
  unfold try_finally. destruct (body v) as [w2 r]. cbn [fst] in *. cbn [v w_st] in Ht2, Hl2, Hs2. rewrite Hput in Ht2, Hl2, Hs2.
  unfold zoom. destruct (stop_run name (level t1) (timers t1) (World (get (w_st w2)) (w_log w2) (w_clock w2))) as (w3 & E3 & Ht3 & Hl3 & Hs3).
  { cbn [w_st]. by rewrite Ht2, Ht1. }
  { cbn [w_st]. apply Hs2, Hs1. by left. }
  erewrite bind_ok by exact E3. cbn. split; [|done]. rewrite Hput. split_and!.
  - cbn. by rewrite Ht3.
  - cbn. rewrite Hl3. cbn [w_st] in Hl3 |- *. rewrite Hl2, Hl1. cbn. lia.
  - intros k Hk. cbn. apply Hs3. cbn [w_st]. apply Hs2, Hs1. by right.
Qed.
End facts.

(** Whole seconds. *)
#[local] Instance Z_duration : Duration Z := {| t_zero := 0; t_add := Z.add; t_sub := Z.sub; perf_counter := λ t, t |}.

Definition sleep (n : Z) : prog (Timer Z) () := λ w, (World (w_st w) (w_log w) (w_clock w + n), Ok ()).
Abbreviation timed := (enter (T := Z) (λ B, zoom (λ t, t) (λ t _, t))).

(** The one around is paused, and its last run since is all its [runtimes]
    keep, although the total counts both. *)
Example paused_runtimes :
  let t := w_st (timed "outer" (_ ← sleep 5; _ ← timed "inner" (sleep 7); sleep 1) (World new_timer [] 0)).1 in
  (λ kv, (kv.1, tp_total kv.2, tp_runtimes kv.2)) <$> total_times t = [("outer", 6, [(0, 1)]); ("inner", 7, [(0, 7)])] ∧ timers t = [].
Proof. by vm_compute. Qed.

(** Resetting within a timed block leaves its entry on the stack for good. *)
Example reset_within :
  timers (w_st (timed "outer" reset_timers (World new_timer [] 0)).1) = [(1, "outer")].
Proof. by vm_compute. Qed.

(** A name within itself is counted twice over. *)
Example same_name : 
  let t := w_st (timed "a" (_ ← sleep 5; _ ← timed "a" (sleep 7); sleep 1) (World new_timer [] 0)).1 in
  (λ kv, (kv.1, tp_total kv.2)) <$> total_times t = [("a", 15)].
Proof. by vm_compute. Qed.
