(* ===== verification/Tick.v ===== *)
(** * The tick service

    [tick_service.py]: callbacks run at an interval until a shutdown is asked
    for. A callback is a program on the service's own state with whatever
    else it works on; what other tasks do while the loop sleeps
    ([elsewhere], which may raise the cancellation that the sleep catches) is
    a parameter, and so are the log lines' times and the random jitter.
    Signal handlers, and waiting for the loop from another thread, are not
    modelled. *)

From Stdlib Require Import ZArith Lia Relations.
From S2P Require Import Prelude PyStr Json Timer.

Section service.
Context {T X : Type} `{Duration T} (t_mul t_min : T → T → T) (format_time : T → string).

(** A callback is named by its place in [tasks]. *)
Record service := Service {
  default_tick_interval : T; tick_interval : T; tick_count : Z; tick_time : T;
  callbacks : list nat; shut_down_callback : option nat; back_off_callback : option nat;
  shutdown_event : bool; back_off_mode : bool; back_off_count : Z; sv_timer : Timer T; sv_rest : X
}.

Definition new_service (interval : T) (callback shut_down back_off : option nat) (rest : X) : service :=
  Service interval interval 0 t_zero (match callback with Some c => [c] | None => [] end) shut_down back_off
    false false 0 new_timer rest.

Definition with_interval (i : T) (s : service) : service :=
  Service (default_tick_interval s) i (tick_count s) (tick_time s) (callbacks s) (shut_down_callback s) (back_off_callback s)
    (shutdown_event s) (back_off_mode s) (back_off_count s) (sv_timer s) (sv_rest s).
Definition with_callbacks (l : list nat) (down : option nat) (event : bool) (s : service) : service :=
  Service (default_tick_interval s) (tick_interval s) (tick_count s) (tick_time s) l down (back_off_callback s)
    event (back_off_mode s) (back_off_count s) (sv_timer s) (sv_rest s).
Definition with_backoff (mode : bool) (n : Z) (s : service) : service :=
  Service (default_tick_interval s) (tick_interval s) (tick_count s) (tick_time s) (callbacks s) (shut_down_callback s) (back_off_callback s)
    (shutdown_event s) mode n (sv_timer s) (sv_rest s).
Definition with_timer (t : Timer T) (s : service) : service :=
  Service (default_tick_interval s) (tick_interval s) (tick_count s) (tick_time s) (callbacks s) (shut_down_callback s) (back_off_callback s)
    (shutdown_event s) (back_off_mode s) (back_off_count s) t (sv_rest s).
Definition next_tick (s : service) : service :=
  Service (default_tick_interval s) (tick_interval s) (tick_count s + 1) (t_add (tick_time s) (tick_interval s)) (callbacks s)
    (shut_down_callback s) (back_off_callback s) (shutdown_event s) (back_off_mode s) (back_off_count s) (sv_timer s) (sv_rest s).

Definition alter (f : service → service) : prog service () := stmt (λ s, (f s, ())).
Definition on_timer {B} (m : prog (Timer T) B) : prog service B := zoom sv_timer with_timer m.

Definition add_callback (c : nat) : prog service () := alter (λ s, with_callbacks (callbacks s ++ [c]) (shut_down_callback s) (shutdown_event s) s).
Definition set_interval (i : T) : prog service () := alter (with_interval i).
Definition increase_interval_by (amount : T) : prog service () := alter (λ s, with_interval (t_add (tick_interval s) amount) s).
Definition increase_interval_exp (factor max_interval jitter : T) : prog service () :=
  alter (λ s, with_interval (t_mul (t_min (t_mul (tick_interval s) factor) max_interval) jitter) s).
Definition reset_interval : prog service () := alter (λ s, with_interval (default_tick_interval s) s).
Definition set_backoff (start : bool) : prog service () := alter (with_backoff start 0).

Context (tasks : nat → Z → T → prog service ()) (down : nat → prog service ()) (elsewhere : prog service ()).

Definition cancelled (e : exn) : bool := is_class CancelledError e.

(** [await asyncio.sleep(...)] with its cancellation caught. *)
Definition sleep_caught : prog service () := try_except elsewhere cancelled (λ _, mret ()).

(** [ShutdownRequestedException] is an exception of the service's own. *)
Definition need_to_shutdown (with_exception : bool) : prog service bool :=
  _ ← sleep_caught;
  s ← get_st;
  if with_exception && shutdown_event s then raise (raise_exn OtherException "Shutdown requested")
  else mret (shutdown_event s).

(** The callbacks from the [i]-th on: the list is read as it is by then.
    [shutdown] puts an empty one in its place, but sets the event before.
    [None] when there are more than [fuel]. *)
Fixpoint run_callbacks (fuel i : nat) : prog service (option ()) :=
  match fuel with
  | O => mret None
  | S fuel =>
      s ← get_st;
      match callbacks s !! i with
      | None => mret (Some ())
      | Some c =>
          _ ← tasks c (tick_count s) (tick_time s);
          stop ← need_to_shutdown false;
          if (stop : bool) then mret (Some ()) else run_callbacks fuel (S i)
      end
  end.

Definition tick (fuel : nat) : prog service (option ()) :=
  _ ← alter next_tick;
  s ← get_st;
  if back_off_mode s then
    _ ← alter (with_backoff true (back_off_count s + 1));
    match back_off_callback s with
    | Some c => _ ← tasks c (back_off_count s + 1) (tick_time s); mret (Some ())
    | None => mret (Some ())
    end
  else run_callbacks fuel 0.

Definition turn_over : prog service () :=
  on_timer (_ ← reset_timers; change (λ t, MkTimer (start_times t) (total_times t) (timers t) (level t) (run_index t + 1))).

(** [run_loop]; [None] when it is still running, after [fuel] turns or in one
    of more than [calls] callbacks. *)
Fixpoint run_loop (calls fuel : nat) : prog service (option ()) :=
  match fuel with
  | O => mret None
  | S fuel =>
      s ← get_st;
      if shutdown_event s then mret (Some ())
      else
        ticked ← enter (@on_timer) "TickService.tick" (tick calls);
        match ticked with
        | None => mret None
        | Some _ =>
            _ ← turn_over;
            s ← get_st;
            _ ← (if shutdown_event s then mret () else sleep_caught);
            run_loop calls fuel
        end
  end.

(** [shutdown]: the event first, then the callback, whose exception is
    logged, then the other tasks' end. *)
Definition shutdown : prog service () :=
  _ ← alter (λ s, with_callbacks (callbacks s) (shut_down_callback s) true s);
  s ← get_st;
  _ ← (match shut_down_callback s with
       | Some c => try_except (down c) is_exception (λ e, out (exn_msg e))
       | None => mret ()
       end);
  _ ← elsewhere;
  alter (with_callbacks [] None true).

(** ** What the loop promises *)

(** A clean timer: nothing started, nothing counted. *)
Definition clean (t : Timer T) : Prop := timers t = [] ∧ level t = 0 ∧ start_times t = [] ∧ total_times t = [].

Definition keeps_timer {B} (m : prog service B) : Prop := ∀ w, balanced (sv_timer (w_st w)) (sv_timer (w_st (m w).1)).

Lemma keeps_bind {B C} (m : prog service B) (k : B → prog service C) : keeps_timer m → (∀ b, keeps_timer (k b)) → keeps_timer (m ≫= k).
Proof.
  intros Hm Hk w. unfold mbind, prog_bind. specialize (Hm w). destruct (m w) as [w1 [b|e]]; [|done]. etrans; [exact Hm|]. apply Hk.
Qed.

Lemma keeps_ret {B} (b : B) : keeps_timer (mret b).
Proof. intros w. done. Qed.

Lemma keeps_get : keeps_timer get_st.
Proof. intros w. done. Qed.

Lemma keeps_alter f : (∀ s, sv_timer (f s) = sv_timer s) → keeps_timer (alter f).
Proof. intros Hf w. unfold alter. cbn. by rewrite Hf. Qed.

Context (Htasks : ∀ c n t, keeps_timer (tasks c n t)) (Helse : keeps_timer elsewhere).

Lemma keeps_sleep : keeps_timer sleep_caught.
Proof.
  intros w. unfold sleep_caught, try_except. specialize (Helse w). destruct (elsewhere w) as [w1 [[]|e]]; [done|]. by destruct (cancelled e).
Qed.

Lemma keeps_callbacks fuel : ∀ i, keeps_timer (run_callbacks fuel i).
Proof.
  induction fuel as [|fuel IH]; intros i; cbn [run_callbacks]; [apply keeps_ret|]. apply keeps_bind; [apply keeps_get|]. intros s.
  destruct (callbacks s !! i) as [c|]; [|apply keeps_ret]. apply keeps_bind; [apply Htasks|]. intros _. apply keeps_bind.
  - apply keeps_bind; [apply keeps_sleep|]. intros _. apply keeps_bind; [apply keeps_get|]. intros s'. apply keeps_ret.
  - intros []; [apply keeps_ret|apply IH].
Qed.

Lemma keeps_tick fuel : keeps_timer (tick fuel).
Proof.
  apply keeps_bind; [by apply keeps_alter|]. intros _. apply keeps_bind; [apply keeps_get|]. intros s. destruct (back_off_mode s).
  - apply keeps_bind; [by apply keeps_alter|]. intros _. destruct (back_off_callback s); [|apply keeps_ret].
    apply keeps_bind; [apply Htasks|]. intros _. apply keeps_ret.
  - apply keeps_callbacks.
Qed.

(** Each turn of the loop ends with a clean timer, so however long it runs
    nothing piles up in it; and the loop goes on until the event is set or a
    callback raises. *)
Lemma run_loop_clean calls fuel : ∀ w, clean (sv_timer (w_st w)) →
  (∀ v, clean (sv_timer (w_st v)) → clean (sv_timer (w_st (sleep_caught v).1))) →
  match run_loop calls fuel w with
  | (w', Ok (Some _)) => shutdown_event (w_st w') = true ∧ clean (sv_timer (w_st w'))
  | (w', _) => timers (sv_timer (w_st w')) = [] ∧ level (sv_timer (w_st w')) = 0
  end.
Proof.
  induction fuel as [|fuel IH]; intros w Hc Hquiet; [by destruct Hc as (? & ? & _)|]. cbn [run_loop]. erewrite bind_ok by done.
  destruct (shutdown_event (w_st w)) eqn:Hs; [done|].
  pose proof (enter_balanced sv_timer with_timer "TickService.tick" (tick calls) w (λ _ _, eq_refl) (keeps_tick calls)) as [Hb _].
  change (enter (λ B, zoom sv_timer with_timer)) with (enter (S := service) (A := option ()) (@on_timer)) in Hb.
  destruct Hc as (Ht0 & Hl0 & _).
  destruct (enter (@on_timer) "TickService.tick" (tick calls) w) as [w1 [ticked|e]] eqn:E1; cbn [fst] in Hb; destruct Hb as (Ht & Hl & _).
  2: { erewrite bind_err by exact E1. by rewrite Ht, Hl. }
  erewrite bind_ok by exact E1. destruct ticked as [[]|]; [|by cbn; rewrite Ht, Hl].
  set (w2 := (turn_over w1).1). assert (Hc2 : clean (sv_timer (w_st w2))) by (split_and!; [exact (eq_trans Ht Ht0)|exact (eq_trans Hl Hl0)|reflexivity|reflexivity]).
  rewrite (bind_ok turn_over _ w1 w2 ()) by done. erewrite bind_ok by done.
  destruct (shutdown_event (w_st w2)); [by apply IH|]. pose proof (Hquiet w2 Hc2) as Hq2.
  destruct (sleep_caught w2) as [w3 [[]|e]] eqn:E3; cbn [fst] in Hq2.
  - erewrite bind_ok by exact E3. by apply IH.
  - erewrite bind_err by exact E3. by destruct Hq2 as (? & ? & _).
Qed.

(** Nothing runs after the callback during which the shutdown was asked for. *)
Lemma callbacks_stop fuel i c w w1 : callbacks (w_st w) !! i = Some c →
  tasks c (tick_count (w_st w)) (tick_time (w_st w)) w = (w1, Ok ()) →
  shutdown_event (w_st (sleep_caught w1).1) = true → run_callbacks (S fuel) i w = (_ ← sleep_caught; mret (Some ())) w1.
Proof.
  intros Hc Ht Hs. cbn [run_callbacks]. erewrite bind_ok by done. rewrite Hc. erewrite bind_ok by exact Ht.
  unfold need_to_shutdown, mbind, prog_bind. destruct (sleep_caught w1) as [w2 [[]|e]]; [|done]. cbn [fst] in Hs. cbn. by rewrite Hs.
Qed.
End service.
